(** * GPU pre-aggregation planning of PG-Strom: a model of src/next/gpu_preagg.c

    The development follows the source file top-down: the static catalog of
    supported aggregate functions, the resolver with its process-wide hash
    table, the expression rewriter, the target-list builder, the cost model
    of the partial path and the entry point that offers the alternative
    paths.  PostgreSQL itself (system caches, node functions, path
    constructors) is outside the repository: the system caches and the
    planner services are taken as parameters, the small node utilities
    ([equal], [exprType], [expression_tree_mutator], ...) are written out
    for the node kinds modelled here.  The lines that [elog(DEBUG2, ...)]
    writes to the server log are not part of the model: of [elog], only the
    non-local exit of [elog(ERROR, ...)] is. *)

From Stdlib Require Import ZArith Ascii String List Bool Lia.
From Stdlib Require Import PrimFloat Uint63 SpecFloat FloatOps FloatAxioms.
From stdpp Require Import gmap strings list fin_maps.

Local Open Scope string_scope.
Local Open Scope Z_scope.

(** ** Outcomes of a C function

    A call either returns, leaves by [elog(ERROR, ...)] (a non-local exit
    that PG_TRY can intercept), stops the process on a failed [Assert] (only
    in a build with assertion checking), or has no defined behaviour (a read
    past the end of an array, a cast to the wrong node type). *)

Inductive outcome (A : Type) : Type :=
| Ret (a : A)
| Elog (msg : string)
| Trap (msg : string)
| Undef.
Arguments Ret {A} a.
Arguments Elog {A} msg.
Arguments Trap {A} msg.
Arguments Undef {A}.

Definition obind {A B : Type} (c : outcome A) (k : A -> outcome B) : outcome B :=
  match c with
  | Ret a => k a
  | Elog msg => Elog msg
  | Trap msg => Trap msg
  | Undef => Undef
  end.

Declare Scope pure_scope.
Delimit Scope pure_scope with pure.
Notation "x <- c ;; k" := (obind c (fun x => k))
  (at level 100, c at next level, right associativity) : pure_scope.

(** ** Arithmetic of C [double]

    [Cost] and row estimates are C doubles.  The code is written once over
    the operations it uses; [float_ops] below is IEEE binary64 with rounding
    to nearest, ties to even, which is what the C program runs on: the
    kernel's primitive doubles, specified by [SpecFloat] through the axioms
    of [FloatAxioms]. *)

Class DoubleOps (D : Type) : Type := {
  dadd : D -> D -> D;
  dsub : D -> D -> D;
  dmul : D -> D -> D;
  d_of_Z : Z -> D;        (* conversion of an int, and integral literals *)
  d_half : D;             (* the literal 0.5 *)
  dleb : D -> D -> bool;  (* <= *)
  deqb : D -> D -> bool   (* == *)
}.

Declare Scope double_scope.
Delimit Scope double_scope with D.
Infix "+" := dadd : double_scope.
Infix "-" := dsub : double_scope.
Infix "*" := dmul : double_scope.

Definition float_of_Z (z : Z) : float :=
  if z <? 0 then PrimFloat.opp (PrimFloat.of_uint63 (Uint63.of_Z (- z)))
  else PrimFloat.of_uint63 (Uint63.of_Z z).

#[export] Instance float_ops : DoubleOps float := {|
  dadd := PrimFloat.add;
  dsub := PrimFloat.sub;
  dmul := PrimFloat.mul;
  d_of_Z := float_of_Z;
  d_half := 0.5%float;
  dleb := PrimFloat.leb;
  deqb := PrimFloat.eqb
|}.

(** ** Object identifiers and the constants of PostgreSQL's catalog headers *)

Definition Oid := N.
Definition InvalidOid : Oid := 0%N.
Definition OidIsValid (o : Oid) : bool := negb (N.eqb o InvalidOid).
Definition BOOLOID : Oid := 16%N.
Definition BYTEAOID : Oid := 17%N.
Definition INT8OID : Oid := 20%N.
Definition INT4OID : Oid := 23%N.
Definition FLOAT8OID : Oid := 701%N.
Definition ANYOID : Oid := 2276%N.
Definition PG_CATALOG_NAMESPACE : Oid := 11%N.

Definition AGGKIND_NORMAL : ascii := "n"%char.
Definition AGGKIND_IS_ORDERED_SET (kind : ascii) : bool :=
  negb (Ascii.eqb kind AGGKIND_NORMAL).
Definition COERCION_METHOD_FUNCTION : ascii := "f"%char.
Definition COERCION_METHOD_BINARY : ascii := "b"%char.

(** Modelled from the spec: the header that numbers the KAGG_ACTION__*
    constants is not part of the sources at hand.  The spec's EncodingAction
    enumeration is closed; [KAGG_ACTION__other] stands for every other value
    an [int] can hold, so that the [default:] branch of the source's switch
    stays reachable. *)
Inductive kagg_action : Type :=
| KAGG_ACTION__VREF
| KAGG_ACTION__NROWS_ANY
| KAGG_ACTION__NROWS_COND
| KAGG_ACTION__PMIN_INT
| KAGG_ACTION__PMIN_FP
| KAGG_ACTION__PMAX_INT
| KAGG_ACTION__PMAX_FP
| KAGG_ACTION__PSUM_INT
| KAGG_ACTION__PSUM_FP
| KAGG_ACTION__PAVG_INT
| KAGG_ACTION__PAVG_FP
| KAGG_ACTION__STDDEV
| KAGG_ACTION__COVAR
| KAGG_ACTION__other (code : Z).

(** ** Expression nodes

    A [Node *] is [option Node] ([NULL] is [None]); a [List *] is a pointer to
    a [T_List] node or [NIL], which is the null pointer.  Only the node kinds
    that reach this file are modelled.  Parse locations are kept only where
    the source copies them. *)

Inductive CoercionForm : Type :=
| COERCE_EXPLICIT_CALL | COERCE_EXPLICIT_CAST | COERCE_IMPLICIT_CAST | COERCE_SQL_SYNTAX.
Inductive BoolExprType : Type := AND_EXPR | OR_EXPR | NOT_EXPR.
Inductive AggSplit : Type :=
| AGGSPLIT_SIMPLE | AGGSPLIT_INITIAL_SERIAL | AGGSPLIT_FINAL_DESERIAL.

Record AggrefOf (N : Type) : Type := mkAggref {
  aggfnoid : Oid;
  aggtype : Oid;
  aggcollid : Oid;
  inputcollid : Oid;
  aggtranstype : Oid;
  aggargtypes : list Oid;
  aggdirectargs : option N;
  args : option N;
  aggorder : option N;
  aggdistinct : option N;
  aggfilter : option N;
  aggstar : bool;
  aggvariadic : bool;
  aggkind : ascii;
  agglevelsup : Z;
  aggsplit : AggSplit;
  aggno : Z;
  aggtransno : Z;
  location : Z
}.
Arguments mkAggref {N}.
Arguments aggfnoid {N}.
Arguments aggtype {N}.
Arguments aggcollid {N}.
Arguments inputcollid {N}.
Arguments aggtranstype {N}.
Arguments aggargtypes {N}.
Arguments aggdirectargs {N}.
Arguments args {N}.
Arguments aggorder {N}.
Arguments aggdistinct {N}.
Arguments aggfilter {N}.
Arguments aggstar {N}.
Arguments aggvariadic {N}.
Arguments aggkind {N}.
Arguments agglevelsup {N}.
Arguments aggsplit {N}.
Arguments aggno {N}.
Arguments aggtransno {N}.
Arguments location {N}.

#[local] Set Warnings "-register-all".
Inductive Node : Type :=
| T_Var (varno varattno : Z) (vartype : Oid) (vartypmod : Z) (varcollid : Oid)
        (varlevelsup : Z)
| T_Const (consttype : Oid) (consttypmod : Z) (constcollid : Oid)
          (constvalue : Z) (constisnull : bool)
| T_PlaceHolderVar (phexpr : option Node) (phid phlevelsup : Z)
| T_FuncExpr (funcid funcresulttype : Oid) (funcretset funcvariadic : bool)
             (funcformat : CoercionForm) (funccollid finputcollid : Oid)
             (fargs : option Node)
| T_OpExpr (opno opfuncid opresulttype : Oid) (opretset : bool)
           (opcollid oinputcollid : Oid) (oargs : option Node)
| T_BoolExpr (boolop : BoolExprType) (bargs : option Node)
| T_RelabelType (arg : option Node) (resulttype : Oid) (resulttypmod : Z)
                (resultcollid : Oid) (relabelformat : CoercionForm)
| T_Aggref (a : AggrefOf Node)
| T_TargetEntry (expr : option Node) (resno : Z) (resname : option string)
                (ressortgroupref : Z) (resjunk : bool)
| T_List (elems : list (option Node)).

Definition Aggref : Type := AggrefOf Node.
#[local] Set Warnings "+register-all".

(** ** Structures of the planner, as far as this file reads or writes them *)

Section DataModel.
Context {D : Type}.

Record QualCost : Type := mkQualCost { startup : D; per_tuple : D }.

(** [sortgrouprefs] is kept as long as [exprs]: PostgreSQL leaves the array
    out while every entry is zero and reads a missing array as zeros. *)
Record PathTarget : Type := mkPathTarget {
  exprs : list Node;
  sortgrouprefs : list Z;
  cost : QualCost;
  width : Z
}.

Record AggClauseCosts : Type := mkAggClauseCosts {
  transCost : QualCost;
  finalCost : QualCost;
  transitionSpace : Z
}.

Record SortGroupClause : Type := mkSortGroupClause {
  tleSortGroupRef : Z;
  eqop : Oid;
  sortop : Oid;
  hashable : bool
}.

Record Query : Type := mkQuery {
  groupClause : list SortGroupClause;
  groupingSets : option Node;
  havingQual : option Node
}.

(** [upper_target_group_agg] is [root->upper_targets[UPPERREL_GROUP_AGG]]. *)
Record PlannerInfo : Type := mkPlannerInfo {
  parse : Query;
  upper_target_group_agg : PathTarget
}.

(** The fields of pgstromPlanInfo this file touches. *)
Record pgstromPlanInfo : Type := mkPlanInfo {
  pp_task_kind : Z;
  final_cost : D;
  kvars_depth : list Z;
  kvars_resno : list Z;
  groupby_keys : list Node;
  groupby_actions : list kagg_action
}.

Inductive NodeTag : Type := T_CustomScan | T_Agg | T_Gather | T_OtherPath (tag : Z).

(** Relations, parameter infos, method tables and inner paths are only
    handed on by this file: they are represented by their identity. *)
Definition RelOptInfo : Type := N.

Record Path : Type := mkPath {
  pathtype : NodeTag;
  parent : RelOptInfo;
  pathtarget : PathTarget;
  param_info : option N;
  parallel_safe : bool;
  parallel_aware : bool;
  parallel_workers : Z;
  rows : D;
  startup_cost : D;
  total_cost : D;
  pathkeys : list N;
  (* CustomPath *)
  custom_paths : list N;
  custom_private : list pgstromPlanInfo;
  methods : option N
}.

Record xpugroupby_build_path_context : Type := mkContext {
  device_executable : bool;
  root : PlannerInfo;
  group_rel : RelOptInfo;
  num_groups : D;
  input_path : Path;
  target_upper : PathTarget;
  target_partial : PathTarget;
  target_final : PathTarget;
  final_clause_costs : AggClauseCosts;
  pp_info : pgstromPlanInfo;
  input_rels_tlist : list N;
  inner_paths_list : list N;
  con_havingQual : option Node;
  task_kind : Z;
  custom_path_methods : option N
}.

(** ** The hashed catalog entry and the state of the backend process *)

Record aggfunc_catalog_entry : Type := mkEntry {
  aggfn_oid : Oid;
  final_func_oid : Oid;
  partial_func_oid : Oid;
  partial_func_rettype : Oid;
  partial_func_nargs : Z;
  partial_func_action : kagg_action;
  numeric_aware : bool;
  is_valid_entry : bool
}.

(** What the code can change and a caller can see afterwards: the static
    hash table (a null pointer until first use and after an invalidation),
    the configuration flag read at every lookup, and the path lists of the
    planner's relations. *)
Record pg_state : Type := mkState {
  aggfunc_catalog_htable : option (gmap Oid aggfunc_catalog_entry);
  pgstrom_enable_numeric_aggfuncs : bool;
  pathlist : gmap RelOptInfo (list Path)
}.

End DataModel.
Arguments QualCost : clear implicits.
Arguments PathTarget : clear implicits.
Arguments AggClauseCosts : clear implicits.
Arguments PlannerInfo : clear implicits.
Arguments pgstromPlanInfo : clear implicits.
Arguments Path : clear implicits.
Arguments xpugroupby_build_path_context : clear implicits.
Arguments pg_state : clear implicits.

(** ** The system caches of PostgreSQL

    The live catalog is read through these lookups only.  [pronargs] is the
    length of [proargtypes], as pg_proc keeps it. *)

Record Form_pg_proc : Type := mkProc {
  proname : string;
  pronamespace : Oid;
  prorettype : Oid;
  proargtypes : list Oid
}.
Definition pronargs (proc : Form_pg_proc) : Z := Z.of_nat (length (proargtypes proc)).

Record Form_pg_aggregate : Type := mkAgg {
  aggtransfn : Oid;
  aggfinalfn : Oid;
  agg_aggtranstype : Oid
}.

Record Form_pg_cast : Type := mkCast {
  castfunc : Oid;
  castmethod : ascii
}.

Record syscache : Type := mkSyscache {
  PROCOID : Oid -> option Form_pg_proc;
  AGGFNOID : Oid -> option Form_pg_aggregate;
  CASTSOURCETARGET : Oid -> Oid -> option Form_pg_cast;
  (* GetSysCacheOid: InvalidOid when there is no such row *)
  TYPENAMENSP : string -> Oid -> Oid;
  PROCNAMEARGSNSP : string -> list Oid -> Oid -> Oid;
  NAMESPACENAME : string -> Oid;
  TYPEOID : Oid -> option string
}.

(** ** List of supported aggregate functions *)

Record aggfunc_catalog_t : Type := mk_cat {
  aggfn_signature : string;
  finalfn_signature : string;
  partfn_signature : string;
  partfn_action : kagg_action;
  cat_numeric_aware : bool
}.

Definition aggfunc_catalog_array : list aggfunc_catalog_t := [
    mk_cat "count()" "s:sum(int8)" "s:nrows()" KAGG_ACTION__NROWS_ANY false;
    mk_cat "count(any)" "s:sum(int8)" "s:nrows(any)" KAGG_ACTION__NROWS_COND false;
    mk_cat "min(int1)" "s:min_i1(bytea)" "s:pmin(int1)" KAGG_ACTION__PMIN_INT false;
    mk_cat "min(int2)" "s:min_i2(bytea)" "s:pmin(int2)" KAGG_ACTION__PMIN_INT false;
    mk_cat "min(int4)" "s:min_i4(bytea)" "s:pmin(int4)" KAGG_ACTION__PMIN_INT false;
    mk_cat "min(int8)" "s:min_i8(bytea)" "s:pmin(int8)" KAGG_ACTION__PMIN_INT false;
    mk_cat "min(float2)" "s:min_f2(bytea)" "s:pmin(float4)" KAGG_ACTION__PMIN_FP false;
    mk_cat "min(float4)" "s:min_f4(bytea)" "s:pmin(float4)" KAGG_ACTION__PMIN_FP false;
    mk_cat "min(float8)" "s:min_f8(bytea)" "s:pmin(float8)" KAGG_ACTION__PMIN_FP false;
    mk_cat "min(numeric)" "s:min_num(bytea)" "s:pmin(float8)" KAGG_ACTION__PMIN_FP true;
    mk_cat "min(money)" "s:min_cash(bytea)" "s:pmin(money)" KAGG_ACTION__PMIN_INT false;
    mk_cat "min(date)" "s:min_date(bytea)" "s:pmin(date)" KAGG_ACTION__PMIN_INT false;
    mk_cat "min(time)" "s:min_time(bytea)" "s:pmin(time)" KAGG_ACTION__PMIN_INT false;
    mk_cat "min(timestamp)" "s:min_ts(bytea)" "s:pmin(timestamp)" KAGG_ACTION__PMIN_INT false;
    mk_cat "min(timestamptz)" "s:min_tstz(bytea)" "s:pmin(timestamptz)" KAGG_ACTION__PMIN_INT false;
    mk_cat "max(int1)" "s:max_i1(bytea)" "s:pmax(int1)" KAGG_ACTION__PMAX_INT false;
    mk_cat "max(int2)" "s:max_i2(bytea)" "s:pmax(int2)" KAGG_ACTION__PMAX_INT false;
    mk_cat "max(int4)" "s:max_i4(bytea)" "s:pmax(int4)" KAGG_ACTION__PMAX_INT false;
    mk_cat "max(int8)" "s:max_i8(bytea)" "s:pmax(int8)" KAGG_ACTION__PMAX_INT false;
    mk_cat "max(float2)" "s:max_f2(bytea)" "s:pmax(float4)" KAGG_ACTION__PMAX_FP false;
    mk_cat "max(float4)" "s:max_f4(bytea)" "s:pmax(float4)" KAGG_ACTION__PMAX_FP false;
    mk_cat "max(float8)" "s:max_f8(bytea)" "s:pmax(float8)" KAGG_ACTION__PMAX_FP false;
    mk_cat "max(numeric)" "s:max_num(bytea)" "s:pmax(float8)" KAGG_ACTION__PMAX_FP true;
    mk_cat "max(money)" "s:max_cash(bytea)" "s:pmax(money)" KAGG_ACTION__PMAX_INT false;
    mk_cat "max(date)" "s:max_date(bytea)" "s:pmax(date)" KAGG_ACTION__PMAX_INT false;
    mk_cat "max(time)" "s:max_time(bytea)" "s:pmax(time)" KAGG_ACTION__PMAX_INT false;
    mk_cat "max(timestamp)" "s:max_ts(bytea)" "s:pmax(timestamp)" KAGG_ACTION__PMAX_INT false;
    mk_cat "max(timestamptz)" "s:max_tstz(bytea)" "s:pmax(timestamptz)" KAGG_ACTION__PMAX_INT false;
    mk_cat "sum(int1)" "s:sum(int8)" "s:psum(int8)" KAGG_ACTION__PSUM_INT false;
    mk_cat "sum(int2)" "s:sum(int8)" "s:psum(int8)" KAGG_ACTION__PSUM_INT false;
    mk_cat "sum(int4)" "s:sum(int8)" "s:psum(int8)" KAGG_ACTION__PSUM_INT false;
    mk_cat "sum(int8)" "c:sum(int8)" "s:psum(int8)" KAGG_ACTION__PSUM_INT false;
    mk_cat "sum(float2)" "c:sum(float8)" "s:psum(float4)" KAGG_ACTION__PSUM_FP false;
    mk_cat "sum(float4)" "s:sum_f4(float8)" "s:psum(float4)" KAGG_ACTION__PSUM_FP false;
    mk_cat "sum(float8)" "c:sum(float8)" "s:psum(float8)" KAGG_ACTION__PSUM_FP false;
    mk_cat "sum(numeric)" "s:sum_num(float8)" "s:psum(float8)" KAGG_ACTION__PSUM_FP true;
    mk_cat "sum(money)" "s:sum_cash(int8)" "s:psum(money)" KAGG_ACTION__PSUM_INT false;
    mk_cat "avg(int1)" "s:avg_int(bytea)" "s:pavg(int8)" KAGG_ACTION__PAVG_INT false;
    mk_cat "avg(int2)" "s:avg_int(bytea)" "s:pavg(int8)" KAGG_ACTION__PAVG_INT false;
    mk_cat "avg(int4)" "s:avg_int(bytea)" "s:pavg(int8)" KAGG_ACTION__PAVG_INT false;
    mk_cat "avg(int8)" "s:avg_int(bytea)" "s:pavg(int8)" KAGG_ACTION__PAVG_INT false;
    mk_cat "avg(float2)" "s:avg_fp(bytea)" "s:pavg(float8)" KAGG_ACTION__PAVG_FP false;
    mk_cat "avg(float4)" "s:avg_fp(bytea)" "s:pavg(float8)" KAGG_ACTION__PAVG_FP false;
    mk_cat "avg(float8)" "s:avg_fp(bytea)" "s:pavg(float8)" KAGG_ACTION__PAVG_FP false;
    mk_cat "avg(numeric)" "s:avg_num(bytea)" "s:pavg(float8)" KAGG_ACTION__PAVG_FP true;
    mk_cat "stddev(int1)" "s:stddev_samp(bytea)" "s:pvariance(float8)" KAGG_ACTION__STDDEV false;
    mk_cat "stddev(int2)" "s:stddev_samp(bytea)" "s:pvariance(float8)" KAGG_ACTION__STDDEV false;
    mk_cat "stddev(int4)" "s:stddev_samp(bytea)" "s:pvariance(float8)" KAGG_ACTION__STDDEV false;
    mk_cat "stddev(int8)" "s:stddev_samp(bytea)" "s:pvariance(float8)" KAGG_ACTION__STDDEV false;
    mk_cat "stddev(float2)" "s:stddev_sampf(bytea)" "s:pvariance(float8)" KAGG_ACTION__STDDEV false;
    mk_cat "stddev(float4)" "s:stddev_sampf(bytea)" "s:pvariance(float8)" KAGG_ACTION__STDDEV false;
    mk_cat "stddev(float8)" "s:stddev_sampf(bytea)" "s:pvariance(float8)" KAGG_ACTION__STDDEV false;
    mk_cat "stddev(numeric)" "s:stddev_samp(bytea)" "s:pvariance(float8)" KAGG_ACTION__STDDEV true;
    mk_cat "stddev_samp(int1)" "s:stddev_samp(bytea)" "s:pvariance(float8)" KAGG_ACTION__STDDEV false;
    mk_cat "stddev_samp(int2)" "s:stddev_samp(bytea)" "s:pvariance(float8)" KAGG_ACTION__STDDEV false;
    mk_cat "stddev_samp(int4)" "s:stddev_samp(bytea)" "s:pvariance(float8)" KAGG_ACTION__STDDEV false;
    mk_cat "stddev_samp(int8)" "s:stddev_samp(bytea)" "s:pvariance(float8)" KAGG_ACTION__STDDEV false;
    mk_cat "stddev_samp(float2)" "s:stddev_sampf(bytea)" "s:pvariance(float8)" KAGG_ACTION__STDDEV false;
    mk_cat "stddev_samp(float4)" "s:stddev_sampf(bytea)" "s:pvariance(float8)" KAGG_ACTION__STDDEV false;
    mk_cat "stddev_samp(float8)" "s:stddev_sampf(bytea)" "s:pvariance(float8)" KAGG_ACTION__STDDEV false;
    mk_cat "stddev_samp(numeric)" "s:stddev_samp(bytea)" "s:pvariance(float8)" KAGG_ACTION__STDDEV true;
    mk_cat "stddev_pop(int1)" "s:stddev_pop(bytea)" "s:pvariance(float8)" KAGG_ACTION__STDDEV false;
    mk_cat "stddev_pop(int2)" "s:stddev_pop(bytea)" "s:pvariance(float8)" KAGG_ACTION__STDDEV false;
    mk_cat "stddev_pop(int4)" "s:stddev_pop(bytea)" "s:pvariance(float8)" KAGG_ACTION__STDDEV false;
    mk_cat "stddev_pop(int8)" "s:stddev_pop(bytea)" "s:pvariance(float8)" KAGG_ACTION__STDDEV false;
    mk_cat "stddev_pop(float2)" "s:stddev_popf(bytea)" "s:pvariance(float8)" KAGG_ACTION__STDDEV false;
    mk_cat "stddev_pop(float4)" "s:stddev_popf(bytea)" "s:pvariance(float8)" KAGG_ACTION__STDDEV false;
    mk_cat "stddev_pop(float8)" "s:stddev_popf(bytea)" "s:pvariance(float8)" KAGG_ACTION__STDDEV false;
    mk_cat "stddev_pop(numeric)" "s:stddev_pop(bytea)" "s:pvariance(float8)" KAGG_ACTION__STDDEV true;
    mk_cat "variance(int1)" "s:var_samp(bytea)" "s:pvariance(float8)" KAGG_ACTION__STDDEV false;
    mk_cat "variance(int2)" "s:var_samp(bytea)" "s:pvariance(float8)" KAGG_ACTION__STDDEV false;
    mk_cat "variance(int4)" "s:var_samp(bytea)" "s:pvariance(float8)" KAGG_ACTION__STDDEV false;
    mk_cat "variance(int8)" "s:var_samp(bytea)" "s:pvariance(float8)" KAGG_ACTION__STDDEV false;
    mk_cat "variance(float2)" "s:var_sampf(bytea)" "s:pvariance(float8)" KAGG_ACTION__STDDEV false;
    mk_cat "variance(float4)" "s:var_sampf(bytea)" "s:pvariance(float8)" KAGG_ACTION__STDDEV false;
    mk_cat "variance(float8)" "s:var_sampf(bytea)" "s:pvariance(float8)" KAGG_ACTION__STDDEV false;
    mk_cat "variance(numeric)" "s:var_samp(bytea)" "s:pvariance(float8)" KAGG_ACTION__STDDEV true;
    mk_cat "var_samp(int1)" "s:var_samp(bytea)" "s:pvariance(float8)" KAGG_ACTION__STDDEV false;
    mk_cat "var_samp(int2)" "s:var_samp(bytea)" "s:pvariance(float8)" KAGG_ACTION__STDDEV false;
    mk_cat "var_samp(int4)" "s:var_samp(bytea)" "s:pvariance(float8)" KAGG_ACTION__STDDEV false;
    mk_cat "var_samp(int8)" "s:var_samp(bytea)" "s:pvariance(float8)" KAGG_ACTION__STDDEV false;
    mk_cat "var_samp(float2)" "s:var_sampf(bytea)" "s:pvariance(float8)" KAGG_ACTION__STDDEV false;
    mk_cat "var_samp(float4)" "s:var_sampf(bytea)" "s:pvariance(float8)" KAGG_ACTION__STDDEV false;
    mk_cat "var_samp(float8)" "s:var_sampf(bytea)" "s:pvariance(float8)" KAGG_ACTION__STDDEV false;
    mk_cat "var_samp(numeric)" "s:var_samp(bytea)" "s:pvariance(float8)" KAGG_ACTION__STDDEV true;
    mk_cat "var_pop(int1)" "s:var_pop(bytea)" "s:pvariance(float8)" KAGG_ACTION__STDDEV false;
    mk_cat "var_pop(int2)" "s:var_pop(bytea)" "s:pvariance(float8)" KAGG_ACTION__STDDEV false;
    mk_cat "var_pop(int4)" "s:var_pop(bytea)" "s:pvariance(float8)" KAGG_ACTION__STDDEV false;
    mk_cat "var_pop(int8)" "s:var_pop(bytea)" "s:pvariance(float8)" KAGG_ACTION__STDDEV false;
    mk_cat "var_pop(float2)" "s:var_popf(bytea)" "s:pvariance(float8)" KAGG_ACTION__STDDEV false;
    mk_cat "var_pop(float4)" "s:var_popf(bytea)" "s:pvariance(float8)" KAGG_ACTION__STDDEV false;
    mk_cat "var_pop(float8)" "s:var_popf(bytea)" "s:pvariance(float8)" KAGG_ACTION__STDDEV false;
    mk_cat "var_pop(numeric)" "s:var_pop(bytea)" "s:pvariance(float8)" KAGG_ACTION__STDDEV true;
    mk_cat "corr(float8,float8)" "s:covar_samp(bytea)" "s:pcovar(float8,float8)" KAGG_ACTION__COVAR false;
    mk_cat "covar_samp(float8,float8)" "s:covar_samp(bytea)" "s:pcovar(float8,float8)" KAGG_ACTION__COVAR false;
    mk_cat "covar_pop(float8,float8)" "s:covar_pop(bytea)" "s:pcovar(float8,float8)" KAGG_ACTION__COVAR false;
    mk_cat "regr_avgx(float8,float8)" "s:regr_avgx(bytea)" "s:pcovar(float8,float8)" KAGG_ACTION__COVAR false;
    mk_cat "regr_avgy(float8,float8)" "s:regr_avgy(bytea)" "s:pcovar(float8,float8)" KAGG_ACTION__COVAR false;
    mk_cat "regr_count(float8,float8)" "s:regr_count(bytea)" "s:pcovar(float8,float8)" KAGG_ACTION__COVAR false;
    mk_cat "regr_intercept(float8,float8)" "s:regr_intercept(bytea)" "s:pcovar(float8,float8)" KAGG_ACTION__COVAR false;
    mk_cat "regr_r2(float8,float8)" "s:regr_r2(bytea)" "s:pcovar(float8,float8)" KAGG_ACTION__COVAR false;
    mk_cat "regr_slope(float8,float8)" "s:regr_slope(bytea)" "s:pcovar(float8,float8)" KAGG_ACTION__COVAR false;
    mk_cat "regr_sxx(float8,float8)" "s:regr_sxx(bytea)" "s:pcovar(float8,float8)" KAGG_ACTION__COVAR false;
    mk_cat "regr_sxy(float8,float8)" "s:regr_sxy(bytea)" "s:pcovar(float8,float8)" KAGG_ACTION__COVAR false;
    mk_cat "regr_syy(float8,float8)" "s:regr_syy(bytea)" "s:pcovar(float8,float8)" KAGG_ACTION__COVAR false
  ].

(** ** The state-and-error monad of the backend

    A computation reads and writes the process state and ends in an
    [outcome]; the state reached when an error is raised is kept, because
    that is what a PG_CATCH block and the next planning attempt see. *)

Definition M (D A : Type) : Type := pg_state D -> outcome A * pg_state D.

Section Monad.
Context {D : Type}.

Definition ret {A : Type} (a : A) : M D A := fun st => (Ret a, st).

Definition bind {A B : Type} (c : M D A) (k : A -> M D B) : M D B :=
  fun st =>
    match c st with
    | (Ret a, st') => k a st'
    | (Elog msg, st') => (Elog msg, st')
    | (Trap msg, st') => (Trap msg, st')
    | (Undef, st') => (Undef, st')
    end.

Definition lift {A : Type} (o : outcome A) : M D A := fun st => (o, st).

Definition elog {A : Type} (msg : string) : M D A := lift (Elog msg).

(** [PG_TRY(); body PG_CATCH(); handler PG_END_TRY();] : the handler runs
    when the body leaves by [elog(ERROR)], in the state the body left. *)
Definition PG_TRY {A : Type} (body : M D A) (handler : string -> M D A) : M D A :=
  fun st =>
    match body st with
    | (Elog msg, st') => handler msg st'
    | r => r
    end.

Definition PG_RE_THROW {A : Type} (msg : string) : M D A := elog msg.

End Monad.

Declare Scope pg_scope.
Delimit Scope pg_scope with pg.
Notation "x <- c ;; k" := (bind c (fun x => k))
  (at level 100, c at next level, right associativity) : pg_scope.
Notation "c ;;; k" := (bind c (fun _ => k))
  (at level 100, right associativity) : pg_scope.

(** ** C strings *)

Fixpoint string_drop (n : nat) (s : string) : string :=
  match n, s with
  | O, _ => s
  | S n', String _ rest => string_drop n' rest
  | S _, EmptyString => EmptyString
  end.

(** [strchr] followed by cutting the string at the character found: the
    text before the first occurrence and the text after it. *)
Fixpoint strchr_cut (c : ascii) (s : string) : option (string * string) :=
  match s with
  | EmptyString => None
  | String x rest =>
      if Ascii.eqb x c then Some (EmptyString, rest)
      else match strchr_cut c rest with
           | Some (before, after) => Some (String x before, after)
           | None => None
           end
  end.

(** The successive results of [strtok_r]: the maximal runs of characters
    other than the delimiter.  [cur] is the token being read. *)
Fixpoint strtok_r (delim : ascii) (cur : string) (s : string) : list string :=
  match s with
  | EmptyString => if String.eqb cur EmptyString then [] else [cur]
  | String x rest =>
      if Ascii.eqb x delim
      then (if String.eqb cur EmptyString then strtok_r delim EmptyString rest
            else cur :: strtok_r delim EmptyString rest)
      else strtok_r delim (String.append cur (String x EmptyString)) rest
  end.

(** ** The resolver and its hash table *)

Section GpuPreAgg.
Context {D : Type} {ops : DoubleOps D}.
Variable sc : syscache.
(** [get_type_name] is a helper of the repository that lives in another
    file; it is taken as a parameter. *)
Variable get_type_name : Oid -> bool -> outcome (option string).

Definition set_htable (h : option (gmap Oid aggfunc_catalog_entry))
  (st : pg_state D) : pg_state D :=
  {| aggfunc_catalog_htable := h;
     pgstrom_enable_numeric_aggfuncs := pgstrom_enable_numeric_aggfuncs st;
     pathlist := pathlist st |}.

(** Assignment of the configuration flag, by SET or a reload. *)
Definition set_pgstrom_enable_numeric_aggfuncs (v : bool) (st : pg_state D)
  : pg_state D :=
  {| aggfunc_catalog_htable := aggfunc_catalog_htable st;
     pgstrom_enable_numeric_aggfuncs := v;
     pathlist := pathlist st |}.


(** [hash_create], on the first use after start or invalidation. *)
Definition hash_create_if_null : M D unit :=
  fun st =>
    match aggfunc_catalog_htable st with
    | None => (Ret tt, set_htable (Some ∅) st)
    | Some _ => (Ret tt, st)
    end.

(** A fresh dynahash entry has its key set; the other fields are whatever
    the memory held.  The model fills them with zeros and nothing reads them
    before they are written. *)
Definition fresh_entry (key : Oid) : aggfunc_catalog_entry :=
  {| aggfn_oid := key; final_func_oid := InvalidOid; partial_func_oid := InvalidOid;
     partial_func_rettype := InvalidOid; partial_func_nargs := 0;
     partial_func_action := KAGG_ACTION__other 0;
     numeric_aware := false; is_valid_entry := false |}.

(** [hash_search(..., HASH_ENTER, &found)]: the entry is addressed by its
    key from here on; the result is [found]. *)
Definition hash_search_ENTER (key : Oid) : M D bool :=
  fun st =>
    match aggfunc_catalog_htable st with
    | None => (Undef, st)
    | Some h =>
        match h !! key with
        | Some _ => (Ret true, st)
        | None => (Ret false, set_htable (Some (<[key := fresh_entry key]> h)) st)
        end
    end.

Definition hash_search_REMOVE (key : Oid) : M D unit :=
  fun st =>
    match aggfunc_catalog_htable st with
    | None => (Undef, st)
    | Some h => (Ret tt, set_htable (Some (delete key h)) st)
    end.

(** Reading and writing through the [entry] pointer. *)
Definition entry_read (key : Oid) : M D aggfunc_catalog_entry :=
  fun st =>
    match aggfunc_catalog_htable st with
    | None => (Undef, st)
    | Some h => match h !! key with
                | Some e => (Ret e, st)
                | None => (Undef, st)
                end
    end.

Definition entry_write (key : Oid)
  (f : aggfunc_catalog_entry -> aggfunc_catalog_entry) : M D unit :=
  fun st =>
    match aggfunc_catalog_htable st with
    | None => (Undef, st)
    | Some h => match h !! key with
                | Some e => (Ret tt, set_htable (Some (<[key := f e]> h)) st)
                | None => (Undef, st)
                end
    end.

Definition set_final_func_oid (v : Oid) (e : aggfunc_catalog_entry) :=
  {| aggfn_oid := aggfn_oid e; final_func_oid := v;
     partial_func_oid := partial_func_oid e;
     partial_func_rettype := partial_func_rettype e;
     partial_func_nargs := partial_func_nargs e;
     partial_func_action := partial_func_action e;
     numeric_aware := numeric_aware e; is_valid_entry := is_valid_entry e |}.
Definition set_partial_func_oid (v : Oid) (e : aggfunc_catalog_entry) :=
  {| aggfn_oid := aggfn_oid e; final_func_oid := final_func_oid e;
     partial_func_oid := v;
     partial_func_rettype := partial_func_rettype e;
     partial_func_nargs := partial_func_nargs e;
     partial_func_action := partial_func_action e;
     numeric_aware := numeric_aware e; is_valid_entry := is_valid_entry e |}.
Definition set_partial_func_rettype (v : Oid) (e : aggfunc_catalog_entry) :=
  {| aggfn_oid := aggfn_oid e; final_func_oid := final_func_oid e;
     partial_func_oid := partial_func_oid e;
     partial_func_rettype := v;
     partial_func_nargs := partial_func_nargs e;
     partial_func_action := partial_func_action e;
     numeric_aware := numeric_aware e; is_valid_entry := is_valid_entry e |}.
Definition set_partial_func_nargs (v : Z) (e : aggfunc_catalog_entry) :=
  {| aggfn_oid := aggfn_oid e; final_func_oid := final_func_oid e;
     partial_func_oid := partial_func_oid e;
     partial_func_rettype := partial_func_rettype e;
     partial_func_nargs := v;
     partial_func_action := partial_func_action e;
     numeric_aware := numeric_aware e; is_valid_entry := is_valid_entry e |}.
Definition set_partial_func_action (v : kagg_action) (e : aggfunc_catalog_entry) :=
  {| aggfn_oid := aggfn_oid e; final_func_oid := final_func_oid e;
     partial_func_oid := partial_func_oid e;
     partial_func_rettype := partial_func_rettype e;
     partial_func_nargs := partial_func_nargs e;
     partial_func_action := v;
     numeric_aware := numeric_aware e; is_valid_entry := is_valid_entry e |}.
Definition set_numeric_aware (v : bool) (e : aggfunc_catalog_entry) :=
  {| aggfn_oid := aggfn_oid e; final_func_oid := final_func_oid e;
     partial_func_oid := partial_func_oid e;
     partial_func_rettype := partial_func_rettype e;
     partial_func_nargs := partial_func_nargs e;
     partial_func_action := partial_func_action e;
     numeric_aware := v; is_valid_entry := is_valid_entry e |}.
Definition set_is_valid_entry (v : bool) (e : aggfunc_catalog_entry) :=
  {| aggfn_oid := aggfn_oid e; final_func_oid := final_func_oid e;
     partial_func_oid := partial_func_oid e;
     partial_func_rettype := partial_func_rettype e;
     partial_func_nargs := partial_func_nargs e;
     partial_func_action := partial_func_action e;
     numeric_aware := numeric_aware e; is_valid_entry := v |}.

Definition read_pgstrom_enable_numeric_aggfuncs : M D bool :=
  fun st => (Ret (pgstrom_enable_numeric_aggfuncs st), st).

(** PostgreSQL's lsyscache helpers. *)
Definition get_namespace_oid (nspname : string) (missing_ok : bool) : outcome Oid :=
  let oid := NAMESPACENAME sc nspname in
  if OidIsValid oid then Ret oid
  else if missing_ok then Ret InvalidOid
  else Elog "schema does not exist".

Definition get_func_rettype (funcid : Oid) : outcome Oid :=
  match PROCOID sc funcid with
  | Some proc => Ret (prorettype proc)
  | None => Elog "cache lookup failed for function"
  end.

Definition get_func_nargs (funcid : Oid) : outcome Z :=
  match PROCOID sc funcid with
  | Some proc => Ret (pronargs proc)
  | None => Elog "cache lookup failed for function"
  end.

(** The loop over the [strtok_r] tokens of the argument list. *)
Fixpoint resolve_argtypes (toks : list string) : outcome (list Oid) :=
  match toks with
  | [] => Ret []
  | tok :: rest =>
      let type_oid := TYPENAMENSP sc tok PG_CATALOG_NAMESPACE in
      if OidIsValid type_oid
      then (values <- resolve_argtypes rest ;; Ret (type_oid :: values))%pure
      else Elog "cache lookup failed for type"
  end.

Definition __aggfunc_resolve_func_signature (signature : string) : outcome Oid :=
  (fn_namespace <-
     (if String.prefix "c:" signature then Ret PG_CATALOG_NAMESPACE
      else if String.prefix "s:" signature then get_namespace_oid "pgstrom" false
      else Elog "wrong function signature") ;;
   match strchr_cut "("%char (string_drop 2 signature) with
   | None => Elog "wrong function signature"
   | Some (fn_name, base) =>
       match strchr_cut ")"%char base with
       | None => Elog "wrong function signature"
       | Some (base, _) =>
           fn_argtypes <- resolve_argtypes (strtok_r ","%char EmptyString base) ;;
           let fn_oid := PROCNAMEARGSNSP sc fn_name fn_argtypes fn_namespace in
           if OidIsValid fn_oid then Ret fn_oid
           else Elog "Catalog corruption? function was not found"
       end
   end)%pure.

(** What the switch of [__aggfunc_resolve_partial_func] fixes for an action:
    the number of arguments and the result type of the partial function. *)
Definition partfn_expectation (partfn_action : kagg_action) : outcome (Z * Oid) :=
  match partfn_action with
  | KAGG_ACTION__NROWS_ANY => Ret (0, INT8OID)
  | KAGG_ACTION__NROWS_COND
  | KAGG_ACTION__PSUM_INT => Ret (1, INT8OID)
  | KAGG_ACTION__PSUM_FP => Ret (1, FLOAT8OID)
  | KAGG_ACTION__PMIN_INT
  | KAGG_ACTION__PMIN_FP
  | KAGG_ACTION__PMAX_INT
  | KAGG_ACTION__PMAX_FP
  | KAGG_ACTION__PAVG_INT
  | KAGG_ACTION__PAVG_FP
  | KAGG_ACTION__STDDEV => Ret (1, BYTEAOID)
  | KAGG_ACTION__COVAR => Ret (2, BYTEAOID)
  | _ => Elog "Catalog corruption? unknown action"
  end.

Definition __aggfunc_resolve_partial_func (entry : Oid)
  (partfn_signature : string) (partfn_action : kagg_action) : M D unit :=
  (func_oid <- lift (__aggfunc_resolve_func_signature partfn_signature) ;;
   expect <- lift (partfn_expectation partfn_action) ;;
   let func_nargs := fst expect in
   let type_oid := snd expect in
   entry_write entry (set_partial_func_oid func_oid) ;;;
   rettype <- lift (get_func_rettype func_oid) ;;
   entry_write entry (set_partial_func_rettype rettype) ;;;
   nargs <- lift (get_func_nargs func_oid) ;;
   entry_write entry (set_partial_func_nargs nargs) ;;;
   entry_write entry (set_partial_func_action partfn_action) ;;;
   e <- entry_read entry ;;
   if negb (N.eqb (partial_func_rettype e) type_oid)
      || negb (Z.eqb (partial_func_nargs e) func_nargs)
   then elog "Catalog curruption? partial function mismatch"
   else ret tt)%pg.

Definition __aggfunc_resolve_final_func (entry : Oid)
  (finalfn_signature : string) (agg_rettype : Oid) : M D unit :=
  (func_oid <- lift (__aggfunc_resolve_func_signature finalfn_signature) ;;
   mismatch <-
     (match AGGFNOID sc func_oid with
      | None => ret true
      | Some _ => rettype <- lift (get_func_rettype func_oid) ;;
                  ret (negb (N.eqb rettype agg_rettype))
      end) ;;
   if mismatch : bool then elog "Catalog corruption? final function mismatch"
   else
     match PROCOID sc func_oid with
     | None => elog "cache lookup failed for function"
     | Some proc =>
         e <- entry_read entry ;;
         if negb (Z.eqb (pronargs proc) 1)
            || match proargtypes proc with
               | [value0] => negb (N.eqb value0 (partial_func_rettype e))
               | _ => true
               end
         then elog "Catalog corruption? final function mismatch"
         else entry_write entry (set_final_func_oid func_oid)
     end)%pg.

(** The text [name(type1,type2)] that the lookup prints into [buf]. *)
Fixpoint sprintf_argtypes (j : Z) (types : list Oid) : outcome string :=
  match types with
  | [] => Ret EmptyString
  | type_oid :: rest =>
      (type_name <- get_type_name type_oid false ;;
       match type_name with
       | None => Undef
       | Some name =>
           tail <- sprintf_argtypes (j + 1) rest ;;
           Ret (String.append (if 0 <? j then "," else "")
                              (String.append name tail))
       end)%pure
  end.

Definition sprintf_signature (proc : Form_pg_proc) : outcome string :=
  (types <- sprintf_argtypes 0 (proargtypes proc) ;;
   Ret (String.append (proname proc) (String.append "(" (String.append types ")"))))%pure.

(** The scan of [aggfunc_catalog_array] up to its terminating entry. *)
Fixpoint catalog_scan (entry : Oid) (buf : string) (proc : Form_pg_proc)
  (cats : list aggfunc_catalog_t) : M D unit :=
  match cats with
  | [] => ret tt
  | cat :: rest =>
      if String.eqb buf (aggfn_signature cat)
      then (__aggfunc_resolve_partial_func entry (partfn_signature cat)
                                           (partfn_action cat) ;;;
            __aggfunc_resolve_final_func entry (finalfn_signature cat)
                                         (prorettype proc) ;;;
            entry_write entry (set_numeric_aware (cat_numeric_aware cat)) ;;;
            entry_write entry (set_is_valid_entry true))%pg
      else catalog_scan entry buf proc rest
  end.

Definition aggfunc_catalog_lookup_by_oid (aggfn_oid : Oid)
  : M D (option aggfunc_catalog_entry) :=
  (hash_create_if_null ;;;
   found <- hash_search_ENTER aggfn_oid ;;
   (if found : bool then ret tt
    else
      entry_write aggfn_oid (set_is_valid_entry false) ;;;
      PG_TRY
        (match PROCOID sc aggfn_oid with
         | None => elog "cache lookup failed for function"
         | Some proc =>
             if N.eqb (pronamespace proc) PG_CATALOG_NAMESPACE
                && (pronargs proc <=? 2)
             then
               buf <- lift (sprintf_signature proc) ;;
               catalog_scan aggfn_oid buf proc aggfunc_catalog_array
             else ret tt
         end)
        (fun msg =>
           hash_search_REMOVE aggfn_oid ;;;
           PG_RE_THROW msg)) ;;;
   entry <- entry_read aggfn_oid ;;
   enable_numeric <- read_pgstrom_enable_numeric_aggfuncs ;;
   if negb (is_valid_entry entry) then ret None
   else if numeric_aware entry && negb enable_numeric then ret None
   else ret (Some entry))%pg.


(** ** Node utilities of PostgreSQL, for the node kinds above *)

Section ListEq.
Context {A : Type}.
Variable eqb : A -> A -> bool.

Definition option_eqb (x y : option A) : bool :=
  match x, y with
  | None, None => true
  | Some a, Some b => eqb a b
  | _, _ => false
  end.

Fixpoint list_eqb (l1 l2 : list A) : bool :=
  match l1, l2 with
  | [], [] => true
  | a :: r1, b :: r2 => eqb a b && list_eqb r1 r2
  | _, _ => false
  end.

End ListEq.

Definition BoolExprType_eqb (a b : BoolExprType) : bool :=
  match a, b with
  | AND_EXPR, AND_EXPR | OR_EXPR, OR_EXPR | NOT_EXPR, NOT_EXPR => true
  | _, _ => false
  end.

Definition AggSplit_eqb (a b : AggSplit) : bool :=
  match a, b with
  | AGGSPLIT_SIMPLE, AGGSPLIT_SIMPLE
  | AGGSPLIT_INITIAL_SERIAL, AGGSPLIT_INITIAL_SERIAL
  | AGGSPLIT_FINAL_DESERIAL, AGGSPLIT_FINAL_DESERIAL => true
  | _, _ => false
  end.

(** [equal()]: field by field, as equalfuncs.c does it.  It skips what
    PostgreSQL skips: coercion display forms, parse locations, the expression
    inside a PlaceHolderVar, and [aggtranstype] of an Aggref. *)
Fixpoint equal (a b : Node) {struct a} : bool :=
  match a, b with
  | T_Var no1 att1 ty1 mod1 coll1 lev1, T_Var no2 att2 ty2 mod2 coll2 lev2 =>
      Z.eqb no1 no2 && Z.eqb att1 att2 && N.eqb ty1 ty2 && Z.eqb mod1 mod2
      && N.eqb coll1 coll2 && Z.eqb lev1 lev2
  | T_Const ty1 mod1 coll1 val1 null1, T_Const ty2 mod2 coll2 val2 null2 =>
      N.eqb ty1 ty2 && Z.eqb mod1 mod2 && N.eqb coll1 coll2
      && Bool.eqb null1 null2 && (null1 || Z.eqb val1 val2)
  | T_PlaceHolderVar _ id1 lev1, T_PlaceHolderVar _ id2 lev2 =>
      Z.eqb id1 id2 && Z.eqb lev1 lev2
  | T_FuncExpr id1 res1 set1 var1 _ coll1 icoll1 args1,
    T_FuncExpr id2 res2 set2 var2 _ coll2 icoll2 args2 =>
      N.eqb id1 id2 && N.eqb res1 res2 && Bool.eqb set1 set2 && Bool.eqb var1 var2
      && N.eqb coll1 coll2 && N.eqb icoll1 icoll2 && option_eqb equal args1 args2
  | T_OpExpr no1 fn1 res1 set1 coll1 icoll1 args1,
    T_OpExpr no2 fn2 res2 set2 coll2 icoll2 args2 =>
      N.eqb no1 no2
      && (N.eqb fn1 fn2 || N.eqb fn1 InvalidOid || N.eqb fn2 InvalidOid)
      && N.eqb res1 res2 && Bool.eqb set1 set2
      && N.eqb coll1 coll2 && N.eqb icoll1 icoll2 && option_eqb equal args1 args2
  | T_BoolExpr op1 args1, T_BoolExpr op2 args2 =>
      BoolExprType_eqb op1 op2 && option_eqb equal args1 args2
  | T_RelabelType arg1 ty1 mod1 coll1 _, T_RelabelType arg2 ty2 mod2 coll2 _ =>
      option_eqb equal arg1 arg2 && N.eqb ty1 ty2 && Z.eqb mod1 mod2
      && N.eqb coll1 coll2
  | T_Aggref a1, T_Aggref a2 =>
      N.eqb (aggfnoid a1) (aggfnoid a2) && N.eqb (aggtype a1) (aggtype a2)
      && N.eqb (aggcollid a1) (aggcollid a2)
      && N.eqb (inputcollid a1) (inputcollid a2)
      && list_eqb N.eqb (aggargtypes a1) (aggargtypes a2)
      && option_eqb equal (aggdirectargs a1) (aggdirectargs a2)
      && option_eqb equal (args a1) (args a2)
      && option_eqb equal (aggorder a1) (aggorder a2)
      && option_eqb equal (aggdistinct a1) (aggdistinct a2)
      && option_eqb equal (aggfilter a1) (aggfilter a2)
      && Bool.eqb (aggstar a1) (aggstar a2)
      && Bool.eqb (aggvariadic a1) (aggvariadic a2)
      && Ascii.eqb (aggkind a1) (aggkind a2)
      && Z.eqb (agglevelsup a1) (agglevelsup a2)
      && AggSplit_eqb (aggsplit a1) (aggsplit a2)
      && Z.eqb (aggno a1) (aggno a2) && Z.eqb (aggtransno a1) (aggtransno a2)
  | T_TargetEntry e1 no1 name1 ref1 junk1, T_TargetEntry e2 no2 name2 ref2 junk2 =>
      option_eqb equal e1 e2 && Z.eqb no1 no2 && option_eqb String.eqb name1 name2
      && Z.eqb ref1 ref2 && Bool.eqb junk1 junk2
  | T_List l1, T_List l2 => list_eqb (option_eqb equal) l1 l2
  | _, _ => false
  end.

Definition list_member (list : list Node) (datum : Node) : bool :=
  existsb (fun cell => equal cell datum) list.

(** [exprType], [exprTypmod] and [exprCollation] of nodeFuncs.c. *)
Fixpoint exprType_node (expr : Node) : outcome Oid :=
  match expr with
  | T_Var _ _ vartype _ _ _ => Ret vartype
  | T_Const consttype _ _ _ _ => Ret consttype
  | T_PlaceHolderVar phexpr _ _ =>
      match phexpr with
      | Some e => exprType_node e
      | None => Ret InvalidOid
      end
  | T_FuncExpr _ funcresulttype _ _ _ _ _ _ => Ret funcresulttype
  | T_OpExpr _ _ opresulttype _ _ _ _ => Ret opresulttype
  | T_BoolExpr _ _ => Ret BOOLOID
  | T_RelabelType _ resulttype _ _ _ => Ret resulttype
  | T_Aggref a => Ret (aggtype a)
  | T_TargetEntry _ _ _ _ _ | T_List _ => Elog "unrecognized node type"
  end.

Definition exprType (expr : option Node) : outcome Oid :=
  match expr with
  | None => Ret InvalidOid
  | Some e => exprType_node e
  end.

Definition list_cells (l : option Node) : outcome (list (option Node)) :=
  match l with
  | None => Ret []
  | Some (T_List cells) => Ret cells
  | Some _ => Undef
  end.

Definition list_length (l : option Node) : outcome Z :=
  (cells <- list_cells l ;; Ret (Z.of_nat (length cells)))%pure.

Definition exprIsLengthCoercion (expr : Node) : option Z :=
  match expr with
  | T_FuncExpr _ _ _ _ funcformat _ _ (Some (T_List cells)) =>
      match funcformat with
      | COERCE_EXPLICIT_CAST | COERCE_IMPLICIT_CAST =>
          match cells with
          | [_; Some (T_Const consttype _ _ constvalue false)]
          | [_; Some (T_Const consttype _ _ constvalue false); _] =>
              if N.eqb consttype INT4OID then Some constvalue else None
          | _ => None
          end
      | _ => None
      end
  | _ => None
  end.

Fixpoint exprTypmod_node (expr : Node) : Z :=
  match expr with
  | T_Var _ _ _ vartypmod _ _ => vartypmod
  | T_Const _ consttypmod _ _ _ => consttypmod
  | T_PlaceHolderVar phexpr _ _ =>
      match phexpr with
      | Some e => exprTypmod_node e
      | None => -1
      end
  | T_FuncExpr _ _ _ _ _ _ _ _ =>
      match exprIsLengthCoercion expr with
      | Some coercedTypmod => coercedTypmod
      | None => -1
      end
  | T_RelabelType _ _ resulttypmod _ _ => resulttypmod
  | _ => -1
  end.

Definition exprTypmod (expr : option Node) : Z :=
  match expr with
  | None => -1
  | Some e => exprTypmod_node e
  end.

Fixpoint exprCollation_node (expr : Node) : outcome Oid :=
  match expr with
  | T_Var _ _ _ _ varcollid _ => Ret varcollid
  | T_Const _ _ constcollid _ _ => Ret constcollid
  | T_PlaceHolderVar phexpr _ _ =>
      match phexpr with
      | Some e => exprCollation_node e
      | None => Ret InvalidOid
      end
  | T_FuncExpr _ _ _ _ _ funccollid _ _ => Ret funccollid
  | T_OpExpr _ _ _ _ opcollid _ _ => Ret opcollid
  | T_BoolExpr _ _ => Ret InvalidOid
  | T_RelabelType _ _ _ resultcollid _ => Ret resultcollid
  | T_Aggref a => Ret (aggcollid a)
  | T_TargetEntry _ _ _ _ _ | T_List _ => Elog "unrecognized node type"
  end.

Definition exprCollation (expr : option Node) : outcome Oid :=
  match expr with
  | None => Ret InvalidOid
  | Some e => exprCollation_node e
  end.

(** makefuncs.c and list.c *)
Definition makeFuncExpr (funcid rettype : Oid) (fargs : option Node)
  (funccollid finputcollid : Oid) (fformat : CoercionForm) : Node :=
  T_FuncExpr funcid rettype false false fformat funccollid finputcollid fargs.

Definition makeTargetEntry (expr : option Node) (resno : Z)
  (resname : option string) (resjunk : bool) : Node :=
  T_TargetEntry expr resno resname 0 resjunk.

Definition list_make1 (datum : option Node) : option Node := Some (T_List [datum]).

Definition lappend (l : option Node) (datum : option Node) : outcome (option Node) :=
  (cells <- list_cells l ;; Ret (Some (T_List (cells ++ [datum]))))%pure.

(** [expression_tree_mutator]: a copy of the node in which each child
    pointer is replaced by what the mutator returns for it, null children
    included; a list is rebuilt cell by cell. *)
Section Mutator.
Context {C : Type}.
Variable mutator : option Node -> C -> M D (option Node * C).

Fixpoint mutate_cells (cells : list (option Node)) (context : C)
  : M D (list (option Node) * C) :=
  match cells with
  | [] => ret ([], context)
  | cell :: rest =>
      (r <- mutator cell context ;;
       rs <- mutate_cells rest (snd r) ;;
       ret (fst r :: fst rs, snd rs))%pg
  end.

Definition expression_tree_mutator (node : option Node) (context : C)
  : M D (option Node * C) :=
  match node with
  | None => ret (None, context)
  | Some (T_Var _ _ _ _ _ _) | Some (T_Const _ _ _ _ _) => ret (node, context)
  | Some (T_PlaceHolderVar phexpr phid phlevelsup) =>
      (r <- mutator phexpr context ;;
       ret (Some (T_PlaceHolderVar (fst r) phid phlevelsup), snd r))%pg
  | Some (T_FuncExpr funcid res retset variadic fmt coll icoll fargs) =>
      (r <- mutator fargs context ;;
       ret (Some (T_FuncExpr funcid res retset variadic fmt coll icoll (fst r)),
            snd r))%pg
  | Some (T_OpExpr opno opfuncid res retset coll icoll oargs) =>
      (r <- mutator oargs context ;;
       ret (Some (T_OpExpr opno opfuncid res retset coll icoll (fst r)), snd r))%pg
  | Some (T_BoolExpr boolop bargs) =>
      (r <- mutator bargs context ;;
       ret (Some (T_BoolExpr boolop (fst r)), snd r))%pg
  | Some (T_RelabelType arg ty typmod coll fmt) =>
      (r <- mutator arg context ;;
       ret (Some (T_RelabelType (fst r) ty typmod coll fmt), snd r))%pg
  | Some (T_Aggref a) =>
      (r1 <- mutator (aggdirectargs a) context ;;
       r2 <- mutator (args a) (snd r1) ;;
       r3 <- mutator (aggorder a) (snd r2) ;;
       r4 <- mutator (aggdistinct a) (snd r3) ;;
       r5 <- mutator (aggfilter a) (snd r4) ;;
       ret (Some (T_Aggref
              (mkAggref (aggfnoid a) (aggtype a) (aggcollid a) (inputcollid a)
                 (aggtranstype a) (aggargtypes a)
                 (fst r1) (fst r2) (fst r3) (fst r4) (fst r5)
                 (aggstar a) (aggvariadic a) (aggkind a) (agglevelsup a)
                 (aggsplit a) (aggno a) (aggtransno a) (location a))),
            snd r5))%pg
  | Some (T_TargetEntry expr resno resname ref junk) =>
      (r <- mutator expr context ;;
       ret (Some (T_TargetEntry (fst r) resno resname ref junk), snd r))%pg
  | Some (T_List cells) =>
      (rs <- mutate_cells cells context ;;
       ret (match fst rs with
            | [] => None
            | _ :: _ => Some (T_List (fst rs))
            end, snd rs))%pg
  end.

End Mutator.

(** ** Services of the repository and of the planner used by the rewriter *)

(** Assertion checking is a choice of the build. *)
Variable USE_ASSERT_CHECKING : bool.

Definition Assert (condition : outcome bool) (what : string) : outcome unit :=
  if USE_ASSERT_CHECKING
  then (holds <- condition ;; if holds : bool then Ret tt else Trap what)%pure
  else Ret tt.

Record devtype_info : Type := mkDevtype {
  type_oid : Oid;
  type_hashfunc : option N
}.

Variable pgstrom_xpu_expression : option Node -> Z -> list N -> bool.
Variable pgstrom_devtype_lookup : Oid -> option devtype_info.
Variable devtype_lookup_equal_func : devtype_info -> Oid -> option N.
Variable add_function_cost : PlannerInfo D -> Oid -> QualCost D -> QualCost D.
(** PostgreSQL's estimate of the cost and the width of a target list, which
    [set_pathtarget_cost_width] stores into the target. *)
Variable pathtarget_cost_width : PlannerInfo D -> PathTarget D -> QualCost D * Z.

Definition set_pathtarget_cost_width (root : PlannerInfo D) (target : PathTarget D)
  : PathTarget D :=
  {| exprs := exprs target; sortgrouprefs := sortgrouprefs target;
     cost := fst (pathtarget_cost_width root target);
     width := snd (pathtarget_cost_width root target) |}.

(** Field updates of the context and of what it points to.

    PostgreSQL keeps [sortgrouprefs] as a null pointer while every reference
    is zero and reads a null pointer as zeros; the list here holds the zeros
    themselves, one per column. *)
Definition add_column_to_pathtarget (target : PathTarget D) (expr : Node)
  (sortgroupref : Z) : PathTarget D :=
  {| exprs := exprs target ++ [expr];
     sortgrouprefs := sortgrouprefs target ++ [sortgroupref];
     cost := cost target; width := width target |}.

Definition get_pathtarget_sortgroupref (target : PathTarget D) (i : nat) : Z :=
  nth i (sortgrouprefs target) 0.

Definition set_groupby_actions (v : list kagg_action) (pp : pgstromPlanInfo D) :=
  {| pp_task_kind := pp_task_kind pp; final_cost := final_cost pp;
     kvars_depth := kvars_depth pp; kvars_resno := kvars_resno pp;
     groupby_keys := groupby_keys pp; groupby_actions := v |}.
Definition set_groupby_keys (v : list Node) (pp : pgstromPlanInfo D) :=
  {| pp_task_kind := pp_task_kind pp; final_cost := final_cost pp;
     kvars_depth := kvars_depth pp; kvars_resno := kvars_resno pp;
     groupby_keys := v; groupby_actions := groupby_actions pp |}.
Definition set_kvars_depth (v : list Z) (pp : pgstromPlanInfo D) :=
  {| pp_task_kind := pp_task_kind pp; final_cost := final_cost pp;
     kvars_depth := v; kvars_resno := kvars_resno pp;
     groupby_keys := groupby_keys pp; groupby_actions := groupby_actions pp |}.
Definition set_kvars_resno (v : list Z) (pp : pgstromPlanInfo D) :=
  {| pp_task_kind := pp_task_kind pp; final_cost := final_cost pp;
     kvars_depth := kvars_depth pp; kvars_resno := v;
     groupby_keys := groupby_keys pp; groupby_actions := groupby_actions pp |}.
Definition set_pp_task_kind (v : Z) (pp : pgstromPlanInfo D) :=
  {| pp_task_kind := v; final_cost := final_cost pp;
     kvars_depth := kvars_depth pp; kvars_resno := kvars_resno pp;
     groupby_keys := groupby_keys pp; groupby_actions := groupby_actions pp |}.

Definition set_device_executable (v : bool) (con : xpugroupby_build_path_context D) :=
  {| device_executable := v; root := root con; group_rel := group_rel con;
     num_groups := num_groups con; input_path := input_path con;
     target_upper := target_upper con; target_partial := target_partial con;
     target_final := target_final con; final_clause_costs := final_clause_costs con;
     pp_info := pp_info con; input_rels_tlist := input_rels_tlist con;
     inner_paths_list := inner_paths_list con; con_havingQual := con_havingQual con;
     task_kind := task_kind con; custom_path_methods := custom_path_methods con |}.
Definition set_target_partial (v : PathTarget D) (con : xpugroupby_build_path_context D) :=
  {| device_executable := device_executable con; root := root con;
     group_rel := group_rel con;
     num_groups := num_groups con; input_path := input_path con;
     target_upper := target_upper con; target_partial := v;
     target_final := target_final con; final_clause_costs := final_clause_costs con;
     pp_info := pp_info con; input_rels_tlist := input_rels_tlist con;
     inner_paths_list := inner_paths_list con; con_havingQual := con_havingQual con;
     task_kind := task_kind con; custom_path_methods := custom_path_methods con |}.
Definition set_target_final (v : PathTarget D) (con : xpugroupby_build_path_context D) :=
  {| device_executable := device_executable con; root := root con;
     group_rel := group_rel con;
     num_groups := num_groups con; input_path := input_path con;
     target_upper := target_upper con; target_partial := target_partial con;
     target_final := v; final_clause_costs := final_clause_costs con;
     pp_info := pp_info con; input_rels_tlist := input_rels_tlist con;
     inner_paths_list := inner_paths_list con; con_havingQual := con_havingQual con;
     task_kind := task_kind con; custom_path_methods := custom_path_methods con |}.
Definition set_final_clause_costs (v : AggClauseCosts D)
  (con : xpugroupby_build_path_context D) :=
  {| device_executable := device_executable con; root := root con;
     group_rel := group_rel con;
     num_groups := num_groups con; input_path := input_path con;
     target_upper := target_upper con; target_partial := target_partial con;
     target_final := target_final con; final_clause_costs := v;
     pp_info := pp_info con; input_rels_tlist := input_rels_tlist con;
     inner_paths_list := inner_paths_list con; con_havingQual := con_havingQual con;
     task_kind := task_kind con; custom_path_methods := custom_path_methods con |}.
Definition set_pp_info (v : pgstromPlanInfo D) (con : xpugroupby_build_path_context D) :=
  {| device_executable := device_executable con; root := root con;
     group_rel := group_rel con;
     num_groups := num_groups con; input_path := input_path con;
     target_upper := target_upper con; target_partial := target_partial con;
     target_final := target_final con; final_clause_costs := final_clause_costs con;
     pp_info := v; input_rels_tlist := input_rels_tlist con;
     inner_paths_list := inner_paths_list con; con_havingQual := con_havingQual con;
     task_kind := task_kind con; custom_path_methods := custom_path_methods con |}.
Definition set_con_havingQual (v : option Node) (con : xpugroupby_build_path_context D) :=
  {| device_executable := device_executable con; root := root con;
     group_rel := group_rel con;
     num_groups := num_groups con; input_path := input_path con;
     target_upper := target_upper con; target_partial := target_partial con;
     target_final := target_final con; final_clause_costs := final_clause_costs con;
     pp_info := pp_info con; input_rels_tlist := input_rels_tlist con;
     inner_paths_list := inner_paths_list con; con_havingQual := v;
     task_kind := task_kind con; custom_path_methods := custom_path_methods con |}.

(** ** make_expr_typecast - constructor of type cast *)

Definition make_expr_typecast (expr : option Node) (target_type : Oid)
  : outcome (option Node) :=
  (source_type <- exprType expr ;;
   if N.eqb target_type source_type || N.eqb target_type ANYOID then Ret expr
   else
     match CASTSOURCETARGET sc source_type target_type with
     | None => Elog "cache lookup failed for cast"
     | Some cast =>
         if Ascii.eqb (castmethod cast) COERCION_METHOD_BINARY then
           resultcollid <- exprCollation expr ;;
           Ret (Some (T_RelabelType expr target_type (exprTypmod expr)
                        resultcollid COERCE_IMPLICIT_CAST))
         else if Ascii.eqb (castmethod cast) COERCION_METHOD_FUNCTION then
           _ <- Assert (Ret (OidIsValid (castfunc cast))) "OidIsValid(cast->castfunc)" ;;
           collid <- exprCollation expr ;;
           Ret (Some (makeFuncExpr (castfunc cast) target_type (list_make1 expr)
                        InvalidOid collid COERCE_IMPLICIT_CAST))
         else Elog "cast-method is not supported in the kernel mode"
     end)%pure.

(** ** make_alternative_aggref

    It makes an alternative final aggregate function towards the supplied
    Aggref, and appends its partial function to target_partial.  The result
    [None] is the source's [return NULL]. *)

Definition non_null {A : Type} (p : option A) : bool :=
  match p with Some _ => true | None => false end.

(** The [foreach] over [aggref->args]; [None] is the [return NULL] inside
    the loop. *)
Fixpoint partfn_args_loop (con : xpugroupby_build_path_context D)
  (cells : list (option Node)) (values : list Oid) (j : nat)
  (partfn_args : option Node) : outcome (option (option Node)) :=
  match cells with
  | [] => Ret (Some partfn_args)
  | Some (T_TargetEntry expr _ _ _ _) :: rest =>
      (type_oid <- exprType expr ;;
       dest_oid <- match nth_error values j with
                   | Some v => Ret v
                   | None => Undef
                   end ;;
       expr <- (if negb (N.eqb type_oid dest_oid)
                then make_expr_typecast expr dest_oid
                else Ret expr) ;;
       if negb (pgstrom_xpu_expression expr (task_kind con) (input_rels_tlist con))
       then Ret None
       else
         partfn_args <- lappend partfn_args expr ;;
         partfn_args_loop con rest values (S j) partfn_args)%pure
  | _ :: _ => Undef
  end.

Definition make_alternative_aggref (con : xpugroupby_build_path_context D)
  (aggref : Aggref) : M D (option Node * xpugroupby_build_path_context D) :=
  if non_null (aggorder aggref) || non_null (aggdistinct aggref)
  then ret (None, con)
  else if AGGKIND_IS_ORDERED_SET (aggkind aggref)
  then ret (None, con)
  else
    (aggfn_cat <- aggfunc_catalog_lookup_by_oid (aggfnoid aggref) ;;
     match aggfn_cat with
     | None => ret (None, con)
     | Some aggfn_cat =>
         (* sanity checks *)
         lift (Assert (Ret (Ascii.eqb (aggkind aggref) AGGKIND_NORMAL
                            && negb (aggvariadic aggref)))
                      "aggref->aggkind == AGGKIND_NORMAL && !aggref->aggvariadic") ;;;
         (* Build partial-aggregate function *)
         match PROCOID sc (partial_func_oid aggfn_cat) with
         | None => elog "cache lookup failed for function"
         | Some proc =>
             lift (Assert (n <- list_length (args aggref) ;;
                           Ret (n =? pronargs proc))%pure
                          "list_length(aggref->args) == proc->pronargs") ;;;
             cells <- lift (list_cells (args aggref)) ;;
             loop <- lift (partfn_args_loop con cells (proargtypes proc) 0 None) ;;
             match loop with
             | None => ret (None, con)
             | Some partfn_args =>
                 let partfn :=
                   makeFuncExpr (partial_func_oid aggfn_cat)
                                (partial_func_rettype aggfn_cat)
                                partfn_args
                                (aggcollid aggref) (inputcollid aggref)
                                COERCE_EXPLICIT_CALL in
                 (* see add_new_column_to_pathtarget *)
                 let con :=
                   if negb (list_member (exprs (target_partial con)) partfn)
                   then
                     set_pp_info
                       (set_groupby_actions
                          (groupby_actions (pp_info con)
                             ++ [partial_func_action aggfn_cat])
                          (pp_info con))
                       (set_target_partial
                          (add_column_to_pathtarget (target_partial con) partfn 0)
                          con)
                   else con in
                 (* Build final-aggregate function *)
                 let func_oid := final_func_oid aggfn_cat in
                 match AGGFNOID sc func_oid with
                 | None => elog "cache lookup failed for pg_aggregate"
                 | Some agg =>
                     partfn_type <- lift (exprType (Some partfn)) ;;
                     let aggref_alt :=
                       {| aggfnoid := func_oid;
                          aggtype := aggtype aggref;
                          aggcollid := aggcollid aggref;
                          inputcollid := inputcollid aggref;
                          aggtranstype := agg_aggtranstype agg;
                          aggargtypes := [partfn_type];
                          aggdirectargs := None;
                          args := list_make1
                                    (Some (makeTargetEntry (Some partfn) 1 None false));
                          aggorder := None;
                          aggdistinct := None;
                          aggfilter := None;
                          aggstar := false;
                          aggvariadic := false;
                          aggkind := AGGKIND_NORMAL;
                          agglevelsup := 0;
                          aggsplit := AGGSPLIT_SIMPLE;
                          aggno := aggno aggref;
                          aggtransno := aggtransno aggref;
                          location := location aggref |} in
                     (* Update the cost factor *)
                     let costs := final_clause_costs con in
                     let costs :=
                       if OidIsValid (aggtransfn agg)
                       then {| transCost := add_function_cost (root con)
                                              (aggtransfn agg) (transCost costs);
                               finalCost := finalCost costs;
                               transitionSpace := transitionSpace costs |}
                       else costs in
                     let costs :=
                       if OidIsValid (aggfinalfn agg)
                       then {| transCost := transCost costs;
                               finalCost := add_function_cost (root con)
                                              (aggfinalfn agg) (finalCost costs);
                               transitionSpace := transitionSpace costs |}
                       else costs in
                     ret (Some (T_Aggref aggref_alt),
                          set_final_clause_costs costs con)
                 end
             end
         end
     end)%pg.

(** ** replace_expression_by_altfunc *)

Fixpoint replace_expression_by_altfunc_node (node : Node)
  (con : xpugroupby_build_path_context D) {struct node}
  : M D (option Node * xpugroupby_build_path_context D) :=
  match node with
  | T_Aggref aggref =>
      (* aggregate function? *)
      (r <- make_alternative_aggref con aggref ;;
       match fst r with
       | None => ret (None, set_device_executable false (snd r))
       | Some aggfn => ret (Some aggfn, snd r)
       end)%pg
  | _ =>
      (* grouping key? *)
      if existsb (fun key => equal node key) (groupby_keys (pp_info con))
      then ret (Some node, con)
      else
        match node with
        | T_Var _ _ _ _ _ _ | T_PlaceHolderVar _ _ _ =>
            elog "Bug? referenced variable is grouping-key nor its dependent key"
        | _ =>
            expression_tree_mutator
              (fun child context =>
                 match child with
                 | None => ret (None, context)
                 | Some n => replace_expression_by_altfunc_node n context
                 end)
              (Some node) con
        end
  end.

Definition replace_expression_by_altfunc (node : option Node)
  (con : xpugroupby_build_path_context D)
  : M D (option Node * xpugroupby_build_path_context D) :=
  match node with
  | None => ret (None, con)
  | Some n => replace_expression_by_altfunc_node n con
  end.

(** ** xpugroupby_build_path_target *)

Definition get_sortgroupref_clause_noerr (sortref : Z)
  (clauses : list SortGroupClause) : option SortGroupClause :=
  find (fun cl => Z.eqb (tleSortGroupRef cl) sortref) clauses.

Definition non_nil {A : Type} (l : list A) : bool :=
  match l with [] => false | _ :: _ => true end.

(** The first loop: over [target_upper->exprs], [i] counting the columns.
    The boolean of the result is [false] when the source returns false from
    inside the loop. *)
Fixpoint pick_up_upper_exprs (con : xpugroupby_build_path_context D)
  (upper_exprs : list Node) (i : nat) (groupby_keys_refno : list Z)
  : M D (bool * xpugroupby_build_path_context D * list Z) :=
  match upper_exprs with
  | [] => ret (true, con, groupby_keys_refno)
  | expr :: rest =>
      let sortgroupref := get_pathtarget_sortgroupref (target_upper con) i in
      let groupcl := groupClause (parse (root con)) in
      if negb (Z.eqb sortgroupref 0) && non_nil groupcl
         && non_null (get_sortgroupref_clause_noerr sortgroupref groupcl)
      then
        (* Grouping Key *)
        (type_oid <- lift (exprType (Some expr)) ;;
         match pgstrom_devtype_lookup type_oid with
         | None => ret (false, con, groupby_keys_refno)
         | Some dtype =>
             if negb (non_null (type_hashfunc dtype))
             then ret (false, con, groupby_keys_refno)
             else
               coll_oid <- lift (exprCollation (Some expr)) ;;
               if negb (non_null (devtype_lookup_equal_func dtype coll_oid))
               then ret (false, con, groupby_keys_refno)
               else if negb (pgstrom_xpu_expression (Some expr) (task_kind con)
                               (input_rels_tlist con))
               then ret (false, con, groupby_keys_refno)
               else
                 let con :=
                   set_target_final
                     (add_column_to_pathtarget (target_final con) expr sortgroupref)
                     con in
                 (* to be attached to target-partial later *)
                 let con :=
                   set_pp_info
                     (set_groupby_keys (groupby_keys (pp_info con) ++ [expr])
                                       (pp_info con))
                     con in
                 pick_up_upper_exprs con rest (S i)
                                     (groupby_keys_refno ++ [sortgroupref])
         end)%pg
      else
        match expr with
        | T_Aggref aggref =>
            (r <- make_alternative_aggref con aggref ;;
             match fst r with
             | None => ret (false, snd r, groupby_keys_refno)
             | Some altfn =>
                 expr_type <- lift (exprType (Some expr)) ;;
                 altfn_type <- lift (exprType (Some altfn)) ;;
                 if negb (N.eqb expr_type altfn_type)
                 then elog "Bug? XpuGroupBy catalog is not consistent"
                 else
                   let con :=
                     set_target_final
                       (add_column_to_pathtarget (target_final (snd r)) altfn 0)
                       (snd r) in
                   pick_up_upper_exprs con rest (S i) groupby_keys_refno
             end)%pg
        | _ => ret (false, con, groupby_keys_refno)
        end
  end.

(** The second loop: [forboth] over the grouping keys and their references.
    Due to data alignment on the tuple on the kds_final, grouping-keys must
    be located after the aggregate functions. *)
Fixpoint attach_groupby_keys (con : xpugroupby_build_path_context D)
  (keys : list Node) (refnos : list Z)
  : outcome (xpugroupby_build_path_context D) :=
  match keys, refnos with
  | key :: keys', keyref :: refnos' =>
      (_ <- Assert (Ret (0 <? keyref)) "keyref > 0" ;;
       let con :=
         set_target_partial
           (add_column_to_pathtarget (target_partial con) key keyref) con in
       let pp := pp_info con in
       let pp := set_groupby_actions (groupby_actions pp ++ [KAGG_ACTION__VREF]) pp in
       let pp := set_kvars_depth (kvars_depth pp ++ [-1]) pp in
       let pp := set_kvars_resno
                   (kvars_resno pp
                      ++ [Z.of_nat (length (exprs (target_partial con)))]) pp in
       attach_groupby_keys (set_pp_info pp con) keys' refnos')%pure
  | _, _ => Ret con
  end.

Definition xpugroupby_build_path_target (con : xpugroupby_build_path_context D)
  : M D (bool * xpugroupby_build_path_context D) :=
  (* Pick up grouping-keys and aggregate-functions to be replaced by
     a pair of final-aggregate and partial-function. *)
  (picked <- pick_up_upper_exprs con (exprs (target_upper con)) 0 [] ;;
   let '(proceed, con, groupby_keys_refno) := picked in
   if negb proceed then ret (false, con)
   else
     con <- lift (attach_groupby_keys con (groupby_keys (pp_info con))
                                      groupby_keys_refno) ;;
     (* HAVING clause *)
     replaced <-
       (match havingQual (parse (root con)) with
        | Some qual =>
            r <- replace_expression_by_altfunc (Some qual) con ;;
            match fst r with
            | None => ret (false, None, snd r)
            | Some q => ret (true, Some q, snd r)
            end
        | None => ret (true, None, con)
        end) ;;
     let '(proceed, havingQual, con) := replaced in
     if negb proceed then ret (false, con)
     else
       let con := set_con_havingQual havingQual con in
       let con := set_target_final
                    (set_pathtarget_cost_width (root con) (target_final con)) con in
       let con := set_target_partial
                    (set_pathtarget_cost_width (root con) (target_partial con)) con in
       ret (true, con))%pg.

(** ** prepend_partial_groupby_custompath *)

(** The device kinds of the repository's headers and the cost settings of
    the two devices live outside this file; they are parameters. *)
Variable DEVKIND__ANY : Z.
Variable DEVKIND__NVIDIA_GPU : Z.
Variable DEVKIND__NVIDIA_DPU : Z.
Variable pgstrom_gpu_operator_cost : D.
Variable pgstrom_gpu_tuple_cost : D.
Variable pgstrom_gpu_operator_ratio : D.
Variable pgstrom_dpu_operator_cost : D.
Variable pgstrom_dpu_tuple_cost : D.
Variable pgstrom_dpu_operator_ratio : D.

(** Parameters related to devices: [(xpu_operator_cost, xpu_tuple_cost, xpu_ratio)]. *)
Definition xpu_cost_parameters (kind : Z) : outcome (D * D * D) :=
  if Z.land kind DEVKIND__ANY =? DEVKIND__NVIDIA_GPU
  then Ret (pgstrom_gpu_operator_cost, pgstrom_gpu_tuple_cost,
            pgstrom_gpu_operator_ratio)
  else if Z.land kind DEVKIND__ANY =? DEVKIND__NVIDIA_DPU
  then Ret (pgstrom_dpu_operator_cost, pgstrom_dpu_tuple_cost,
            pgstrom_dpu_operator_ratio)
  else Elog "Bug? unexpected task_kind".

Definition prepend_partial_groupby_custompath
  (con : xpugroupby_build_path_context D) : outcome (Path D) :=
  let input := input_path con in
  (parameters <- xpu_cost_parameters (task_kind con) ;;
   let '(xpu_operator_cost, xpu_tuple_cost, xpu_ratio) := parameters in
   let startup_cost_1 := startup_cost input in
   let run_cost :=
     (total_cost input - startup_cost input - final_cost (pp_info con))%D in
   (* Cost estimation for grouping *)
   let num_group_keys :=
     d_of_Z (Z.of_nat (length (groupClause (parse (root con))))) in
   let startup_cost_2 :=
     (startup_cost_1 + xpu_operator_cost * num_group_keys * rows input)%D in
   (* Cost estimation for aggregate function *)
   let startup_cost_3 :=
     (startup_cost_2
      + (per_tuple (cost (target_partial con)) * rows input
         + startup (cost (target_partial con))) * xpu_ratio)%D in
   (* Cost estimation to fetch results *)
   let final_cost_1 := (xpu_tuple_cost * num_groups con)%D in
   let final_cost_2 :=
     if 0 <? parallel_workers input
     then (final_cost_1 * (d_half + d_of_Z (parallel_workers input)))%D
     else final_cost_1 in
   Ret {| pathtype := T_CustomScan;
          parent := parent input;
          pathtarget := target_partial con;
          param_info := param_info input;
          parallel_safe := parallel_safe input;
          parallel_aware := parallel_aware input;
          parallel_workers := parallel_workers input;
          rows := num_groups con;
          startup_cost := startup_cost_3;
          total_cost := (startup_cost_3 + run_cost + final_cost_2)%D;
          pathkeys := [];
          custom_paths := inner_paths_list con;
          custom_private := [pp_info con];
          methods := custom_path_methods con |})%pure.

(** ** try_add_final_groupby_paths *)

Inductive AggStrategy : Type := AGG_PLAIN | AGG_SORTED | AGG_HASHED | AGG_MIXED.

Variable create_agg_path :
  PlannerInfo D -> RelOptInfo -> Path D -> PathTarget D -> AggStrategy -> AggSplit ->
  list SortGroupClause -> option Node -> AggClauseCosts D -> D -> Path D.
Variable create_gather_path :
  PlannerInfo D -> RelOptInfo -> Path D -> PathTarget D -> option N -> D -> Path D.
Variable estimate_hashagg_tablesize :
  PlannerInfo D -> Path D -> AggClauseCosts D -> D -> D.
Variable work_mem : Z.
Variable add_path_to_list : list (Path D) -> Path D -> list (Path D).

Definition grouping_is_hashable (groupcl : list SortGroupClause) : bool :=
  forallb hashable groupcl.

(** [add_path(rel, path)] on the path list of the relation. *)
Definition add_path (rel : RelOptInfo) (new_path : Path D) : M D unit :=
  fun st =>
    (Ret tt,
     {| aggfunc_catalog_htable := aggfunc_catalog_htable st;
        pgstrom_enable_numeric_aggfuncs := pgstrom_enable_numeric_aggfuncs st;
        pathlist :=
          <[rel := add_path_to_list (default [] (pathlist st !! rel)) new_path]>
            (pathlist st) |}).

Definition try_add_final_groupby_paths (con : xpugroupby_build_path_context D)
  (part_path : Path D) : M D unit :=
  let parse := parse (root con) in
  if negb (non_nil (groupClause parse))
  then
    add_path (group_rel con)
      (create_agg_path (root con) (group_rel con) part_path (target_final con)
         AGG_PLAIN AGGSPLIT_SIMPLE (groupClause parse) (con_havingQual con)
         (final_clause_costs con) (num_groups con))
  else
    (lift (Assert (Ret (grouping_is_hashable (groupClause parse)))
                  "grouping_is_hashable(parse->groupClause)") ;;;
     let hashTableSz :=
       estimate_hashagg_tablesize (root con) part_path (final_clause_costs con)
                                  (num_groups con) in
     if dleb hashTableSz (d_of_Z work_mem * d_of_Z 1024)%D
     then
       add_path (group_rel con)
         (create_agg_path (root con) (group_rel con) part_path (target_final con)
            AGG_HASHED AGGSPLIT_SIMPLE (groupClause parse) (con_havingQual con)
            (final_clause_costs con) (num_groups con))
     else ret tt)%pg.

(** ** __xpupreagg_add_custompath and xpupreagg_add_custompath *)

Variable extract_input_path_params :
  Path D -> pgstromPlanInfo D * list N * list N.
Variable IS_SIMPLE_REL : RelOptInfo -> bool.
Variable buildXpuScanPath :
  PlannerInfo D -> RelOptInfo -> bool -> bool -> bool -> Z -> option (Path D).
Variable custom_path_find_cheapest :
  PlannerInfo D -> RelOptInfo -> bool -> Z -> option (Path D).

Record GroupPathExtraData : Type := mkGroupPathExtraData {
  targetList : option Node
}.
Variable get_sortgrouplist_exprs :
  list SortGroupClause -> option Node -> list Node.
Variable estimate_num_groups : PlannerInfo D -> list Node -> D -> D.

Definition create_empty_pathtarget : PathTarget D :=
  {| exprs := []; sortgrouprefs := [];
     cost := {| startup := d_of_Z 0; per_tuple := d_of_Z 0 |}; width := 0 |}.

Definition __xpupreagg_add_custompath (root : PlannerInfo D) (input_path : Path D)
  (group_rel : RelOptInfo) (extra : GroupPathExtraData)
  (try_parallel : bool) (num_groups : D) (task_kind : Z)
  (custom_path_methods : option N) : M D unit :=
  (* setup context *)
  let '(pp, rels_tlist, inner_paths) := extract_input_path_params input_path in
  let zero_cost := {| startup := d_of_Z 0; per_tuple := d_of_Z 0 |} in
  let con :=
    {| device_executable := true;
       root := root;
       group_rel := group_rel;
       num_groups := num_groups;
       input_path := input_path;
       target_upper := upper_target_group_agg root;
       target_partial := create_empty_pathtarget;
       target_final := create_empty_pathtarget;
       final_clause_costs := {| transCost := zero_cost; finalCost := zero_cost;
                                transitionSpace := 0 |};
       pp_info := pp;
       input_rels_tlist := rels_tlist;
       inner_paths_list := inner_paths;
       con_havingQual := None;
       task_kind := task_kind;
       custom_path_methods := custom_path_methods |} in
  (* construction of the target-list for each level *)
  (built <- xpugroupby_build_path_target con ;;
   if negb (fst built) then ret tt
   else
     let con := set_pp_info (set_pp_task_kind task_kind (pp_info (snd built)))
                            (snd built) in
     (* build partial groupby custom-path *)
     part_path <- lift (prepend_partial_groupby_custompath con) ;;
     (* prepend Gather if parallel-aware path *)
     if try_parallel
     then
       if parallel_aware part_path && (0 <? parallel_workers part_path)
       then
         let total_groups :=
           (rows part_path * d_of_Z (parallel_workers part_path))%D in
         try_add_final_groupby_paths con
           (create_gather_path root group_rel part_path (target_partial con)
                               None total_groups)
       else
         (* unable to inject parallel paths *)
         ret tt
     else
       (* try add final groupby path *)
       try_add_final_groupby_paths con part_path)%pg.

(** One turn of the [try_parallel] loop of the entry point.  The call of
    [__xpupreagg_add_custompath] passes [num_groups] fifth and
    [(try_parallel > 0)] sixth, where the callee declares
    [bool try_parallel, double num_groups]: C converts the double to bool
    (is it different from zero) and the int to double. *)
Definition xpupreagg_attempt (root : PlannerInfo D) (input_rel group_rel : RelOptInfo)
  (extra : GroupPathExtraData) (task_kind : Z) (custom_path_methods : option N)
  (try_parallel : Z) : M D unit :=
  let input_path :=
    if IS_SIMPLE_REL input_rel
    then buildXpuScanPath root input_rel (0 <? try_parallel) false true task_kind
    else custom_path_find_cheapest root input_rel (0 <? try_parallel) task_kind in
  match input_path with
  | None => ret tt
  | Some input_path =>
      let num_groups :=
        (* fetch num groups if GROUP BY exist *)
        if non_nil (groupClause (parse root))
        then estimate_num_groups root
               (get_sortgrouplist_exprs (groupClause (parse root)) (targetList extra))
               (rows input_path)
        else d_of_Z 1 in
      __xpupreagg_add_custompath root input_path group_rel extra
        (negb (deqb num_groups (d_of_Z 0)))
        (d_of_Z (if 0 <? try_parallel then 1 else 0))
        task_kind custom_path_methods
  end.

Definition xpupreagg_add_custompath (root : PlannerInfo D)
  (input_rel group_rel : RelOptInfo) (extra : GroupPathExtraData)
  (task_kind : Z) (custom_path_methods : option N) : M D unit :=
  (* quick bailout if not supported *)
  if non_null (groupingSets (parse root))
     || negb (grouping_is_hashable (groupClause (parse root)))
  then ret tt
  else
    (xpupreagg_attempt root input_rel group_rel extra task_kind
                       custom_path_methods 0 ;;;
     xpupreagg_attempt root input_rel group_rel extra task_kind
                       custom_path_methods 1)%pg.

(** ** What the specification fixes for each encoding action

    The second definition of the resolver's expectations, following the
    words of the specification: no argument and an 8-byte integer for the
    unconditional row count; one argument and an 8-byte integer for the
    conditional count and the integer sum; an 8-byte float for the float sum;
    the packed binary encoding for min, max, average and variance; two
    arguments and the packed encoding for covariance. *)
Definition claimed_partial_shape (action : kagg_action) : option (Z * Oid) :=
  match action with
  | KAGG_ACTION__NROWS_ANY => Some (0, INT8OID)
  | KAGG_ACTION__NROWS_COND => Some (1, INT8OID)
  | KAGG_ACTION__PSUM_INT => Some (1, INT8OID)
  | KAGG_ACTION__PSUM_FP => Some (1, FLOAT8OID)
  | KAGG_ACTION__PMIN_INT => Some (1, BYTEAOID)
  | KAGG_ACTION__PMIN_FP => Some (1, BYTEAOID)
  | KAGG_ACTION__PMAX_INT => Some (1, BYTEAOID)
  | KAGG_ACTION__PMAX_FP => Some (1, BYTEAOID)
  | KAGG_ACTION__PAVG_INT => Some (1, BYTEAOID)
  | KAGG_ACTION__PAVG_FP => Some (1, BYTEAOID)
  | KAGG_ACTION__STDDEV => Some (1, BYTEAOID)
  | KAGG_ACTION__COVAR => Some (2, BYTEAOID)
  | KAGG_ACTION__VREF => None
  | KAGG_ACTION__other _ => None
  end.

(** The live partial function of a catalog entry has the shape fixed for
    the entry's action. *)
Definition partial_func_conforms (cat : aggfunc_catalog_t)
  (pf_oid : Oid) (pf : Form_pg_proc) : Prop :=
  __aggfunc_resolve_func_signature (partfn_signature cat) = Ret pf_oid
  /\ PROCOID sc pf_oid = Some pf
  /\ claimed_partial_shape (partfn_action cat) = Some (pronargs pf, prorettype pf).

(** The live final function is an aggregate of one argument, of the type the
    partial function returns, and returns what the original aggregate
    returns. *)
Definition final_func_conforms (cat : aggfunc_catalog_t) (agg_rettype : Oid)
  (pf : Form_pg_proc) (ff_oid : Oid) (ff : Form_pg_proc) : Prop :=
  __aggfunc_resolve_func_signature (finalfn_signature cat) = Ret ff_oid
  /\ is_Some (AGGFNOID sc ff_oid)
  /\ PROCOID sc ff_oid = Some ff
  /\ proargtypes ff = [prorettype pf]
  /\ prorettype ff = agg_rettype.

Definition resolved_entry (aggfn : Oid) (cat : aggfunc_catalog_t)
  (pf_oid : Oid) (pf : Form_pg_proc) (ff_oid : Oid) : aggfunc_catalog_entry :=
  {| aggfn_oid := aggfn;
     final_func_oid := ff_oid;
     partial_func_oid := pf_oid;
     partial_func_rettype := prorettype pf;
     partial_func_nargs := pronargs pf;
     partial_func_action := partfn_action cat;
     numeric_aware := cat_numeric_aware cat;
     is_valid_entry := true |}.

(** ** The cost model in the words of the specification

    The second definition of the costs of the partial path, one formula per
    sentence of the specification, to be compared with the assignments of
    [prepend_partial_groupby_custompath]. *)
Definition spec_startup_cost (input_startup_cost operator_cost_per_key
  num_grouping_keys input_rows per_tuple_cost target_startup_cost
  device_operator_ratio : D) : D :=
  (input_startup_cost
   + operator_cost_per_key * num_grouping_keys * input_rows
   + (per_tuple_cost * input_rows + target_startup_cost) * device_operator_ratio)%D.

Definition spec_run_cost (input_total_cost input_startup_cost
  previously_known_final_cost : D) : D :=
  (input_total_cost - input_startup_cost - previously_known_final_cost)%D.

Definition spec_final_cost (device_tuple_transfer_cost estimated_num_groups : D)
  (parallel_worker_count : Z) : D :=
  if 0 <? parallel_worker_count
  then (device_tuple_transfer_cost * estimated_num_groups
        * (d_half + d_of_Z parallel_worker_count))%D
  else (device_tuple_transfer_cost * estimated_num_groups)%D.

Definition spec_total_cost (startup_cost run_cost final_cost : D) : D :=
  (startup_cost + run_cost + final_cost)%D.

(** * Properties *)

(** ** The resolver's cache *)

(** C9: for a cached entry whose numeric-aware flag is set, the lookup
    answers by the configuration flag as it is at the time of the lookup:
    with the flag off it returns a null pointer, with the flag on it returns
    the entry (when the entry is valid).  The lookup leaves the state, and so
    the cached entry, as it was; the same table therefore answers
    differently as soon as the flag is flipped. *)
Theorem numeric_toggle_is_read_at_lookup :
  forall (aggfn_oid : Oid) (h : gmap Oid aggfunc_catalog_entry)
         (e : aggfunc_catalog_entry) (st : pg_state D) (toggle : bool),
    aggfunc_catalog_htable st = Some h ->
    h !! aggfn_oid = Some e ->
    numeric_aware e = true ->
    aggfunc_catalog_lookup_by_oid aggfn_oid
        (set_pgstrom_enable_numeric_aggfuncs toggle st)
    = (Ret (if toggle && is_valid_entry e then Some e else None),
       set_pgstrom_enable_numeric_aggfuncs toggle st)
    /\ aggfunc_catalog_htable (set_pgstrom_enable_numeric_aggfuncs toggle st)
       = Some h.
Proof.
  intros aggfn_oid h e st toggle Hh He Hnum.
  split; [| exact Hh].
  unfold aggfunc_catalog_lookup_by_oid, bind, hash_create_if_null,
    hash_search_ENTER, entry_read, read_pgstrom_enable_numeric_aggfuncs, ret.
  cbn [aggfunc_catalog_htable set_pgstrom_enable_numeric_aggfuncs
       pgstrom_enable_numeric_aggfuncs].
  rewrite Hh. cbn [aggfunc_catalog_htable set_pgstrom_enable_numeric_aggfuncs
       pgstrom_enable_numeric_aggfuncs].
  rewrite Hh, He. cbn [aggfunc_catalog_htable set_pgstrom_enable_numeric_aggfuncs
       pgstrom_enable_numeric_aggfuncs].
  rewrite Hh, He, Hnum.
  destruct toggle, (is_valid_entry e); reflexivity.
Qed.

(** *** Running the resolver on a table that holds the entry

    [with_entry h key e st] is [st] with the table [h] in which [key] is
    bound to [e]: the shape of the state all along the population of an
    entry. *)

Definition with_entry (h : gmap Oid aggfunc_catalog_entry) (key : Oid)
  (e : aggfunc_catalog_entry) (st : pg_state D) : pg_state D :=
  set_htable (Some (<[key := e]> h)) st.

Definition cached (st : pg_state D) (key : Oid) : option aggfunc_catalog_entry :=
  match aggfunc_catalog_htable st with
  | Some h => h !! key
  | None => None
  end.

(** The error of a failed step, at the type of the whole computation. *)
Definition rethrow {A B : Type} (o : outcome A) : outcome B :=
  match o with
  | Ret _ => Undef
  | Elog msg => Elog msg
  | Trap msg => Trap msg
  | Undef => Undef
  end.

Lemma entry_write_with_entry h key e f st :
  entry_write key f (with_entry h key e st)
  = (Ret tt, with_entry h key (f e) st).
Proof.
  unfold entry_write, with_entry, set_htable. cbn.
  rewrite lookup_insert_eq. cbn. by rewrite insert_insert_eq.
Qed.

Lemma entry_read_with_entry h key e st :
  entry_read key (with_entry h key e st) = (Ret e, with_entry h key e st).
Proof.
  unfold entry_read, with_entry, set_htable. cbn.
  by rewrite lookup_insert_eq.
Qed.

Lemma cached_with_entry h key e st : cached (with_entry h key e st) key = Some e.
Proof. unfold cached, with_entry. cbn. apply lookup_insert_eq. Qed.

Lemma cached_with_entry_ne h key e st k :
  k <> key -> cached (with_entry h key e st) k = h !! k.
Proof. intros Hne. unfold cached, with_entry. cbn. by rewrite lookup_insert_ne. Qed.

Definition populate_partial (func_oid : Oid) (pf : Form_pg_proc)
  (partfn_action : kagg_action) (e : aggfunc_catalog_entry) : aggfunc_catalog_entry :=
  set_partial_func_action partfn_action
    (set_partial_func_nargs (pronargs pf)
       (set_partial_func_rettype (prorettype pf)
          (set_partial_func_oid func_oid e))).

Lemma resolve_partial_func_run h key e st signature partfn_action :
  __aggfunc_resolve_partial_func key signature partfn_action (with_entry h key e st)
  = match __aggfunc_resolve_func_signature signature with
    | Ret func_oid =>
        match partfn_expectation partfn_action with
        | Ret (func_nargs, type_oid) =>
            match PROCOID sc func_oid with
            | Some pf =>
                (if negb (N.eqb (prorettype pf) type_oid)
                    || negb (Z.eqb (pronargs pf) func_nargs)
                 then Elog "Catalog curruption? partial function mismatch"
                 else Ret tt,
                 with_entry h key (populate_partial func_oid pf partfn_action e) st)
            | None =>
                (Elog "cache lookup failed for function",
                 with_entry h key (set_partial_func_oid func_oid e) st)
            end
        | failed => (rethrow failed, with_entry h key e st)
        end
    | failed => (rethrow failed, with_entry h key e st)
    end.
Proof.
  unfold __aggfunc_resolve_partial_func, bind, lift.
  destruct (__aggfunc_resolve_func_signature signature) as [func_oid| | |];
    try reflexivity.
  destruct (partfn_expectation partfn_action) as [[func_nargs type_oid]| | |];
    try reflexivity.
  cbn [fst snd]. rewrite entry_write_with_entry.
  unfold get_func_rettype, get_func_nargs.
  destruct (PROCOID sc func_oid) as [pf|]; [| reflexivity].
  rewrite !entry_write_with_entry, entry_read_with_entry.
  unfold populate_partial, elog, lift, ret. cbn.
  destruct (negb (N.eqb (prorettype pf) type_oid)
            || negb (Z.eqb (pronargs pf) func_nargs)); reflexivity.
Qed.

Lemma resolve_final_func_run h key e st signature agg_rettype :
  __aggfunc_resolve_final_func key signature agg_rettype (with_entry h key e st)
  = match __aggfunc_resolve_func_signature signature with
    | Ret func_oid =>
        match AGGFNOID sc func_oid with
        | None => (Elog "Catalog corruption? final function mismatch",
                   with_entry h key e st)
        | Some _ =>
            match PROCOID sc func_oid with
            | None => (Elog "cache lookup failed for function", with_entry h key e st)
            | Some ff =>
                if negb (N.eqb (prorettype ff) agg_rettype)
                then (Elog "Catalog corruption? final function mismatch",
                      with_entry h key e st)
                else if negb (Z.eqb (pronargs ff) 1)
                        || match proargtypes ff with
                           | [value0] => negb (N.eqb value0 (partial_func_rettype e))
                           | _ => true
                           end
                then (Elog "Catalog corruption? final function mismatch",
                      with_entry h key e st)
                else (Ret tt, with_entry h key (set_final_func_oid func_oid e) st)
            end
        end
    | failed => (rethrow failed, with_entry h key e st)
    end.
Proof.
  unfold __aggfunc_resolve_final_func, bind, lift.
  destruct (__aggfunc_resolve_func_signature signature) as [func_oid| | |];
    try reflexivity.
  destruct (AGGFNOID sc func_oid) as [agg|]; [| reflexivity].
  unfold get_func_rettype.
  destruct (PROCOID sc func_oid) as [ff|]; [| reflexivity].
  unfold ret. cbn.
  destruct (negb (N.eqb (prorettype ff) agg_rettype)); [reflexivity |].
  rewrite entry_read_with_entry.
  destruct (negb (Z.eqb (pronargs ff) 1)
            || match proargtypes ff with
               | [value0] => negb (N.eqb value0 (partial_func_rettype e))
               | _ => true
               end); [reflexivity |].
  apply entry_write_with_entry.
Qed.

Lemma catalog_scan_first_match entry buf proc cats cat :
  find (fun c => String.eqb buf (aggfn_signature c)) cats = Some cat ->
  catalog_scan entry buf proc cats
  = (__aggfunc_resolve_partial_func entry (partfn_signature cat) (partfn_action cat) ;;;
     __aggfunc_resolve_final_func entry (finalfn_signature cat) (prorettype proc) ;;;
     entry_write entry (set_numeric_aware (cat_numeric_aware cat)) ;;;
     entry_write entry (set_is_valid_entry true))%pg.
Proof.
  induction cats as [|c rest IH]; cbn; [discriminate |].
  destruct (String.eqb buf (aggfn_signature c)).
  - intros [= ->]. reflexivity.
  - exact IH.
Qed.

Lemma catalog_scan_no_match entry buf proc cats :
  find (fun c => String.eqb buf (aggfn_signature c)) cats = None ->
  catalog_scan entry buf proc cats = ret tt.
Proof.
  induction cats as [|c rest IH]; cbn; [reflexivity |].
  destruct (String.eqb buf (aggfn_signature c)); [discriminate | exact IH].
Qed.

(** The pure steps of the resolver end by returning or by [elog]. *)
Definition returns_or_raises {A : Type} (o : outcome A) : Prop :=
  match o with
  | Ret _ | Elog _ => True
  | Trap _ | Undef => False
  end.

Lemma resolve_argtypes_returns_or_raises toks :
  returns_or_raises (resolve_argtypes toks).
Proof.
  induction toks as [|tok rest IH]; cbn; [exact I |].
  destruct (OidIsValid _); [| exact I].
  destruct (resolve_argtypes rest); cbn in *; auto.
Qed.

Lemma resolve_func_signature_returns_or_raises signature :
  returns_or_raises (__aggfunc_resolve_func_signature signature).
Proof.
  unfold __aggfunc_resolve_func_signature, get_namespace_oid.
  assert (Hns : returns_or_raises
                  (if String.prefix "c:" signature then Ret PG_CATALOG_NAMESPACE
                   else if String.prefix "s:" signature
                        then (if OidIsValid (NAMESPACENAME sc "pgstrom")
                              then Ret (NAMESPACENAME sc "pgstrom")
                              else Elog "schema does not exist")
                        else Elog "wrong function signature")).
  { repeat (case_match; cbn; try exact I). }
  cbn [negb] in *.
  destruct (if String.prefix "c:" signature then _ else _) as [ns| | |];
    cbn in *; try exact I; try contradiction.
  destruct (strchr_cut _ _) as [[fn_name base]|]; [| exact I].
  destruct (strchr_cut _ base) as [[base' rest]|]; [| exact I].
  pose proof (resolve_argtypes_returns_or_raises (strtok_r ","%char EmptyString base')) as Hargs.
  destruct (resolve_argtypes _); cbn in *; try exact I; try contradiction.
  destruct (OidIsValid _); exact I.
Qed.

Lemma partfn_expectation_returns_or_raises partfn_action :
  returns_or_raises (partfn_expectation partfn_action).
Proof. destruct partfn_action; exact I. Qed.

(** The two parts of [aggfunc_catalog_lookup_by_oid]: the block under
    PG_TRY that fills a new entry, and the statements after PG_END_TRY that
    hand the entry out. *)
Definition population (aggfn_oid : Oid) : M D unit :=
  match PROCOID sc aggfn_oid with
  | None => elog "cache lookup failed for function"
  | Some proc =>
      if N.eqb (pronamespace proc) PG_CATALOG_NAMESPACE && (pronargs proc <=? 2)
      then (buf <- lift (sprintf_signature proc) ;;
            catalog_scan aggfn_oid buf proc aggfunc_catalog_array)%pg
      else ret tt
  end.

Definition hand_out (aggfn_oid : Oid) : M D (option aggfunc_catalog_entry) :=
  (entry <- entry_read aggfn_oid ;;
   enable_numeric <- read_pgstrom_enable_numeric_aggfuncs ;;
   if negb (is_valid_entry entry) then ret None
   else if numeric_aware entry && negb enable_numeric then ret None
   else ret (Some entry))%pg.

Lemma lookup_by_oid_unfold aggfn_oid :
  aggfunc_catalog_lookup_by_oid aggfn_oid
  = (hash_create_if_null ;;;
     found <- hash_search_ENTER aggfn_oid ;;
     (if found : bool then ret tt
      else
        entry_write aggfn_oid (set_is_valid_entry false) ;;;
        PG_TRY (population aggfn_oid)
               (fun msg => hash_search_REMOVE aggfn_oid ;;; PG_RE_THROW msg)) ;;;
     hand_out aggfn_oid)%pg.
Proof. reflexivity. Qed.

Lemma lookup_cached aggfn_oid e st :
  cached st aggfn_oid = Some e ->
  aggfunc_catalog_lookup_by_oid aggfn_oid st = hand_out aggfn_oid st.
Proof.
  unfold cached. intros Hc.
  rewrite lookup_by_oid_unfold.
  unfold bind at 1. unfold hash_create_if_null.
  destruct (aggfunc_catalog_htable st) as [h|] eqn:Hh; [| discriminate].
  unfold bind at 1. unfold hash_search_ENTER. rewrite Hh, Hc.
  reflexivity.
Qed.

(** The state in which the population of a new entry starts. *)
Definition population_start (aggfn_oid : Oid) (st : pg_state D) : pg_state D :=
  with_entry (default ∅ (aggfunc_catalog_htable st)) aggfn_oid
             (set_is_valid_entry false (fresh_entry aggfn_oid)) st.

Lemma lookup_uncached aggfn_oid st :
  cached st aggfn_oid = None ->
  aggfunc_catalog_lookup_by_oid aggfn_oid st
  = match population aggfn_oid (population_start aggfn_oid st) with
    | (Ret _, st1) => hand_out aggfn_oid st1
    | (Elog msg, st1) =>
        match hash_search_REMOVE aggfn_oid st1 with
        | (Ret _, st2) => (Elog msg, st2)
        | (failed, st2) => (rethrow failed, st2)
        end
    | (failed, st1) => (rethrow failed, st1)
    end.
Proof.
  unfold cached, population_start. intros Hc.
  rewrite lookup_by_oid_unfold.
  assert (Hstart :
    forall h, h !! aggfn_oid = None ->
      (entry_write aggfn_oid (set_is_valid_entry false))
        (set_htable (Some (<[aggfn_oid := fresh_entry aggfn_oid]> h)) st)
      = (Ret tt, with_entry h aggfn_oid
                   (set_is_valid_entry false (fresh_entry aggfn_oid)) st)).
  { intros h _. apply (entry_write_with_entry h aggfn_oid (fresh_entry aggfn_oid)). }
  unfold bind at 1. unfold hash_create_if_null.
  destruct (aggfunc_catalog_htable st) as [h|] eqn:Hh.
  - unfold bind at 1. unfold hash_search_ENTER. rewrite Hh, Hc.
    unfold bind at 1. unfold bind at 1.
    rewrite (Hstart h Hc). cbn [default].
    unfold PG_TRY, PG_RE_THROW, elog, lift.
    destruct (population aggfn_oid _) as [[[]|msg|msg|] st1]; try reflexivity.
    unfold bind.
    destruct (hash_search_REMOVE aggfn_oid st1) as [[[]|msg'|msg'|] st2];
      reflexivity.
  - unfold bind at 1. unfold hash_search_ENTER.
    cbn [aggfunc_catalog_htable set_htable]. rewrite lookup_empty.
    unfold bind at 1. unfold bind at 1.
    assert (Hst : set_htable (Some (<[aggfn_oid := fresh_entry aggfn_oid]> ∅))
                    (set_htable (Some ∅) st)
                  = set_htable (Some (<[aggfn_oid := fresh_entry aggfn_oid]> ∅)) st)
      by reflexivity.
    rewrite Hst, (Hstart ∅ (lookup_empty _)). cbn [default].
    unfold PG_TRY, PG_RE_THROW, elog, lift.
    destruct (population aggfn_oid _) as [[[]|msg|msg|] st1]; try reflexivity.
    unfold bind.
    destruct (hash_search_REMOVE aggfn_oid st1) as [[[]|msg'|msg'|] st2];
      reflexivity.
Qed.

Lemma hand_out_never_raises aggfn_oid st msg st' :
  hand_out aggfn_oid st <> (Elog msg, st').
Proof.
  unfold hand_out, bind, entry_read, read_pgstrom_enable_numeric_aggfuncs, ret.
  destruct (aggfunc_catalog_htable st) as [h|]; [| discriminate].
  destruct (h !! aggfn_oid) as [e|]; [| discriminate].
  destruct (negb (is_valid_entry e)); [discriminate |].
  destruct (numeric_aware e && negb (pgstrom_enable_numeric_aggfuncs st));
    discriminate.
Qed.

Lemma hand_out_with_entry h key e st :
  hand_out key (with_entry h key e st)
  = (Ret (if negb (is_valid_entry e) then None
          else if numeric_aware e && negb (pgstrom_enable_numeric_aggfuncs st)
               then None
               else Some e),
     with_entry h key e st).
Proof.
  unfold hand_out, bind. rewrite entry_read_with_entry.
  unfold read_pgstrom_enable_numeric_aggfuncs, ret. cbn.
  destruct (negb (is_valid_entry e)); [reflexivity |].
  destruct (numeric_aware e && negb (pgstrom_enable_numeric_aggfuncs st));
    reflexivity.
Qed.

(** Whatever happens while an entry is filled, only that entry of the
    table changes. *)
Lemma catalog_entry_keeps_shape h key e st cat agg_rettype :
  exists e',
    snd ((__aggfunc_resolve_partial_func key (partfn_signature cat) (partfn_action cat) ;;;
          __aggfunc_resolve_final_func key (finalfn_signature cat) agg_rettype ;;;
          entry_write key (set_numeric_aware (cat_numeric_aware cat)) ;;;
          entry_write key (set_is_valid_entry true))%pg (with_entry h key e st))
    = with_entry h key e' st.
Proof.
  unfold bind at 1. rewrite resolve_partial_func_run.
  destruct (__aggfunc_resolve_func_signature (partfn_signature cat)) as [pf_oid| | |];
    cbn [rethrow snd]; eauto.
  destruct (partfn_expectation (partfn_action cat)) as [[n t]| | |];
    cbn [rethrow snd]; eauto.
  destruct (PROCOID sc pf_oid) as [pf|]; cbn [snd]; eauto.
  destruct (negb (N.eqb (prorettype pf) t) || negb (Z.eqb (pronargs pf) n));
    cbn [snd]; eauto.
  unfold bind at 1. rewrite resolve_final_func_run.
  destruct (__aggfunc_resolve_func_signature (finalfn_signature cat)) as [ff_oid| | |];
    cbn [rethrow snd]; eauto.
  destruct (AGGFNOID sc ff_oid); cbn [snd]; eauto.
  destruct (PROCOID sc ff_oid) as [ff|]; cbn [snd]; eauto.
  destruct (negb (N.eqb (prorettype ff) agg_rettype)); cbn [snd]; eauto.
  match goal with |- context [if ?b then _ else _] => destruct b end;
    cbn [snd]; eauto.
  unfold bind. rewrite !entry_write_with_entry. cbn [snd]. eauto.
Qed.

Lemma catalog_scan_keeps_shape h key e st buf proc cats :
  exists e', snd (catalog_scan key buf proc cats (with_entry h key e st))
             = with_entry h key e' st.
Proof.
  induction cats as [|cat rest IH]; cbn [catalog_scan].
  - exists e. reflexivity.
  - destruct (String.eqb buf (aggfn_signature cat)); [| exact IH].
    apply catalog_entry_keeps_shape.
Qed.

Lemma population_keeps_shape h key e st :
  exists e', snd (population key (with_entry h key e st)) = with_entry h key e' st.
Proof.
  unfold population.
  destruct (PROCOID sc key) as [proc|]; [| exists e; reflexivity].
  destruct (N.eqb (pronamespace proc) PG_CATALOG_NAMESPACE && (pronargs proc <=? 2));
    [| exists e; reflexivity].
  unfold bind, lift.
  destruct (sprintf_signature proc) as [buf| | |]; try (exists e; reflexivity).
  apply catalog_scan_keeps_shape.
Qed.

(** C4: when a lookup ends by an error, the entry it was filling is gone
    from the table: the identifier is unbound again, every other binding,
    the configuration flag and the path lists are as before the lookup, and
    the next [hash_search] for the identifier reports a new entry. *)
Theorem failed_population_removes_the_entry :
  forall (aggfn_oid : Oid) (st st' : pg_state D) (msg : string),
    aggfunc_catalog_lookup_by_oid aggfn_oid st = (Elog msg, st') ->
    cached st' aggfn_oid = None
    /\ (forall k, cached st' k = cached st k)
    /\ pgstrom_enable_numeric_aggfuncs st' = pgstrom_enable_numeric_aggfuncs st
    /\ pathlist st' = pathlist st
    /\ fst (hash_search_ENTER aggfn_oid st') = Ret false.
Proof.
  intros aggfn_oid st st' msg Hrun.
  destruct (cached st aggfn_oid) as [e|] eqn:Hc.
  { rewrite (lookup_cached _ _ _ Hc) in Hrun.
    exfalso. exact (hand_out_never_raises _ _ _ _ Hrun). }
  rewrite (lookup_uncached _ _ Hc) in Hrun.
  unfold population_start in Hrun.
  destruct (population_keeps_shape (default ∅ (aggfunc_catalog_htable st)) aggfn_oid
              (set_is_valid_entry false (fresh_entry aggfn_oid)) st) as [e' He'].
  destruct (population aggfn_oid _) as [[[]|msg1|msg1|] st1];
    cbn [snd rethrow] in *.
  - exfalso. exact (hand_out_never_raises _ _ _ _ Hrun).
  - subst st1.
    unfold hash_search_REMOVE, with_entry in Hrun.
    cbn [aggfunc_catalog_htable set_htable] in Hrun.
    injection Hrun as _ <-.
    assert (Hdel : delete aggfn_oid
                     (<[aggfn_oid := e']> (default ∅ (aggfunc_catalog_htable st)))
                   = default ∅ (aggfunc_catalog_htable st)).
    { rewrite delete_insert_eq. apply delete_id.
      unfold cached in Hc. destruct (aggfunc_catalog_htable st); [exact Hc |].
      apply lookup_empty. }
    unfold cached, hash_search_ENTER.
    cbn [aggfunc_catalog_htable set_htable pgstrom_enable_numeric_aggfuncs pathlist].
    rewrite Hdel.
    assert (Hsame : forall k, default ∅ (aggfunc_catalog_htable st) !! k = cached st k).
    { intros k. unfold cached. destruct (aggfunc_catalog_htable st); [reflexivity |].
      apply lookup_empty. }
    repeat split.
    + rewrite Hsame. exact Hc.
    + exact Hsame.
    + rewrite Hsame, Hc. reflexivity.
  - discriminate Hrun.
  - discriminate Hrun.
Qed.

(** ** The checks of the resolver *)

Lemma partfn_expectation_claimed action :
  partfn_expectation action
  = match claimed_partial_shape action with
    | Some shape => Ret shape
    | None => Elog "Catalog corruption? unknown action"
    end.
Proof. destruct action; reflexivity. Qed.

Lemma one_argument_of_type (types : list Oid) (ty : Oid) :
  (negb (Z.of_nat (length types) =? 1)
   || match types with
      | [value0] => negb (N.eqb value0 ty)
      | _ => true
      end) = false
  <-> types = [ty].
Proof.
  destruct types as [|value0 [|value1 rest]]; cbn.
  - split; discriminate.
  - destruct (N.eqb_spec value0 ty) as [->|Hne]; cbn; split; try done.
    intros [= ->]. done.
  - split; [| discriminate].
    rewrite orb_true_r. discriminate.
Qed.

(** Filling the entry of one matching line of the static catalog: it
    returns exactly when the live functions conform, and raises otherwise. *)
Lemma catalog_entry_run h key e st cat agg_rettype :
  let run :=
    (__aggfunc_resolve_partial_func key (partfn_signature cat) (partfn_action cat) ;;;
     __aggfunc_resolve_final_func key (finalfn_signature cat) agg_rettype ;;;
     entry_write key (set_numeric_aware (cat_numeric_aware cat)) ;;;
     entry_write key (set_is_valid_entry true))%pg (with_entry h key e st) in
  (exists pf_oid pf ff_oid ff,
      partial_func_conforms cat pf_oid pf
      /\ final_func_conforms cat agg_rettype pf ff_oid ff
      /\ run = (Ret tt,
                with_entry h key
                  (set_is_valid_entry true
                     (set_numeric_aware (cat_numeric_aware cat)
                        (set_final_func_oid ff_oid
                           (populate_partial pf_oid pf (partfn_action cat) e))))
                  st))
  \/ (~ (exists pf_oid pf ff_oid ff,
            partial_func_conforms cat pf_oid pf
            /\ final_func_conforms cat agg_rettype pf ff_oid ff)
      /\ exists msg e', run = (Elog msg, with_entry h key e' st)).
Proof.
  intros run.
  assert (Hrun : run = run) by reflexivity.
  unfold run at 2 in Hrun. clearbody run.
  unfold partial_func_conforms, final_func_conforms.
  unfold bind at 1 in Hrun. rewrite resolve_partial_func_run in Hrun.
  pose proof (resolve_func_signature_returns_or_raises (partfn_signature cat)) as Hp.
  destruct (__aggfunc_resolve_func_signature (partfn_signature cat))
    as [pf_oid|msg| |]; cbn in Hp; try contradiction.
  2:{ right. split; [| rewrite Hrun; cbn; eauto].
      intros (? & ? & ? & ? & (? & _) & _). discriminate. }
  rewrite partfn_expectation_claimed in Hrun.
  destruct (claimed_partial_shape (partfn_action cat)) as [[n t]|] eqn:Hshape.
  2:{ right. split; [| rewrite Hrun; cbn; eauto].
      intros (? & ? & ? & ? & (_ & _ & ?) & _). discriminate. }
  destruct (PROCOID sc pf_oid) as [pf|] eqn:Hpf.
  2:{ right. split; [| rewrite Hrun; cbn; eauto].
      intros (? & ? & ? & ? & (? & ? & _) & _). congruence. }
  destruct (N.eqb_spec (prorettype pf) t) as [Ht|Ht]; cbn [negb orb] in Hrun.
  2:{ right. split; [| rewrite Hrun; eauto].
      intros (? & ? & ? & ? & (? & ? & ?) & _). congruence. }
  destruct (Z.eqb_spec (pronargs pf) n) as [Hn|Hn]; cbn [negb] in Hrun.
  2:{ right. split; [| rewrite Hrun; eauto].
      intros (? & ? & ? & ? & (? & ? & ?) & _). congruence. }
  subst n t.
  unfold bind at 1 in Hrun. rewrite resolve_final_func_run in Hrun.
  pose proof (resolve_func_signature_returns_or_raises (finalfn_signature cat)) as Hf.
  destruct (__aggfunc_resolve_func_signature (finalfn_signature cat))
    as [ff_oid|msg| |]; cbn in Hf; try contradiction.
  2:{ right. split; [| rewrite Hrun; cbn; eauto].
      intros (? & ? & ? & ? & _ & (? & _)). discriminate. }
  destruct (AGGFNOID sc ff_oid) as [agg|] eqn:Hagg.
  2:{ right. split; [| rewrite Hrun; eauto].
      intros (? & ? & ? & ? & _ & (? & [? ?] & _)). congruence. }
  destruct (PROCOID sc ff_oid) as [ff|] eqn:Hff.
  2:{ right. split; [| rewrite Hrun; eauto].
      intros (? & ? & ? & ? & _ & (? & _ & ? & _)). congruence. }
  destruct (N.eqb_spec (prorettype ff) agg_rettype) as [Hret|Hret];
    cbn [negb] in Hrun.
  2:{ right. split; [| rewrite Hrun; eauto].
      intros (? & ? & ? & ? & _ & (? & _ & ? & _ & ?)). congruence. }
  match type of Hrun with context [if ?b then _ else _] => destruct b eqn:Hone end.
  { right. split; [| rewrite Hrun; eauto].
    intros (pf_oid' & pf' & ff_oid' & ff' & (? & ? & _) & (? & _ & ? & Hargs & _)).
    assert (pf' = pf) by congruence. assert (ff' = ff) by congruence. subst pf' ff'.
    apply one_argument_of_type in Hargs. cbn in Hone. unfold pronargs in Hone.
    congruence. }
  left. exists pf_oid, pf, ff_oid, ff.
  apply one_argument_of_type in Hone.
  repeat split; eauto.
  rewrite Hrun. unfold bind. rewrite !entry_write_with_entry. reflexivity.
Qed.

(** C2: for a function of pg_catalog with at most two arguments whose
    printed signature is a line of the static catalog, a first lookup
    returns only when the live partial function has the argument count and
    result type fixed for the line's action and the live final function is
    an aggregate of one argument of that type returning what the aggregate
    returns; the entry cached then records these functions.  In every other
    case the lookup ends by [elog(ERROR)]: it never returns "not resolvable"
    for a mismatch, and it never stops in another way. *)
Theorem resolver_checks_partial_and_final_functions :
  forall (aggfn_oid : Oid) (proc : Form_pg_proc) (buf : string)
         (cat : aggfunc_catalog_t) (st : pg_state D),
    cached st aggfn_oid = None ->
    PROCOID sc aggfn_oid = Some proc ->
    pronamespace proc = PG_CATALOG_NAMESPACE ->
    pronargs proc <= 2 ->
    sprintf_signature proc = Ret buf ->
    find (fun c => String.eqb buf (aggfn_signature c)) aggfunc_catalog_array
      = Some cat ->
    match aggfunc_catalog_lookup_by_oid aggfn_oid st with
    | (Ret r, st') =>
        exists pf_oid pf ff_oid ff,
          partial_func_conforms cat pf_oid pf
          /\ final_func_conforms cat (prorettype proc) pf ff_oid ff
          /\ cached st' aggfn_oid
               = Some (resolved_entry aggfn_oid cat pf_oid pf ff_oid)
          /\ r = (if cat_numeric_aware cat
                       && negb (pgstrom_enable_numeric_aggfuncs st)
                  then None
                  else Some (resolved_entry aggfn_oid cat pf_oid pf ff_oid))
    | (Elog _, _) =>
        ~ (exists pf_oid pf ff_oid ff,
              partial_func_conforms cat pf_oid pf
              /\ final_func_conforms cat (prorettype proc) pf ff_oid ff)
    | (Trap _, _) | (Undef, _) => False
    end.
Proof.
  intros aggfn_oid proc buf cat st Hc Hproc Hns Hnargs Hbuf Hfind.
  rewrite (lookup_uncached _ _ Hc).
  unfold population_start, population.
  rewrite Hproc, Hns, N.eqb_refl.
  apply Z.leb_le in Hnargs. rewrite Hnargs. cbn [andb].
  unfold bind at 1. unfold lift at 1. rewrite Hbuf.
  rewrite (catalog_scan_first_match _ _ _ _ _ Hfind).
  destruct (catalog_entry_run (default ∅ (aggfunc_catalog_htable st)) aggfn_oid
              (set_is_valid_entry false (fresh_entry aggfn_oid)) st cat
              (prorettype proc))
    as [(pf_oid & pf & ff_oid & ff & Hpart & Hfinal & ->)
       | (Hnot & msg & e' & ->)].
  - rewrite hand_out_with_entry.
    exists pf_oid, pf, ff_oid, ff.
    rewrite cached_with_entry.
    split; [exact Hpart |]. split; [exact Hfinal |].
    split; reflexivity.
  - unfold hash_search_REMOVE, with_entry.
    cbn [aggfunc_catalog_htable set_htable]. exact Hnot.
Qed.

(** ** The rewriter *)

(** The resolver has no usable entry for a function outside pg_catalog or
    with more than two arguments. *)
Lemma lookup_rejects_by_namespace_and_arity aggfn_oid proc st :
  cached st aggfn_oid = None ->
  PROCOID sc aggfn_oid = Some proc ->
  pronamespace proc <> PG_CATALOG_NAMESPACE \/ 2 < pronargs proc ->
  exists st', aggfunc_catalog_lookup_by_oid aggfn_oid st = (Ret None, st').
Proof.
  intros Hc Hproc Hguard.
  rewrite (lookup_uncached _ _ Hc).
  unfold population_start, population. rewrite Hproc.
  assert (Hfalse : N.eqb (pronamespace proc) PG_CATALOG_NAMESPACE
                   && (pronargs proc <=? 2) = false).
  { destruct Hguard as [Hns | Hn].
    - apply N.eqb_neq in Hns. rewrite Hns. reflexivity.
    - apply Z.leb_gt in Hn. rewrite Hn. apply andb_false_r. }
  rewrite Hfalse. unfold ret at 1.
  rewrite hand_out_with_entry. cbn. eauto.
Qed.

(** The resolver has no usable entry either for a function whose printed
    signature is not a line of the static catalog. *)
Lemma lookup_rejects_unlisted_signature aggfn_oid proc buf st :
  cached st aggfn_oid = None ->
  PROCOID sc aggfn_oid = Some proc ->
  sprintf_signature proc = Ret buf ->
  find (fun c => String.eqb buf (aggfn_signature c)) aggfunc_catalog_array = None ->
  exists st', aggfunc_catalog_lookup_by_oid aggfn_oid st = (Ret None, st').
Proof.
  intros Hc Hproc Hbuf Hfind.
  rewrite (lookup_uncached _ _ Hc).
  unfold population_start, population. rewrite Hproc.
  destruct (N.eqb (pronamespace proc) PG_CATALOG_NAMESPACE && (pronargs proc <=? 2)).
  - unfold bind at 1. unfold lift at 1. rewrite Hbuf.
    rewrite (catalog_scan_no_match _ _ _ _ Hfind). unfold ret at 1.
    rewrite hand_out_with_entry. cbn. eauto.
  - unfold ret at 1. rewrite hand_out_with_entry. cbn. eauto.
Qed.

(** An aggregate call for whose function the resolver has no usable entry
    is declined: the rewriter returns a null pointer, the context is as it
    was and no error is raised.  That is the case for every function
    outside pg_catalog, for every function with more than two arguments and
    for every function whose signature the static catalog does not list.
    The variadic flag of the call is read on none of these paths. *)
Lemma aggregate_without_entry_is_declined :
  forall (con : xpugroupby_build_path_context D) (aggref : Aggref)
         (st : pg_state D),
    (forall st',
        aggfunc_catalog_lookup_by_oid (aggfnoid aggref) st = (Ret None, st') ->
        exists st'', make_alternative_aggref con aggref st = (Ret (None, con), st''))
    /\ (forall proc,
           cached st (aggfnoid aggref) = None ->
           PROCOID sc (aggfnoid aggref) = Some proc ->
           pronamespace proc <> PG_CATALOG_NAMESPACE \/ 2 < pronargs proc ->
           exists st'', make_alternative_aggref con aggref st = (Ret (None, con), st''))
    /\ (forall proc buf,
           cached st (aggfnoid aggref) = None ->
           PROCOID sc (aggfnoid aggref) = Some proc ->
           sprintf_signature proc = Ret buf ->
           find (fun c => String.eqb buf (aggfn_signature c)) aggfunc_catalog_array
           = None ->
           exists st'', make_alternative_aggref con aggref st = (Ret (None, con), st'')).
Proof.
  intros con aggref st.
  assert (Hnone : forall st',
    aggfunc_catalog_lookup_by_oid (aggfnoid aggref) st = (Ret None, st') ->
    exists st'', make_alternative_aggref con aggref st = (Ret (None, con), st'')).
  { intros st' Hlookup. unfold make_alternative_aggref.
    destruct (_ || _); [eauto |].
    destruct (AGGKIND_IS_ORDERED_SET _); [eauto |].
    unfold bind. rewrite Hlookup. eauto. }
  split; [exact Hnone |]. split.
  - intros proc Hc Hproc Hguard.
    destruct (lookup_rejects_by_namespace_and_arity _ _ _ Hc Hproc Hguard)
      as [st' Hlookup].
    exact (Hnone st' Hlookup).
  - intros proc buf Hc Hproc Hbuf Hfind.
    destruct (lookup_rejects_unlisted_signature _ _ _ _ Hc Hproc Hbuf Hfind)
      as [st' Hlookup].
    exact (Hnone st' Hlookup).
Qed.

(** ** The cost model of the partial path *)

(** What the formulas of the specification say of a path, for the three
    parameters of a device. *)
Definition follows_the_cost_model (con : xpugroupby_build_path_context D)
  (operator_cost_per_key device_tuple_transfer_cost device_operator_ratio : D)
  (path : Path D) : Prop :=
  startup_cost path
  = spec_startup_cost
      (startup_cost (input_path con))
      operator_cost_per_key
      (d_of_Z (Z.of_nat (length (groupClause (parse (root con))))))
      (rows (input_path con))
      (per_tuple (cost (target_partial con)))
      (startup (cost (target_partial con)))
      device_operator_ratio
  /\ total_cost path
     = spec_total_cost
         (startup_cost path)
         (spec_run_cost (total_cost (input_path con))
                        (startup_cost (input_path con))
                        (final_cost (pp_info con)))
         (spec_final_cost device_tuple_transfer_cost (num_groups con)
                          (parallel_workers (input_path con)))
  /\ rows path = num_groups con.

(** The costs of the partial path, device by device.  For a GPU task the
    assembler returns a path whose startup cost, total cost and row estimate
    are the ones the formulas give from the operator cost, the tuple cost
    and the operator ratio of the GPU, operation for operation; for a DPU
    task, from those of the DPU; for any other task kind it raises an
    error.  The group estimate of the formulas is [num_groups] of the
    context the assembler is given. *)
Lemma partial_path_costs_by_device :
  forall con : xpugroupby_build_path_context D,
    (Z.land (task_kind con) DEVKIND__ANY = DEVKIND__NVIDIA_GPU ->
     exists path,
       prepend_partial_groupby_custompath con = Ret path
       /\ follows_the_cost_model con pgstrom_gpu_operator_cost
            pgstrom_gpu_tuple_cost pgstrom_gpu_operator_ratio path)
    /\ (Z.land (task_kind con) DEVKIND__ANY <> DEVKIND__NVIDIA_GPU ->
        Z.land (task_kind con) DEVKIND__ANY = DEVKIND__NVIDIA_DPU ->
        exists path,
          prepend_partial_groupby_custompath con = Ret path
          /\ follows_the_cost_model con pgstrom_dpu_operator_cost
               pgstrom_dpu_tuple_cost pgstrom_dpu_operator_ratio path)
    /\ (Z.land (task_kind con) DEVKIND__ANY <> DEVKIND__NVIDIA_GPU ->
        Z.land (task_kind con) DEVKIND__ANY <> DEVKIND__NVIDIA_DPU ->
        prepend_partial_groupby_custompath con = Elog "Bug? unexpected task_kind").
Proof.
  intros con. unfold prepend_partial_groupby_custompath, xpu_cost_parameters.
  split; [| split].
  - intros Hgpu. apply Z.eqb_eq in Hgpu. rewrite Hgpu. cbn [obind].
    eexists. split; [reflexivity |]. repeat split.
  - intros Hgpu Hdpu. apply Z.eqb_neq in Hgpu. apply Z.eqb_eq in Hdpu.
    rewrite Hgpu, Hdpu. cbn [obind].
    eexists. split; [reflexivity |]. repeat split.
  - intros Hgpu Hdpu. apply Z.eqb_neq in Hgpu. apply Z.eqb_neq in Hdpu.
    rewrite Hgpu, Hdpu. reflexivity.
Qed.

(** ** The entry point *)

(** C10: with grouping sets in the parse tree, or with a grouping clause
    that cannot be hashed, the entry point returns at once: no path is added
    to any relation and the process state is untouched. *)
Theorem unsupported_grouping_bails_out :
  forall (root : PlannerInfo D) (input_rel group_rel : RelOptInfo)
         (extra : GroupPathExtraData) (task_kind : Z)
         (custom_path_methods : option N) (st : pg_state D),
    non_null (groupingSets (parse root)) = true
    \/ grouping_is_hashable (groupClause (parse root)) = false ->
    xpupreagg_add_custompath root input_rel group_rel extra task_kind
                             custom_path_methods st
    = (Ret tt, st).
Proof.
  intros root input_rel group_rel extra task_kind methods st Hunsupported.
  unfold xpupreagg_add_custompath.
  destruct Hunsupported as [H | H]; rewrite H.
  - reflexivity.
  - rewrite orb_true_r. reflexivity.
Qed.

(** ** What a computation keeps

    [keeps R Q m]: however [m] ends, the state it leaves is related by [R]
    to the state it started in, and a returned value satisfies [Q]. *)

Definition keeps {A : Type} (R : pg_state D -> pg_state D -> Prop)
  (Q : A -> Prop) (m : M D A) : Prop :=
  forall st o st', m st = (o, st') -> R st st' /\ (forall a, o = Ret a -> Q a).

(** The planner's side of the state: the path lists and the flag. *)
Definition same_planner_state (st st' : pg_state D) : Prop :=
  pathlist st' = pathlist st
  /\ pgstrom_enable_numeric_aggfuncs st' = pgstrom_enable_numeric_aggfuncs st.

Lemma same_planner_state_refl st : same_planner_state st st.
Proof. split; reflexivity. Qed.

Lemma same_planner_state_trans st1 st2 st3 :
  same_planner_state st1 st2 -> same_planner_state st2 st3 ->
  same_planner_state st1 st3.
Proof. intros [H1 H2] [H3 H4]. split; congruence. Qed.

Lemma keeps_ret {A : Type} (Q : A -> Prop) (a : A) :
  Q a -> keeps same_planner_state Q (ret a).
Proof.
  intros Hq st o st' [= <- <-]. split; [apply same_planner_state_refl |].
  intros a' [= <-]. exact Hq.
Qed.

Lemma keeps_lift {A : Type} (Q : A -> Prop) (o : outcome A) :
  (forall a, o = Ret a -> Q a) -> keeps same_planner_state Q (lift o).
Proof.
  intros Hq st o' st' [= <- <-]. split; [apply same_planner_state_refl | exact Hq].
Qed.

Lemma keeps_elog {A : Type} (Q : A -> Prop) (msg : string) :
  keeps same_planner_state Q (elog msg).
Proof. apply keeps_lift. discriminate. Qed.

Lemma keeps_bind {A B : Type} (Qa : A -> Prop) (Qb : B -> Prop)
  (m : M D A) (k : A -> M D B) :
  keeps same_planner_state Qa m ->
  (forall a, Qa a -> keeps same_planner_state Qb (k a)) ->
  keeps same_planner_state Qb (bind m k).
Proof.
  intros Hm Hk st o st' Hrun. unfold bind in Hrun.
  destruct (m st) as [[a|msg|msg|] st1] eqn:Hm1;
    destruct (Hm _ _ _ Hm1) as [Hr Hq].
  - destruct (Hk a (Hq a eq_refl) _ _ _ Hrun) as [Hr' Hq'].
    split; [exact (same_planner_state_trans _ _ _ Hr Hr') | exact Hq'].
  - injection Hrun as <- <-. split; [exact Hr | discriminate].
  - injection Hrun as <- <-. split; [exact Hr | discriminate].
  - injection Hrun as <- <-. split; [exact Hr | discriminate].
Qed.

Lemma keeps_weaken {A : Type} (Q Q' : A -> Prop) (m : M D A) :
  (forall a, Q a -> Q' a) -> keeps same_planner_state Q m ->
  keeps same_planner_state Q' m.
Proof.
  intros Himp Hm st o st' Hrun. destruct (Hm _ _ _ Hrun) as [Hr Hq].
  split; [exact Hr |]. intros a Ha. apply Himp, Hq, Ha.
Qed.

Lemma hand_out_state aggfn_oid st o st' :
  hand_out aggfn_oid st = (o, st') -> st' = st.
Proof.
  unfold hand_out, bind, entry_read, read_pgstrom_enable_numeric_aggfuncs, ret.
  destruct (aggfunc_catalog_htable st) as [h|]; [| congruence].
  destruct (h !! aggfn_oid) as [e|]; [| congruence].
  destruct (negb (is_valid_entry e)); [congruence |].
  destruct (numeric_aware e && negb (pgstrom_enable_numeric_aggfuncs st));
    congruence.
Qed.

(** The resolver writes to its hash table only. *)
Lemma lookup_keeps_planner_state aggfn_oid :
  keeps same_planner_state (fun _ => True)
        (aggfunc_catalog_lookup_by_oid aggfn_oid).
Proof.
  intros st o st' Hrun. split; [| trivial].
  destruct (cached st aggfn_oid) as [e|] eqn:Hc.
  - rewrite (lookup_cached _ _ _ Hc) in Hrun.
    apply hand_out_state in Hrun. subst st'. apply same_planner_state_refl.
  - rewrite (lookup_uncached _ _ Hc) in Hrun. unfold population_start in Hrun.
    destruct (population_keeps_shape (default ∅ (aggfunc_catalog_htable st))
                aggfn_oid (set_is_valid_entry false (fresh_entry aggfn_oid)) st)
      as [e' He'].
    destruct (population aggfn_oid _) as [[[]|msg|msg|] st1];
      cbn [snd] in He'; subst st1.
    + apply hand_out_state in Hrun. subst st'. split; reflexivity.
    + unfold hash_search_REMOVE, with_entry in Hrun.
      cbn [aggfunc_catalog_htable set_htable] in Hrun.
      injection Hrun as _ <-. split; reflexivity.
    + injection Hrun as _ <-. split; reflexivity.
    + injection Hrun as _ <-. split; reflexivity.
Qed.

(** A lookup that returns leaves the entry it answered from in the table,
    and the statements after PG_END_TRY give the same answer again. *)
Lemma lookup_settles aggfn_oid st r st' :
  aggfunc_catalog_lookup_by_oid aggfn_oid st = (Ret r, st') ->
  is_Some (cached st' aggfn_oid) /\ hand_out aggfn_oid st' = (Ret r, st').
Proof.
  intros Hrun.
  destruct (cached st aggfn_oid) as [e|] eqn:Hc.
  - rewrite (lookup_cached _ _ _ Hc) in Hrun.
    pose proof (hand_out_state _ _ _ _ Hrun) as ->.
    split; [rewrite Hc; eauto | exact Hrun].
  - rewrite (lookup_uncached _ _ Hc) in Hrun. unfold population_start in Hrun.
    destruct (population_keeps_shape (default ∅ (aggfunc_catalog_htable st))
                aggfn_oid (set_is_valid_entry false (fresh_entry aggfn_oid)) st)
      as [e' He'].
    destruct (population aggfn_oid _) as [[[]|msg|msg|] st1];
      cbn [snd rethrow] in *; subst st1.
    + pose proof (hand_out_state _ _ _ _ Hrun) as ->.
      split; [rewrite cached_with_entry; eauto | exact Hrun].
    + destruct (hash_search_REMOVE _ _) as [[[]| | |] st2]; discriminate Hrun.
    + discriminate Hrun.
    + discriminate Hrun.
Qed.

(** What the rewriter leaves alone in the context. *)
Definition same_query (con con' : xpugroupby_build_path_context D) : Prop :=
  root con' = root con /\ target_upper con' = target_upper con.

Lemma make_alternative_aggref_keeps con aggref :
  keeps same_planner_state (fun r => same_query con (snd r))
        (make_alternative_aggref con aggref).
Proof.
  unfold make_alternative_aggref.
  destruct (_ || _); [apply keeps_ret; split; reflexivity |].
  destruct (AGGKIND_IS_ORDERED_SET _); [apply keeps_ret; split; reflexivity |].
  eapply keeps_bind; [apply lookup_keeps_planner_state |].
  intros [aggfn_cat|] _; [| apply keeps_ret; split; reflexivity].
  eapply keeps_bind; [apply keeps_lift with (Q := fun _ => True); trivial |].
  intros _ _.
  destruct (PROCOID sc (partial_func_oid aggfn_cat)) as [proc|];
    [| apply keeps_elog].
  eapply keeps_bind; [apply keeps_lift with (Q := fun _ => True); trivial |].
  intros _ _.
  eapply keeps_bind; [apply keeps_lift with (Q := fun _ => True); trivial |].
  intros cells _.
  eapply keeps_bind; [apply keeps_lift with (Q := fun _ => True); trivial |].
  intros [partfn_args|] _; [| apply keeps_ret; split; reflexivity].
  cbv zeta.
  destruct (AGGFNOID sc (final_func_oid aggfn_cat)) as [agg|]; [| apply keeps_elog].
  eapply keeps_bind; [apply keeps_lift with (Q := fun _ => True); trivial |].
  intros partfn_type _.
  apply keeps_ret. cbn [snd].
  destruct (negb (list_member _ _)); split; reflexivity.
Qed.

Definition carries_modifier (aggref : Aggref) : Prop :=
  non_null (aggorder aggref) = true
  \/ non_null (aggdistinct aggref) = true
  \/ AGGKIND_IS_ORDERED_SET (aggkind aggref) = true.

Lemma modified_aggregate_is_declined con aggref st :
  carries_modifier aggref ->
  make_alternative_aggref con aggref st = (Ret (None, con), st).
Proof.
  intros Hmod. unfold make_alternative_aggref.
  destruct Hmod as [H | [H | H]].
  - rewrite H. reflexivity.
  - rewrite H, orb_true_r. reflexivity.
  - rewrite H. destruct (_ || _); reflexivity.
Qed.

(** The first loop of the target builder never gets past a column that is
    such an aggregate and not a grouping key. *)
Lemma pick_up_stops_at_modified_aggregate aggref post :
  carries_modifier aggref ->
  forall pre con i refno,
    get_pathtarget_sortgroupref (target_upper con) (i + length pre) = 0 ->
    keeps same_planner_state (fun r => fst (fst r) = false)
          (pick_up_upper_exprs con (pre ++ T_Aggref aggref :: post)%list i refno).
Proof.
  intros Hmod pre.
  induction pre as [|expr pre IH]; intros con i refno Href;
    cbn [app pick_up_upper_exprs length] in *.
  - rewrite Nat.add_0_r in Href. rewrite Href. cbn [Z.eqb negb andb].
    intros st o st' Hrun. unfold bind in Hrun.
    rewrite (modified_aggregate_is_declined _ _ _ Hmod) in Hrun.
    cbn in Hrun. injection Hrun as <- <-.
    split; [apply same_planner_state_refl |].
    intros a [= <-]. reflexivity.
  - rewrite Nat.add_succ_r in Href.
    destruct (negb (get_pathtarget_sortgroupref (target_upper con) i =? 0)
              && non_nil (groupClause (parse (root con)))
              && non_null (get_sortgroupref_clause_noerr _ _)).
    + eapply keeps_bind; [apply keeps_lift with (Q := fun _ => True); trivial |].
      intros type_oid _.
      destruct (pgstrom_devtype_lookup type_oid) as [dtype|];
        [| apply keeps_ret; reflexivity].
      destruct (negb (non_null (type_hashfunc dtype)));
        [apply keeps_ret; reflexivity |].
      eapply keeps_bind; [apply keeps_lift with (Q := fun _ => True); trivial |].
      intros coll_oid _.
      destruct (negb (non_null (devtype_lookup_equal_func dtype coll_oid)));
        [apply keeps_ret; reflexivity |].
      destruct (negb (pgstrom_xpu_expression _ _ _));
        [apply keeps_ret; reflexivity |].
      apply IH. exact Href.
    + destruct expr; try (apply keeps_ret; reflexivity).
      eapply keeps_bind; [apply make_alternative_aggref_keeps |].
      intros [altfn con'] [_ Htarget]. cbn [fst snd] in *.
      destruct altfn as [altfn|]; [| apply keeps_ret; reflexivity].
      eapply keeps_bind; [apply keeps_lift with (Q := fun _ => True); trivial |].
      intros expr_type _.
      eapply keeps_bind; [apply keeps_lift with (Q := fun _ => True); trivial |].
      intros altfn_type _.
      destruct (negb (N.eqb expr_type altfn_type)); [apply keeps_elog |].
      apply IH. cbn [set_target_final target_upper]. rewrite Htarget. exact Href.
Qed.

Lemma build_path_target_fails_on_modified_aggregate con aggref pre post :
  carries_modifier aggref ->
  exprs (target_upper con) = (pre ++ T_Aggref aggref :: post)%list ->
  get_pathtarget_sortgroupref (target_upper con) (length pre) = 0 ->
  keeps same_planner_state (fun r => fst r = false)
        (xpugroupby_build_path_target con).
Proof.
  intros Hmod Hexprs Href. unfold xpugroupby_build_path_target.
  rewrite Hexprs.
  eapply keeps_bind.
  - apply (pick_up_stops_at_modified_aggregate aggref post Hmod pre con 0%nat []).
    exact Href.
  - intros [[proceed con'] refno] Hstop. cbn in Hstop. subst proceed.
    cbn [negb]. apply keeps_ret. reflexivity.
Qed.

(** An aggregate call with ORDER BY, with DISTINCT, or of an ordered-set
    kind is declined.  [make_alternative_aggref] returns a null pointer, no
    error is raised, and neither the context nor the process state changes;
    [replace_expression_by_altfunc] hands the null pointer on and only marks
    the context as not device executable.  When the call is a column of the
    upper target list (and not a grouping key), target building never
    returns true and [__xpupreagg_add_custompath] leaves every path list as
    it was: the alternative path is not produced.  Nothing of this kind
    holds for a call under HAVING. *)
Theorem modified_aggregate_declines_rewrite :
  forall (con : xpugroupby_build_path_context D) (aggref : Aggref)
         (st : pg_state D),
    non_null (aggorder aggref) = true
    \/ non_null (aggdistinct aggref) = true
    \/ AGGKIND_IS_ORDERED_SET (aggkind aggref) = true ->
    make_alternative_aggref con aggref st = (Ret (None, con), st)
    /\ replace_expression_by_altfunc (Some (T_Aggref aggref)) con st
       = (Ret (None, set_device_executable false con), st)
    /\ (forall pre post o st',
           exprs (target_upper con) = (pre ++ T_Aggref aggref :: post)%list ->
           get_pathtarget_sortgroupref (target_upper con) (length pre) = 0 ->
           xpugroupby_build_path_target con st = (o, st') ->
           forall con', o <> Ret (true, con'))
    /\ (forall root input_path group_rel extra try_parallel num_groups task_kind
               custom_path_methods pre post o st',
           exprs (upper_target_group_agg root) = (pre ++ T_Aggref aggref :: post)%list ->
           get_pathtarget_sortgroupref (upper_target_group_agg root) (length pre) = 0 ->
           __xpupreagg_add_custompath root input_path group_rel extra try_parallel
             num_groups task_kind custom_path_methods st = (o, st') ->
           pathlist st' = pathlist st).
Proof.
  intros con aggref st Hmod.
  pose proof (modified_aggregate_is_declined con aggref st Hmod) as Hmake.
  split; [exact Hmake |]. split; [| split].
  - cbn [replace_expression_by_altfunc replace_expression_by_altfunc_node].
    unfold bind. rewrite Hmake. reflexivity.
  - intros pre post o st' Hexprs Href Hrun con' Ho. subst o.
    destruct (build_path_target_fails_on_modified_aggregate con aggref pre post
                Hmod Hexprs Href _ _ _ Hrun) as [_ Hfalse].
    specialize (Hfalse _ eq_refl). discriminate Hfalse.
  - intros root0 input0 rel0 extra try_parallel groups kind methods0 pre post o st'
           Hexprs Href Hrun.
    unfold __xpupreagg_add_custompath in Hrun.
    destruct (extract_input_path_params input0) as [[pp tlist] inner].
    match type of Hrun with
    | bind (xpugroupby_build_path_target ?c) ?k st = _ =>
        assert (Hkeeps : keeps same_planner_state (fun _ : unit => True)
                               (bind (xpugroupby_build_path_target c) k))
    end.
    { eapply keeps_bind.
      - apply (build_path_target_fails_on_modified_aggregate _ aggref pre post Hmod);
          cbn [target_upper]; assumption.
      - intros [ok con'] Hfalse. cbn in Hfalse. subst ok. cbn [fst negb].
        apply keeps_ret. trivial. }
    destruct (Hkeeps _ _ _ Hrun) as [[Hpaths _] _]. exact Hpaths.
Qed.


(** ** The layout of the partial target list *)

(** A call of a partial function, as [make_alternative_aggref] builds it. *)
Definition is_partial_call (expr : Node) : Prop :=
  exists funcid rettype fargs collid icollid,
    expr = makeFuncExpr funcid rettype fargs collid icollid COERCE_EXPLICIT_CALL.

(** What one or more rewriting steps do to the context: the partial target
    list and the action list grow at their ends, by as many entries each,
    and the new columns are calls of partial functions; the query and the
    grouping keys stay. *)
Definition rewriter_step (con con' : xpugroupby_build_path_context D) : Prop :=
  root con' = root con
  /\ input_path con' = input_path con
  /\ target_upper con' = target_upper con
  /\ groupby_keys (pp_info con') = groupby_keys (pp_info con)
  /\ exists new_exprs new_actions,
       exprs (target_partial con') = (exprs (target_partial con) ++ new_exprs)%list
       /\ groupby_actions (pp_info con')
          = (groupby_actions (pp_info con) ++ new_actions)%list
       /\ length new_exprs = length new_actions
       /\ Forall is_partial_call new_exprs.

Lemma rewriter_step_refl con : rewriter_step con con.
Proof.
  repeat split. exists [], []. rewrite !app_nil_r. repeat split. constructor.
Qed.

Lemma rewriter_step_trans con1 con2 con3 :
  rewriter_step con1 con2 -> rewriter_step con2 con3 -> rewriter_step con1 con3.
Proof.
  intros (Hr1 & Hi1 & Ht1 & Hk1 & e1 & a1 & He1 & Ha1 & Hl1 & Hp1)
         (Hr2 & Hi2 & Ht2 & Hk2 & e2 & a2 & He2 & Ha2 & Hl2 & Hp2).
  split; [congruence |]. split; [congruence |]. split; [congruence |].
  split; [congruence |].
  exists (e1 ++ e2)%list, (a1 ++ a2)%list.
  rewrite He2, He1, Ha2, Ha1, !app_assoc, !length_app.
  repeat split; [lia |]. apply Forall_app. split; assumption.
Qed.

Lemma make_alternative_aggref_step con aggref :
  keeps same_planner_state (fun r => rewriter_step con (snd r))
        (make_alternative_aggref con aggref).
Proof.
  unfold make_alternative_aggref.
  destruct (_ || _); [apply keeps_ret, rewriter_step_refl |].
  destruct (AGGKIND_IS_ORDERED_SET _); [apply keeps_ret, rewriter_step_refl |].
  eapply keeps_bind; [apply lookup_keeps_planner_state |].
  intros [aggfn_cat|] _; [| apply keeps_ret, rewriter_step_refl].
  eapply keeps_bind; [apply keeps_lift with (Q := fun _ => True); trivial |].
  intros _ _.
  destruct (PROCOID sc (partial_func_oid aggfn_cat)) as [proc|];
    [| apply keeps_elog].
  eapply keeps_bind; [apply keeps_lift with (Q := fun _ => True); trivial |].
  intros _ _.
  eapply keeps_bind; [apply keeps_lift with (Q := fun _ => True); trivial |].
  intros cells _.
  eapply keeps_bind; [apply keeps_lift with (Q := fun _ => True); trivial |].
  intros [partfn_args|] _; [| apply keeps_ret, rewriter_step_refl].
  cbv zeta.
  destruct (AGGFNOID sc (final_func_oid aggfn_cat)) as [agg|]; [| apply keeps_elog].
  eapply keeps_bind; [apply keeps_lift with (Q := fun _ => True); trivial |].
  intros partfn_type _.
  apply keeps_ret. cbn [snd].
  destruct (negb (list_member _ _)).
  - repeat split.
    eexists [_], [_]. cbn. repeat split.
    constructor; [| constructor]. unfold is_partial_call. eauto 10.
  - repeat split. exists [], []. cbn. rewrite !app_nil_r. repeat split. constructor.
Qed.

(** Induction over expression trees: a property holds of every node when it
    passes from the children of a node, null children aside, to the node. *)
Section NodeInduction.
Variable P : Node -> Prop.

Definition holds_below (child : option Node) : Prop :=
  match child with
  | Some n => P n
  | None => True
  end.

Hypothesis on_Var : forall no att ty typmod coll lev, P (T_Var no att ty typmod coll lev).
Hypothesis on_Const : forall ty typmod coll value isnull,
    P (T_Const ty typmod coll value isnull).
Hypothesis on_PlaceHolderVar : forall phexpr phid lev,
    holds_below phexpr -> P (T_PlaceHolderVar phexpr phid lev).
Hypothesis on_FuncExpr : forall funcid res retset variadic fmt coll icoll fargs,
    holds_below fargs -> P (T_FuncExpr funcid res retset variadic fmt coll icoll fargs).
Hypothesis on_OpExpr : forall opno opfuncid res retset coll icoll oargs,
    holds_below oargs -> P (T_OpExpr opno opfuncid res retset coll icoll oargs).
Hypothesis on_BoolExpr : forall boolop bargs,
    holds_below bargs -> P (T_BoolExpr boolop bargs).
Hypothesis on_RelabelType : forall arg ty typmod coll fmt,
    holds_below arg -> P (T_RelabelType arg ty typmod coll fmt).
Hypothesis on_Aggref : forall a, P (T_Aggref a).
Hypothesis on_TargetEntry : forall expr resno resname ref junk,
    holds_below expr -> P (T_TargetEntry expr resno resname ref junk).
Hypothesis on_List : forall cells, Forall holds_below cells -> P (T_List cells).

Fixpoint Node_induction (node : Node) : P node :=
  let below (child : option Node) : holds_below child :=
    match child with
    | Some n => Node_induction n
    | None => I
    end in
  match node with
  | T_Var no att ty typmod coll lev => on_Var no att ty typmod coll lev
  | T_Const ty typmod coll value isnull => on_Const ty typmod coll value isnull
  | T_PlaceHolderVar phexpr phid lev => on_PlaceHolderVar phexpr phid lev (below phexpr)
  | T_FuncExpr funcid res retset variadic fmt coll icoll fargs =>
      on_FuncExpr funcid res retset variadic fmt coll icoll fargs (below fargs)
  | T_OpExpr opno opfuncid res retset coll icoll oargs =>
      on_OpExpr opno opfuncid res retset coll icoll oargs (below oargs)
  | T_BoolExpr boolop bargs => on_BoolExpr boolop bargs (below bargs)
  | T_RelabelType arg ty typmod coll fmt =>
      on_RelabelType arg ty typmod coll fmt (below arg)
  | T_Aggref a => on_Aggref a
  | T_TargetEntry expr resno resname ref junk =>
      on_TargetEntry expr resno resname ref junk (below expr)
  | T_List cells =>
      on_List cells
        ((fix each (l : list (option Node)) : Forall holds_below l :=
            match l with
            | [] => @List.Forall_nil _ holds_below
            | cell :: rest =>
                @List.Forall_cons _ holds_below cell rest (below cell) (each rest)
            end) cells)
  end.

End NodeInduction.

(** The cells of a list are rewritten one after the other. *)
Lemma mutate_cells_step
  (mutator : option Node -> xpugroupby_build_path_context D ->
             M D (option Node * xpugroupby_build_path_context D))
  (cells : list (option Node)) :
  Forall (fun cell => forall con,
            keeps same_planner_state (fun r => rewriter_step con (snd r))
                  (mutator cell con)) cells ->
  forall con,
    keeps same_planner_state (fun r => rewriter_step con (snd r))
          (mutate_cells mutator cells con).
Proof.
  induction 1 as [|cell rest Hcell _ IH]; intros con; cbn [mutate_cells].
  - apply keeps_ret, rewriter_step_refl.
  - eapply keeps_bind; [apply Hcell |].
    intros r1 Hstep1.
    eapply keeps_bind; [apply IH |].
    intros r2 Hstep2. apply keeps_ret. cbn [snd].
    exact (rewriter_step_trans _ _ _ Hstep1 Hstep2).
Qed.

Lemma set_device_executable_step con con' v :
  rewriter_step con con' -> rewriter_step con (set_device_executable v con').
Proof. intros H. exact H. Qed.

Lemma replace_expression_by_altfunc_node_step node :
  forall con,
    keeps same_planner_state (fun r => rewriter_step con (snd r))
          (replace_expression_by_altfunc_node node con).
Proof.
  induction node using Node_induction; intros con;
    cbn [replace_expression_by_altfunc_node];
    try (destruct (existsb _ _); [apply keeps_ret, rewriter_step_refl |]);
    try apply keeps_elog.
  - (* Const *) cbn. apply keeps_ret, rewriter_step_refl.
  - (* FuncExpr *)
    cbn [expression_tree_mutator].
    eapply keeps_bind; [| intros r Hr; apply keeps_ret; exact Hr].
    destruct fargs as [n|]; [apply H | apply keeps_ret, rewriter_step_refl].
  - (* OpExpr *)
    cbn [expression_tree_mutator].
    eapply keeps_bind; [| intros r Hr; apply keeps_ret; exact Hr].
    destruct oargs as [n|]; [apply H | apply keeps_ret, rewriter_step_refl].
  - (* BoolExpr *)
    cbn [expression_tree_mutator].
    eapply keeps_bind; [| intros r Hr; apply keeps_ret; exact Hr].
    destruct bargs as [n|]; [apply H | apply keeps_ret, rewriter_step_refl].
  - (* RelabelType *)
    cbn [expression_tree_mutator].
    eapply keeps_bind; [| intros r Hr; apply keeps_ret; exact Hr].
    destruct arg as [n|]; [apply H | apply keeps_ret, rewriter_step_refl].
  - (* Aggref *)
    eapply keeps_bind; [apply make_alternative_aggref_step |].
    intros [aggfn con'] Hstep. cbn [fst snd] in *.
    destruct aggfn; apply keeps_ret; exact Hstep.
  - (* TargetEntry *)
    cbn [expression_tree_mutator].
    eapply keeps_bind; [| intros r Hr; apply keeps_ret; exact Hr].
    destruct expr as [n|]; [apply H | apply keeps_ret, rewriter_step_refl].
  - (* List *)
    cbn [expression_tree_mutator].
    eapply keeps_bind; [| intros r Hr; apply keeps_ret; exact Hr].
    apply mutate_cells_step.
    eapply Forall_impl; [exact H |].
    intros [n|] Hn con0; [apply Hn | apply keeps_ret, rewriter_step_refl].
Qed.

Lemma replace_expression_by_altfunc_step node con :
  keeps same_planner_state (fun r => rewriter_step con (snd r))
        (replace_expression_by_altfunc node con).
Proof.
  destruct node as [n|]; cbn [replace_expression_by_altfunc].
  - apply replace_expression_by_altfunc_node_step.
  - apply keeps_ret, rewriter_step_refl.
Qed.

(** What the first loop of the target builder has done when it leaves a
    context: grouping keys were recorded, one reference each, and partial
    aggregates were appended with their actions. *)
Definition picked_up (con : xpugroupby_build_path_context D) (refno : list Z)
  (r : bool * xpugroupby_build_path_context D * list Z) : Prop :=
  let con' := snd (fst r) in
  root con' = root con
  /\ input_path con' = input_path con
  /\ target_upper con' = target_upper con
  /\ exists new_keys new_refs aggs acts,
       groupby_keys (pp_info con') = (groupby_keys (pp_info con) ++ new_keys)%list
       /\ snd r = (refno ++ new_refs)%list
       /\ length new_keys = length new_refs
       /\ exprs (target_partial con') = (exprs (target_partial con) ++ aggs)%list
       /\ groupby_actions (pp_info con')
          = (groupby_actions (pp_info con) ++ acts)%list
       /\ length aggs = length acts
       /\ Forall is_partial_call aggs.

Lemma picked_up_nothing con refno ok : picked_up con refno (ok, con, refno).
Proof.
  repeat split. exists [], [], [], []. cbn. rewrite !app_nil_r.
  repeat split. constructor.
Qed.

Lemma picked_up_after_key con con1 refno expr ref r :
  root con1 = root con ->
  input_path con1 = input_path con ->
  target_upper con1 = target_upper con ->
  groupby_keys (pp_info con1) = (groupby_keys (pp_info con) ++ [expr])%list ->
  exprs (target_partial con1) = exprs (target_partial con) ->
  groupby_actions (pp_info con1) = groupby_actions (pp_info con) ->
  picked_up con1 (refno ++ [ref]) r ->
  picked_up con refno r.
Proof.
  intros Hr1 Hi1 Ht1 Hk1 He1 Ha1
         (Hr & Hi & Ht & keys & refs & aggs & acts & Hk & Hn & Hl & He & Ha & Hla & Hp).
  split; [congruence |]. split; [congruence |]. split; [congruence |].
  exists (expr :: keys), (ref :: refs), aggs, acts.
  rewrite Hk, Hk1, Hn, He, He1, Ha, Ha1, <- !app_assoc. cbn.
  repeat split; try assumption. lia.
Qed.

Lemma picked_up_after_aggregate con con1 refno altfn r :
  rewriter_step con con1 ->
  picked_up
    (set_target_final (add_column_to_pathtarget (target_final con1) altfn 0) con1)
    refno r ->
  picked_up con refno r.
Proof.
  intros (Hr1 & Hi1 & Ht1 & Hk1 & e1 & a1 & He1 & Ha1 & Hl1 & Hp1)
         (Hr & Hi & Ht & keys & refs & aggs & acts & Hk & Hn & Hl & He & Ha & Hla & Hp).
  cbn in *. split; [congruence |]. split; [congruence |]. split; [congruence |].
  exists keys, refs, (e1 ++ aggs)%list, (a1 ++ acts)%list.
  rewrite Hk, Hk1, He, He1, Ha, Ha1, !app_assoc, !length_app.
  repeat split; try assumption; [lia |].
  apply Forall_app. split; assumption.
Qed.

Lemma pick_up_upper_exprs_picks upper :
  forall con i refno,
    keeps same_planner_state (picked_up con refno)
          (pick_up_upper_exprs con upper i refno).
Proof.
  induction upper as [|expr upper IH]; intros con i refno;
    cbn [pick_up_upper_exprs].
  - apply keeps_ret, picked_up_nothing.
  - destruct (negb (get_pathtarget_sortgroupref (target_upper con) i =? 0)
              && non_nil (groupClause (parse (root con)))
              && non_null (get_sortgroupref_clause_noerr _ _)).
    + eapply keeps_bind; [apply keeps_lift with (Q := fun _ => True); trivial |].
      intros type_oid _.
      destruct (pgstrom_devtype_lookup type_oid) as [dtype|];
        [| apply keeps_ret, picked_up_nothing].
      destruct (negb (non_null (type_hashfunc dtype)));
        [apply keeps_ret, picked_up_nothing |].
      eapply keeps_bind; [apply keeps_lift with (Q := fun _ => True); trivial |].
      intros coll_oid _.
      destruct (negb (non_null (devtype_lookup_equal_func dtype coll_oid)));
        [apply keeps_ret, picked_up_nothing |].
      destruct (negb (pgstrom_xpu_expression _ _ _));
        [apply keeps_ret, picked_up_nothing |].
      eapply keeps_weaken; [| apply IH].
      intros r Hpicked.
      refine (picked_up_after_key _ _ _ _ _ _ _ _ _ _ _ _ Hpicked); reflexivity.
    + destruct expr; try apply keeps_ret, picked_up_nothing.
      eapply keeps_bind; [apply make_alternative_aggref_step |].
      intros [altfn con1] Hstep. cbn [fst snd] in *.
      destruct altfn as [altfn|].
      * eapply keeps_bind; [apply keeps_lift with (Q := fun _ => True); trivial |].
        intros expr_type _.
        eapply keeps_bind; [apply keeps_lift with (Q := fun _ => True); trivial |].
        intros altfn_type _.
        destruct (negb (N.eqb expr_type altfn_type)); [apply keeps_elog |].
        eapply keeps_weaken; [| apply IH].
        intros r. apply picked_up_after_aggregate. exact Hstep.
      * apply keeps_ret.
        destruct Hstep as (Hr1 & Hi1 & Ht1 & Hk1 & e1 & a1 & He1 & Ha1 & Hl1 & Hp1).
        split; [exact Hr1 |]. split; [exact Hi1 |]. split; [exact Ht1 |].
        exists [], [], e1, a1. cbn. rewrite !app_nil_r. repeat split; assumption.
Qed.

(** The second loop appends the grouping keys, each with the action of a
    verbatim reference. *)
Lemma attach_groupby_keys_appends keys :
  forall refnos con con',
    length keys = length refnos ->
    attach_groupby_keys con keys refnos = Ret con' ->
    root con' = root con
    /\ input_path con' = input_path con
    /\ target_upper con' = target_upper con
    /\ groupby_keys (pp_info con') = groupby_keys (pp_info con)
    /\ exprs (target_partial con') = (exprs (target_partial con) ++ keys)%list
    /\ groupby_actions (pp_info con')
       = (groupby_actions (pp_info con)
          ++ repeat KAGG_ACTION__VREF (length keys))%list.
Proof.
  induction keys as [|key keys IH]; intros [|keyref refnos] con con' Hlen Hrun;
    cbn [attach_groupby_keys length] in *; try discriminate.
  - injection Hrun as <-. cbn. rewrite !app_nil_r. repeat split.
  - destruct (Assert _ _) as [[]| | |]; cbn [obind] in Hrun; try discriminate.
    apply IH in Hrun; [| lia].
    destruct Hrun as (Hr & Hi & Ht & Hk & He & Ha). cbn in *.
    rewrite He, Ha, <- !app_assoc. repeat split; assumption.
Qed.

(** ** The attempts of the entry point *)

(** The second loop leaves the input path of the context alone, whatever
    the lengths of its two lists. *)
Lemma attach_groupby_keys_input_path keys :
  forall refnos con con',
    attach_groupby_keys con keys refnos = Ret con' ->
    input_path con' = input_path con.
Proof.
  induction keys as [|key keys IH]; intros [|keyref refnos] con con' Hrun;
    cbn [attach_groupby_keys] in Hrun; try (injection Hrun as <-; reflexivity).
  destruct (Assert _ _) as [[]| | |]; cbn [obind] in Hrun; try discriminate.
  apply IH in Hrun. exact Hrun.
Qed.

(** Target building never touches the path lists or the flag, and the
    context it leaves is about the same input path. *)
Lemma build_path_target_keeps con :
  keeps same_planner_state (fun r => input_path (snd r) = input_path con)
        (xpugroupby_build_path_target con).
Proof.
  unfold xpugroupby_build_path_target.
  eapply keeps_bind; [apply pick_up_upper_exprs_picks |].
  intros [[proceed con1] refno1] (_ & Hi1 & _). cbn [fst snd] in Hi1.
  destruct proceed; cbn [negb]; [| apply keeps_ret; exact Hi1].
  eapply keeps_bind;
    [apply keeps_lift with (Q := fun con2 => input_path con2 = input_path con1);
     intros con2; apply attach_groupby_keys_input_path |].
  intros con2 Hi2.
  eapply keeps_bind with
    (Qa := fun replaced => input_path (snd replaced) = input_path con2).
  { destruct (havingQual (parse (root con2))) as [qual|].
    - eapply keeps_bind; [apply replace_expression_by_altfunc_step |].
      intros [q con3] (_ & Hi3 & _). destruct q; apply keeps_ret; exact Hi3.
    - apply keeps_ret. reflexivity. }
  intros [[proceed hq] con3] Hi3. cbn [snd] in Hi3.
  destruct proceed; cbn [negb]; apply keeps_ret; cbn; congruence.
Qed.

(** The entry point hands [num_groups] and [(try_parallel > 0)] to
    [__xpupreagg_add_custompath] in this order, and the callee takes them as
    [bool try_parallel, double num_groups].  So the callee sees a request
    for a parallel plan whenever the group estimate is not zero, and an
    attempt over an input path that is not parallel aware, or has no
    workers, ends at "unable to inject parallel paths": it adds no path,
    whichever turn of the loop it is. *)
Theorem attempt_over_serial_input_adds_no_path :
  forall (root : PlannerInfo D) (input_rel group_rel : RelOptInfo)
         (extra : GroupPathExtraData) (task_kind : Z)
         (custom_path_methods : option N) (try_parallel : Z)
         (input_path : Path D) (st st' : pg_state D) (o : outcome unit),
    (if IS_SIMPLE_REL input_rel
     then buildXpuScanPath root input_rel (0 <? try_parallel) false true task_kind
     else custom_path_find_cheapest root input_rel (0 <? try_parallel) task_kind)
    = Some input_path ->
    parallel_aware input_path && (0 <? parallel_workers input_path) = false ->
    deqb (if non_nil (groupClause (parse root))
          then estimate_num_groups root
                 (get_sortgrouplist_exprs (groupClause (parse root))
                                          (targetList extra))
                 (rows input_path)
          else d_of_Z 1)
         (d_of_Z 0) = false ->
    xpupreagg_attempt root input_rel group_rel extra task_kind
                      custom_path_methods try_parallel st = (o, st') ->
    pathlist st' = pathlist st.
Proof.
  intros root0 input_rel rel0 extra kind methods0 try_parallel input st st' o
         Hinput Hserial Hgroups Hrun.
  unfold xpupreagg_attempt in Hrun. rewrite Hinput, Hgroups in Hrun.
  cbn [negb] in Hrun.
  unfold __xpupreagg_add_custompath in Hrun.
  destruct (extract_input_path_params input) as [[pp tlist] inner].
  match type of Hrun with
  | bind (xpugroupby_build_path_target ?c) ?k st = _ =>
      assert (Hkeeps : keeps same_planner_state (fun _ : unit => True)
                             (bind (xpugroupby_build_path_target c) k))
  end.
  { eapply keeps_bind; [apply build_path_target_keeps |].
    intros [ok con'] Hsame. cbn [fst snd input_path] in *.
    destruct ok; cbn [negb]; [| apply keeps_ret; trivial].
    eapply keeps_bind with
      (Qa := fun part_path : Path D =>
               parallel_aware part_path = parallel_aware input
               /\ parallel_workers part_path = parallel_workers input).
    - apply keeps_lift. intros part_path Hpart.
      unfold prepend_partial_groupby_custompath in Hpart.
      destruct (xpu_cost_parameters _) as [[[op tup] ratio]| | |];
        cbn [obind] in Hpart; try discriminate.
      injection Hpart as <-. cbn. rewrite Hsame. split; reflexivity.
    - intros part_path [Haware Hworkers]. rewrite Haware, Hworkers, Hserial.
      apply keeps_ret. trivial. }
  destruct (Hkeeps _ _ _ Hrun) as [[Hpaths _] _]. exact Hpaths.
Qed.


(** * Further properties of the resolver *)

(** What the statements after PG_END_TRY hand out is a valid entry of the
    table, and a numeric-aware one only while the flag is on. *)
Lemma hand_out_valid aggfn_oid st e st' :
  hand_out aggfn_oid st = (Ret (Some e), st') ->
  cached st aggfn_oid = Some e
  /\ is_valid_entry e = true
  /\ (numeric_aware e = true -> pgstrom_enable_numeric_aggfuncs st = true).
Proof.
  unfold hand_out, bind, entry_read, read_pgstrom_enable_numeric_aggfuncs, ret, cached.
  destruct (aggfunc_catalog_htable st) as [h|]; [| discriminate].
  destruct (h !! aggfn_oid) as [e0|]; [| discriminate].
  destruct (is_valid_entry e0) eqn:Hvalid; cbn; [| discriminate].
  destruct (numeric_aware e0) eqn:Hnum; cbn.
  - destruct (pgstrom_enable_numeric_aggfuncs st); cbn; [| discriminate].
    intros [= <- _]. repeat split; assumption.
  - intros [= <- _]. repeat split; [assumption | congruence].
Qed.

(** A lookup works on the entry of the function it is asked about and on no
    other: however it ends, the entries cached for other functions, the
    configuration flag and the path lists are as they were.  An entry it
    returns is the one then cached for the function, it is valid, and it is
    numeric-aware only while the flag is on. *)
Theorem lookup_touches_one_entry :
  forall (aggfn_oid : Oid) (st st' : pg_state D)
         (o : outcome (option aggfunc_catalog_entry)),
    aggfunc_catalog_lookup_by_oid aggfn_oid st = (o, st') ->
    (forall k, k <> aggfn_oid -> cached st' k = cached st k)
    /\ same_planner_state st st'
    /\ (forall e, o = Ret (Some e) ->
          cached st' aggfn_oid = Some e
          /\ is_valid_entry e = true
          /\ (numeric_aware e = true -> pgstrom_enable_numeric_aggfuncs st' = true)).
Proof.
  intros aggfn_oid st st' o Hrun.
  assert (Hother : forall h e k, k <> aggfn_oid ->
            h = default ∅ (aggfunc_catalog_htable st) ->
            cached (with_entry h aggfn_oid e st) k = cached st k).
  { intros h e k Hne ->. rewrite cached_with_entry_ne by exact Hne.
    unfold cached. destruct (aggfunc_catalog_htable st); [reflexivity |].
    apply lookup_empty. }
  destruct (cached st aggfn_oid) as [e0|] eqn:Hc.
  - rewrite (lookup_cached _ _ _ Hc) in Hrun.
    pose proof (hand_out_state _ _ _ _ Hrun) as ->.
    split; [reflexivity |]. split; [apply same_planner_state_refl |].
    intros e ->. exact (hand_out_valid _ _ _ _ Hrun).
  - rewrite (lookup_uncached _ _ Hc) in Hrun. unfold population_start in Hrun.
    destruct (population_keeps_shape (default ∅ (aggfunc_catalog_htable st))
                aggfn_oid (set_is_valid_entry false (fresh_entry aggfn_oid)) st)
      as [e' He'].
    destruct (population aggfn_oid _) as [[[]|msg|msg|] st1];
      cbn [snd rethrow] in *; subst st1.
    + pose proof (hand_out_state _ _ _ _ Hrun) as ->.
      split; [intros k Hne; apply Hother; [exact Hne | reflexivity] |].
      split; [split; reflexivity |].
      intros e ->. exact (hand_out_valid _ _ _ _ Hrun).
    + unfold hash_search_REMOVE, with_entry in Hrun.
      cbn [aggfunc_catalog_htable set_htable] in Hrun.
      injection Hrun as <- <-.
      split; [| split; [split; reflexivity | discriminate]].
      intros k Hne. unfold cached. cbn [aggfunc_catalog_htable set_htable].
      rewrite lookup_delete_ne by congruence.
      rewrite lookup_insert_ne by congruence.
      destruct (aggfunc_catalog_htable st); [reflexivity | apply lookup_empty].
    + injection Hrun as <- <-.
      split; [intros k Hne; apply Hother; [exact Hne | reflexivity] |].
      split; [split; reflexivity | discriminate].
    + injection Hrun as <- <-.
      split; [intros k Hne; apply Hother; [exact Hne | reflexivity] |].
      split; [split; reflexivity | discriminate].
Qed.


(** ** The static catalog against the checks of the resolver *)

(** The names between the parentheses of a signature, as
    [__aggfunc_resolve_func_signature] cuts them out. *)
Definition signature_argument_names (signature : string) : option (list string) :=
  match strchr_cut "("%char (string_drop 2 signature) with
  | Some (_, base) =>
      match strchr_cut ")"%char base with
      | Some (base, _) => Some (strtok_r ","%char EmptyString base)
      | None => None
      end
  | None => None
  end.

Lemma resolve_argtypes_found toks types :
  resolve_argtypes toks = Ret types ->
  types = map (fun tok => TYPENAMENSP sc tok PG_CATALOG_NAMESPACE) toks.
Proof.
  revert types. induction toks as [|tok rest IH]; intros types; cbn [resolve_argtypes map].
  - intros [= <-]. reflexivity.
  - destruct (OidIsValid _); [| discriminate].
    destruct (resolve_argtypes rest) as [values| | |]; cbn [obind]; try discriminate.
    intros [= <-]. rewrite (IH values eq_refl). reflexivity.
Qed.

(** What a signature that resolves has gone through. *)
Lemma resolve_func_signature_found signature fn_oid :
  __aggfunc_resolve_func_signature signature = Ret fn_oid ->
  exists names fn_name fn_namespace,
    signature_argument_names signature = Some names
    /\ fn_oid = PROCNAMEARGSNSP sc fn_name
                  (map (fun tok => TYPENAMENSP sc tok PG_CATALOG_NAMESPACE) names)
                  fn_namespace
    /\ OidIsValid fn_oid = true.
Proof.
  unfold __aggfunc_resolve_func_signature, signature_argument_names.
  destruct (if String.prefix "c:" signature then _ else _) as [ns| | |];
    cbn [obind]; try discriminate.
  destruct (strchr_cut "("%char _) as [[fn_name base]|]; [| discriminate].
  destruct (strchr_cut ")"%char base) as [[base' rest]|]; [| discriminate].
  destruct (resolve_argtypes _) as [types| | |] eqn:Htypes; cbn [obind];
    try discriminate.
  apply resolve_argtypes_found in Htypes. subst types.
  destruct (OidIsValid _) eqn:Hvalid; [| discriminate].
  intros [= <-]. eauto 10.
Qed.

(** A function catalog is coherent when the function found under a name
    and a list of argument types has a row, with these argument types. *)
Definition coherent_syscache : Prop :=
  forall name argtypes nsp,
    OidIsValid (PROCNAMEARGSNSP sc name argtypes nsp) = true ->
    exists row,
      PROCOID sc (PROCNAMEARGSNSP sc name argtypes nsp) = Some row
      /\ proargtypes row = argtypes.

(** The name under which pg_type lists the result types that the switch of
    [__aggfunc_resolve_partial_func] expects. *)
Definition builtin_type_name (type_oid : Oid) : string :=
  if N.eqb type_oid INT8OID then "int8"
  else if N.eqb type_oid FLOAT8OID then "float8"
  else if N.eqb type_oid BYTEAOID then "bytea"
  else "".

(** One line of the static catalog fits the checks made on it: its action
    is known, the signature of its partial function has as many argument
    types as the action expects, and the signature of its final function
    has one argument type, the result type expected of the partial
    function. *)
Definition line_fits_the_checks (cat : aggfunc_catalog_t) : bool :=
  match partfn_expectation (partfn_action cat),
        signature_argument_names (partfn_signature cat),
        signature_argument_names (finalfn_signature cat) with
  | Ret (func_nargs, type_oid), Some partfn_names, Some [finalfn_name] =>
      (Z.of_nat (length partfn_names) =? func_nargs)
      && String.eqb finalfn_name (builtin_type_name type_oid)
      && negb (String.eqb finalfn_name "")
  | _, _, _ => false
  end.

Lemma every_line_fits_the_checks :
  forallb line_fits_the_checks aggfunc_catalog_array = true.
Proof. vm_compute. reflexivity. Qed.

(** The static catalog agrees with the checks the resolver makes on its
    lines.  In a coherent function catalog in which int8, float8 and bytea
    are the types of these names, whatever line of the static catalog is
    resolved: the action of the line is known to the switch, the partial
    function found has the number of arguments expected, and the final
    function found has one argument, of the type expected as the result of
    the partial function.  What is left to fail are the result types and
    the final function not being an aggregate. *)
Theorem static_catalog_fits_the_arity_checks :
  coherent_syscache ->
  TYPENAMENSP sc "int8" PG_CATALOG_NAMESPACE = INT8OID ->
  TYPENAMENSP sc "float8" PG_CATALOG_NAMESPACE = FLOAT8OID ->
  TYPENAMENSP sc "bytea" PG_CATALOG_NAMESPACE = BYTEAOID ->
  forall cat : aggfunc_catalog_t,
    In cat aggfunc_catalog_array ->
    exists func_nargs type_oid,
      partfn_expectation (partfn_action cat) = Ret (func_nargs, type_oid)
      /\ (forall pf_oid,
             __aggfunc_resolve_func_signature (partfn_signature cat) = Ret pf_oid ->
             exists pf, PROCOID sc pf_oid = Some pf /\ pronargs pf = func_nargs)
      /\ (forall ff_oid,
             __aggfunc_resolve_func_signature (finalfn_signature cat) = Ret ff_oid ->
             exists ff, PROCOID sc ff_oid = Some ff /\ proargtypes ff = [type_oid]).
Proof.
  intros Hcoherent Hint8 Hfloat8 Hbytea cat Hin.
  pose proof every_line_fits_the_checks as Hall.
  rewrite forallb_forall in Hall. specialize (Hall cat Hin).
  unfold line_fits_the_checks in Hall.
  destruct (partfn_expectation (partfn_action cat)) as [[func_nargs type_oid]| | |] eqn:Hexp;
    try discriminate.
  destruct (signature_argument_names (partfn_signature cat)) as [pnames|] eqn:Hp;
    [| discriminate].
  destruct (signature_argument_names (finalfn_signature cat)) as [[|fname [|]]|] eqn:Hf;
    try discriminate.
  apply andb_prop in Hall. destruct Hall as [Hall Hnonempty].
  apply andb_prop in Hall. destruct Hall as [Hlen Hname].
  apply Z.eqb_eq in Hlen. apply String.eqb_eq in Hname.
  exists func_nargs, type_oid. split; [reflexivity |]. split.
  - intros pf_oid Hrun.
    destruct (resolve_func_signature_found _ _ Hrun)
      as (names & fn_name & ns & Hnames & -> & Hvalid).
    rewrite Hp in Hnames. injection Hnames as <-.
    destruct (Hcoherent _ _ _ Hvalid) as (pf & Hrow & Hargs).
    exists pf. split; [exact Hrow |].
    unfold pronargs. rewrite Hargs, length_map. exact Hlen.
  - intros ff_oid Hrun.
    destruct (resolve_func_signature_found _ _ Hrun)
      as (names & fn_name & ns & Hnames & -> & Hvalid).
    rewrite Hf in Hnames. injection Hnames as <-.
    destruct (Hcoherent _ _ _ Hvalid) as (ff & Hrow & Hargs).
    exists ff. split; [exact Hrow |].
    rewrite Hargs. cbn [map]. f_equal.
    subst fname. unfold builtin_type_name in *.
    destruct (N.eqb_spec type_oid INT8OID) as [-> | _]; [exact Hint8 |].
    destruct (N.eqb_spec type_oid FLOAT8OID) as [-> | _]; [exact Hfloat8 |].
    destruct (N.eqb_spec type_oid BYTEAOID) as [-> | _]; [exact Hbytea |].
    discriminate Hnonempty.
Qed.


(** ** Printing a signature and resolving it *)

Fixpoint string_has (c : ascii) (s : string) : bool :=
  match s with
  | EmptyString => false
  | String x rest => Ascii.eqb x c || string_has c rest
  end.

Lemma append_String (x : ascii) (a b : string) :
  String.append (String x a) b = String x (String.append a b).
Proof. reflexivity. Qed.

Lemma append_Empty (b : string) : String.append EmptyString b = b.
Proof. reflexivity. Qed.

Lemma string_has_append c a b :
  string_has c (String.append a b) = string_has c a || string_has c b.
Proof.
  induction a as [|x a IH]; rewrite ?append_String, ?append_Empty;
    cbn [string_has]; [reflexivity |].
  rewrite IH. apply orb_assoc.
Qed.

Lemma strchr_cut_append c a b :
  string_has c a = false ->
  strchr_cut c (String.append a (String c b)) = Some (a, b).
Proof.
  induction a as [|x a IH]; rewrite ?append_String, ?append_Empty;
    cbn [string_has strchr_cut].
  - intros _. rewrite Ascii.eqb_refl. reflexivity.
  - intros Hnone. apply orb_false_elim in Hnone. destruct Hnone as [Hx Ha].
    rewrite Hx, (IH Ha). reflexivity.
Qed.

Lemma string_append_assoc (a b c : string) :
  String.append (String.append a b) c = String.append a (String.append b c).
Proof.
  induction a as [|x a IH]; rewrite ?append_String, ?append_Empty;
    [reflexivity | rewrite IH; reflexivity].
Qed.

Lemma string_append_empty_r (a : string) : String.append a EmptyString = a.
Proof.
  induction a as [|x a IH]; rewrite ?append_String, ?append_Empty;
    [reflexivity | rewrite IH; reflexivity].
Qed.

(** [strtok_r] reads through a run of characters other than the
    delimiter. *)
Lemma strtok_r_run delim tok : forall cur rest,
  string_has delim tok = false ->
  strtok_r delim cur (String.append tok rest)
  = strtok_r delim (String.append cur tok) rest.
Proof.
  induction tok as [|x tok IH]; intros cur rest Hnone;
    rewrite ?append_String, ?append_Empty; cbn [strtok_r].
  - rewrite string_append_empty_r. reflexivity.
  - cbn [string_has] in Hnone. apply orb_false_elim in Hnone.
    destruct Hnone as [Hx Htok].
    rewrite Hx, (IH _ _ Htok), string_append_assoc. reflexivity.
Qed.

(** A type name that can stand in a signature. *)
Definition plain_type_name (name : string) : Prop :=
  name <> EmptyString
  /\ string_has ","%char name = false
  /\ string_has ")"%char name = false.

(** The text that [sprintf_argtypes] prints is cut by [strtok_r] into the
    type names it was printed from. *)
Lemma strtok_r_sprintf_argtypes types : forall j text,
  0 <= j ->
  (forall t name, In t types -> get_type_name t false = Ret (Some name) ->
                  plain_type_name name
                  /\ TYPENAMENSP sc name PG_CATALOG_NAMESPACE = t
                  /\ OidIsValid t = true) ->
  sprintf_argtypes j types = Ret text ->
  string_has ")"%char text = false
  /\ resolve_argtypes (strtok_r ","%char EmptyString text) = Ret types
  /\ (0 < j -> forall cur, cur <> EmptyString ->
        resolve_argtypes (strtok_r ","%char cur text)
        = (values <- resolve_argtypes [cur] ;; Ret (values ++ types)%list)%pure).
Proof.
  induction types as [|t types IH]; intros j text Hj0 Hnames;
    cbn [sprintf_argtypes].
  - intros [= <-]. split; [reflexivity |]. split; [reflexivity |].
    intros _ cur Hcur. cbn [strtok_r].
    destruct (String.eqb_spec cur EmptyString) as [-> | _]; [contradiction |].
    cbn [resolve_argtypes obind]. destruct (OidIsValid _); reflexivity.
  - destruct (get_type_name t false) as [[name|]| | |] eqn:Hname; cbn [obind];
      try discriminate.
    destruct (sprintf_argtypes (j + 1) types) as [tail| | |] eqn:Htail;
      cbn [obind]; try discriminate.
    intros [= <-].
    destruct (Hnames t name (or_introl eq_refl) Hname)
      as ((Hnonempty & Hcomma & Hparen) & Htype & Hvalid).
    destruct (IH (j + 1) tail ltac:(lia)
                (fun t' n' Hin => Hnames t' n' (or_intror Hin)) Htail)
      as (Htail_paren & _ & Htail_after).
    assert (Hone : resolve_argtypes [name] = Ret [t]).
    { cbn [resolve_argtypes obind]. rewrite Htype, Hvalid. reflexivity. }
    assert (Htok :
              resolve_argtypes
                (strtok_r ","%char EmptyString (String.append name tail))
              = Ret (t :: types)).
    { rewrite (strtok_r_run _ _ _ _ Hcomma), append_Empty.
      rewrite Htail_after; [| lia | exact Hnonempty].
      rewrite Hone. reflexivity. }
    split; [| split].
    + rewrite !string_has_append, Hparen, Htail_paren.
      destruct (0 <? j); reflexivity.
    + destruct (0 <? j); rewrite ?append_String, ?append_Empty;
        cbn [strtok_r]; rewrite ?Ascii.eqb_refl; cbn [String.eqb];
        exact Htok.
    + intros Hj cur Hcur. apply Z.ltb_lt in Hj. rewrite Hj.
      rewrite ?append_String, ?append_Empty.
      cbn [strtok_r]. rewrite Ascii.eqb_refl.
      destruct (String.eqb_spec cur EmptyString) as [-> | _]; [contradiction |].
      cbn [resolve_argtypes obind].
      destruct (OidIsValid (TYPENAMENSP sc cur PG_CATALOG_NAMESPACE));
        cbn [obind]; [| reflexivity].
      rewrite Htok. reflexivity.
Qed.


(** The two string formats of the file are one.  The text that
    [aggfunc_catalog_lookup_by_oid] prints for a function, behind the
    prefix [c:] or [s:], is a signature that
    [__aggfunc_resolve_func_signature] reads back as the same name and the
    same argument types (when the name has no opening parenthesis and the
    type names are plain and are the names of these types in pg_catalog).
    It resolves to the function of this name and these argument types in
    pg_catalog, or in the pgstrom schema. *)
Theorem printed_signature_resolves :
  forall (proc : Form_pg_proc) (buf : string),
    string_has "("%char (proname proc) = false ->
    (forall t name,
        In t (proargtypes proc) -> get_type_name t false = Ret (Some name) ->
        plain_type_name name
        /\ TYPENAMENSP sc name PG_CATALOG_NAMESPACE = t
        /\ OidIsValid t = true) ->
    sprintf_signature proc = Ret buf ->
    __aggfunc_resolve_func_signature (String.append "c:" buf)
    = (let fn_oid := PROCNAMEARGSNSP sc (proname proc) (proargtypes proc)
                       PG_CATALOG_NAMESPACE in
       if OidIsValid fn_oid then Ret fn_oid
       else Elog "Catalog corruption? function was not found")
    /\ __aggfunc_resolve_func_signature (String.append "s:" buf)
       = (fn_namespace <- get_namespace_oid "pgstrom" false ;;
          let fn_oid := PROCNAMEARGSNSP sc (proname proc) (proargtypes proc)
                          fn_namespace in
          if OidIsValid fn_oid then Ret fn_oid
          else Elog "Catalog corruption? function was not found")%pure.
Proof.
  intros proc buf Hname Htypes Hprint.
  unfold sprintf_signature in Hprint.
  destruct (sprintf_argtypes 0 (proargtypes proc)) as [text| | |] eqn:Htext;
    cbn [obind] in Hprint; try discriminate.
  injection Hprint as <-.
  destruct (strtok_r_sprintf_argtypes _ 0 text ltac:(lia) Htypes Htext)
    as (Hparen & Hargs & _).
  assert (Hcut1 : strchr_cut "("%char
                    (String.append (proname proc)
                       (String.append "(" (String.append text ")")))
                  = Some (proname proc, String.append text ")")).
  { exact (strchr_cut_append "("%char (proname proc) (String.append text ")") Hname). }
  assert (Hcut2 : strchr_cut ")"%char (String.append text ")")
                  = Some (text, EmptyString)).
  { exact (strchr_cut_append ")"%char text EmptyString Hparen). }
  assert (Hc : forall rest, String.prefix "c:" (String "c" (String ":" rest)) = true)
    by (intros [|]; reflexivity).
  assert (Hs1 : forall rest, String.prefix "c:" (String "s" (String ":" rest)) = false)
    by reflexivity.
  assert (Hs2 : forall rest, String.prefix "s:" (String "s" (String ":" rest)) = true)
    by (intros [|]; reflexivity).
  set (printed := String.append (proname proc)
                    (String.append "(" (String.append text ")"))) in *.
  change (String.append "c:" printed) with (String "c" (String ":" printed)).
  change (String.append "s:" printed) with (String "s" (String ":" printed)).
  unfold __aggfunc_resolve_func_signature.
  rewrite Hc, Hs1, Hs2. cbn [string_drop obind].
  rewrite Hcut1, Hcut2, Hargs. cbn [obind].
  split; [reflexivity |].
  destruct (get_namespace_oid "pgstrom" false) as [ns| | |]; reflexivity.
Qed.


(** * Further properties of the rewriter *)

(** What a cast built by [make_expr_typecast] is a cast of. *)
Definition cast_argument (expr : option Node) : option Node :=
  match expr with
  | Some (T_RelabelType arg _ _ _ _) => arg
  | Some (T_FuncExpr _ _ _ _ _ _ _ (Some (T_List [arg]))) => arg
  | _ => expr
  end.

(** [make_expr_typecast] leaves an expression alone when it has the target
    type already or the target is the pseudo-type [any]; otherwise what it
    returns is an implicit cast of the expression, by relabelling or by the
    cast function of pg_cast, and has the target type. *)
Theorem typecast_gives_the_target_type :
  forall (expr casted : option Node) (target_type : Oid),
    make_expr_typecast expr target_type = Ret casted ->
    (exprType expr = Ret target_type \/ target_type = ANYOID -> casted = expr)
    /\ (target_type <> ANYOID -> exprType casted = Ret target_type)
    /\ (casted <> expr ->
          cast_argument casted = expr
          /\ exists cast source_type,
               exprType expr = Ret source_type
               /\ CASTSOURCETARGET sc source_type target_type = Some cast
               /\ match casted with
                  | Some (T_RelabelType _ _ _ _ fmt) =>
                      castmethod cast = COERCION_METHOD_BINARY
                      /\ fmt = COERCE_IMPLICIT_CAST
                  | Some (T_FuncExpr funcid _ _ _ fmt _ _ _) =>
                      castmethod cast = COERCION_METHOD_FUNCTION
                      /\ funcid = castfunc cast /\ fmt = COERCE_IMPLICIT_CAST
                  | _ => False
                  end).
Proof.
  intros expr casted target_type. unfold make_expr_typecast.
  destruct (exprType expr) as [source_type| | |] eqn:Hsource; cbn [obind];
    try discriminate.
  destruct (N.eqb_spec target_type source_type) as [-> | Hne]; cbn [orb].
  { intros [= <-]. split; [reflexivity |]. split; [intros _; exact Hsource |].
    intros Hchanged. contradiction. }
  destruct (N.eqb_spec target_type ANYOID) as [-> | Hany].
  { intros [= <-]. split; [reflexivity |]. split; [contradiction |].
    intros Hchanged. contradiction. }
  destruct (CASTSOURCETARGET sc source_type target_type) as [cast|] eqn:Hcast;
    [| discriminate].
  destruct (Ascii.eqb_spec (castmethod cast) COERCION_METHOD_BINARY) as [Hbin | _].
  - destruct (exprCollation expr) as [collid| | |]; cbn [obind]; try discriminate.
    intros [= <-]. split; [| split].
    + intros [[= Hsame] | Hsame]; congruence.
    + intros _. reflexivity.
    + intros _. split; [reflexivity |]. exists cast, source_type. repeat split; assumption.
  - destruct (Ascii.eqb_spec (castmethod cast) COERCION_METHOD_FUNCTION) as [Hfn | _];
      [| discriminate].
    destruct (Assert _ _) as [[]| | |]; cbn [obind]; try discriminate.
    destruct (exprCollation expr) as [collid| | |]; cbn [obind]; try discriminate.
    intros [= <-]. split; [| split].
    + intros [[= Hsame] | Hsame]; congruence.
    + intros _. reflexivity.
    + intros _. split; [reflexivity |]. exists cast, source_type. repeat split; assumption.
Qed.


(** Induction over expression trees that also passes through the lists and
    the filter of an aggregate call. *)
Section NodeInductionThroughAggref.
Variable P : Node -> Prop.

Hypothesis on_Var : forall no att ty typmod coll lev, P (T_Var no att ty typmod coll lev).
Hypothesis on_Const : forall ty typmod coll value isnull,
    P (T_Const ty typmod coll value isnull).
Hypothesis on_PlaceHolderVar : forall phexpr phid lev,
    holds_below P phexpr -> P (T_PlaceHolderVar phexpr phid lev).
Hypothesis on_FuncExpr : forall funcid res retset variadic fmt coll icoll fargs,
    holds_below P fargs ->
    P (T_FuncExpr funcid res retset variadic fmt coll icoll fargs).
Hypothesis on_OpExpr : forall opno opfuncid res retset coll icoll oargs,
    holds_below P oargs -> P (T_OpExpr opno opfuncid res retset coll icoll oargs).
Hypothesis on_BoolExpr : forall boolop bargs,
    holds_below P bargs -> P (T_BoolExpr boolop bargs).
Hypothesis on_RelabelType : forall arg ty typmod coll fmt,
    holds_below P arg -> P (T_RelabelType arg ty typmod coll fmt).
Hypothesis on_Aggref : forall a : Aggref,
    holds_below P (aggdirectargs a) -> holds_below P (args a) ->
    holds_below P (aggorder a) -> holds_below P (aggdistinct a) ->
    holds_below P (aggfilter a) -> P (T_Aggref a).
Hypothesis on_TargetEntry : forall expr resno resname ref junk,
    holds_below P expr -> P (T_TargetEntry expr resno resname ref junk).
Hypothesis on_List : forall cells, Forall (holds_below P) cells -> P (T_List cells).

Fixpoint Node_induction_through_Aggref (node : Node) : P node :=
  let below (child : option Node) : holds_below P child :=
    match child with
    | Some n => Node_induction_through_Aggref n
    | None => I
    end in
  match node with
  | T_Var no att ty typmod coll lev => on_Var no att ty typmod coll lev
  | T_Const ty typmod coll value isnull => on_Const ty typmod coll value isnull
  | T_PlaceHolderVar phexpr phid lev => on_PlaceHolderVar phexpr phid lev (below phexpr)
  | T_FuncExpr funcid res retset variadic fmt coll icoll fargs =>
      on_FuncExpr funcid res retset variadic fmt coll icoll fargs (below fargs)
  | T_OpExpr opno opfuncid res retset coll icoll oargs =>
      on_OpExpr opno opfuncid res retset coll icoll oargs (below oargs)
  | T_BoolExpr boolop bargs => on_BoolExpr boolop bargs (below bargs)
  | T_RelabelType arg ty typmod coll fmt =>
      on_RelabelType arg ty typmod coll fmt (below arg)
  | T_Aggref a =>
      on_Aggref a (below (aggdirectargs a)) (below (args a)) (below (aggorder a))
                (below (aggdistinct a)) (below (aggfilter a))
  | T_TargetEntry expr resno resname ref junk =>
      on_TargetEntry expr resno resname ref junk (below expr)
  | T_List cells =>
      on_List cells
        ((fix each (l : list (option Node)) : Forall (holds_below P) l :=
            match l with
            | [] => @List.Forall_nil _ (holds_below P)
            | cell :: rest =>
                @List.Forall_cons _ (holds_below P) cell rest (below cell) (each rest)
            end) cells)
  end.

End NodeInductionThroughAggref.

Lemma list_eqb_N_refl (l : list N) : list_eqb N.eqb l l = true.
Proof.
  induction l as [|x l IH]; cbn; [reflexivity |]. rewrite N.eqb_refl. exact IH.
Qed.

Lemma option_eqb_equal_refl (child : option Node) :
  holds_below (fun n => equal n n = true) child -> option_eqb equal child child = true.
Proof. destruct child; cbn; auto. Qed.

(** [equal] holds of a node and itself. *)
Lemma equal_refl (node : Node) : equal node node = true.
Proof.
  induction node using Node_induction_through_Aggref; cbn [equal];
    rewrite ?Z.eqb_refl, ?N.eqb_refl, ?Bool.eqb_reflx, ?Ascii.eqb_refl,
      ?list_eqb_N_refl, ?option_eqb_equal_refl by assumption;
    cbn [andb orb]; try reflexivity.
  - (* Const *) destruct isnull; reflexivity.
  - (* BoolExpr *) destruct boolop; reflexivity.
  - (* Aggref *) destruct (aggsplit a); reflexivity.
  - (* TargetEntry *)
    destruct resname as [name|]; cbn; [rewrite String.eqb_refl |]; reflexivity.
  - (* List *)
    induction H as [|cell rest Hcell _ IH]; cbn; [reflexivity |].
    rewrite (option_eqb_equal_refl _ Hcell). exact IH.
Qed.


Lemma skipn_nth_error {A : Type} (l : list A) : forall j x,
  nth_error l j = Some x -> skipn j l = x :: skipn (S j) l.
Proof.
  induction l as [|y l IH]; intros [|j] x; cbn; try discriminate.
  - intros [= ->]. reflexivity.
  - intros Hnth. exact (IH j x Hnth).
Qed.

Lemma make_expr_typecast_returns expr target_type casted :
  make_expr_typecast expr target_type = Ret casted ->
  (casted = expr \/ cast_argument casted = expr)
  /\ (target_type <> ANYOID -> exprType casted = Ret target_type).
Proof.
  unfold make_expr_typecast.
  destruct (exprType expr) as [source_type| | |] eqn:Hsource; cbn [obind];
    try discriminate.
  destruct (N.eqb_spec target_type source_type) as [-> | Hne]; cbn [orb].
  { intros [= <-]. split; [left; reflexivity | intros _; exact Hsource]. }
  destruct (N.eqb_spec target_type ANYOID) as [-> | Hany].
  { intros [= <-]. split; [left; reflexivity | contradiction]. }
  destruct (CASTSOURCETARGET sc source_type target_type) as [cast|]; [| discriminate].
  destruct (Ascii.eqb (castmethod cast) COERCION_METHOD_BINARY).
  - destruct (exprCollation expr) as [collid| | |]; cbn [obind]; try discriminate.
    intros [= <-]. split; [right; reflexivity | intros _; reflexivity].
  - destruct (Ascii.eqb (castmethod cast) COERCION_METHOD_FUNCTION); [| discriminate].
    destruct (Assert _ _) as [[]| | |]; cbn [obind]; try discriminate.
    destruct (exprCollation expr) as [collid| | |]; cbn [obind]; try discriminate.
    intros [= <-]. split; [right; reflexivity | intros _; reflexivity].
Qed.

(** One argument of the partial function comes from one argument of the
    aggregate call: the expression of the target entry, as it is or under
    an implicit cast. *)
Definition argument_of (cell arg : option Node) : Prop :=
  exists expr resno resname ref junk,
    cell = Some (T_TargetEntry expr resno resname ref junk)
    /\ (arg = expr \/ cast_argument arg = expr).

(** The loop over the arguments of an aggregate call, when it runs to its
    end: one argument was appended for each argument of the call, of the
    type that the row of the partial function declares at this position
    (the pseudo-type [any] accepts every type), and each was found
    executable on the device. *)
Lemma partfn_args_loop_returns con cells values :
  forall j acc acc_cells res,
    list_cells acc = Ret acc_cells ->
    partfn_args_loop con cells values j acc = Ret (Some res) ->
    exists new dests rest,
      list_cells res = Ret (acc_cells ++ new)%list
      /\ skipn j values = (dests ++ rest)%list
      /\ Forall2 (fun arg dest => dest <> ANYOID -> exprType arg = Ret dest) new dests
      /\ Forall2 argument_of cells new
      /\ Forall (fun arg => pgstrom_xpu_expression arg (task_kind con)
                              (input_rels_tlist con) = true) new.
Proof.
  induction cells as [|cell cells IH]; intros j acc acc_cells res Hacc;
    cbn [partfn_args_loop].
  - intros [= <-]. exists [], [], (skipn j values).
    rewrite app_nil_r. repeat split; [exact Hacc | constructor ..].
  - destruct cell as [[| | | | | | | |expr resno resname ref junk|]|];
      try discriminate.
    destruct (exprType expr) as [type_oid| | |] eqn:Htype; cbn [obind];
      try discriminate.
    destruct (nth_error values j) as [dest_oid|] eqn:Hdest; cbn [obind];
      try discriminate.
    destruct (if negb (N.eqb type_oid dest_oid) then make_expr_typecast expr dest_oid
              else Ret expr) as [arg| | |] eqn:Harg; cbn [obind]; try discriminate.
    destruct (pgstrom_xpu_expression arg (task_kind con) (input_rels_tlist con))
      eqn:Hxpu; cbn [negb]; [| discriminate].
    unfold lappend. rewrite Hacc. cbn [obind].
    intros Hrest.
    destruct (IH (S j) (Some (T_List (acc_cells ++ [arg]))) (acc_cells ++ [arg])%list
                res eq_refl Hrest)
      as (new & dests & rest & Hres & Hskip & Htypes & Hfrom & Hexec).
    exists (arg :: new), (dest_oid :: dests), rest.
    rewrite Hres, <- app_assoc, (skipn_nth_error _ _ _ Hdest), Hskip.
    repeat split; try reflexivity.
    + constructor; [| exact Htypes].
      intros Hany.
      destruct (N.eqb_spec type_oid dest_oid) as [-> | Hne]; cbn [negb] in Harg.
      * injection Harg as <-. exact Htype.
      * exact (proj2 (make_expr_typecast_returns _ _ _ Harg) Hany).
    + constructor; [| exact Hfrom].
      exists expr, resno, resname, ref, junk. split; [reflexivity |].
      destruct (N.eqb type_oid dest_oid); cbn [negb] in Harg.
      * injection Harg as <-. left. reflexivity.
      * exact (proj1 (make_expr_typecast_returns _ _ _ Harg)).
    + constructor; [exact Hxpu | exact Hexec].
Qed.


(** The call of the partial function that [make_alternative_aggref] builds
    for an aggregate call, and the context after the call has been entered
    into the partial target list. *)
Definition partial_call (e : aggfunc_catalog_entry) (aggref : Aggref)
  (partfn_args : option Node) : Node :=
  makeFuncExpr (partial_func_oid e) (partial_func_rettype e) partfn_args
               (aggcollid aggref) (inputcollid aggref) COERCE_EXPLICIT_CALL.

Definition with_partial_column (con : xpugroupby_build_path_context D)
  (partfn : Node) (action : kagg_action) : xpugroupby_build_path_context D :=
  if negb (list_member (exprs (target_partial con)) partfn)
  then set_pp_info
         (set_groupby_actions (groupby_actions (pp_info con) ++ [action])
                              (pp_info con))
         (set_target_partial
            (add_column_to_pathtarget (target_partial con) partfn 0) con)
  else con.

(** The final aggregate call built over a partial call. *)
Definition final_call (e : aggfunc_catalog_entry) (agg : Form_pg_aggregate)
  (aggref : Aggref) (partfn : Node) : Aggref :=
  {| aggfnoid := final_func_oid e;
     aggtype := aggtype aggref;
     aggcollid := aggcollid aggref;
     inputcollid := inputcollid aggref;
     aggtranstype := agg_aggtranstype agg;
     aggargtypes := [partial_func_rettype e];
     aggdirectargs := None;
     args := list_make1 (Some (makeTargetEntry (Some partfn) 1 None false));
     aggorder := None;
     aggdistinct := None;
     aggfilter := None;
     aggstar := false;
     aggvariadic := false;
     aggkind := AGGKIND_NORMAL;
     agglevelsup := 0;
     aggsplit := AGGSPLIT_SIMPLE;
     aggno := aggno aggref;
     aggtransno := aggtransno aggref;
     location := location aggref |}.

(** What has happened when [make_alternative_aggref] returns a rewritten
    call. *)
Lemma make_alternative_aggref_returns con aggref st altfn con' st' :
  make_alternative_aggref con aggref st = (Ret (Some altfn, con'), st') ->
  exists e proc agg cells partfn_args costs,
    aggfunc_catalog_lookup_by_oid (aggfnoid aggref) st = (Ret (Some e), st')
    /\ non_null (aggorder aggref) = false
    /\ non_null (aggdistinct aggref) = false
    /\ AGGKIND_IS_ORDERED_SET (aggkind aggref) = false
    /\ Assert (Ret (Ascii.eqb (aggkind aggref) AGGKIND_NORMAL
                    && negb (aggvariadic aggref)))
              "aggref->aggkind == AGGKIND_NORMAL && !aggref->aggvariadic" = Ret tt
    /\ PROCOID sc (partial_func_oid e) = Some proc
    /\ Assert (n <- list_length (args aggref) ;; Ret (n =? pronargs proc))%pure
              "list_length(aggref->args) == proc->pronargs" = Ret tt
    /\ AGGFNOID sc (final_func_oid e) = Some agg
    /\ list_cells (args aggref) = Ret cells
    /\ partfn_args_loop con cells (proargtypes proc) 0 None = Ret (Some partfn_args)
    /\ altfn = T_Aggref (final_call e agg aggref (partial_call e aggref partfn_args))
    /\ con' = set_final_clause_costs costs
                (with_partial_column con (partial_call e aggref partfn_args)
                                     (partial_func_action e)).
Proof.
  unfold make_alternative_aggref.
  destruct (non_null (aggorder aggref)) eqn:Horder; cbn [orb]; [discriminate |].
  destruct (non_null (aggdistinct aggref)) eqn:Hdistinct; [discriminate |].
  destruct (AGGKIND_IS_ORDERED_SET (aggkind aggref)) eqn:Hkind; [discriminate |].
  unfold bind at 1.
  destruct (aggfunc_catalog_lookup_by_oid (aggfnoid aggref) st)
    as [[[e|]| | |] st1] eqn:Hlookup; try discriminate.
  unfold bind at 1. unfold lift at 1.
  destruct (Assert (Ret _) _) as [[]| | |] eqn:Hsane; try discriminate.
  destruct (PROCOID sc (partial_func_oid e)) as [proc|] eqn:Hproc; [| discriminate].
  unfold bind at 1. unfold lift at 1.
  destruct (Assert (obind _ _) _) as [[]| | |] eqn:Hnargs; try discriminate.
  unfold bind at 1. unfold lift at 1.
  destruct (list_cells (args aggref)) as [cells| | |] eqn:Hcells; try discriminate.
  unfold bind at 1. unfold lift at 1.
  destruct (partfn_args_loop con cells (proargtypes proc) 0 None)
    as [[partfn_args|]| | |] eqn:Hloop; try discriminate.
  cbv zeta.
  destruct (AGGFNOID sc (final_func_oid e)) as [agg|] eqn:Hagg; [| discriminate].
  unfold bind, lift, ret. cbn [exprType exprType_node makeFuncExpr].
  intros [= <- <- <-].
  exists e, proc, agg, cells, partfn_args. eexists.
  repeat split; try assumption; try reflexivity.
Qed.


Lemma list_member_app_last (l : list Node) (datum : Node) :
  list_member (l ++ [datum]) datum = true.
Proof.
  unfold list_member. rewrite existsb_app. cbn [existsb].
  rewrite equal_refl. cbn [orb]. apply orb_true_r.
Qed.

Lemma with_partial_column_member con partfn action :
  list_member (exprs (target_partial (with_partial_column con partfn action))) partfn
  = true.
Proof.
  unfold with_partial_column.
  destruct (list_member (exprs (target_partial con)) partfn) eqn:Hmember; cbn [negb].
  - exact Hmember.
  - cbn. apply list_member_app_last.
Qed.

(** A rewritten aggregate call is the final function over the partial
    function.  When [make_alternative_aggref] returns a call, the resolver
    has a valid entry for the aggregate function; the call returned is an
    aggregate call of the entry's final function, of the result type of the
    call it replaces, so that the consistency test of the target builder
    passes; it has no ORDER BY, DISTINCT or FILTER of its own, and its one
    argument is a call of the entry's partial function, returning the
    entry's partial result type, which is a column of the partial target
    list of the context returned. *)
Theorem rewritten_aggregate_is_final_over_partial :
  forall (con con' : xpugroupby_build_path_context D) (aggref : Aggref)
         (altfn : Node) (st st' : pg_state D),
    make_alternative_aggref con aggref st = (Ret (Some altfn, con'), st') ->
    exists (e : aggfunc_catalog_entry) (final : Aggref) (partfn_args : option Node),
      cached st' (aggfnoid aggref) = Some e
      /\ is_valid_entry e = true
      /\ altfn = T_Aggref final
      /\ aggfnoid final = final_func_oid e
      /\ exprType (Some altfn) = exprType (Some (T_Aggref aggref))
      /\ aggorder final = None /\ aggdistinct final = None /\ aggfilter final = None
      /\ args final
         = Some (T_List [Some (T_TargetEntry
                                 (Some (partial_call e aggref partfn_args))
                                 1 None 0 false)])
      /\ exprType (Some (partial_call e aggref partfn_args))
         = Ret (partial_func_rettype e)
      /\ list_member (exprs (target_partial con'))
                     (partial_call e aggref partfn_args) = true.
Proof.
  intros con con' aggref altfn st st' Hrun.
  destruct (make_alternative_aggref_returns _ _ _ _ _ _ Hrun)
    as (e & proc & agg & cells & partfn_args & costs & Hlookup & _ & _ & _ & _
        & _ & _ & _ & _ & _ & -> & ->).
  destruct (lookup_settles _ _ _ _ Hlookup) as [_ Hagain].
  destruct (hand_out_valid _ _ _ _ Hagain) as (Hcached & Hvalid & _).
  exists e, (final_call e agg aggref (partial_call e aggref partfn_args)), partfn_args.
  repeat split; try assumption.
  cbn [target_partial set_final_clause_costs]. apply with_partial_column_member.
Qed.


(** The arguments of the partial call.  When [make_alternative_aggref]
    returns a call, the partial call has one argument for each argument of
    the aggregate call, in order: the expression of the target entry, under
    an implicit cast where its type is not the one that the pg_proc row of
    the partial function declares at this position.  Each argument has the
    declared type (the pseudo-type [any] accepts every type) and was found
    executable on the device. *)
Theorem partial_call_arguments_fit_its_declaration :
  forall (con con' : xpugroupby_build_path_context D) (aggref : Aggref)
         (altfn : Node) (st st' : pg_state D),
    make_alternative_aggref con aggref st = (Ret (Some altfn, con'), st') ->
    exists (e : aggfunc_catalog_entry) (proc : Form_pg_proc)
           (partfn_args : option Node) (call_args partfn_cells : list (option Node))
           (declared more : list Oid),
      cached st' (aggfnoid aggref) = Some e
      /\ PROCOID sc (partial_func_oid e) = Some proc
      /\ list_member (exprs (target_partial con'))
                     (partial_call e aggref partfn_args) = true
      /\ list_cells (args aggref) = Ret call_args
      /\ list_cells partfn_args = Ret partfn_cells
      /\ proargtypes proc = (declared ++ more)%list
      /\ Forall2 argument_of call_args partfn_cells
      /\ Forall2 (fun arg dest => dest <> ANYOID -> exprType arg = Ret dest)
                 partfn_cells declared
      /\ Forall (fun arg => pgstrom_xpu_expression arg (task_kind con)
                              (input_rels_tlist con) = true) partfn_cells.
Proof.
  intros con con' aggref altfn st st' Hrun.
  destruct (make_alternative_aggref_returns _ _ _ _ _ _ Hrun)
    as (e & proc & agg & cells & partfn_args & costs & Hlookup & _ & _ & _ & _
        & Hproc & _ & _ & Hcells & Hloop & -> & ->).
  destruct (lookup_settles _ _ _ _ Hlookup) as [_ Hagain].
  destruct (hand_out_valid _ _ _ _ Hagain) as (Hcached & _ & _).
  destruct (partfn_args_loop_returns con cells (proargtypes proc) 0 None [] partfn_args
              eq_refl Hloop)
    as (new & dests & rest & Hres & Hskip & Htypes & Hfrom & Hexec).
  exists e, proc, partfn_args, cells, new, dests, rest.
  cbn [skipn app] in Hskip, Hres.
  repeat split; try assumption.
  cbn [target_partial set_final_clause_costs]. apply with_partial_column_member.
Qed.

(** The loop over the arguments reads the task kind and the target list of
    the input relations from the context, and nothing else. *)
Lemma partfn_args_loop_ext con1 con2 cells values :
  task_kind con1 = task_kind con2 ->
  input_rels_tlist con1 = input_rels_tlist con2 ->
  forall j acc,
    partfn_args_loop con1 cells values j acc
    = partfn_args_loop con2 cells values j acc.
Proof.
  intros Hkind Htlist.
  induction cells as [|cell cells IH]; intros j acc; cbn [partfn_args_loop];
    [reflexivity |].
  destruct cell as [[| | | | | | | |expr resno resname ref junk|]|]; try reflexivity.
  destruct (exprType expr) as [type_oid| | |]; cbn [obind]; try reflexivity.
  destruct (nth_error values j) as [dest_oid|]; cbn [obind]; try reflexivity.
  destruct (if negb (N.eqb type_oid dest_oid) then _ else _) as [arg| | |];
    cbn [obind]; try reflexivity.
  rewrite Hkind, Htlist.
  destruct (negb (pgstrom_xpu_expression arg _ _)); [reflexivity |].
  destruct (lappend acc arg) as [acc'| | |]; cbn [obind]; try reflexivity.
  apply IH.
Qed.

Lemma with_partial_column_keeps con partfn action :
  task_kind (with_partial_column con partfn action) = task_kind con
  /\ input_rels_tlist (with_partial_column con partfn action) = input_rels_tlist con
  /\ root (with_partial_column con partfn action) = root con.
Proof.
  unfold with_partial_column. destruct (negb _); repeat split.
Qed.

(** An aggregate call that occurs twice gets one column.  When
    [make_alternative_aggref] has returned a call for an aggregate call, a
    second run for the same aggregate call, from the context and the state
    the first one left, returns the same call: the resolver answers from
    its table, and the partial call, found in the partial target list, is
    not appended again, nor is its action.  Only the cost of the final
    function is charged once more. *)
Theorem repeated_aggregate_adds_no_column :
  forall (con con1 : xpugroupby_build_path_context D) (aggref : Aggref)
         (altfn : Node) (st st1 : pg_state D),
    make_alternative_aggref con aggref st = (Ret (Some altfn, con1), st1) ->
    exists con2 : xpugroupby_build_path_context D,
      make_alternative_aggref con1 aggref st1 = (Ret (Some altfn, con2), st1)
      /\ target_partial con2 = target_partial con1
      /\ pp_info con2 = pp_info con1
      /\ target_final con2 = target_final con1.
Proof.
  intros con con1 aggref altfn st st1 Hrun.
  destruct (make_alternative_aggref_returns _ _ _ _ _ _ Hrun)
    as (e & proc & agg & cells & partfn_args & costs & Hlookup & Horder & Hdistinct
        & Hkind & Hsane & Hproc & Hnargs & Hagg & Hcells & Hloop & -> & ->).
  destruct (lookup_settles _ _ _ _ Hlookup) as [[e0 Hcached] Hagain].
  rewrite <- (lookup_cached _ _ _ Hcached) in Hagain.
  set (partfn := partial_call e aggref partfn_args) in *.
  set (con0 := with_partial_column con partfn (partial_func_action e)) in *.
  destruct (with_partial_column_keeps con partfn (partial_func_action e))
    as (Hkind0 & Htlist0 & Hroot0).
  assert (Hloop1 : partfn_args_loop (set_final_clause_costs costs con0) cells
                     (proargtypes proc) 0 None = Ret (Some partfn_args)).
  { rewrite <- Hloop. apply partfn_args_loop_ext; assumption. }
  assert (Hmember : list_member
                      (exprs (target_partial (set_final_clause_costs costs con0)))
                      partfn = true).
  { cbn [target_partial set_final_clause_costs].
    apply with_partial_column_member. }
  unfold make_alternative_aggref.
  rewrite Horder, Hdistinct, Hkind. cbn [orb].
  unfold bind at 1. rewrite Hagain.
  unfold bind at 1. unfold lift at 1. rewrite Hsane, Hproc.
  unfold bind at 1. unfold lift at 1. rewrite Hnargs.
  unfold bind at 1. unfold lift at 1. rewrite Hcells.
  unfold bind at 1. unfold lift at 1. rewrite Hloop1.
  cbv zeta. fold (partial_call e aggref partfn_args). fold partfn.
  rewrite Hmember, Hagg. cbn [negb].
  unfold bind, lift, ret. cbn [exprType exprType_node makeFuncExpr].
  eexists. split; [reflexivity |]. repeat split.
Qed.


(** ** What the rewriter leaves alone *)

(** A relation between the context before and after that is reflexive and
    transitive, that [make_alternative_aggref] establishes and that does
    not look at [device_executable], holds across the rewriting of any
    expression. *)
Section RewriterInvariant.
Variable R : xpugroupby_build_path_context D -> xpugroupby_build_path_context D -> Prop.
Hypothesis R_refl : forall con, R con con.
Hypothesis R_trans : forall con1 con2 con3, R con1 con2 -> R con2 con3 -> R con1 con3.
Hypothesis R_aggref : forall con aggref,
    keeps same_planner_state (fun r => R con (snd r))
          (make_alternative_aggref con aggref).
Hypothesis R_flag : forall con con' v,
    R con con' -> R con (set_device_executable v con').

Lemma mutate_cells_invariant
  (mutator : option Node -> xpugroupby_build_path_context D ->
             M D (option Node * xpugroupby_build_path_context D))
  (cells : list (option Node)) :
  Forall (fun cell => forall con,
            keeps same_planner_state (fun r => R con (snd r)) (mutator cell con))
         cells ->
  forall con,
    keeps same_planner_state (fun r => R con (snd r))
          (mutate_cells mutator cells con).
Proof.
  induction 1 as [|cell rest Hcell _ IH]; intros con; cbn [mutate_cells].
  - apply keeps_ret, R_refl.
  - eapply keeps_bind; [apply Hcell |].
    intros r1 Hstep1.
    eapply keeps_bind; [apply IH |].
    intros r2 Hstep2. apply keeps_ret. cbn [snd].
    exact (R_trans _ _ _ Hstep1 Hstep2).
Qed.

Lemma replace_expression_by_altfunc_node_invariant node :
  forall con,
    keeps same_planner_state (fun r => R con (snd r))
          (replace_expression_by_altfunc_node node con).
Proof.
  induction node using Node_induction; intros con;
    cbn [replace_expression_by_altfunc_node];
    try (destruct (existsb _ _); [apply keeps_ret, R_refl |]);
    try apply keeps_elog.
  - cbn. apply keeps_ret, R_refl.
  - cbn [expression_tree_mutator].
    eapply keeps_bind; [| intros r Hr; apply keeps_ret; exact Hr].
    destruct fargs as [n|]; [apply H | apply keeps_ret, R_refl].
  - cbn [expression_tree_mutator].
    eapply keeps_bind; [| intros r Hr; apply keeps_ret; exact Hr].
    destruct oargs as [n|]; [apply H | apply keeps_ret, R_refl].
  - cbn [expression_tree_mutator].
    eapply keeps_bind; [| intros r Hr; apply keeps_ret; exact Hr].
    destruct bargs as [n|]; [apply H | apply keeps_ret, R_refl].
  - cbn [expression_tree_mutator].
    eapply keeps_bind; [| intros r Hr; apply keeps_ret; exact Hr].
    destruct arg as [n|]; [apply H | apply keeps_ret, R_refl].
  - eapply keeps_bind; [apply R_aggref |].
    intros [aggfn con'] Hstep. cbn [fst snd] in *.
    destruct aggfn; apply keeps_ret; [exact Hstep | apply R_flag; exact Hstep].
  - cbn [expression_tree_mutator].
    eapply keeps_bind; [| intros r Hr; apply keeps_ret; exact Hr].
    destruct expr as [n|]; [apply H | apply keeps_ret, R_refl].
  - cbn [expression_tree_mutator].
    eapply keeps_bind; [| intros r Hr; apply keeps_ret; exact Hr].
    apply mutate_cells_invariant.
    eapply Forall_impl; [exact H |].
    intros [n|] Hn con0; [apply Hn | apply keeps_ret, R_refl].
Qed.

Lemma replace_expression_by_altfunc_invariant node con :
  keeps same_planner_state (fun r => R con (snd r))
        (replace_expression_by_altfunc node con).
Proof.
  destruct node as [n|]; cbn [replace_expression_by_altfunc].
  - apply replace_expression_by_altfunc_node_invariant.
  - apply keeps_ret, R_refl.
Qed.

End RewriterInvariant.

(** The fields of the context that rewriting has no business with. *)
Definition rewriter_frame (con con' : xpugroupby_build_path_context D) : Prop :=
  root con' = root con
  /\ group_rel con' = group_rel con
  /\ num_groups con' = num_groups con
  /\ input_path con' = input_path con
  /\ target_upper con' = target_upper con
  /\ target_final con' = target_final con
  /\ input_rels_tlist con' = input_rels_tlist con
  /\ inner_paths_list con' = inner_paths_list con
  /\ con_havingQual con' = con_havingQual con
  /\ task_kind con' = task_kind con
  /\ custom_path_methods con' = custom_path_methods con
  /\ pp_task_kind (pp_info con') = pp_task_kind (pp_info con)
  /\ final_cost (pp_info con') = final_cost (pp_info con)
  /\ kvars_depth (pp_info con') = kvars_depth (pp_info con)
  /\ kvars_resno (pp_info con') = kvars_resno (pp_info con)
  /\ groupby_keys (pp_info con') = groupby_keys (pp_info con)
  /\ sortgrouprefs (target_partial con')
     = (sortgrouprefs (target_partial con)
        ++ repeat 0 (length (exprs (target_partial con'))
                     - length (exprs (target_partial con))))%list
  /\ cost (target_partial con') = cost (target_partial con)
  /\ width (target_partial con') = width (target_partial con)
  /\ (length (exprs (target_partial con)) <= length (exprs (target_partial con')))%nat.

Lemma rewriter_frame_refl con : rewriter_frame con con.
Proof.
  unfold rewriter_frame. repeat split; try lia.
  rewrite Nat.sub_diag. cbn [repeat]. rewrite app_nil_r. reflexivity.
Qed.

Lemma rewriter_frame_trans con1 con2 con3 :
  rewriter_frame con1 con2 -> rewriter_frame con2 con3 -> rewriter_frame con1 con3.
Proof.
  unfold rewriter_frame. intros H1 H2.
  destruct H1 as (? & ? & ? & ? & ? & ? & ? & ? & ? & ? & ? & ? & ? & ? & ? & ?
                  & Hrefs1 & ? & ? & Hlen1).
  destruct H2 as (? & ? & ? & ? & ? & ? & ? & ? & ? & ? & ? & ? & ? & ? & ? & ?
                  & Hrefs2 & ? & ? & Hlen2).
  repeat split; try congruence; [| lia].
  rewrite Hrefs2, Hrefs1, <- app_assoc, <- repeat_app. do 2 f_equal. lia.
Qed.

Lemma make_alternative_aggref_frame con aggref :
  keeps same_planner_state (fun r => rewriter_frame con (snd r))
        (make_alternative_aggref con aggref).
Proof.
  intros st o st' Hrun.
  split; [exact (proj1 (make_alternative_aggref_step con aggref _ _ _ Hrun)) |].
  intros [altfn con'] ->. cbn [snd].
  destruct altfn as [altfn|].
  - destruct (make_alternative_aggref_returns _ _ _ _ _ _ Hrun)
      as (e & proc & agg & cells & partfn_args & costs & _ & _ & _ & _ & _
          & _ & _ & _ & _ & _ & _ & ->).
    unfold with_partial_column.
    destruct (negb (list_member _ _)).
    + repeat split; cbn; [| rewrite length_app; lia].
      rewrite length_app. cbn.
      replace (length (exprs (target_partial con)) + 1
               - length (exprs (target_partial con)))%nat with 1%nat by lia.
      reflexivity.
    + exact (rewriter_frame_refl con).
  - revert Hrun. unfold make_alternative_aggref.
    destruct (_ || _); [intros [= <- _]; apply rewriter_frame_refl |].
    destruct (AGGKIND_IS_ORDERED_SET _);
      [intros [= <- _]; apply rewriter_frame_refl |].
    unfold bind at 1.
    destruct (aggfunc_catalog_lookup_by_oid _ _) as [[[e|]| | |] st1];
      try discriminate; [| intros [= <- _]; apply rewriter_frame_refl].
    unfold bind at 1. unfold lift at 1.
    destruct (Assert (Ret _) _) as [[]| | |]; try discriminate.
    destruct (PROCOID sc (partial_func_oid e)) as [proc|]; [| discriminate].
    unfold bind at 1. unfold lift at 1.
    destruct (Assert (obind _ _) _) as [[]| | |]; try discriminate.
    unfold bind at 1. unfold lift at 1.
    destruct (list_cells (args aggref)) as [cells| | |]; try discriminate.
    unfold bind at 1. unfold lift at 1.
    destruct (partfn_args_loop con cells (proargtypes proc) 0 None)
      as [[partfn_args|]| | |]; try discriminate;
      [| intros [= <- _]; apply rewriter_frame_refl].
    cbv zeta.
    destruct (AGGFNOID sc (final_func_oid e)) as [agg|]; [| discriminate].
    unfold bind, lift, ret. cbn [exprType exprType_node makeFuncExpr].
    discriminate.
Qed.

(** Rewriting an expression works on four things in the context and leaves
    the rest as it found it: it may append columns without reference to
    the partial target list, append actions to the action list, add to the
    cost of the final aggregation, and clear [device_executable].  The
    query, the input path, the upper and the final target list, the
    grouping keys and their positions, the task kind and the HAVING
    predicate already stored are not touched, nor are the path lists and
    the flag of the process, however the rewriting ends. *)
Theorem rewriter_changes_only_its_outputs :
  forall (node : option Node) (con con' : xpugroupby_build_path_context D)
         (st st' : pg_state D) (rewritten : option Node),
    replace_expression_by_altfunc node con st = (Ret (rewritten, con'), st') ->
    rewriter_frame con con' /\ rewriter_step con con' /\ same_planner_state st st'.
Proof.
  intros node con con' st st' rewritten Hrun.
  destruct (replace_expression_by_altfunc_invariant rewriter_frame
              rewriter_frame_refl rewriter_frame_trans make_alternative_aggref_frame
              (fun con0 con1 v H => H) node con _ _ _ Hrun) as [Hstate Hframe].
  destruct (replace_expression_by_altfunc_step node con _ _ _ Hrun) as [_ Hstep].
  split; [exact (Hframe _ eq_refl) |]. split; [exact (Hstep _ eq_refl) | exact Hstate].
Qed.


(** * Further properties of the target builder *)

(** The test of the first loop: column [i] of the upper target list is a
    grouping key when it carries a sort/group reference that the GROUP BY
    clause of the query lists. *)
Definition is_grouping_key_column (con : xpugroupby_build_path_context D) (i : nat)
  : bool :=
  let sortgroupref := get_pathtarget_sortgroupref (target_upper con) i in
  negb (Z.eqb sortgroupref 0) && non_nil (groupClause (parse (root con)))
  && non_null (get_sortgroupref_clause_noerr sortgroupref
                 (groupClause (parse (root con)))).

(** The grouping-key columns among the columns from [i] on, each with its
    reference, in the order of the list. *)
Fixpoint key_columns (con : xpugroupby_build_path_context D) (i : nat)
  (upper_exprs : list Node) : list (Node * Z) :=
  match upper_exprs with
  | [] => []
  | expr :: rest =>
      if is_grouping_key_column con i
      then (expr, get_pathtarget_sortgroupref (target_upper con) i)
             :: key_columns con (S i) rest
      else key_columns con (S i) rest
  end.

(** What the first loop asks of a grouping key: the device knows its type,
    can hash it and can compare it under its collation, and the expression
    is device executable. *)
Definition key_is_supported (con : xpugroupby_build_path_context D) (expr : Node)
  : Prop :=
  exists type_oid dtype coll_oid,
    exprType (Some expr) = Ret type_oid
    /\ pgstrom_devtype_lookup type_oid = Some dtype
    /\ non_null (type_hashfunc dtype) = true
    /\ exprCollation (Some expr) = Ret coll_oid
    /\ non_null (devtype_lookup_equal_func dtype coll_oid) = true
    /\ pgstrom_xpu_expression (Some expr) (task_kind con) (input_rels_tlist con)
       = true.

(** The columns of the final target list against the columns of the upper
    target list they were made from, with the references they got. *)
Inductive final_columns (con : xpugroupby_build_path_context D)
  : nat -> list Node -> list Node -> list Z -> Prop :=
| final_columns_nil i : final_columns con i [] [] []
| final_columns_key i expr upper_exprs finals refs :
    is_grouping_key_column con i = true ->
    key_is_supported con expr ->
    final_columns con (S i) upper_exprs finals refs ->
    final_columns con i (expr :: upper_exprs) (expr :: finals)
                  (get_pathtarget_sortgroupref (target_upper con) i :: refs)
| final_columns_aggregate i aggref final upper_exprs finals refs :
    is_grouping_key_column con i = false ->
    aggtype final = aggtype aggref ->
    non_null (aggorder aggref) = false ->
    non_null (aggdistinct aggref) = false ->
    final_columns con (S i) upper_exprs finals refs ->
    final_columns con i (T_Aggref aggref :: upper_exprs) (T_Aggref final :: finals)
                  (0 :: refs).

Lemma final_columns_ext con1 con2 i upper_exprs finals refs :
  root con1 = root con2 -> target_upper con1 = target_upper con2 ->
  task_kind con1 = task_kind con2 ->
  input_rels_tlist con1 = input_rels_tlist con2 ->
  final_columns con1 i upper_exprs finals refs ->
  final_columns con2 i upper_exprs finals refs.
Proof.
  intros Hroot Hupper Hkind Htlist Hcolumns.
  induction Hcolumns as [i | i expr uppers finals refs Hkey Hsupported _ IH
                        | i aggref final uppers finals refs Hkey Htype Ho Hd _ IH].
  - constructor.
  - rewrite Hupper. constructor; [| | exact IH].
    + unfold is_grouping_key_column in *. rewrite <- Hroot, <- Hupper. exact Hkey.
    + unfold key_is_supported in *. rewrite <- Hkind, <- Htlist. exact Hsupported.
  - constructor; try assumption.
    unfold is_grouping_key_column in *. rewrite <- Hroot, <- Hupper. exact Hkey.
Qed.

Lemma key_columns_ext con1 con2 upper_exprs :
  root con1 = root con2 -> target_upper con1 = target_upper con2 ->
  forall i, key_columns con1 i upper_exprs = key_columns con2 i upper_exprs.
Proof.
  intros Hroot Hupper.
  induction upper_exprs as [|expr rest IH]; intros i; cbn [key_columns];
    [reflexivity |].
  unfold is_grouping_key_column. rewrite Hroot, Hupper, IH. reflexivity.
Qed.

(** What the first loop has done when it ran to the end of the list. *)
Lemma pick_up_upper_exprs_returns upper_exprs :
  forall con i refno st con' refno' st',
    pick_up_upper_exprs con upper_exprs i refno st
    = (Ret (true, con', refno'), st') ->
    root con' = root con
    /\ target_upper con' = target_upper con
    /\ group_rel con' = group_rel con
    /\ num_groups con' = num_groups con
    /\ input_rels_tlist con' = input_rels_tlist con
    /\ inner_paths_list con' = inner_paths_list con
    /\ con_havingQual con' = con_havingQual con
    /\ task_kind con' = task_kind con
    /\ custom_path_methods con' = custom_path_methods con
    /\ kvars_depth (pp_info con') = kvars_depth (pp_info con)
    /\ kvars_resno (pp_info con') = kvars_resno (pp_info con)
    /\ (length (exprs (target_partial con)) <= length (exprs (target_partial con')))%nat
    /\ sortgrouprefs (target_partial con')
       = (sortgrouprefs (target_partial con)
          ++ repeat 0 (length (exprs (target_partial con'))
                       - length (exprs (target_partial con))))%list
    /\ groupby_keys (pp_info con')
       = (groupby_keys (pp_info con)
          ++ map fst (key_columns con i upper_exprs))%list
    /\ refno' = (refno ++ map snd (key_columns con i upper_exprs))%list
    /\ exists finals refs,
         exprs (target_final con') = (exprs (target_final con) ++ finals)%list
         /\ sortgrouprefs (target_final con')
            = (sortgrouprefs (target_final con) ++ refs)%list
         /\ final_columns con i upper_exprs finals refs.
Proof.
  induction upper_exprs as [|expr rest IH]; intros con i refno st con' refno' st';
    cbn [pick_up_upper_exprs].
  - intros [= <- <- <-]. cbn [key_columns map]. rewrite Nat.sub_diag, !app_nil_r.
    repeat split; try lia. exists [], []. rewrite !app_nil_r.
    repeat split. constructor.
  - cbv zeta. fold (is_grouping_key_column con i).
    destruct (is_grouping_key_column con i) eqn:Hkey.
    + unfold bind at 1. unfold lift at 1.
      destruct (exprType (Some expr)) as [type_oid| | |] eqn:Htype;
        try discriminate.
      destruct (pgstrom_devtype_lookup type_oid) as [dtype|] eqn:Hdtype;
        [| discriminate].
      destruct (non_null (type_hashfunc dtype)) eqn:Hhash; cbn [negb];
        [| discriminate].
      unfold bind at 1. unfold lift at 1.
      destruct (exprCollation (Some expr)) as [coll_oid| | |] eqn:Hcoll;
        try discriminate.
      destruct (non_null (devtype_lookup_equal_func dtype coll_oid)) eqn:Hequal;
        cbn [negb]; [| discriminate].
      destruct (pgstrom_xpu_expression (Some expr) (task_kind con)
                  (input_rels_tlist con)) eqn:Hxpu; cbn [negb]; [| discriminate].
      assert (Hsupported : key_is_supported con expr)
        by (exists type_oid, dtype, coll_oid; repeat split; assumption).
      intros Hrest. apply IH in Hrest.
      destruct Hrest as (Hroot & Hupper & Hrel & Hgroups & Htlist & Hinner & Hqual
                         & Hkind & Hmethods & Hdepth & Hresno & Hlen & Hrefs
                         & Hkeys & Hrefno & finals & refs & Hfinals & Hfrefs
                         & Hcolumns).
      cbn [root target_upper group_rel num_groups input_rels_tlist inner_paths_list
           con_havingQual task_kind custom_path_methods pp_info target_partial
           target_final set_pp_info set_target_final set_groupby_keys
           kvars_depth kvars_resno groupby_keys add_column_to_pathtarget
           exprs sortgrouprefs] in *.
      assert (Hkc : forall c', root c' = root con -> target_upper c' = target_upper con ->
                      key_columns c' (S i) rest = key_columns con (S i) rest)
        by (intros; apply key_columns_ext; assumption).
      rewrite Hkc in Hkeys, Hrefno by reflexivity.
      apply (final_columns_ext _ con) in Hcolumns; [| reflexivity ..].
      cbn [key_columns]. rewrite Hkey. cbn [map fst snd].
      rewrite <- app_assoc in Hkeys, Hrefno, Hfinals, Hfrefs.
      repeat split; try assumption.
      eexists _, _. split; [exact Hfinals |]. split; [exact Hfrefs |].
      constructor; assumption.
    + destruct expr as [| | | | | | |aggref| |]; try discriminate.
      unfold bind at 1.
      destruct (make_alternative_aggref con aggref st) as [[[altfn con1]| | |] st1]
        eqn:Hmake; try discriminate.
      cbn [fst snd].
      destruct altfn as [altfn|]; [| discriminate].
      unfold bind at 1. unfold lift at 1.
      destruct (exprType (Some (T_Aggref aggref))) as [expr_type| | |];
        try discriminate.
      unfold bind at 1. unfold lift at 1.
      destruct (exprType (Some altfn)) as [altfn_type| | |]; try discriminate.
      destruct (negb (N.eqb expr_type altfn_type)); [discriminate |].
      intros Hrest. apply IH in Hrest.
      destruct Hrest as (Hroot & Hupper & Hrel & Hgroups & Htlist & Hinner & Hqual
                         & Hkind & Hmethods & Hdepth & Hresno & Hlen & Hrefs
                         & Hkeys & Hrefno & finals & refs & Hfinals & Hfrefs
                         & Hcolumns).
      destruct (make_alternative_aggref_frame con aggref _ _ _ Hmake) as [_ Hframe].
      specialize (Hframe _ eq_refl). cbn [snd] in Hframe.
      destruct Hframe as (Hroot1 & Hrel1 & Hgroups1 & Hinput1 & Hupper1 & Hfinal1
                          & Htlist1 & Hinner1 & Hqual1 & Hkind1 & Hmethods1 & _ & _
                          & Hdepth1 & Hresno1 & Hkeys1 & Hrefs1 & _ & _ & Hlen1).
      destruct (make_alternative_aggref_returns _ _ _ _ _ _ Hmake)
        as (e & proc & agg & cells & partfn_args & costs & _ & Horder & Hdistinct
            & _ & _ & _ & _ & _ & _ & _ & -> & _).
      cbn [root target_upper group_rel num_groups input_rels_tlist inner_paths_list
           con_havingQual task_kind custom_path_methods pp_info target_partial
           target_final set_pp_info set_target_final set_groupby_keys
           kvars_depth kvars_resno groupby_keys add_column_to_pathtarget
           exprs sortgrouprefs] in *.
      assert (Hkc : forall c', root c' = root con -> target_upper c' = target_upper con ->
                      key_columns c' (S i) rest = key_columns con (S i) rest)
        by (intros; apply key_columns_ext; assumption).
      rewrite Hkc in Hkeys, Hrefno by assumption.
      apply (final_columns_ext _ con) in Hcolumns; [| assumption ..].
      cbn [key_columns]. rewrite Hkey.
      rewrite Hfinal1, <- app_assoc in Hfinals, Hfrefs.
      repeat split; try congruence; try lia.
      * rewrite Hrefs, Hrefs1, <- app_assoc, <- repeat_app. do 2 f_equal. lia.
      * eexists _, _. split; [exact Hfinals |]. split; [exact Hfrefs |].
        constructor; try assumption. reflexivity.
Qed.


(** The positions of the columns appended after [len] columns. *)
Definition positions_after (len count : nat) : list Z :=
  map (fun k => Z.of_nat (len + k)) (seq 1 count).

Lemma positions_after_S len count :
  positions_after len (S count)
  = Z.of_nat (len + 1) :: positions_after (len + 1) count.
Proof.
  unfold positions_after. cbn [seq map]. f_equal.
  rewrite <- seq_shift, map_map. apply map_ext. intros k. f_equal. lia.
Qed.

(** What the second loop has done: a column, an action, a depth and a
    position for each grouping key. *)
Lemma attach_groupby_keys_returns keys :
  forall refnos con con',
    length keys = length refnos ->
    attach_groupby_keys con keys refnos = Ret con' ->
    root con' = root con
    /\ target_upper con' = target_upper con
    /\ target_final con' = target_final con
    /\ group_rel con' = group_rel con
    /\ num_groups con' = num_groups con
    /\ input_path con' = input_path con
    /\ input_rels_tlist con' = input_rels_tlist con
    /\ inner_paths_list con' = inner_paths_list con
    /\ con_havingQual con' = con_havingQual con
    /\ task_kind con' = task_kind con
    /\ custom_path_methods con' = custom_path_methods con
    /\ final_clause_costs con' = final_clause_costs con
    /\ groupby_keys (pp_info con') = groupby_keys (pp_info con)
    /\ exprs (target_partial con') = (exprs (target_partial con) ++ keys)%list
    /\ sortgrouprefs (target_partial con')
       = (sortgrouprefs (target_partial con) ++ refnos)%list
    /\ groupby_actions (pp_info con')
       = (groupby_actions (pp_info con)
          ++ repeat KAGG_ACTION__VREF (length keys))%list
    /\ kvars_depth (pp_info con')
       = (kvars_depth (pp_info con) ++ repeat (-1) (length keys))%list
    /\ kvars_resno (pp_info con')
       = (kvars_resno (pp_info con)
          ++ positions_after (length (exprs (target_partial con))) (length keys))%list.
Proof.
  induction keys as [|key keys IH]; intros [|keyref refnos] con con' Hlen Hrun;
    cbn [attach_groupby_keys length] in *; try discriminate.
  - injection Hrun as <-. cbn. rewrite !app_nil_r. repeat split.
  - destruct (Assert _ _) as [[]| | |]; cbn [obind] in Hrun; try discriminate.
    apply IH in Hrun; [| lia].
    cbn [root target_upper target_final group_rel num_groups input_path
         input_rels_tlist inner_paths_list con_havingQual task_kind
         custom_path_methods final_clause_costs pp_info target_partial
         set_pp_info set_target_partial set_groupby_actions set_kvars_depth
         set_kvars_resno kvars_depth kvars_resno groupby_keys groupby_actions
         add_column_to_pathtarget exprs sortgrouprefs] in Hrun.
    destruct Hrun as (? & ? & ? & ? & ? & ? & ? & ? & ? & ? & ? & ? & ?
                      & Hexprs & Hrefs & Hactions & Hdepth & Hresno).
    rewrite <- app_assoc in Hexprs, Hrefs, Hactions, Hdepth, Hresno.
    rewrite length_app in Hresno. cbn [length] in Hresno.
    rewrite positions_after_S.
    repeat split; assumption.
Qed.

(** The stages of a run of the target builder that returns true. *)
Lemma build_path_target_returns con st con' st' :
  xpugroupby_build_path_target con st = (Ret (true, con'), st') ->
  exists con1 refno1 st1 con2 rewritten con3,
    pick_up_upper_exprs con (exprs (target_upper con)) 0 [] st
    = (Ret (true, con1, refno1), st1)
    /\ attach_groupby_keys con1 (groupby_keys (pp_info con1)) refno1 = Ret con2
    /\ replace_expression_by_altfunc (havingQual (parse (root con2))) con2 st1
       = (Ret (rewritten, con3), st')
    /\ (havingQual (parse (root con2)) <> None -> rewritten <> None)
    /\ con'
       = set_target_partial
           (set_pathtarget_cost_width (root con3) (target_partial con3))
           (set_target_final
              (set_pathtarget_cost_width (root con3) (target_final con3))
              (set_con_havingQual rewritten con3)).
Proof.
  unfold xpugroupby_build_path_target.
  unfold bind at 1.
  destruct (pick_up_upper_exprs con (exprs (target_upper con)) 0 [] st)
    as [[[[proceed con1] refno1]| | |] st1] eqn:Hpick; try discriminate.
  destruct proceed; cbn [negb]; [| discriminate].
  unfold bind at 1. unfold lift at 1.
  destruct (attach_groupby_keys con1 (groupby_keys (pp_info con1)) refno1)
    as [con2| | |] eqn:Hattach; try discriminate.
  unfold bind at 1.
  destruct (havingQual (parse (root con2))) as [qual|] eqn:Hqual.
  - unfold bind at 1.
    destruct (replace_expression_by_altfunc (Some qual) con2 st1)
      as [[[rewritten con3]| | |] st2] eqn:Hreplace; try discriminate.
    cbn [fst snd].
    destruct rewritten as [q|]; unfold ret; cbn [negb]; [| discriminate].
    intros [= <- <-].
    exists con1, refno1, st1, con2, (Some q), con3. rewrite Hqual.
    repeat split; try assumption; try reflexivity. intros _. discriminate.
  - unfold ret. cbn [negb]. intros [= <- <-].
    exists con1, refno1, st1, con2, None, con2. rewrite Hqual.
    repeat split; try assumption; try reflexivity. intros Hnot. contradiction.
Qed.


(** The second loop works on the partial target list and on the lists of
    the plan info; whatever the lengths of its two lists, the final target
    list and the grouping keys are not touched. *)
Lemma attach_groupby_keys_frame keys :
  forall refnos con con',
    attach_groupby_keys con keys refnos = Ret con' ->
    root con' = root con
    /\ target_upper con' = target_upper con
    /\ target_final con' = target_final con
    /\ groupby_keys (pp_info con') = groupby_keys (pp_info con)
    /\ group_rel con' = group_rel con
    /\ num_groups con' = num_groups con
    /\ input_path con' = input_path con
    /\ task_kind con' = task_kind con
    /\ custom_path_methods con' = custom_path_methods con
    /\ inner_paths_list con' = inner_paths_list con.
Proof.
  induction keys as [|key keys IH]; intros [|keyref refnos] con con' Hrun;
    cbn [attach_groupby_keys] in Hrun;
    try (injection Hrun as <-; repeat split).
  destruct (Assert _ _) as [[]| | |]; cbn [obind] in Hrun; try discriminate.
  apply IH in Hrun. exact Hrun.
Qed.

Lemma final_columns_length con i upper_exprs finals refs :
  final_columns con i upper_exprs finals refs ->
  length finals = length upper_exprs /\ length refs = length upper_exprs.
Proof.
  induction 1; cbn [length]; [split; reflexivity | split; lia ..].
Qed.

Lemma final_columns_types con i upper_exprs finals refs :
  final_columns con i upper_exprs finals refs ->
  Forall2 (fun upper final => exprType (Some final) = exprType (Some upper))
          upper_exprs finals.
Proof.
  induction 1 as [i | i expr uppers finals refs _ _ _ IH
                 | i aggref final uppers finals refs _ Htype _ _ _ IH];
    constructor; try assumption; [reflexivity |].
  cbn. rewrite Htype. reflexivity.
Qed.

(** The final target list follows the upper target list.  When the target
    builder returns true, it has appended one column to the final target
    list for each column of the upper target list, in order.  For a
    grouping-key column this is the expression itself, under its
    sort/group reference.  Every other column is an aggregate call without
    ORDER BY and DISTINCT, and its column is an aggregate call of the same
    result type, without reference.  So the final list has as many columns
    as the upper list, of the same types, and the grouping keys recorded
    are the key columns, in the order of the upper list.  Each of them was
    found supported: a type the device can hash and compare under the
    collation of the key, and a device-executable expression. *)
Theorem final_target_follows_the_upper_target :
  forall (con con' : xpugroupby_build_path_context D) (st st' : pg_state D),
    xpugroupby_build_path_target con st = (Ret (true, con'), st') ->
    exists (finals : list Node) (refs : list Z),
      exprs (target_final con') = (exprs (target_final con) ++ finals)%list
      /\ sortgrouprefs (target_final con')
         = (sortgrouprefs (target_final con) ++ refs)%list
      /\ final_columns con 0 (exprs (target_upper con)) finals refs
      /\ length finals = length (exprs (target_upper con))
      /\ Forall2 (fun upper final => exprType (Some final) = exprType (Some upper))
                 (exprs (target_upper con)) finals
      /\ groupby_keys (pp_info con')
         = (groupby_keys (pp_info con)
            ++ map fst (key_columns con 0 (exprs (target_upper con))))%list.
Proof.
  intros con con' st st' Hrun.
  destruct (build_path_target_returns _ _ _ _ Hrun)
    as (con1 & refno1 & st1 & con2 & rewritten & con3
        & Hpick & Hattach & Hreplace & _ & ->).
  destruct (pick_up_upper_exprs_returns _ _ _ _ _ _ _ _ Hpick)
    as (_ & _ & _ & _ & _ & _ & _ & _ & _ & _ & _ & _ & _ & Hkeys1 & _
        & finals & refs & Hfinals & Hrefs & Hcolumns).
  destruct (attach_groupby_keys_frame _ _ _ _ Hattach)
    as (_ & _ & Hfinal2 & Hkeys2 & _).
  destruct (replace_expression_by_altfunc_invariant rewriter_frame
              rewriter_frame_refl rewriter_frame_trans make_alternative_aggref_frame
              (fun con0 con4 v H => H) _ con2 _ _ _ Hreplace) as [_ Hframe].
  specialize (Hframe _ eq_refl). cbn [snd] in Hframe.
  destruct Hframe as (_ & _ & _ & _ & _ & Hfinal3 & _ & _ & _ & _ & _ & _ & _
                      & _ & _ & Hkeys3 & _).
  exists finals, refs.
  cbn [target_final pp_info set_target_partial set_target_final set_con_havingQual
       set_pathtarget_cost_width exprs sortgrouprefs].
  rewrite Hfinal3, Hfinal2, Hkeys3, Hkeys2.
  split; [exact Hfinals |]. split; [exact Hrefs |]. split; [exact Hcolumns |].
  split; [exact (proj1 (final_columns_length _ _ _ _ _ Hcolumns)) |].
  split; [exact (final_columns_types _ _ _ _ _ Hcolumns) | exact Hkeys1].
Qed.


(** A grouping key [key], with its reference, sits at position [resno]
    (counted from one) of the partial target list of [con]. *)
Definition key_sits_at (con : xpugroupby_build_path_context D)
  (key : Node * Z) (resno : Z) : Prop :=
  exists pos : nat,
    resno = Z.of_nat (S pos)
    /\ nth_error (exprs (target_partial con)) pos = Some (fst key)
    /\ get_pathtarget_sortgroupref (target_partial con) pos = snd key
    /\ nth_error (groupby_actions (pp_info con)) pos = Some KAGG_ACTION__VREF.

Lemma key_positions (keys : list (Node * Z)) :
  forall (exprs1 exprs3 : list Node) (refs1 refs3 : list Z)
         (actions1 actions3 : list kagg_action),
    length refs1 = length exprs1 ->
    length actions1 = length exprs1 ->
    Forall2
      (fun key resno =>
         exists pos : nat,
           resno = Z.of_nat (S pos)
           /\ nth_error (exprs1 ++ map fst keys ++ exprs3) pos = Some (fst key)
           /\ nth pos (refs1 ++ map snd keys ++ refs3) 0 = snd key
           /\ nth_error (actions1 ++ repeat KAGG_ACTION__VREF (length keys)
                         ++ actions3) pos
              = Some KAGG_ACTION__VREF)
      keys (positions_after (length exprs1) (length keys)).
Proof.
  induction keys as [|key keys IH]; intros exprs1 exprs3 refs1 refs3 actions1 actions3
                                           Hrefs Hactions.
  - constructor.
  - cbn [length]. rewrite positions_after_S. constructor.
    + exists (length exprs1). split; [f_equal; lia |].
      cbn [map repeat app].
      rewrite nth_error_app2, Nat.sub_diag by lia.
      rewrite <- Hrefs at 1. rewrite app_nth2, Nat.sub_diag by lia.
      rewrite <- Hactions at 1. rewrite nth_error_app2, Nat.sub_diag by lia.
      repeat split.
    + specialize (IH (exprs1 ++ [fst key])%list exprs3 (refs1 ++ [snd key])%list refs3
                     (actions1 ++ [KAGG_ACTION__VREF])%list actions3).
      rewrite !length_app in IH. cbn [length] in IH.
      specialize (IH ltac:(lia) ltac:(lia)).
      rewrite <- !app_assoc in IH. exact IH.
Qed.

(** The grouping keys have their places.  Take a context with no grouping
    key recorded yet and with as many references and actions as columns in
    its partial target list, as [__xpupreagg_add_custompath] sets it up.
    When the target builder returns true, it has recorded, for each
    grouping-key column of the upper target list and in their order, the
    depth -1 and a position; at this position, counted from one, the
    partial target list holds the key, under the key's sort/group
    reference, and the action list holds the action of a verbatim
    grouping-key reference. *)
Theorem grouping_keys_have_their_positions :
  forall (con con' : xpugroupby_build_path_context D) (st st' : pg_state D),
    groupby_keys (pp_info con) = [] ->
    length (sortgrouprefs (target_partial con)) = length (exprs (target_partial con)) ->
    length (groupby_actions (pp_info con)) = length (exprs (target_partial con)) ->
    xpugroupby_build_path_target con st = (Ret (true, con'), st') ->
    exists resnos : list Z,
      kvars_resno (pp_info con') = (kvars_resno (pp_info con) ++ resnos)%list
      /\ kvars_depth (pp_info con')
         = (kvars_depth (pp_info con)
            ++ repeat (-1)
                 (length (key_columns con 0 (exprs (target_upper con)))))%list
      /\ groupby_keys (pp_info con')
         = map fst (key_columns con 0 (exprs (target_upper con)))
      /\ Forall2 (key_sits_at con')
                 (key_columns con 0 (exprs (target_upper con))) resnos.
Proof.
  intros con con' st st' Hkeys0 Hrefs0 Hactions0 Hrun.
  destruct (build_path_target_returns _ _ _ _ Hrun)
    as (con1 & refno1 & st1 & con2 & rewritten & con3
        & Hpick & Hattach & Hreplace & _ & ->).
  set (keys := key_columns con 0 (exprs (target_upper con))).
  destruct (pick_up_upper_exprs_returns _ _ _ _ _ _ _ _ Hpick)
    as (_ & _ & _ & _ & _ & _ & _ & _ & _ & Hdepth1 & Hresno1 & Hlen1 & Hrefs1
        & Hkeys1 & Hrefno1 & _).
  fold keys in Hkeys1, Hrefno1.
  rewrite Hkeys0 in Hkeys1. cbn [app] in Hkeys1, Hrefno1.
  destruct (pick_up_upper_exprs_picks _ con 0%nat [] _ _ _ Hpick) as [_ Hpicked].
  destruct (Hpicked _ eq_refl)
    as (_ & _ & _ & _ & _ & aggs & acts & _ & _ & _ & Hexprs1 & Hactions1 & Hlens & _).
  cbn [fst snd] in Hexprs1, Hactions1.
  assert (Hcount : length (groupby_keys (pp_info con1)) = length refno1).
  { rewrite Hkeys1, Hrefno1, !length_map. reflexivity. }
  destruct (attach_groupby_keys_returns _ _ _ _ Hcount Hattach)
    as (_ & _ & _ & _ & _ & _ & _ & _ & _ & _ & _ & _ & Hkeys2 & Hexprs2 & Hrefs2
        & Hactions2 & Hdepth2 & Hresno2).
  destruct (replace_expression_by_altfunc_invariant rewriter_frame
              rewriter_frame_refl rewriter_frame_trans make_alternative_aggref_frame
              (fun con0 con4 v H => H) _ con2 _ _ _ Hreplace) as [_ Hframe].
  specialize (Hframe _ eq_refl). cbn [snd] in Hframe.
  destruct Hframe as (_ & _ & _ & _ & _ & _ & _ & _ & _ & _ & _ & _ & _
                      & Hdepth3 & Hresno3 & Hkeys3 & Hrefs3 & _).
  destruct (replace_expression_by_altfunc_step _ con2 _ _ _ Hreplace) as [_ Hstep].
  specialize (Hstep _ eq_refl). cbn [snd] in Hstep.
  destruct Hstep as (_ & _ & _ & _ & exprs3 & actions3 & Hexprs3 & Hactions3 & _).
  exists (positions_after (length (exprs (target_partial con1)))
                          (length (groupby_keys (pp_info con1)))).
  unfold key_sits_at, get_pathtarget_sortgroupref.
  cbn [target_partial pp_info set_target_partial set_target_final set_con_havingQual
       set_pathtarget_cost_width exprs sortgrouprefs].
  rewrite Hresno3, Hresno2, Hresno1, Hdepth3, Hdepth2, Hdepth1, Hkeys3, Hkeys2.
  rewrite Hexprs3, Hexprs2, Hactions3, Hactions2, Hrefs3, Hrefs2.
  rewrite Hkeys1, Hrefno1, !length_map, <- !app_assoc.
  repeat split.
  apply key_positions.
  - rewrite Hrefs1, Hexprs1, !length_app, repeat_length. lia.
  - rewrite Hactions1, Hexprs1, !length_app. lia.
Qed.


(** ** Expressions over the grouping keys *)

(** An expression built from grouping keys and constants: it is no
    aggregate call, and it is a grouping key itself, or a constant, or a
    call, operator, Boolean expression, relabelling, target entry or
    non-empty list over such expressions. *)
Fixpoint over_grouping_keys (keys : list Node) (node : Node) {struct node} : bool :=
  let below (child : option Node) : bool :=
    match child with
    | Some n => over_grouping_keys keys n
    | None => true
    end in
  match node with
  | T_Aggref _ => false
  | T_Var _ _ _ _ _ _ | T_PlaceHolderVar _ _ _ =>
      existsb (fun key => equal node key) keys
  | T_Const _ _ _ _ _ => true
  | T_FuncExpr _ _ _ _ _ _ _ child | T_OpExpr _ _ _ _ _ _ child
  | T_BoolExpr _ child | T_RelabelType child _ _ _ _
  | T_TargetEntry child _ _ _ _ =>
      existsb (fun key => equal node key) keys || below child
  | T_List cells =>
      existsb (fun key => equal node key) keys
      || (non_nil cells && forallb below cells)
  end.

Lemma mutate_cells_unchanged
  (mutator : option Node -> xpugroupby_build_path_context D ->
             M D (option Node * xpugroupby_build_path_context D))
  (cells : list (option Node)) con st :
  Forall (fun cell => mutator cell con st = (Ret (cell, con), st)) cells ->
  mutate_cells mutator cells con st = (Ret (cells, con), st).
Proof.
  induction 1 as [|cell rest Hcell _ IH]; cbn [mutate_cells]; [reflexivity |].
  unfold bind at 1. rewrite Hcell. unfold bind at 1. cbn [snd]. rewrite IH.
  reflexivity.
Qed.

(** A HAVING predicate without aggregates passes through.  An expression
    over the grouping keys of the context and constants is returned by the
    rewriter as it is: the same tree, with the context and the state
    unchanged, and no error. *)
Theorem rewriter_returns_key_expressions_unchanged :
  forall (node : Node) (con : xpugroupby_build_path_context D) (st : pg_state D),
    over_grouping_keys (groupby_keys (pp_info con)) node = true ->
    replace_expression_by_altfunc (Some node) con st = (Ret (Some node, con), st).
Proof.
  intros node con st. cbn [replace_expression_by_altfunc].
  induction node using Node_induction; cbn [over_grouping_keys
    replace_expression_by_altfunc_node]; intros Hover;
    try discriminate;
    try (destruct (existsb _ (groupby_keys (pp_info con))); [reflexivity |];
         cbn [orb] in Hover); try discriminate.
  - (* Const *) reflexivity.
  - (* FuncExpr *)
    cbn [expression_tree_mutator]. unfold bind.
    destruct fargs as [n|]; [rewrite (H Hover) |]; reflexivity.
  - (* OpExpr *)
    cbn [expression_tree_mutator]. unfold bind.
    destruct oargs as [n|]; [rewrite (H Hover) |]; reflexivity.
  - (* BoolExpr *)
    cbn [expression_tree_mutator]. unfold bind.
    destruct bargs as [n|]; [rewrite (H Hover) |]; reflexivity.
  - (* RelabelType *)
    cbn [expression_tree_mutator]. unfold bind.
    destruct arg as [n|]; [rewrite (H Hover) |]; reflexivity.
  - (* TargetEntry *)
    cbn [expression_tree_mutator]. unfold bind.
    destruct expr as [n|]; [rewrite (H Hover) |]; reflexivity.
  - (* List *)
    cbn [expression_tree_mutator]. unfold bind.
    apply andb_prop in Hover. destruct Hover as [Hnonempty Hcells].
    rewrite mutate_cells_unchanged.
    + destruct cells; [discriminate | reflexivity].
    + rewrite forallb_forall in Hcells. rewrite List.Forall_forall in H |- *.
      intros [n|] Hin; [| reflexivity].
      exact (H _ Hin (Hcells _ Hin)).
Qed.


(** ** The FILTER clause of an aggregate call *)

Definition without_filter (aggref : Aggref) : Aggref :=
  {| aggfnoid := aggfnoid aggref; aggtype := aggtype aggref;
     aggcollid := aggcollid aggref; inputcollid := inputcollid aggref;
     aggtranstype := aggtranstype aggref; aggargtypes := aggargtypes aggref;
     aggdirectargs := aggdirectargs aggref; args := args aggref;
     aggorder := aggorder aggref; aggdistinct := aggdistinct aggref;
     aggfilter := None;
     aggstar := aggstar aggref; aggvariadic := aggvariadic aggref;
     aggkind := aggkind aggref; agglevelsup := agglevelsup aggref;
     aggsplit := aggsplit aggref; aggno := aggno aggref;
     aggtransno := aggtransno aggref; location := location aggref |}.

(** The rewriter never reads the FILTER clause of an aggregate call.  An
    aggregate call and the same call with its filter taken away are
    rewritten alike, as a call on its own, as an expression handed to the
    rewriter and as a column of the upper target list that is not a
    grouping key: the same result, the same context, the same state. *)
Theorem rewriter_does_not_read_the_filter :
  forall (con : xpugroupby_build_path_context D) (aggref : Aggref)
         (st : pg_state D),
    make_alternative_aggref con (without_filter aggref) st
    = make_alternative_aggref con aggref st
    /\ replace_expression_by_altfunc (Some (T_Aggref (without_filter aggref))) con st
       = replace_expression_by_altfunc (Some (T_Aggref aggref)) con st
    /\ (forall rest i refno,
           is_grouping_key_column con i = false ->
           pick_up_upper_exprs con (T_Aggref (without_filter aggref) :: rest) i refno st
           = pick_up_upper_exprs con (T_Aggref aggref :: rest) i refno st).
Proof.
  intros con aggref st.
  assert (Hmake : make_alternative_aggref con (without_filter aggref)
                  = make_alternative_aggref con aggref) by reflexivity.
  split; [rewrite Hmake; reflexivity |]. split.
  - cbn [replace_expression_by_altfunc replace_expression_by_altfunc_node].
    rewrite Hmake. reflexivity.
  - intros rest i refno Hkey. cbn [pick_up_upper_exprs]. cbv zeta.
    fold (is_grouping_key_column con i). rewrite Hkey, Hmake. reflexivity.
Qed.


(** * Further properties of the entry point *)

(** Target building that returns true has left alone what the context says
    about the request. *)
Lemma build_path_target_frame con st con' st' :
  xpugroupby_build_path_target con st = (Ret (true, con'), st') ->
  root con' = root con
  /\ group_rel con' = group_rel con
  /\ num_groups con' = num_groups con
  /\ input_path con' = input_path con
  /\ target_upper con' = target_upper con
  /\ task_kind con' = task_kind con
  /\ custom_path_methods con' = custom_path_methods con
  /\ inner_paths_list con' = inner_paths_list con.
Proof.
  intros Hrun.
  destruct (build_path_target_returns _ _ _ _ Hrun)
    as (con1 & refno1 & st1 & con2 & rewritten & con3
        & Hpick & Hattach & Hreplace & _ & ->).
  destruct (pick_up_upper_exprs_returns _ _ _ _ _ _ _ _ Hpick)
    as (Hroot1 & Hupper1 & Hrel1 & Hgroups1 & _ & Hinner1 & _ & Hkind1 & Hmethods1 & _).
  destruct (pick_up_upper_exprs_picks _ con 0%nat [] _ _ _ Hpick) as [_ Hpicked].
  destruct (Hpicked _ eq_refl) as (_ & Hinput1 & _). cbn [fst snd] in Hinput1.
  destruct (attach_groupby_keys_frame _ _ _ _ Hattach)
    as (Hroot2 & Hupper2 & _ & _ & Hrel2 & Hgroups2 & Hinput2 & Hkind2 & Hmethods2
        & Hinner2).
  destruct (replace_expression_by_altfunc_invariant rewriter_frame
              rewriter_frame_refl rewriter_frame_trans make_alternative_aggref_frame
              (fun con0 con4 v H => H) _ con2 _ _ _ Hreplace) as [_ Hframe].
  specialize (Hframe _ eq_refl). cbn [snd] in Hframe.
  destruct Hframe as (Hroot3 & Hrel3 & Hgroups3 & Hinput3 & Hupper3 & _ & _ & Hinner3
                      & _ & Hkind3 & Hmethods3 & _).
  cbn [root group_rel num_groups input_path target_upper task_kind
       custom_path_methods inner_paths_list set_target_partial set_target_final
       set_con_havingQual].
  repeat split; congruence.
Qed.

(** The state after [add_path(rel, new_path)]. *)
Definition offered (rel : RelOptInfo) (new_path : Path D) (st : pg_state D)
  : pg_state D :=
  snd (add_path rel new_path st).

(** The final stage makes one offer or none: a plain aggregation when the
    query has no GROUP BY clause, a hashed aggregation when the estimated
    hash table fits [work_mem], and nothing otherwise. *)
Lemma try_add_final_groupby_paths_run con part_path st :
  let query := parse (root con) in
  let agg_path strategy :=
    create_agg_path (root con) (group_rel con) part_path (target_final con)
      strategy AGGSPLIT_SIMPLE (groupClause query) (con_havingQual con)
      (final_clause_costs con) (num_groups con) in
  (exists o, try_add_final_groupby_paths con part_path st = (o, st))
  \/ try_add_final_groupby_paths con part_path st
     = (Ret tt,
        offered (group_rel con)
                (agg_path (if non_nil (groupClause query)
                           then AGG_HASHED else AGG_PLAIN)) st).
Proof.
  cbv zeta. unfold try_add_final_groupby_paths.
  destruct (non_nil (groupClause (parse (root con)))) eqn:Hgroup; cbn [negb].
  - unfold bind, lift.
    destruct (Assert _ _) as [[]|msg|msg|]; [| left; eexists; reflexivity ..].
    destruct (dleb _ _); [right | left; eexists]; reflexivity.
  - right. reflexivity.
Qed.

(** The context that [__xpupreagg_add_custompath] sets up before it builds
    the target lists. *)
Definition attempt_context (planner_root : PlannerInfo D) (input : Path D)
  (rel : RelOptInfo) (groups : D) (kind : Z) (methods0 : option N)
  : xpugroupby_build_path_context D :=
  let zero_cost := {| startup := d_of_Z 0; per_tuple := d_of_Z 0 |} in
  {| device_executable := true;
     root := planner_root;
     group_rel := rel;
     num_groups := groups;
     input_path := input;
     target_upper := upper_target_group_agg planner_root;
     target_partial := create_empty_pathtarget;
     target_final := create_empty_pathtarget;
     final_clause_costs := {| transCost := zero_cost; finalCost := zero_cost;
                              transitionSpace := 0 |};
     pp_info := fst (fst (extract_input_path_params input));
     input_rels_tlist := snd (fst (extract_input_path_params input));
     inner_paths_list := snd (extract_input_path_params input);
     con_havingQual := None;
     task_kind := kind;
     custom_path_methods := methods0 |}.

(** One attempt makes at most one offer.  However
    [__xpupreagg_add_custompath] ends, the flag of the process and the path
    lists are as before, except that the path list of the grouping
    relation may have got one path.  In that case target building has
    returned true from the context set up for the attempt, and the path is
    an aggregation, plain for a query without GROUP BY clause and hashed
    otherwise, with the final target list, the rewritten HAVING predicate
    and the clause costs of the context that target building returned,
    over the partial path that [prepend_partial_groupby_custompath] makes
    from this context or, in a parallel attempt, over a Gather of it.  A
    parallel attempt makes its offer only over a partial path that is
    parallel aware and has workers.  The table of the resolver is as target
    building left it. *)
Theorem attempt_makes_at_most_one_offer :
  forall (planner_root : PlannerInfo D) (input : Path D) (rel : RelOptInfo)
         (extra : GroupPathExtraData) (try_parallel : bool) (groups : D)
         (kind : Z) (methods0 : option N)
         (st st' : pg_state D) (o : outcome unit),
    __xpupreagg_add_custompath planner_root input rel extra try_parallel
      groups kind methods0 st = (o, st') ->
    same_planner_state st st'
    \/ exists (built con : xpugroupby_build_path_context D) (st1 : pg_state D)
              (part_path : Path D),
         o = Ret tt
         /\ xpugroupby_build_path_target
              (attempt_context planner_root input rel groups kind methods0) st
            = (Ret (true, built), st1)
         /\ con = set_pp_info (set_pp_task_kind kind (pp_info built)) built
         /\ prepend_partial_groupby_custompath con = Ret part_path
         /\ pathtarget part_path = target_partial con
         /\ input_path con = input
         /\ (try_parallel = true ->
             parallel_aware part_path = true /\ 0 < parallel_workers part_path)
         /\ aggfunc_catalog_htable st' = aggfunc_catalog_htable st1
         /\ pgstrom_enable_numeric_aggfuncs st' = pgstrom_enable_numeric_aggfuncs st
         /\ pathlist st'
            = <[rel :=
                  add_path_to_list (default [] (pathlist st !! rel))
                    (create_agg_path planner_root rel
                       (if try_parallel
                        then create_gather_path planner_root rel part_path
                               (target_partial con) None
                               (rows part_path
                                * d_of_Z (parallel_workers part_path))%D
                        else part_path)
                       (target_final con)
                       (if non_nil (groupClause (parse planner_root))
                        then AGG_HASHED else AGG_PLAIN)
                       AGGSPLIT_SIMPLE (groupClause (parse planner_root))
                       (con_havingQual con) (final_clause_costs con)
                       groups)]> (pathlist st).
Proof.
  intros planner_root input rel extra try_parallel groups kind methods0 st st' o Hrun.
  unfold __xpupreagg_add_custompath in Hrun.
  assert (Hcon0 : forall pp tlist inner,
            extract_input_path_params input = (pp, tlist, inner) ->
            attempt_context planner_root input rel groups kind methods0
            = {| device_executable := true; root := planner_root; group_rel := rel;
                 num_groups := groups; input_path := input;
                 target_upper := upper_target_group_agg planner_root;
                 target_partial := create_empty_pathtarget;
                 target_final := create_empty_pathtarget;
                 final_clause_costs :=
                   {| transCost := {| startup := d_of_Z 0; per_tuple := d_of_Z 0 |};
                      finalCost := {| startup := d_of_Z 0; per_tuple := d_of_Z 0 |};
                      transitionSpace := 0 |};
                 pp_info := pp; input_rels_tlist := tlist;
                 inner_paths_list := inner; con_havingQual := None;
                 task_kind := kind; custom_path_methods := methods0 |}).
  { intros pp tlist inner Hparams. unfold attempt_context. rewrite Hparams.
    reflexivity. }
  destruct (extract_input_path_params input) as [[pp tlist] inner].
  specialize (Hcon0 pp tlist inner eq_refl).
  unfold bind at 1 in Hrun.
  match type of Hrun with
  | context [xpugroupby_build_path_target ?c st] => set (con0 := c) in *
  end.
  rewrite Hcon0. fold con0.
  destruct (xpugroupby_build_path_target con0 st) as [[[ok conb]| | |] st1] eqn:Hbuild;
    destruct (build_path_target_keeps con0 _ _ _ Hbuild) as [Hstate _];
    try (injection Hrun as <- <-; left; exact Hstate).
  cbn [fst snd] in Hrun.
  destruct ok; cbn [negb] in Hrun; [| injection Hrun as <- <-; left; exact Hstate].
  destruct (build_path_target_frame _ _ _ _ Hbuild)
    as (Hroot & Hrel & Hgroups & Hinput & _ & _ & _ & _).
  cbn [root group_rel num_groups input_path con0] in Hroot, Hrel, Hgroups, Hinput.
  set (con1 := set_pp_info (set_pp_task_kind kind (pp_info conb)) conb) in *.
  unfold bind at 1 in Hrun. unfold lift at 1 in Hrun.
  destruct (prepend_partial_groupby_custompath con1) as [part_path| | |] eqn:Hpart;
    try (injection Hrun as <- <-; left; exact Hstate).
  assert (Hshape : pathtarget part_path = target_partial con1
                   /\ parallel_aware part_path = parallel_aware (input_path con1)
                   /\ parallel_workers part_path = parallel_workers (input_path con1)).
  { revert Hpart. unfold prepend_partial_groupby_custompath.
    destruct (xpu_cost_parameters _) as [[[op tup] ratio]| | |]; cbn [obind];
      try discriminate.
    intros [= <-]. repeat split. }
  destruct Hshape as (Htarget & Haware & Hworkers).
  assert (Hoffer :
    forall agg_input,
      try_add_final_groupby_paths con1 agg_input st1 = (o, st') ->
      same_planner_state st st'
      \/ (o = Ret tt
          /\ aggfunc_catalog_htable st' = aggfunc_catalog_htable st1
          /\ pgstrom_enable_numeric_aggfuncs st' = pgstrom_enable_numeric_aggfuncs st
          /\ pathlist st'
             = <[rel :=
                   add_path_to_list (default [] (pathlist st !! rel))
                     (create_agg_path planner_root rel agg_input (target_final con1)
                        (if non_nil (groupClause (parse planner_root))
                         then AGG_HASHED else AGG_PLAIN)
                        AGGSPLIT_SIMPLE (groupClause (parse planner_root))
                        (con_havingQual con1) (final_clause_costs con1)
                        groups)]> (pathlist st))).
  { intros agg_input Hfinal.
    destruct (try_add_final_groupby_paths_run con1 agg_input st1) as [[o' Hnone] | Hone].
    - rewrite Hnone in Hfinal. injection Hfinal as <- <-. left. exact Hstate.
    - rewrite Hone in Hfinal. injection Hfinal as <- <-. right.
      destruct Hstate as [Hpaths Hflag].
      cbn [root group_rel num_groups con1 set_pp_info] in *.
      unfold offered, add_path.
      cbn [snd pathlist pgstrom_enable_numeric_aggfuncs aggfunc_catalog_htable].
      rewrite Hroot, Hrel, Hgroups, Hpaths, Hflag. repeat split. }
  destruct try_parallel.
  - destruct (parallel_aware part_path && (0 <? parallel_workers part_path)) eqn:Hpar;
      [| injection Hrun as <- <-; left; exact Hstate].
    destruct (Hoffer _ Hrun) as [Hsame | (-> & Htable & Hflag & Hpaths)];
      [left; exact Hsame |].
    right. exists conb, con1, st1, part_path.
    apply andb_prop in Hpar. destruct Hpar as [Hpar1 Hpar2]. apply Z.ltb_lt in Hpar2.
    repeat split; try assumption; try reflexivity.
  - destruct (Hoffer _ Hrun) as [Hsame | (-> & Htable & Hflag & Hpaths)];
      [left; exact Hsame |].
    right. exists conb, con1, st1, part_path.
    repeat split; try assumption; try reflexivity; discriminate.
Qed.


(** What a call may do to the process state when it works for the grouping
    relation [rel]: change the path list of [rel], and the table of the
    resolver. *)
Definition offers_to (rel : RelOptInfo) (st st' : pg_state D) : Prop :=
  pgstrom_enable_numeric_aggfuncs st' = pgstrom_enable_numeric_aggfuncs st
  /\ forall other : RelOptInfo, other <> rel -> pathlist st' !! other = pathlist st !! other.

Lemma offers_to_same rel st st' : same_planner_state st st' -> offers_to rel st st'.
Proof. intros [Hpaths Hflag]. split; [exact Hflag |]. intros. rewrite Hpaths. reflexivity. Qed.

Lemma offers_to_trans rel st1 st2 st3 :
  offers_to rel st1 st2 -> offers_to rel st2 st3 -> offers_to rel st1 st3.
Proof.
  intros [Hflag1 Hpaths1] [Hflag2 Hpaths2]. split; [congruence |].
  intros other Hne. rewrite (Hpaths2 other Hne). exact (Hpaths1 other Hne).
Qed.

Lemma add_custompath_offers_to planner_root input rel extra try_parallel groups kind
      methods0 st o st' :
  __xpupreagg_add_custompath planner_root input rel extra try_parallel
    groups kind methods0 st = (o, st') ->
  offers_to rel st st'.
Proof.
  intros Hrun. unfold __xpupreagg_add_custompath in Hrun.
  destruct (extract_input_path_params input) as [[pp tlist] inner].
  unfold bind at 1 in Hrun.
  match type of Hrun with
  | context [xpugroupby_build_path_target ?c st] => set (con0 := c) in *
  end.
  destruct (xpugroupby_build_path_target con0 st) as [[[ok conb]| | |] st1] eqn:Hbuild;
    destruct (build_path_target_keeps con0 _ _ _ Hbuild) as [Hstate _];
    try (injection Hrun as <- <-; apply offers_to_same; exact Hstate).
  cbn [fst snd] in Hrun.
  destruct ok; cbn [negb] in Hrun;
    [| injection Hrun as <- <-; apply offers_to_same; exact Hstate].
  destruct (build_path_target_frame _ _ _ _ Hbuild) as (_ & Hrel & _).
  cbn [group_rel con0] in Hrel.
  set (con1 := set_pp_info (set_pp_task_kind kind (pp_info conb)) conb) in *.
  unfold bind at 1 in Hrun. unfold lift at 1 in Hrun.
  destruct (prepend_partial_groupby_custompath con1) as [part_path| | |];
    try (injection Hrun as <- <-; apply offers_to_same; exact Hstate).
  assert (Hoffer : forall agg_input,
            try_add_final_groupby_paths con1 agg_input st1 = (o, st') ->
            offers_to rel st st').
  { intros agg_input Hfinal.
    destruct (try_add_final_groupby_paths_run con1 agg_input st1) as [[o' Hnone] | Hone].
    - rewrite Hnone in Hfinal. injection Hfinal as <- <-.
      apply offers_to_same. exact Hstate.
    - rewrite Hone in Hfinal. injection Hfinal as <- <-.
      apply (offers_to_trans _ _ st1); [apply offers_to_same; exact Hstate |].
      split; [reflexivity |]. intros other Hne.
      unfold offered, add_path. cbn [snd pathlist group_rel con1 set_pp_info].
      rewrite Hrel. apply lookup_insert_ne. congruence. }
  destruct try_parallel; [| exact (Hoffer _ Hrun)].
  destruct (parallel_aware part_path && (0 <? parallel_workers part_path));
    [exact (Hoffer _ Hrun) |].
  injection Hrun as <- <-. apply offers_to_same. exact Hstate.
Qed.

(** One turn of the loop: it works for the grouping relation, and does
    nothing at all when no input path is found. *)
Lemma xpupreagg_attempt_offers_to planner_root input_rel rel extra kind methods0
      try_parallel st o st' :
  xpupreagg_attempt planner_root input_rel rel extra kind methods0 try_parallel st
  = (o, st') ->
  offers_to rel st st'
  /\ ((if IS_SIMPLE_REL input_rel
       then buildXpuScanPath planner_root input_rel (0 <? try_parallel)
              false true kind
       else custom_path_find_cheapest planner_root input_rel
              (0 <? try_parallel) kind) = None ->
      o = Ret tt /\ st' = st).
Proof.
  unfold xpupreagg_attempt.
  destruct (if IS_SIMPLE_REL input_rel then _ else _) as [input|].
  - intros Hone. split; [| discriminate].
    exact (add_custompath_offers_to _ _ _ _ _ _ _ _ _ _ _ Hone).
  - intros [= <- <-]. split; [apply offers_to_same, same_planner_state_refl |].
    intros _. split; reflexivity.
Qed.

Lemma xpupreagg_add_custompath_offers_to planner_root input_rel rel extra kind
      methods0 st o st' :
  xpupreagg_add_custompath planner_root input_rel rel extra kind methods0 st
  = (o, st') ->
  offers_to rel st st'.
Proof.
  intros Hrun. unfold xpupreagg_add_custompath in Hrun.
  destruct (non_null (groupingSets (parse planner_root))
            || negb (grouping_is_hashable (groupClause (parse planner_root)))).
  { injection Hrun as <- <-. apply offers_to_same, same_planner_state_refl. }
  unfold bind in Hrun.
  destruct (xpupreagg_attempt planner_root input_rel rel extra kind methods0 0 st)
    as [[[]|msg|msg|] st1] eqn:Hfirst;
    destruct (xpupreagg_attempt_offers_to _ _ _ _ _ _ _ _ _ _ Hfirst) as [Hoffer1 _];
    try (injection Hrun as <- <-; exact Hoffer1).
  destruct (xpupreagg_attempt_offers_to _ _ _ _ _ _ _ _ _ _ Hrun) as [Hoffer2 _].
  exact (offers_to_trans _ _ _ _ Hoffer1 Hoffer2).
Qed.

(** The entry point works for the grouping relation it is given.  However
    [xpupreagg_add_custompath] ends, the path list of every other relation
    and the flag of the process are as before; and when neither attempt
    finds an input path, the whole state is as before. *)
Theorem entry_point_offers_to_the_grouping_relation_only :
  forall (planner_root : PlannerInfo D) (input_rel rel : RelOptInfo)
         (extra : GroupPathExtraData) (kind : Z) (methods0 : option N)
         (st st' : pg_state D) (o : outcome unit),
    xpupreagg_add_custompath planner_root input_rel rel extra kind methods0 st
    = (o, st') ->
    offers_to rel st st'
    /\ ((forall parallel : bool,
            (if IS_SIMPLE_REL input_rel
             then buildXpuScanPath planner_root input_rel parallel false true kind
             else custom_path_find_cheapest planner_root input_rel parallel kind)
            = None) ->
        o = Ret tt /\ st' = st).
Proof.
  intros planner_root input_rel rel extra kind methods0 st st' o Hrun.
  split; [exact (xpupreagg_add_custompath_offers_to _ _ _ _ _ _ _ _ _ Hrun) |].
  intros Hnone.
  unfold xpupreagg_add_custompath in Hrun.
  destruct (non_null (groupingSets (parse planner_root))
            || negb (grouping_is_hashable (groupClause (parse planner_root)))).
  { injection Hrun as <- <-. split; reflexivity. }
  unfold bind in Hrun.
  destruct (xpupreagg_attempt planner_root input_rel rel extra kind methods0 0 st)
    as [o1 st1] eqn:Hfirst.
  destruct (xpupreagg_attempt_offers_to _ _ _ _ _ _ _ _ _ _ Hfirst) as [_ Hnone1].
  destruct (Hnone1 (Hnone _)) as [-> ->].
  destruct (xpupreagg_attempt_offers_to _ _ _ _ _ _ _ _ _ _ Hrun) as [_ Hnone2].
  exact (Hnone2 (Hnone _)).
Qed.


(** * The planner hook

    [gpupreagg_add_custompath] is what [pgstrom_init_gpu_preagg] installs as
    [create_upper_paths_hook].  The hook that was installed before it, kept
    in [create_upper_paths_next], and the two switches it reads are static
    variables set outside of planning: their values at the time of the call
    are parameters, like the task kind and the method table of the
    repository's headers. *)

Inductive UpperRelationKind : Type :=
| UPPERREL_SETOP
| UPPERREL_PARTIAL_GROUP_AGG
| UPPERREL_GROUP_AGG
| UPPERREL_WINDOW
| UPPERREL_PARTIAL_DISTINCT
| UPPERREL_DISTINCT
| UPPERREL_ORDERED
| UPPERREL_FINAL.

Definition is_UPPERREL_GROUP_AGG (stage : UpperRelationKind) : bool :=
  match stage with
  | UPPERREL_GROUP_AGG => true
  | _ => false
  end.

Variable create_upper_paths_next :
  option (PlannerInfo D -> UpperRelationKind -> RelOptInfo -> RelOptInfo ->
          GroupPathExtraData -> M D unit).
Variable pgstrom_enabled : bool.
Variable pgstrom_enable_gpupreagg : bool.
Variable TASK_KIND__GPUPREAGG : Z.
Variable gpupreagg_path_methods : option N.

Definition gpupreagg_add_custompath (root : PlannerInfo D) (stage : UpperRelationKind)
  (input_rel group_rel : RelOptInfo) (extra : GroupPathExtraData) : M D unit :=
  ((match create_upper_paths_next with
    | Some next => next root stage input_rel group_rel extra
    | None => ret tt
    end) ;;;
   if negb (is_UPPERREL_GROUP_AGG stage) then ret tt
   else if negb pgstrom_enabled || negb pgstrom_enable_gpupreagg then ret tt
   else
     (* add custom-paths *)
     xpupreagg_add_custompath root input_rel group_rel extra
                              TASK_KIND__GPUPREAGG gpupreagg_path_methods)%pg.

(** What the hook installed before did, or nothing when there was none. *)
Definition run_next_hook (root : PlannerInfo D) (stage : UpperRelationKind)
  (input_rel group_rel : RelOptInfo) (extra : GroupPathExtraData) : M D unit :=
  match create_upper_paths_next with
  | Some next => next root stage input_rel group_rel extra
  | None => ret tt
  end.

(** The hook runs the hook installed before it first, and adds to it.  When
    that hook raises an error, nothing else is done.  At another stage than
    the grouping stage, with PG-Strom or GPU-PreAgg switched off, with
    grouping sets or with a GROUP BY clause that cannot be hashed, the hook
    does what the earlier hook does and nothing more.  In every case, what
    it does beyond the earlier hook leaves the flag of the process and the
    path list of every relation other than the grouping relation as the
    earlier hook left them. *)
Theorem hook_adds_to_the_earlier_hook :
  forall (planner_root : PlannerInfo D) (stage : UpperRelationKind)
         (input_rel rel : RelOptInfo) (extra : GroupPathExtraData)
         (st st' : pg_state D) (o : outcome unit),
    gpupreagg_add_custompath planner_root stage input_rel rel extra st = (o, st') ->
    exists (o1 : outcome unit) (st1 : pg_state D),
      run_next_hook planner_root stage input_rel rel extra st = (o1, st1)
      /\ offers_to rel st1 st'
      /\ (o1 <> Ret tt -> o = o1 /\ st' = st1)
      /\ (stage <> UPPERREL_GROUP_AGG
          \/ pgstrom_enabled = false
          \/ pgstrom_enable_gpupreagg = false
          \/ non_null (groupingSets (parse planner_root)) = true
          \/ grouping_is_hashable (groupClause (parse planner_root)) = false ->
          o = o1 /\ st' = st1).
Proof.
  intros planner_root stage input_rel rel extra st st' o Hrun.
  unfold gpupreagg_add_custompath in Hrun. fold (run_next_hook planner_root stage
    input_rel rel extra) in Hrun.
  unfold bind in Hrun.
  destruct (run_next_hook planner_root stage input_rel rel extra st)
    as [[[]|msg|msg|] st1] eqn:Hnext.
  2-4: injection Hrun as <- <-; eexists _, _; split; [reflexivity |];
       split; [apply offers_to_same, same_planner_state_refl |];
       split; intros; split; reflexivity.
  exists (Ret tt), st1. split; [reflexivity |].
  destruct (is_UPPERREL_GROUP_AGG stage) eqn:Hstage; cbn [negb] in Hrun.
  2:{ injection Hrun as <- <-.
      split; [apply offers_to_same, same_planner_state_refl |].
      split; intros; split; reflexivity. }
  destruct pgstrom_enabled eqn:Henabled; cbn [negb orb] in Hrun.
  2:{ injection Hrun as <- <-.
      split; [apply offers_to_same, same_planner_state_refl |].
      split; intros; split; reflexivity. }
  destruct pgstrom_enable_gpupreagg eqn:Hpreagg; cbn [negb] in Hrun.
  2:{ injection Hrun as <- <-.
      split; [apply offers_to_same, same_planner_state_refl |].
      split; intros; split; reflexivity. }
  split; [exact (xpupreagg_add_custompath_offers_to _ _ _ _ _ _ _ _ _ Hrun) |].
  split; [intros Hne; contradiction |].
  intros [Hother | [Hoff | [Hoff | Hunsupported]]]; try discriminate.
  - destruct stage; try discriminate. contradiction.
  - assert (Hbail : non_null (groupingSets (parse planner_root)) = true
                    \/ grouping_is_hashable (groupClause (parse planner_root)) = false)
      by exact Hunsupported.
    unfold xpupreagg_add_custompath in Hrun.
    destruct Hbail as [H | H]; rewrite H in Hrun;
      [| rewrite orb_true_r in Hrun]; injection Hrun as <- <-; split; reflexivity.
Qed.


(** * Invalidation of the resolver's table

    [aggfunc_catalog_htable_invalidator] is registered for changes of
    pg_proc.  It drops the whole table, so the next lookup of every function
    starts from the live catalog. *)







(** * The columns of the partial target list, aggregate by aggregate *)

(** The resolver's table only grows while target lists are built: an entry
    that is cached stays as it is, and the flag is not written. *)
Definition table_grows (st st' : pg_state D) : Prop :=
  pgstrom_enable_numeric_aggfuncs st' = pgstrom_enable_numeric_aggfuncs st
  /\ forall k e, cached st k = Some e -> cached st' k = Some e.

Lemma table_grows_refl st : table_grows st st.
Proof. split; [reflexivity | auto]. Qed.

Lemma table_grows_trans st1 st2 st3 :
  table_grows st1 st2 -> table_grows st2 st3 -> table_grows st1 st3.
Proof. intros [Hf1 Hc1] [Hf2 Hc2]. split; [congruence | auto]. Qed.

Lemma hand_out_cached aggfn_oid e st :
  cached st aggfn_oid = Some e ->
  hand_out aggfn_oid st
  = (Ret (if negb (is_valid_entry e) then None
          else if numeric_aware e && negb (pgstrom_enable_numeric_aggfuncs st)
               then None else Some e), st).
Proof.
  intros Hc. unfold cached in Hc.
  unfold hand_out, bind, entry_read, read_pgstrom_enable_numeric_aggfuncs, ret.
  destruct (aggfunc_catalog_htable st) as [h|]; [| discriminate].
  rewrite Hc.
  destruct (negb (is_valid_entry e)); [reflexivity |].
  destruct (numeric_aware e && negb (pgstrom_enable_numeric_aggfuncs st));
    reflexivity.
Qed.

(** What the resolver answers for a function in a state in which the
    function has its entry: the statements after PG_END_TRY, which read the
    table and the flag. *)
Definition answers (st : pg_state D) (aggfn_oid : Oid)
  (r : option aggfunc_catalog_entry) : Prop :=
  is_Some (cached st aggfn_oid) /\ hand_out aggfn_oid st = (Ret r, st).

Lemma answers_grows st st' aggfn_oid r :
  table_grows st st' -> answers st aggfn_oid r -> answers st' aggfn_oid r.
Proof.
  intros [Hflag Hcached] [[e He] Hout].
  rewrite (hand_out_cached _ _ _ He) in Hout.
  split; [rewrite (Hcached _ _ He); eauto |].
  rewrite (hand_out_cached _ _ _ (Hcached _ _ He)), Hflag.
  injection Hout as ->. reflexivity.
Qed.

Lemma answers_unique st aggfn_oid r1 r2 :
  answers st aggfn_oid r1 -> answers st aggfn_oid r2 -> r1 = r2.
Proof. intros [_ H1] [_ H2]. congruence. Qed.

Lemma lookup_grows aggfn_oid st o st' :
  aggfunc_catalog_lookup_by_oid aggfn_oid st = (o, st') -> table_grows st st'.
Proof.
  intros Hrun.
  destruct (cached st aggfn_oid) as [e0|] eqn:Hc.
  { rewrite (lookup_cached _ _ _ Hc) in Hrun.
    pose proof (hand_out_state _ _ _ _ Hrun) as ->. apply table_grows_refl. }
  destruct (lookup_keeps_planner_state aggfn_oid _ _ _ Hrun) as [[_ Hflag] _].
  split; [exact Hflag |].
  intros k e Hk.
  assert (Hne : k <> aggfn_oid) by (intros ->; congruence).
  assert (Hother : forall e1,
            cached (with_entry (default ∅ (aggfunc_catalog_htable st)) aggfn_oid e1 st) k
            = cached st k).
  { intros e1. rewrite cached_with_entry_ne by exact Hne.
    unfold cached. destruct (aggfunc_catalog_htable st); [reflexivity |].
    apply lookup_empty. }
  rewrite (lookup_uncached _ _ Hc) in Hrun. unfold population_start in Hrun.
  destruct (population_keeps_shape (default ∅ (aggfunc_catalog_htable st))
              aggfn_oid (set_is_valid_entry false (fresh_entry aggfn_oid)) st)
    as [e' He'].
  destruct (population aggfn_oid _) as [[[]|msg|msg|] st1];
    cbn [snd rethrow] in *; subst st1.
  - pose proof (hand_out_state _ _ _ _ Hrun) as ->. rewrite Hother. exact Hk.
  - unfold hash_search_REMOVE, with_entry in Hrun.
    cbn [aggfunc_catalog_htable set_htable] in Hrun.
    injection Hrun as _ <-.
    unfold cached. cbn [aggfunc_catalog_htable set_htable].
    rewrite lookup_delete_ne by congruence.
    rewrite lookup_insert_ne by congruence.
    unfold cached in Hk.
    destruct (aggfunc_catalog_htable st); [exact Hk | discriminate].
  - injection Hrun as _ <-. rewrite Hother. exact Hk.
  - injection Hrun as _ <-. rewrite Hother. exact Hk.
Qed.

Lemma lookup_answers aggfn_oid st r st' :
  aggfunc_catalog_lookup_by_oid aggfn_oid st = (Ret r, st') ->
  answers st' aggfn_oid r.
Proof. exact (lookup_settles aggfn_oid st r st'). Qed.

(** The column that the rewriter makes for an aggregate call, and its
    action: the call has no modifier, the resolver answers with an entry,
    the loop over the arguments of the call runs to its end, and the column
    is the call of the entry's partial function on the arguments the loop
    has made. *)
Definition partial_column (con : xpugroupby_build_path_context D)
  (st : pg_state D) (aggref : Aggref) (column : Node) (action : kagg_action)
  : Prop :=
  exists e proc cells partfn_args,
    non_null (aggorder aggref) = false
    /\ non_null (aggdistinct aggref) = false
    /\ AGGKIND_IS_ORDERED_SET (aggkind aggref) = false
    /\ answers st (aggfnoid aggref) (Some e)
    /\ PROCOID sc (partial_func_oid e) = Some proc
    /\ list_cells (args aggref) = Ret cells
    /\ partfn_args_loop con cells (proargtypes proc) 0 None = Ret (Some partfn_args)
    /\ column = partial_call e aggref partfn_args
    /\ action = partial_func_action e.

(** The calls that the rewriter declines. *)
Definition declined (con : xpugroupby_build_path_context D)
  (st : pg_state D) (aggref : Aggref) : Prop :=
  carries_modifier aggref
  \/ answers st (aggfnoid aggref) None
  \/ exists e proc cells,
       answers st (aggfnoid aggref) (Some e)
       /\ PROCOID sc (partial_func_oid e) = Some proc
       /\ list_cells (args aggref) = Ret cells
       /\ partfn_args_loop con cells (proargtypes proc) 0 None = Ret None.

Lemma partial_column_unique con st aggref column1 action1 column2 action2 :
  partial_column con st aggref column1 action1 ->
  partial_column con st aggref column2 action2 ->
  column1 = column2 /\ action1 = action2.
Proof.
  intros (e1 & proc1 & cells1 & args1 & _ & _ & _ & Ha1 & Hp1 & Hc1 & Hl1 & -> & ->)
         (e2 & proc2 & cells2 & args2 & _ & _ & _ & Ha2 & Hp2 & Hc2 & Hl2 & -> & ->).
  pose proof (answers_unique _ _ _ _ Ha1 Ha2) as [= <-].
  rewrite Hp1 in Hp2. injection Hp2 as <-.
  rewrite Hc1 in Hc2. injection Hc2 as <-.
  rewrite Hl1 in Hl2. injection Hl2 as <-. split; reflexivity.
Qed.

Lemma partial_column_not_declined con st aggref column action :
  partial_column con st aggref column action -> ~ declined con st aggref.
Proof.
  intros (e1 & proc1 & cells1 & args1 & Ho & Hd & Hk & Ha1 & Hp1 & Hc1 & Hl1 & _)
         [[H | [H | H]] | [Hnone | (e2 & proc2 & cells2 & Ha2 & Hp2 & Hc2 & Hl2)]];
    try congruence.
  - pose proof (answers_unique _ _ _ _ Ha1 Hnone). discriminate.
  - pose proof (answers_unique _ _ _ _ Ha1 Ha2) as [= <-].
    rewrite Hp1 in Hp2. injection Hp2 as <-.
    rewrite Hc1 in Hc2. injection Hc2 as <-. congruence.
Qed.

Lemma partial_column_ext con1 con2 st1 st2 aggref column action :
  task_kind con1 = task_kind con2 ->
  input_rels_tlist con1 = input_rels_tlist con2 ->
  table_grows st1 st2 ->
  partial_column con1 st1 aggref column action ->
  partial_column con2 st2 aggref column action.
Proof.
  intros Hkind Htlist Hgrows
         (e & proc & cells & pargs & Ho & Hd & Hk & Ha & Hp & Hc & Hl & -> & ->).
  exists e, proc, cells, pargs.
  rewrite <- (partfn_args_loop_ext con1 con2 cells _ Hkind Htlist).
  repeat split; try assumption. exact (proj1 (answers_grows _ _ _ _ Hgrows Ha)).
  exact (proj2 (answers_grows _ _ _ _ Hgrows Ha)).
Qed.

Lemma declined_ext con1 con2 st1 st2 aggref :
  task_kind con1 = task_kind con2 ->
  input_rels_tlist con1 = input_rels_tlist con2 ->
  table_grows st1 st2 ->
  declined con1 st1 aggref -> declined con2 st2 aggref.
Proof.
  intros Hkind Htlist Hgrows [Hmod | [Hnone | (e & proc & cells & Ha & Hp & Hc & Hl)]].
  - left. exact Hmod.
  - right. left. exact (answers_grows _ _ _ _ Hgrows Hnone).
  - right. right. exists e, proc, cells.
    rewrite <- (partfn_args_loop_ext con1 con2 cells _ Hkind Htlist).
    repeat split; try assumption.
    + exact (proj1 (answers_grows _ _ _ _ Hgrows Ha)).
    + exact (proj2 (answers_grows _ _ _ _ Hgrows Ha)).
Qed.

(** The two ways in which [make_alternative_aggref] returns. *)
Lemma make_alternative_aggref_appends con aggref st altfn con' st' :
  make_alternative_aggref con aggref st = (Ret (Some altfn, con'), st') ->
  table_grows st st'
  /\ exists column action costs,
       partial_column con st' aggref column action
       /\ con' = set_final_clause_costs costs (with_partial_column con column action).
Proof.
  intros Hrun.
  destruct (make_alternative_aggref_returns _ _ _ _ _ _ Hrun)
    as (e & proc & agg & cells & pargs & costs & Hlookup & Ho & Hd & Hk & _ & Hproc
        & _ & _ & Hcells & Hloop & _ & ->).
  split; [exact (lookup_grows _ _ _ _ Hlookup) |].
  exists (partial_call e aggref pargs), (partial_func_action e), costs.
  split; [| reflexivity].
  exists e, proc, cells, pargs.
  repeat split; try assumption.
  - exact (proj1 (lookup_answers _ _ _ _ Hlookup)).
  - exact (proj2 (lookup_answers _ _ _ _ Hlookup)).
Qed.

Lemma make_alternative_aggref_declines con aggref st con' st' :
  make_alternative_aggref con aggref st = (Ret (None, con'), st') ->
  con' = con /\ table_grows st st' /\ declined con st' aggref.
Proof.
  unfold make_alternative_aggref.
  destruct (non_null (aggorder aggref)) eqn:Horder; cbn [orb].
  { intros [= <- <-]. split; [reflexivity |]. split; [apply table_grows_refl |].
    left. left. exact Horder. }
  destruct (non_null (aggdistinct aggref)) eqn:Hdistinct.
  { intros [= <- <-]. split; [reflexivity |]. split; [apply table_grows_refl |].
    left. right. left. exact Hdistinct. }
  destruct (AGGKIND_IS_ORDERED_SET (aggkind aggref)) eqn:Hkind.
  { intros [= <- <-]. split; [reflexivity |]. split; [apply table_grows_refl |].
    left. right. right. exact Hkind. }
  unfold bind at 1.
  destruct (aggfunc_catalog_lookup_by_oid (aggfnoid aggref) st)
    as [[[e|]| | |] st1] eqn:Hlookup; try discriminate.
  2:{ intros [= <- <-]. split; [reflexivity |].
      split; [exact (lookup_grows _ _ _ _ Hlookup) |].
      right. left. exact (lookup_answers _ _ _ _ Hlookup). }
  unfold bind at 1. unfold lift at 1.
  destruct (Assert (Ret _) _) as [[]| | |] eqn:Hsane; try discriminate.
  destruct (PROCOID sc (partial_func_oid e)) as [proc|] eqn:Hproc; [| discriminate].
  unfold bind at 1. unfold lift at 1.
  destruct (Assert (obind _ _) _) as [[]| | |] eqn:Hnargs; try discriminate.
  unfold bind at 1. unfold lift at 1.
  destruct (list_cells (args aggref)) as [cells| | |] eqn:Hcells; try discriminate.
  unfold bind at 1. unfold lift at 1.
  destruct (partfn_args_loop con cells (proargtypes proc) 0 None)
    as [[partfn_args|]| | |] eqn:Hloop; try discriminate.
  - cbv zeta.
    destruct (AGGFNOID sc (final_func_oid e)) as [agg|]; [| discriminate].
    unfold bind, lift, ret.
    destruct (exprType _); discriminate.
  - intros [= <- <-]. split; [reflexivity |].
    split; [exact (lookup_grows _ _ _ _ Hlookup) |].
    right. right. exists e, proc, cells.
    repeat split; try assumption.
    + exact (proj1 (lookup_answers _ _ _ _ Hlookup)).
    + exact (proj2 (lookup_answers _ _ _ _ Hlookup)).
Qed.


(** The columns appended for a sequence of aggregate calls, and their
    actions, over the columns present before: each call that is not
    declined gets its partial column, with the entry's action, unless the
    list holds an equal column already. *)
Inductive appended_columns (con : xpugroupby_build_path_context D)
  (st : pg_state D)
  : list Node -> list Aggref -> list Node -> list kagg_action -> Prop :=
| appended_none present : appended_columns con st present [] [] []
| appended_new present aggref rest column action columns actions :
    partial_column con st aggref column action ->
    list_member present column = false ->
    appended_columns con st (present ++ [column]) rest columns actions ->
    appended_columns con st present (aggref :: rest)
                     (column :: columns) (action :: actions)
| appended_seen present aggref rest column action columns actions :
    partial_column con st aggref column action ->
    list_member present column = true ->
    appended_columns con st present rest columns actions ->
    appended_columns con st present (aggref :: rest) columns actions
| appended_declined present aggref rest columns actions :
    declined con st aggref ->
    appended_columns con st present rest columns actions ->
    appended_columns con st present (aggref :: rest) columns actions.

Lemma appended_columns_ext con1 con2 st1 st2 present aggrefs columns actions :
  task_kind con1 = task_kind con2 ->
  input_rels_tlist con1 = input_rels_tlist con2 ->
  table_grows st1 st2 ->
  appended_columns con1 st1 present aggrefs columns actions ->
  appended_columns con2 st2 present aggrefs columns actions.
Proof.
  intros Hkind Htlist Hgrows.
  induction 1 as [present
                 | present aggref rest column action columns actions Hcol Hmem _ IH
                 | present aggref rest column action columns actions Hcol Hmem _ IH
                 | present aggref rest columns actions Hdecl _ IH].
  - constructor.
  - apply appended_new; [| exact Hmem | exact IH].
    exact (partial_column_ext _ _ _ _ _ _ _ Hkind Htlist Hgrows Hcol).
  - eapply appended_seen; [| exact Hmem | exact IH].
    exact (partial_column_ext _ _ _ _ _ _ _ Hkind Htlist Hgrows Hcol).
  - apply appended_declined; [| exact IH].
    exact (declined_ext _ _ _ _ _ Hkind Htlist Hgrows Hdecl).
Qed.

Lemma appended_columns_app con st present aggrefs1 columns1 actions1 :
  appended_columns con st present aggrefs1 columns1 actions1 ->
  forall aggrefs2 columns2 actions2,
    appended_columns con st (present ++ columns1) aggrefs2 columns2 actions2 ->
    appended_columns con st present (aggrefs1 ++ aggrefs2)%list
                     (columns1 ++ columns2)%list (actions1 ++ actions2)%list.
Proof.
  induction 1 as [present
                 | present aggref rest column action columns actions Hcol Hmem _ IH
                 | present aggref rest column action columns actions Hcol Hmem _ IH
                 | present aggref rest columns actions Hdecl _ IH];
    intros aggrefs2 columns2 actions2 Hnext; cbn [app].
  - rewrite app_nil_r in Hnext. exact Hnext.
  - apply appended_new; [exact Hcol | exact Hmem |].
    apply IH. rewrite <- app_assoc. exact Hnext.
  - eapply appended_seen; [exact Hcol | exact Hmem |]. apply IH. exact Hnext.
  - apply appended_declined; [exact Hdecl |]. apply IH. exact Hnext.
Qed.

Lemma appended_columns_shape con st present aggrefs columns actions :
  appended_columns con st present aggrefs columns actions ->
  length columns = length actions /\ Forall is_partial_call columns.
Proof.
  induction 1 as [present
                 | present aggref rest column action columns actions Hcol Hmem _ IH
                 | present aggref rest column action columns actions Hcol Hmem _ IH
                 | present aggref rest columns actions Hdecl _ IH].
  - split; [reflexivity | constructor].
  - destruct IH as [Hlen Hcalls]. split; [cbn; lia |].
    constructor; [| exact Hcalls].
    destruct Hcol as (e & proc & cells & pargs & _ & _ & _ & _ & _ & _ & _ & -> & _).
    unfold is_partial_call, partial_call. eauto 10.
  - exact IH.
  - exact IH.
Qed.

(** What a part of the target builder has done between two contexts and two
    states, for the aggregate calls it has met. *)
Definition has_appended (con : xpugroupby_build_path_context D) (st : pg_state D)
  (con' : xpugroupby_build_path_context D) (st' : pg_state D)
  (aggrefs : list Aggref) : Prop :=
  table_grows st st'
  /\ task_kind con' = task_kind con
  /\ input_rels_tlist con' = input_rels_tlist con
  /\ exists columns actions,
       exprs (target_partial con') = (exprs (target_partial con) ++ columns)%list
       /\ groupby_actions (pp_info con')
          = (groupby_actions (pp_info con) ++ actions)%list
       /\ appended_columns con st' (exprs (target_partial con)) aggrefs
                           columns actions.

Lemma has_appended_nothing con st con' :
  task_kind con' = task_kind con ->
  input_rels_tlist con' = input_rels_tlist con ->
  target_partial con' = target_partial con ->
  groupby_actions (pp_info con') = groupby_actions (pp_info con) ->
  has_appended con st con' st [].
Proof.
  intros Hkind Htlist Htarget Hactions.
  split; [apply table_grows_refl |]. split; [exact Hkind |]. split; [exact Htlist |].
  exists [], []. rewrite Htarget, Hactions, !app_nil_r.
  repeat split. constructor.
Qed.

Lemma has_appended_trans con1 st1 con2 st2 con3 st3 aggrefs1 aggrefs2 :
  has_appended con1 st1 con2 st2 aggrefs1 ->
  has_appended con2 st2 con3 st3 aggrefs2 ->
  has_appended con1 st1 con3 st3 (aggrefs1 ++ aggrefs2)%list.
Proof.
  intros (Hg1 & Hk1 & Ht1 & c1 & a1 & He1 & Ha1 & Hap1)
         (Hg2 & Hk2 & Ht2 & c2 & a2 & He2 & Ha2 & Hap2).
  split; [exact (table_grows_trans _ _ _ Hg1 Hg2) |].
  split; [congruence |]. split; [congruence |].
  exists (c1 ++ c2)%list, (a1 ++ a2)%list.
  rewrite He2, He1, Ha2, Ha1, !app_assoc. repeat split.
  apply appended_columns_app.
  - exact (appended_columns_ext _ _ _ _ _ _ _ _ eq_refl eq_refl Hg2 Hap1).
  - rewrite <- He1.
    exact (appended_columns_ext _ _ _ _ _ _ _ _ Hk1 Ht1 (table_grows_refl _) Hap2).
Qed.

(** A field of the context that the columns do not depend on may change
    on the way. *)
Lemma has_appended_from con0 con st con' st' aggrefs :
  task_kind con = task_kind con0 ->
  input_rels_tlist con = input_rels_tlist con0 ->
  target_partial con = target_partial con0 ->
  groupby_actions (pp_info con) = groupby_actions (pp_info con0) ->
  has_appended con st con' st' aggrefs ->
  has_appended con0 st con' st' aggrefs.
Proof.
  intros Hkind Htlist Htarget Hactions (Hg & Hk & Ht & c & a & He & Ha & Hap).
  split; [exact Hg |]. split; [congruence |]. split; [congruence |].
  exists c, a. rewrite <- Htarget, <- Hactions. repeat split; try assumption.
  exact (appended_columns_ext _ _ _ _ _ _ _ _ Hkind Htlist (table_grows_refl _) Hap).
Qed.

Lemma make_alternative_aggref_has_appended con aggref st r con' st' :
  make_alternative_aggref con aggref st = (Ret (r, con'), st') ->
  has_appended con st con' st' [aggref]
  /\ (r <> None -> exists column action, partial_column con st' aggref column action).
Proof.
  destruct r as [altfn|]; intros Hrun.
  - destruct (make_alternative_aggref_appends _ _ _ _ _ _ Hrun)
      as (Hgrows & column & action & costs & Hcol & ->).
    split; [| intros _; eauto].
    split; [exact Hgrows |].
    destruct (with_partial_column_keeps con column action) as (Hkind & Htlist & _).
    split; [exact Hkind |]. split; [exact Htlist |].
    cbn [target_partial pp_info set_final_clause_costs].
    unfold with_partial_column.
    destruct (list_member (exprs (target_partial con)) column) eqn:Hmem; cbn [negb].
    + exists [], []. rewrite !app_nil_r. repeat split.
      eapply appended_seen; [exact Hcol | exact Hmem | constructor].
    + exists [column], [action]. repeat split.
      apply appended_new; [exact Hcol | exact Hmem | constructor].
  - destruct (make_alternative_aggref_declines _ _ _ _ _ Hrun)
      as (-> & Hgrows & Hdecl).
    split; [| intros H; contradiction].
    split; [exact Hgrows |]. split; [reflexivity |]. split; [reflexivity |].
    exists [], []. rewrite !app_nil_r. repeat split.
    apply appended_declined; [exact Hdecl | constructor].
Qed.


(** The aggregate calls among the columns of the upper target list from
    column [i] on that are not grouping keys, in the order of the list. *)
Fixpoint aggregate_columns (con : xpugroupby_build_path_context D) (i : nat)
  (upper_exprs : list Node) : list Aggref :=
  match upper_exprs with
  | [] => []
  | expr :: rest =>
      if is_grouping_key_column con i then aggregate_columns con (S i) rest
      else match expr with
           | T_Aggref aggref => aggref :: aggregate_columns con (S i) rest
           | _ => aggregate_columns con (S i) rest
           end
  end.

Lemma aggregate_columns_ext con1 con2 upper_exprs :
  root con1 = root con2 -> target_upper con1 = target_upper con2 ->
  forall i, aggregate_columns con1 i upper_exprs = aggregate_columns con2 i upper_exprs.
Proof.
  intros Hroot Hupper.
  induction upper_exprs as [|expr rest IH]; intros i; cbn [aggregate_columns];
    [reflexivity |].
  unfold is_grouping_key_column. rewrite Hroot, Hupper, IH. reflexivity.
Qed.

(** The first loop appends the partial columns of the aggregate calls of
    the select list, and none of these calls is declined. *)
Lemma pick_up_upper_exprs_has_appended upper_exprs :
  forall con i refno st con' refno' st',
    pick_up_upper_exprs con upper_exprs i refno st
    = (Ret (true, con', refno'), st') ->
    has_appended con st con' st' (aggregate_columns con i upper_exprs)
    /\ Forall (fun aggref => exists column action,
                   partial_column con st' aggref column action)
              (aggregate_columns con i upper_exprs).
Proof.
  induction upper_exprs as [|expr rest IH]; intros con i refno st con' refno' st';
    cbn [pick_up_upper_exprs aggregate_columns].
  - intros [= <- <- <-].
    split; [apply has_appended_nothing; reflexivity | constructor].
  - cbv zeta. fold (is_grouping_key_column con i).
    destruct (is_grouping_key_column con i) eqn:Hkey.
    + unfold bind at 1. unfold lift at 1.
      destruct (exprType (Some expr)) as [type_oid| | |]; try discriminate.
      destruct (pgstrom_devtype_lookup type_oid) as [dtype|]; [| discriminate].
      destruct (non_null (type_hashfunc dtype)); cbn [negb]; [| discriminate].
      unfold bind at 1. unfold lift at 1.
      destruct (exprCollation (Some expr)) as [coll_oid| | |]; try discriminate.
      destruct (non_null (devtype_lookup_equal_func dtype coll_oid));
        cbn [negb]; [| discriminate].
      destruct (pgstrom_xpu_expression (Some expr) (task_kind con)
                  (input_rels_tlist con)); cbn [negb]; [| discriminate].
      intros Hrest. apply IH in Hrest. destruct Hrest as [Happ Hall].
      match type of Happ with
      | has_appended ?c _ _ _ _ =>
          assert (Hcols : aggregate_columns c (S i) rest
                          = aggregate_columns con (S i) rest)
            by (apply aggregate_columns_ext; reflexivity)
      end.
      rewrite Hcols in Happ, Hall.
      split.
      * apply (has_appended_from con) in Happ; try reflexivity. exact Happ.
      * eapply Forall_impl; [exact Hall |].
        intros aggref (column & action & Hcol). exists column, action.
        eapply partial_column_ext; [| | | exact Hcol];
          [reflexivity | reflexivity | apply table_grows_refl].
    + destruct expr as [| | | | | | |aggref| |]; try discriminate.
      unfold bind at 1.
      destruct (make_alternative_aggref con aggref st) as [[[altfn con1]| | |] st1]
        eqn:Hmake; try discriminate.
      cbn [fst snd].
      destruct altfn as [altfn|]; [| discriminate].
      unfold bind at 1. unfold lift at 1.
      destruct (exprType (Some (T_Aggref aggref))) as [expr_type| | |];
        try discriminate.
      unfold bind at 1. unfold lift at 1.
      destruct (exprType (Some altfn)) as [altfn_type| | |]; try discriminate.
      destruct (negb (N.eqb expr_type altfn_type)); [discriminate |].
      intros Hrest. apply IH in Hrest. destruct Hrest as [Happ Hall].
      destruct (make_alternative_aggref_has_appended _ _ _ _ _ _ Hmake)
        as [Hstep Hsome].
      destruct Hsome as (column & action & Hcol); [discriminate |].
      destruct (make_alternative_aggref_frame con aggref _ _ _ Hmake) as [_ Hframe].
      specialize (Hframe _ eq_refl). cbn [snd] in Hframe.
      destruct Hframe as (Hroot1 & _ & _ & _ & Hupper1 & _ & Htlist1 & _ & _ & Hkind1
                          & _).
      assert (Hcols : aggregate_columns
                        (set_target_final
                           (add_column_to_pathtarget (target_final con1) altfn 0) con1)
                        (S i) rest
                      = aggregate_columns con (S i) rest)
        by (apply aggregate_columns_ext; assumption).
      rewrite Hcols in Happ, Hall.
      apply (has_appended_from con1) in Happ; try reflexivity.
      split.
      * exact (has_appended_trans _ _ _ _ _ _ [aggref] _ Hstep Happ).
      * constructor.
        -- exists column, action.
           eapply partial_column_ext; [| | | exact Hcol];
             [reflexivity | reflexivity | exact (proj1 Happ)].
        -- eapply Forall_impl; [exact Hall |].
           intros a (c & act & Hc). exists c, act.
           eapply partial_column_ext; [| | | exact Hc];
             [exact Hkind1 | exact Htlist1 | apply table_grows_refl].
Qed.

(** The aggregate calls that the rewriter meets in an expression, in the
    order in which it meets them: it does not look into an aggregate call,
    nor into an expression that is a grouping key. *)
Fixpoint aggregates_met (keys : list Node) (node : Node) {struct node}
  : list Aggref :=
  let below (child : option Node) : list Aggref :=
    match child with
    | Some n => aggregates_met keys n
    | None => []
    end in
  match node with
  | T_Aggref aggref => [aggref]
  | T_Var _ _ _ _ _ _ | T_PlaceHolderVar _ _ _ | T_Const _ _ _ _ _ => []
  | T_FuncExpr _ _ _ _ _ _ _ child | T_OpExpr _ _ _ _ _ _ child
  | T_BoolExpr _ child | T_RelabelType child _ _ _ _
  | T_TargetEntry child _ _ _ _ =>
      if existsb (fun key => equal node key) keys then [] else below child
  | T_List cells =>
      if existsb (fun key => equal node key) keys then []
      else flat_map below cells
  end.

Definition aggregates_met_below (keys : list Node) (child : option Node)
  : list Aggref :=
  match child with
  | Some n => aggregates_met keys n
  | None => []
  end.

(** What the rewriter has done when it returns from an expression. *)
Definition rewriter_has_appended (node : Node) : Prop :=
  forall con st r con' st',
    replace_expression_by_altfunc_node node con st = (Ret (r, con'), st') ->
    has_appended con st con' st' (aggregates_met (groupby_keys (pp_info con)) node).

Lemma has_appended_keys con st node r con' st' :
  replace_expression_by_altfunc_node node con st = (Ret (r, con'), st') ->
  groupby_keys (pp_info con') = groupby_keys (pp_info con).
Proof.
  intros Hrun.
  destruct (replace_expression_by_altfunc_node_step node con _ _ _ Hrun) as [_ Hstep].
  destruct (Hstep _ eq_refl) as (_ & _ & _ & Hkeys & _). exact Hkeys.
Qed.

Lemma mutate_cells_has_appended (cells : list (option Node)) :
  Forall (holds_below rewriter_has_appended) cells ->
  forall con st rs con' st',
    mutate_cells
      (fun child context =>
         match child with
         | None => ret (None, context)
         | Some n => replace_expression_by_altfunc_node n context
         end) cells con st
    = (Ret (rs, con'), st') ->
    has_appended con st con' st'
      (flat_map (aggregates_met_below (groupby_keys (pp_info con))) cells)
    /\ groupby_keys (pp_info con') = groupby_keys (pp_info con).
Proof.
  induction 1 as [|cell rest Hcell _ IH]; intros con st rs con' st';
    cbn [mutate_cells flat_map].
  - intros [= <- <- <-].
    split; [apply has_appended_nothing; reflexivity | reflexivity].
  - unfold bind at 1.
    destruct cell as [n|].
    + destruct (replace_expression_by_altfunc_node n con st)
        as [[[r1 con1]| | |] st1] eqn:Hfirst; try discriminate.
      cbn [snd fst]. unfold bind at 1.
      match goal with
      | |- context [mutate_cells ?f rest con1 st1] =>
          destruct (mutate_cells f rest con1 st1) as [[[rs2 con2]| | |] st2] eqn:Hrest
      end; try discriminate.
      unfold ret. intros [= <- <- <-].
      pose proof (has_appended_keys _ _ _ _ _ _ Hfirst) as Hkeys1.
      destruct (IH _ _ _ _ _ Hrest) as [Happ2 Hkeys2].
      rewrite Hkeys1 in Happ2.
      split; [| congruence].
      exact (has_appended_trans _ _ _ _ _ _ _ _ (Hcell _ _ _ _ _ Hfirst) Happ2).
    + unfold ret at 1. cbn [snd fst]. unfold bind at 1.
      match goal with
      | |- context [mutate_cells ?f rest con st] =>
          destruct (mutate_cells f rest con st) as [[[rs2 con2]| | |] st2] eqn:Hrest
      end; try discriminate.
      unfold ret. intros [= <- <- <-].
      exact (IH _ _ _ _ _ Hrest).
Qed.

Lemma replace_expression_by_altfunc_node_has_appended node :
  rewriter_has_appended node.
Proof.
  induction node using Node_induction; intros con st r con' st';
    cbn [replace_expression_by_altfunc_node aggregates_met].
  - (* Var *)
    destruct (existsb _ _); [| discriminate].
    intros [= <- <- <-]. apply has_appended_nothing; reflexivity.
  - (* Const *)
    destruct (existsb _ _).
    + intros [= <- <- <-]. apply has_appended_nothing; reflexivity.
    + cbn. intros [= <- <- <-]. apply has_appended_nothing; reflexivity.
  - (* PlaceHolderVar *)
    destruct (existsb _ _); [| discriminate].
    intros [= <- <- <-]. apply has_appended_nothing; reflexivity.
  - (* FuncExpr *)
    destruct (existsb _ _);
      [intros [= <- <- <-]; apply has_appended_nothing; reflexivity |].
    cbn [expression_tree_mutator]. unfold bind.
    destruct fargs as [n|].
    + destruct (replace_expression_by_altfunc_node n con st)
        as [[[r1 con1]| | |] st1] eqn:Hchild; try discriminate.
      unfold ret. intros [= <- <- <-]. exact (H _ _ _ _ _ Hchild).
    + unfold ret. intros [= <- <- <-]. apply has_appended_nothing; reflexivity.
  - (* OpExpr *)
    destruct (existsb _ _);
      [intros [= <- <- <-]; apply has_appended_nothing; reflexivity |].
    cbn [expression_tree_mutator]. unfold bind.
    destruct oargs as [n|].
    + destruct (replace_expression_by_altfunc_node n con st)
        as [[[r1 con1]| | |] st1] eqn:Hchild; try discriminate.
      unfold ret. intros [= <- <- <-]. exact (H _ _ _ _ _ Hchild).
    + unfold ret. intros [= <- <- <-]. apply has_appended_nothing; reflexivity.
  - (* BoolExpr *)
    destruct (existsb _ _);
      [intros [= <- <- <-]; apply has_appended_nothing; reflexivity |].
    cbn [expression_tree_mutator]. unfold bind.
    destruct bargs as [n|].
    + destruct (replace_expression_by_altfunc_node n con st)
        as [[[r1 con1]| | |] st1] eqn:Hchild; try discriminate.
      unfold ret. intros [= <- <- <-]. exact (H _ _ _ _ _ Hchild).
    + unfold ret. intros [= <- <- <-]. apply has_appended_nothing; reflexivity.
  - (* RelabelType *)
    destruct (existsb _ _);
      [intros [= <- <- <-]; apply has_appended_nothing; reflexivity |].
    cbn [expression_tree_mutator]. unfold bind.
    destruct arg as [n|].
    + destruct (replace_expression_by_altfunc_node n con st)
        as [[[r1 con1]| | |] st1] eqn:Hchild; try discriminate.
      unfold ret. intros [= <- <- <-]. exact (H _ _ _ _ _ Hchild).
    + unfold ret. intros [= <- <- <-]. apply has_appended_nothing; reflexivity.
  - (* Aggref *)
    unfold bind.
    destruct (make_alternative_aggref con a st) as [[[altfn con1]| | |] st1]
      eqn:Hmake; try discriminate.
    cbn [fst snd].
    destruct (make_alternative_aggref_has_appended _ _ _ _ _ _ Hmake) as [Happ _].
    destruct altfn as [altfn|]; unfold ret; intros [= <- <- <-]; [exact Happ |].
    destruct Happ as (Hg & Hk & Ht & c & acts & He & Ha & Hap).
    split; [exact Hg |]. split; [exact Hk |]. split; [exact Ht |].
    exists c, acts. repeat split; assumption.
  - (* TargetEntry *)
    destruct (existsb _ _);
      [intros [= <- <- <-]; apply has_appended_nothing; reflexivity |].
    cbn [expression_tree_mutator]. unfold bind.
    destruct expr as [n|].
    + destruct (replace_expression_by_altfunc_node n con st)
        as [[[r1 con1]| | |] st1] eqn:Hchild; try discriminate.
      unfold ret. intros [= <- <- <-]. exact (H _ _ _ _ _ Hchild).
    + unfold ret. intros [= <- <- <-]. apply has_appended_nothing; reflexivity.
  - (* List *)
    destruct (existsb _ _);
      [intros [= <- <- <-]; apply has_appended_nothing; reflexivity |].
    cbn [expression_tree_mutator]. unfold bind.
    match goal with
    | |- context [mutate_cells ?f cells con st] =>
        destruct (mutate_cells f cells con st) as [[[rs con1]| | |] st1] eqn:Hcells
    end; try discriminate.
    unfold ret. intros [= <- <- <-].
    exact (proj1 (mutate_cells_has_appended cells H _ _ _ _ _ Hcells)).
Qed.


Lemma attach_groupby_keys_tlist keys :
  forall refnos con con',
    attach_groupby_keys con keys refnos = Ret con' ->
    input_rels_tlist con' = input_rels_tlist con.
Proof.
  induction keys as [|key keys IH]; intros [|keyref refnos] con con' Hrun;
    cbn [attach_groupby_keys] in Hrun; try (injection Hrun as <-; reflexivity).
  destruct (Assert _ _) as [[]| | |]; cbn [obind] in Hrun; try discriminate.
  apply IH in Hrun. exact Hrun.
Qed.

(** The layout of the partial target list, for every run of the target
    builder that returns true from a context without grouping keys.  The
    columns appended are, in this order: the partial columns of the
    aggregate calls of the select list, each at its first occurrence; the
    grouping keys of the select list; the partial columns of the aggregate
    calls that the rewriter meets under HAVING, each unless it is declined
    or its column is in the list already.  None of the aggregate calls of
    the select list is declined.  The action list grows in lock-step: the
    action of the resolver's entry for each partial column, and the action
    of a verbatim reference for each grouping key.  The path lists and the
    configuration flag are not touched. *)
Theorem partial_target_list_layout :
  forall (con con' : xpugroupby_build_path_context D) (st st' : pg_state D),
    groupby_keys (pp_info con) = [] ->
    xpugroupby_build_path_target con st = (Ret (true, con'), st') ->
    let keys := map fst (key_columns con 0 (exprs (target_upper con))) in
    let select_aggregates := aggregate_columns con 0 (exprs (target_upper con)) in
    let having_aggregates := aggregates_met_below keys (havingQual (parse (root con))) in
    exists aggs acts having_aggs having_acts,
      exprs (target_partial con')
      = (exprs (target_partial con) ++ aggs ++ keys ++ having_aggs)%list
      /\ groupby_actions (pp_info con')
         = (groupby_actions (pp_info con) ++ acts
            ++ repeat KAGG_ACTION__VREF (length keys) ++ having_acts)%list
      /\ groupby_keys (pp_info con') = keys
      /\ appended_columns con st' (exprs (target_partial con))
                          select_aggregates aggs acts
      /\ Forall (fun aggref => exists column action,
                     partial_column con st' aggref column action)
                select_aggregates
      /\ appended_columns con st' (exprs (target_partial con) ++ aggs ++ keys)%list
                          having_aggregates having_aggs having_acts
      /\ length aggs = length acts
      /\ length having_aggs = length having_acts
      /\ same_planner_state st st'.
Proof.
  intros con con' st st' Hkeys0 Hrun. cbv zeta.
  destruct (build_path_target_keeps con _ _ _ Hrun) as [Hstate _].
  destruct (build_path_target_returns _ _ _ _ Hrun)
    as (con1 & refno1 & st1 & con2 & rewritten & con3
        & Hpick & Hattach & Hreplace & _ & ->).
  destruct (pick_up_upper_exprs_has_appended _ _ _ _ _ _ _ _ Hpick)
    as [(Hg1 & Hkind1 & Htlist1 & aggs & acts & He1 & Ha1 & Hap1) Hall].
  destruct (pick_up_upper_exprs_returns _ _ _ _ _ _ _ _ Hpick)
    as (Hroot1 & _ & _ & _ & _ & _ & _ & _ & _ & _ & _ & _ & _ & Hk1 & Hrefno1 & _).
  rewrite Hkeys0 in Hk1. cbn [app] in Hk1, Hrefno1.
  assert (Hlen : length (groupby_keys (pp_info con1)) = length refno1)
    by (rewrite Hk1, Hrefno1, !length_map; reflexivity).
  destruct (attach_groupby_keys_appends _ _ _ _ Hlen Hattach)
    as (Hroot2 & _ & _ & Hk2 & He2 & Ha2).
  destruct (attach_groupby_keys_frame _ _ _ _ Hattach)
    as (_ & _ & _ & _ & _ & _ & _ & Hkind2 & _).
  pose proof (attach_groupby_keys_tlist _ _ _ _ Hattach) as Htlist2.
  assert (Hhaving :
    has_appended con2 st1 con3 st'
      (aggregates_met_below (groupby_keys (pp_info con2))
                            (havingQual (parse (root con2))))
    /\ groupby_keys (pp_info con3) = groupby_keys (pp_info con2)).
  { destruct (havingQual (parse (root con2))) as [qual|];
      cbn [replace_expression_by_altfunc aggregates_met_below] in *.
    - split; [exact (replace_expression_by_altfunc_node_has_appended _ _ _ _ _ _ Hreplace) |].
      exact (has_appended_keys _ _ _ _ _ _ Hreplace).
    - injection Hreplace as <- <- <-.
      split; [apply has_appended_nothing; reflexivity | reflexivity]. }
  destruct Hhaving as [(Hg3 & Hkind3 & Htlist3 & haggs & hacts & He3 & Ha3 & Hap3) Hk3].
  rewrite Hk2, Hk1, Hroot2, Hroot1 in Hap3.
  rewrite He2, He1, Hk1, <- app_assoc in Hap3.
  exists aggs, acts, haggs, hacts.
  cbn [target_partial pp_info set_target_partial set_target_final
       set_con_havingQual set_pathtarget_cost_width exprs].
  rewrite He3, He2, He1, Ha3, Ha2, Ha1, Hk3, Hk2, Hk1, <- !app_assoc.
  pose proof (appended_columns_ext _ con _ _ _ _ _ _ eq_refl eq_refl Hg3 Hap1) as Hsel.
  assert (Hhav : appended_columns con st'
                   (exprs (target_partial con) ++ aggs
                    ++ map fst (key_columns con 0 (exprs (target_upper con))))%list
                   (aggregates_met_below
                      (map fst (key_columns con 0 (exprs (target_upper con))))
                      (havingQual (parse (root con)))) haggs hacts).
  { eapply appended_columns_ext; [| | | exact Hap3];
      [congruence | congruence | apply table_grows_refl]. }
  repeat split; try assumption.
  - eapply Forall_impl; [exact Hall |].
    intros aggref (column & action & Hcol). exists column, action.
    eapply partial_column_ext; [| | | exact Hcol];
      [reflexivity | reflexivity | exact Hg3].
  - exact (proj1 (appended_columns_shape _ _ _ _ _ _ Hsel)).
  - exact (proj1 (appended_columns_shape _ _ _ _ _ _ Hhav)).
  - exact (proj1 Hstate).
  - exact (proj2 Hstate).
Qed.

End GpuPreAgg.

(** * The cache of the resolver across catalogs *)

(** Two lookups of one function in a row, with no invalidation between
    them: the second returns what the first returned and leaves the table as
    it is, whatever the live catalog holds by then.  It reads the hash table
    only. *)
Theorem second_lookup_reads_only_the_cache :
  forall (D : Type) (sc sc' : syscache)
         (get_type_name get_type_name' : Oid -> bool -> outcome (option string))
         (aggfn_oid : Oid) (st st' : pg_state D)
         (r : option aggfunc_catalog_entry),
    aggfunc_catalog_lookup_by_oid sc get_type_name aggfn_oid st = (Ret r, st') ->
    aggfunc_catalog_lookup_by_oid sc' get_type_name' aggfn_oid st' = (Ret r, st').
Proof.
  intros D sc sc' gtn gtn' aggfn_oid st st' r Hrun.
  destruct (lookup_settles sc gtn _ _ _ _ Hrun) as [[e He] Hagain].
  rewrite (lookup_cached sc' gtn' _ _ _ He). exact Hagain.
Qed.

(** * A live catalog and a planner to run the code on

    A small instance of the parameters, over IEEE doubles: the rows of
    pg_proc, pg_aggregate, pg_cast and pg_type that the queries below touch,
    with the functions of the pgstrom schema next to the built-in
    aggregates.  [pgstrom.pmin(int4)] is declared with a result type that
    does not match the static catalog, as in a live catalog that has
    diverged from it.  [public.vsum(VARIADIC int4[])] is an aggregate a user
    has created with a variadic argument list. *)

Definition NUMERICOID : Oid := 1700%N.
Definition demo_pgstrom_namespace : Oid := 90000%N.

Definition demo_pg_proc : list (Oid * Form_pg_proc) := [
  (481%N,   mkProc "int8" PG_CATALOG_NAMESPACE INT8OID [INT4OID]);
  (2803%N,  mkProc "count" PG_CATALOG_NAMESPACE INT8OID []);
  (2108%N,  mkProc "sum" PG_CATALOG_NAMESPACE INT8OID [INT4OID]);
  (2114%N,  mkProc "sum" PG_CATALOG_NAMESPACE NUMERICOID [NUMERICOID]);
  (2132%N,  mkProc "min" PG_CATALOG_NAMESPACE INT4OID [INT4OID]);
  (3538%N,  mkProc "string_agg" PG_CATALOG_NAMESPACE 25%N [25%N; 25%N]);
  (90001%N, mkProc "nrows" demo_pgstrom_namespace INT8OID []);
  (90002%N, mkProc "psum" demo_pgstrom_namespace INT8OID [INT8OID]);
  (90003%N, mkProc "sum" demo_pgstrom_namespace INT8OID [INT8OID]);
  (90004%N, mkProc "psum" demo_pgstrom_namespace FLOAT8OID [FLOAT8OID]);
  (90005%N, mkProc "sum_num" demo_pgstrom_namespace NUMERICOID [FLOAT8OID]);
  (90006%N, mkProc "pmin" demo_pgstrom_namespace INT4OID [INT4OID]);
  (90007%N, mkProc "min_i4" demo_pgstrom_namespace INT4OID [BYTEAOID]);
  (16401%N, mkProc "vsum" 2200%N INT8OID [1007%N])
].

Definition demo_pg_aggregate : list (Oid * Form_pg_aggregate) := [
  (2803%N,  mkAgg 2804%N InvalidOid INT8OID);
  (2108%N,  mkAgg 1841%N InvalidOid INT8OID);
  (2114%N,  mkAgg 1833%N 3178%N 2281%N);
  (2132%N,  mkAgg 768%N InvalidOid INT4OID);
  (3538%N,  mkAgg 3535%N 3536%N 2281%N);
  (90003%N, mkAgg 463%N InvalidOid INT8OID);
  (90005%N, mkAgg 90011%N 90012%N BYTEAOID);
  (90007%N, mkAgg 90013%N 90014%N BYTEAOID);
  (16401%N, mkAgg 16402%N InvalidOid INT8OID)
].

Definition demo_pg_type : list (Oid * string) := [
  (BYTEAOID, "bytea"); (INT8OID, "int8"); (INT4OID, "int4"); (25%N, "text");
  (FLOAT8OID, "float8"); (NUMERICOID, "numeric"); (ANYOID, "any")
].

Definition demo_pg_cast : list (Oid * Oid * Form_pg_cast) := [
  (INT4OID, INT8OID, mkCast 481%N COERCION_METHOD_FUNCTION)
].

Fixpoint assoc_oid {A : Type} (key : Oid) (rows : list (Oid * A)) : option A :=
  match rows with
  | [] => None
  | (k, v) :: rest => if N.eqb k key then Some v else assoc_oid key rest
  end.

Definition demo_sc : syscache := {|
  PROCOID := fun oid => assoc_oid oid demo_pg_proc;
  AGGFNOID := fun oid => assoc_oid oid demo_pg_aggregate;
  CASTSOURCETARGET := fun source target =>
    match find (fun row => N.eqb (fst (fst row)) source && N.eqb (snd (fst row)) target)
               demo_pg_cast with
    | Some row => Some (snd row)
    | None => None
    end;
  TYPENAMENSP := fun name nsp =>
    if N.eqb nsp PG_CATALOG_NAMESPACE
    then match find (fun row => String.eqb (snd row) name) demo_pg_type with
         | Some row => fst row
         | None => InvalidOid
         end
    else InvalidOid;
  PROCNAMEARGSNSP := fun name argtypes nsp =>
    match find (fun row => String.eqb (proname (snd row)) name
                           && list_eqb N.eqb (proargtypes (snd row)) argtypes
                           && N.eqb (pronamespace (snd row)) nsp)
               demo_pg_proc with
    | Some row => fst row
    | None => InvalidOid
    end;
  NAMESPACENAME := fun name =>
    if String.eqb name "pgstrom" then demo_pgstrom_namespace
    else if String.eqb name "pg_catalog" then PG_CATALOG_NAMESPACE
    else InvalidOid;
  TYPEOID := fun oid => assoc_oid oid demo_pg_type
|}.

Definition demo_get_type_name (type_oid : Oid) (missing_ok : bool)
  : outcome (option string) :=
  match TYPEOID demo_sc type_oid with
  | Some name => Ret (Some name)
  | None => if missing_ok then Ret None else Elog "cache lookup failed for type"
  end.

Definition demo_xpu_expression (expr : option Node) (kind : Z) (tlist : list N)
  : bool := true.
Definition demo_devtype_lookup (type_oid : Oid) : option devtype_info :=
  Some (mkDevtype type_oid (Some 1%N)).
Definition demo_equal_func (dtype : devtype_info) (coll : Oid) : option N := Some 2%N.
Definition demo_add_function_cost (root : PlannerInfo float) (funcid : Oid)
  (cost : QualCost float) : QualCost float :=
  {| startup := startup cost; per_tuple := (per_tuple cost + 0.0078125)%float |}.
Definition demo_pathtarget_cost_width (root : PlannerInfo float)
  (target : PathTarget float) : QualCost float * Z :=
  (cost target, 8 * Z.of_nat (length (exprs target))).

Definition demo_state : pg_state float :=
  {| aggfunc_catalog_htable := None;
     pgstrom_enable_numeric_aggfuncs := true;
     pathlist := ∅ |}.

Definition demo_lookup : Oid -> M float (option aggfunc_catalog_entry) :=
  aggfunc_catalog_lookup_by_oid demo_sc demo_get_type_name.

(** A live catalog from which every row has been dropped. *)
Definition demo_dropped_sc : syscache := {|
  PROCOID := fun _ => None;
  AGGFNOID := fun _ => None;
  CASTSOURCETARGET := fun _ _ => None;
  TYPENAMENSP := fun _ _ => InvalidOid;
  PROCNAMEARGSNSP := fun _ _ _ => InvalidOid;
  NAMESPACENAME := fun _ => InvalidOid;
  TYPEOID := fun _ => None
|}.

(** The query
    [SELECT k, count( * ) FROM t GROUP BY k HAVING sum(x) > 10]
    over two int4 columns [k] and [x]. *)
Definition demo_k : Node := T_Var 1 1 INT4OID (-1) InvalidOid 0.
Definition demo_x : Node := T_Var 1 2 INT4OID (-1) InvalidOid 0.

Definition demo_aggref (fnoid rettype : Oid) (argtypes : list Oid)
  (fargs : option Node) (star : bool) : Aggref :=
  {| aggfnoid := fnoid; aggtype := rettype; aggcollid := InvalidOid;
     inputcollid := InvalidOid; aggtranstype := InvalidOid;
     aggargtypes := argtypes; aggdirectargs := None; args := fargs;
     aggorder := None; aggdistinct := None; aggfilter := None;
     aggstar := star; aggvariadic := false; aggkind := AGGKIND_NORMAL;
     agglevelsup := 0; aggsplit := AGGSPLIT_SIMPLE; aggno := 0; aggtransno := 0;
     location := 10 |}.

Definition demo_count_star : Aggref := demo_aggref 2803%N INT8OID [] None true.
Definition demo_sum_x : Aggref :=
  demo_aggref 2108%N INT8OID [INT4OID]
    (list_make1 (Some (makeTargetEntry (Some demo_x) 1 None false))) false.

(** [sum(DISTINCT x)] and [sum(x ORDER BY x)].  The cells of [aggdistinct]
    and [aggorder] are SortGroupClause nodes, into which the rewriter never
    looks; a constant stands for each. *)
Definition demo_sum_distinct_x : Aggref :=
  {| aggfnoid := aggfnoid demo_sum_x; aggtype := aggtype demo_sum_x;
     aggcollid := aggcollid demo_sum_x; inputcollid := inputcollid demo_sum_x;
     aggtranstype := aggtranstype demo_sum_x; aggargtypes := aggargtypes demo_sum_x;
     aggdirectargs := None; args := args demo_sum_x; aggorder := None;
     aggdistinct := Some (T_List [Some (T_Const INT4OID (-1) InvalidOid 1 false)]);
     aggfilter := None; aggstar := false; aggvariadic := false;
     aggkind := AGGKIND_NORMAL; agglevelsup := 0; aggsplit := AGGSPLIT_SIMPLE;
     aggno := 0; aggtransno := 0; location := 10 |}.

Definition demo_sum_ordered_x : Aggref :=
  {| aggfnoid := aggfnoid demo_sum_x; aggtype := aggtype demo_sum_x;
     aggcollid := aggcollid demo_sum_x; inputcollid := inputcollid demo_sum_x;
     aggtranstype := aggtranstype demo_sum_x; aggargtypes := aggargtypes demo_sum_x;
     aggdirectargs := None; args := args demo_sum_x;
     aggorder := Some (T_List [Some (T_Const INT4OID (-1) InvalidOid 1 false)]);
     aggdistinct := None;
     aggfilter := None; aggstar := false; aggvariadic := false;
     aggkind := AGGKIND_NORMAL; agglevelsup := 0; aggsplit := AGGSPLIT_SIMPLE;
     aggno := 0; aggtransno := 0; location := 10 |}.

(** [vsum(VARIADIC xs)] over a column [xs] of type int4[]: a call of the
    user's variadic aggregate, with the variadic flag that the parser sets
    for it. *)
Definition demo_xs : Node := T_Var 1 3 1007%N (-1) InvalidOid 0.
Definition demo_vsum_variadic : Aggref :=
  {| aggfnoid := 16401%N; aggtype := INT8OID; aggcollid := InvalidOid;
     inputcollid := InvalidOid; aggtranstype := InvalidOid;
     aggargtypes := [1007%N]; aggdirectargs := None;
     args := list_make1 (Some (makeTargetEntry (Some demo_xs) 1 None false));
     aggorder := None; aggdistinct := None; aggfilter := None;
     aggstar := false; aggvariadic := true; aggkind := AGGKIND_NORMAL;
     agglevelsup := 0; aggsplit := AGGSPLIT_SIMPLE; aggno := 0; aggtransno := 0;
     location := 10 |}.

(** [agg > 10], as the one cell of an implicit-AND list. *)
Definition demo_having (agg : Aggref) : option Node :=
  Some (T_List
    [Some (T_OpExpr 419%N 477%N BOOLOID false InvalidOid InvalidOid
             (Some (T_List [Some (T_Aggref agg);
                            Some (T_Const INT4OID (-1) InvalidOid 10 false)])))]).

Definition demo_zero_cost : QualCost float :=
  {| startup := 0%float; per_tuple := 0%float |}.

Definition demo_query (having : option Node) : Query :=
  {| groupClause := [mkSortGroupClause 1 96%N 97%N true];
     groupingSets := None;
     havingQual := having |}.

Definition demo_root (having : option Node) : PlannerInfo float :=
  {| parse := demo_query having;
     upper_target_group_agg :=
       {| exprs := [demo_k; T_Aggref demo_count_star];
          sortgrouprefs := [1; 0];
          cost := demo_zero_cost; width := 12 |} |}.

Definition demo_pp_info : pgstromPlanInfo float :=
  {| pp_task_kind := 0; final_cost := 4%float;
     kvars_depth := []; kvars_resno := [];
     groupby_keys := []; groupby_actions := [] |}.

Definition demo_task_kind : Z := 1073741825.

Definition demo_input_path (parallel : bool) : Path float :=
  {| pathtype := T_CustomScan; parent := 1%N;
     pathtarget := {| exprs := [demo_k; demo_x]; sortgrouprefs := [0; 0];
                      cost := demo_zero_cost; width := 8 |};
     param_info := None;
     parallel_safe := true; parallel_aware := parallel;
     parallel_workers := if parallel then 2 else 0;
     rows := 1000%float; startup_cost := 10%float; total_cost := 150%float;
     pathkeys := [];
     custom_paths := []; custom_private := [demo_pp_info]; methods := Some 7%N |}.

Definition demo_con (having : option Node)
  : xpugroupby_build_path_context float :=
  {| device_executable := true;
     root := demo_root having;
     group_rel := 2%N;
     num_groups := 20%float;
     input_path := demo_input_path false;
     target_upper := upper_target_group_agg (demo_root having);
     target_partial := create_empty_pathtarget;
     target_final := create_empty_pathtarget;
     final_clause_costs := {| transCost := demo_zero_cost; finalCost := demo_zero_cost;
                              transitionSpace := 0 |};
     pp_info := demo_pp_info;
     input_rels_tlist := [];
     inner_paths_list := [];
     con_havingQual := None;
     task_kind := demo_task_kind;
     custom_path_methods := Some 7%N |}.

Definition demo_make_alternative_aggref (assert_checking : bool) :=
  make_alternative_aggref demo_sc demo_get_type_name assert_checking
    demo_xpu_expression demo_add_function_cost.

Definition demo_build_path_target (assert_checking : bool) :=
  xpugroupby_build_path_target demo_sc demo_get_type_name assert_checking
    demo_xpu_expression demo_devtype_lookup demo_equal_func
    demo_add_function_cost demo_pathtarget_cost_width.

(** The planner services of the demonstration: one GPU, a scan path that is
    parallel when asked for, twenty groups, and a path list that keeps every
    path it is offered. *)
Definition demo_create_agg_path (root : PlannerInfo float) (rel : RelOptInfo)
  (subpath : Path float) (target : PathTarget float) (strategy : AggStrategy)
  (split : AggSplit) (groupcl : list SortGroupClause) (qual : option Node)
  (costs : AggClauseCosts float) (numGroups : float) : Path float :=
  {| pathtype := T_Agg; parent := rel; pathtarget := target; param_info := None;
     parallel_safe := false; parallel_aware := false; parallel_workers := 0;
     rows := numGroups;
     startup_cost := total_cost subpath;
     total_cost := (total_cost subpath + numGroups)%float;
     pathkeys := []; custom_paths := []; custom_private := []; methods := None |}.

Definition demo_create_gather_path (root : PlannerInfo float) (rel : RelOptInfo)
  (subpath : Path float) (target : PathTarget float) (required_outer : option N)
  (total_rows : float) : Path float :=
  {| pathtype := T_Gather; parent := rel; pathtarget := target; param_info := None;
     parallel_safe := false; parallel_aware := false; parallel_workers := 0;
     rows := total_rows;
     startup_cost := (startup_cost subpath + 1000)%float;
     total_cost := (total_cost subpath + 1000)%float;
     pathkeys := []; custom_paths := []; custom_private := []; methods := None |}.

Definition demo_extract_input_path_params (input : Path float)
  : pgstromPlanInfo float * list N * list N :=
  (hd demo_pp_info (custom_private input), [], custom_paths input).

Definition demo_add_custompath :=
  xpupreagg_add_custompath (D := float) demo_sc demo_get_type_name true
    demo_xpu_expression demo_devtype_lookup demo_equal_func
    demo_add_function_cost demo_pathtarget_cost_width
    3 1 2
    0.0001220703125%float 0.0078125%float 0.0625%float
    0.00048828125%float 0.015625%float 0.25%float
    demo_create_agg_path demo_create_gather_path
    (fun _ _ _ numGroups => (64 * numGroups)%float)
    4096
    (fun paths new_path => (paths ++ [new_path])%list)
    demo_extract_input_path_params
    (fun _ => true)
    (fun _ _ parallel _ _ _ => Some (demo_input_path parallel))
    (fun _ _ _ _ => None)
    (fun _ _ => [demo_k])
    (fun _ _ _ => 20%float).

(** One turn of the loop of the entry point, on the same planner. *)
Definition demo_attempt :=
  xpupreagg_attempt (D := float) demo_sc demo_get_type_name true
    demo_xpu_expression demo_devtype_lookup demo_equal_func
    demo_add_function_cost demo_pathtarget_cost_width
    3 1 2
    0.0001220703125%float 0.0078125%float 0.0625%float
    0.00048828125%float 0.015625%float 0.25%float
    demo_create_agg_path demo_create_gather_path
    (fun _ _ _ numGroups => (64 * numGroups)%float)
    4096
    (fun paths new_path => (paths ++ [new_path])%list)
    demo_extract_input_path_params
    (fun _ => true)
    (fun _ _ parallel _ _ _ => Some (demo_input_path parallel))
    (fun _ _ _ _ => None)
    (fun _ _ => [demo_k])
    (fun _ _ _ => 20%float).

Definition demo_add_custompath_for_input :=
  __xpupreagg_add_custompath (D := float) demo_sc demo_get_type_name true
    demo_xpu_expression demo_devtype_lookup demo_equal_func
    demo_add_function_cost demo_pathtarget_cost_width
    3 1 2
    0.0001220703125%float 0.0078125%float 0.0625%float
    0.00048828125%float 0.015625%float 0.25%float
    demo_create_agg_path demo_create_gather_path
    (fun _ _ _ numGroups => (64 * numGroups)%float)
    4096
    (fun paths new_path => (paths ++ [new_path])%list)
    demo_extract_input_path_params.

(** [SELECT k, sum(DISTINCT x) FROM t GROUP BY k] *)
Definition demo_root_select_distinct : PlannerInfo float :=
  {| parse := demo_query None;
     upper_target_group_agg :=
       {| exprs := [demo_k; T_Aggref demo_sum_distinct_x];
          sortgrouprefs := [1; 0];
          cost := demo_zero_cost; width := 12 |} |}.

Definition demo_prepend_partial_groupby_custompath :=
  prepend_partial_groupby_custompath (D := float) 3 1 2
    0.0001220703125%float 0.0078125%float 0.0625%float
    0.00048828125%float 0.015625%float 0.25%float.

(** The cached state after [sum(numeric)] has been resolved. *)
Definition demo_sum_numeric_entry : aggfunc_catalog_entry :=
  {| aggfn_oid := 2114%N; final_func_oid := 90005%N; partial_func_oid := 90004%N;
     partial_func_rettype := FLOAT8OID; partial_func_nargs := 1;
     partial_func_action := KAGG_ACTION__PSUM_FP;
     numeric_aware := true; is_valid_entry := true |}.

Definition demo_numeric_state : pg_state float :=
  {| aggfunc_catalog_htable := Some {[ 2114%N := demo_sum_numeric_entry ]};
     pgstrom_enable_numeric_aggfuncs := true;
     pathlist := ∅ |}.

(** A parse tree with grouping sets. *)
Definition demo_root_grouping_sets : PlannerInfo float :=
  {| parse := {| groupClause := groupClause (demo_query None);
                 groupingSets := Some (T_List [Some demo_k]);
                 havingQual := None |};
     upper_target_group_agg := upper_target_group_agg (demo_root None) |}.

(** The claimed layout of the partial target list, read off the action list
    that runs in lock-step with it: once a grouping-key column
    ([KAGG_ACTION__VREF]) has appeared, only grouping-key columns follow. *)
Definition is_grouping_key_action (action : kagg_action) : bool :=
  match action with
  | KAGG_ACTION__VREF => true
  | _ => false
  end.

Fixpoint keys_follow_partial_aggregates (actions : list kagg_action) : bool :=
  match actions with
  | [] => true
  | action :: rest =>
      if is_grouping_key_action action
      then forallb is_grouping_key_action rest
      else keys_follow_partial_aggregates rest
  end.

(** The context with another row estimate of the input path, everything
    else as it was. *)
Definition with_input_rows {D : Type} (input_rows : D)
  (con : xpugroupby_build_path_context D) : xpugroupby_build_path_context D :=
  let input := input_path con in
  {| device_executable := device_executable con; root := root con;
     group_rel := group_rel con; num_groups := num_groups con;
     input_path :=
       {| pathtype := pathtype input; parent := parent input;
          pathtarget := pathtarget input; param_info := param_info input;
          parallel_safe := parallel_safe input;
          parallel_aware := parallel_aware input;
          parallel_workers := parallel_workers input;
          rows := input_rows;
          startup_cost := startup_cost input; total_cost := total_cost input;
          pathkeys := pathkeys input; custom_paths := custom_paths input;
          custom_private := custom_private input; methods := methods input |};
     target_upper := target_upper con; target_partial := target_partial con;
     target_final := target_final con; final_clause_costs := final_clause_costs con;
     pp_info := pp_info con; input_rels_tlist := input_rels_tlist con;
     inner_paths_list := inner_paths_list con; con_havingQual := con_havingQual con;
     task_kind := task_kind con; custom_path_methods := custom_path_methods con |}.

(** A context for the cost model: an input path of cost 10..150, one
    grouping key, and a partial target list of the given per-tuple cost. *)
Definition demo_cost_context (per_tuple_cost : float)
  : xpugroupby_build_path_context float :=
  let target :=
    {| exprs := []; sortgrouprefs := [];
       cost := {| startup := 3%float; per_tuple := per_tuple_cost |}; width := 0 |} in
  let pp :=
    {| pp_task_kind := 0; final_cost := 4%float; kvars_depth := []; kvars_resno := [];
       groupby_keys := []; groupby_actions := [] |} in
  {| device_executable := true;
     root := {| parse := {| groupClause := [mkSortGroupClause 1 96%N 97%N true];
                            groupingSets := None; havingQual := None |};
                upper_target_group_agg := target |};
     group_rel := 2%N;
     num_groups := 20%float;
     input_path :=
       {| pathtype := T_CustomScan; parent := 1%N; pathtarget := target;
          param_info := None; parallel_safe := true; parallel_aware := true;
          parallel_workers := 2;
          rows := 0%float; startup_cost := 10%float; total_cost := 150%float;
          pathkeys := []; custom_paths := []; custom_private := [pp];
          methods := None |};
     target_upper := target; target_partial := target; target_final := target;
     final_clause_costs :=
       {| transCost := demo_zero_cost; finalCost := demo_zero_cost;
          transitionSpace := 0 |};
     pp_info := pp;
     input_rels_tlist := []; inner_paths_list := [];
     con_havingQual := None;
     task_kind := demo_task_kind;
     custom_path_methods := None |}.

(** The assembler with the operator cost of the GPU configured as zero, and
    with it the operator ratio. *)
Definition demo_free_operator_prepend :=
  prepend_partial_groupby_custompath (D := float) 3 1 2
    0%float 0.0078125%float 0%float
    0.00048828125%float 0.015625%float 0.25%float.

(** * Rounding of IEEE doubles

    [SpecFloat] gives the operations of the primitive doubles as functions
    on sign, mantissa and exponent.  What the cost model needs of them is
    that nothing but NaN breaks the order: a product by a non-negative
    factor and a sum are monotone in their arguments as long as the results
    are numbers.  The proofs take each double to its value times a power of
    two, an integer, and show that the rounding of [binary_round_aux] is a
    monotone function of that integer. *)


















Definition is_number (x : spec_float) : bool :=
  match x with S754_nan => false | _ => true end.

















(** ** Valid doubles and their order *)







Lemma SFleb_numbers (x y : spec_float) :
  SFleb x y = true -> is_number x = true /\ is_number y = true.
Proof. destruct x, y; try discriminate; split; reflexivity. Qed.









(** ** Multiplication *)




(** ** Addition *)





(** ** Monotonicity of the rounded operations *)








(** ** The same on the primitive doubles *)

Lemma is_nan_spec (x : float) :
  PrimFloat.is_nan x = negb (is_number (Prim2SF x)).
Proof.
  unfold PrimFloat.is_nan. rewrite FloatAxioms.eqb_spec. unfold SFeqb.
  destruct (Prim2SF x) as [s | [|] | | [|] m e]; cbn [SFcompare is_number negb];
    try reflexivity;
    rewrite Z.compare_refl, Pos.compare_cont_refl; reflexivity.
Qed.

Lemma number_spec (x : float) :
  PrimFloat.is_nan x = false <-> is_number (Prim2SF x) = true.
Proof. rewrite is_nan_spec. destruct (is_number (Prim2SF x)); cbn; intuition congruence. Qed.

Lemma leb_number (x y : float) :
  PrimFloat.leb x y = true ->
  PrimFloat.is_nan x = false /\ PrimFloat.is_nan y = false.
Proof.
  rewrite FloatAxioms.leb_spec, !number_spec. apply SFleb_numbers.
Qed.










(** * Properties of the cost model on IEEE doubles *)




(** * The code on the demonstration catalog *)

Example resolver_resolves_count_star :
  fst (demo_lookup 2803%N demo_state)
  = Ret (Some {| aggfn_oid := 2803%N; final_func_oid := 90003%N;
                 partial_func_oid := 90001%N; partial_func_rettype := INT8OID;
                 partial_func_nargs := 0;
                 partial_func_action := KAGG_ACTION__NROWS_ANY;
                 numeric_aware := false; is_valid_entry := true |}).
Proof. vm_compute. reflexivity. Qed.

Example resolver_caches_unsupported_aggregate :
  fst (demo_lookup 3538%N demo_state) = Ret None
  /\ cached (snd (demo_lookup 3538%N demo_state)) 3538%N
     = Some (set_is_valid_entry false (fresh_entry 3538%N)).
Proof. split; vm_compute; reflexivity. Qed.

Example resolver_reaches_the_numeric_state :
  demo_lookup 2114%N demo_state = (Ret (Some demo_sum_numeric_entry), demo_numeric_state).
Proof. vm_compute. reflexivity. Qed.

Example partial_path_cost_on_doubles :
  exists path,
    demo_prepend_partial_groupby_custompath (demo_con None) = Ret path
    /\ startup_cost path = 10.1220703125%float
    /\ total_cost path = 146.2783203125%float
    /\ rows path = 20%float.
Proof. eexists. split; [vm_compute; reflexivity |]. repeat split. Qed.

(** The same comparison run on IEEE doubles, at one input. *)
Example partial_path_cost_grows_on_doubles :
  exists path1 path2,
    demo_prepend_partial_groupby_custompath
      (with_input_rows 1000%float (demo_con None)) = Ret path1
    /\ demo_prepend_partial_groupby_custompath
         (with_input_rows 2000%float (demo_con None)) = Ret path2
    /\ PrimFloat.leb (startup_cost path1) (startup_cost path2) = true
    /\ PrimFloat.leb (total_cost path1) (total_cost path2) = true.
Proof.
  eexists _, _. split; [vm_compute; reflexivity |].
  split; [vm_compute; reflexivity |].
  split; vm_compute; reflexivity.
Qed.

(** C8, as it is claimed, fails on doubles.  With the operator cost of the
    GPU configured as zero, and so its operator ratio, and a per-tuple cost
    of [2 ^ 100], every input is finite and none is negative; at the row
    estimate [2 ^ 1000] the product of per-tuple cost and rows overflows to
    infinity, and infinity times the ratio zero is NaN.  Neither cost of the
    larger input compares greater than or equal to that of the smaller. *)
Lemma cost_of_overflowing_row_estimate_is_not_ordered :
  exists path1 path2,
    PrimFloat.leb 1000 0x1p1000 = true
    /\ PrimFloat.leb 0 (per_tuple (cost (target_partial (demo_cost_context 0x1p100)))) = true
    /\ demo_free_operator_prepend
         (with_input_rows 1000%float (demo_cost_context 0x1p100%float)) = Ret path1
    /\ demo_free_operator_prepend
         (with_input_rows 0x1p1000%float (demo_cost_context 0x1p100%float)) = Ret path2
    /\ PrimFloat.is_nan (startup_cost path1) = false
    /\ PrimFloat.is_nan (total_cost path1) = false
    /\ PrimFloat.is_nan (startup_cost path2) = true
    /\ PrimFloat.is_nan (total_cost path2) = true
    /\ PrimFloat.leb (startup_cost path1) (startup_cost path2) = false
    /\ PrimFloat.leb (total_cost path1) (total_cost path2) = false.
Proof.
  eexists _, _.
  split; [vm_compute; reflexivity |].
  split; [vm_compute; reflexivity |].
  split; [vm_compute; reflexivity |].
  split; [vm_compute; reflexivity |].
  repeat split; vm_compute; reflexivity.
Qed.

(** C1, at a query the code accepts:
    [SELECT k, count( * ) FROM t GROUP BY k HAVING sum(x) > 10].
    Target building succeeds in either build, and the partial target list
    is [nrows()], then the grouping key [k], then [psum(x::int8)]: the
    partial aggregate of the aggregate that occurs only under HAVING is
    appended after the grouping key.  The action list runs in lock-step and
    shows the same order. *)
Theorem having_only_aggregate_lands_behind_the_grouping_key :
  forall assert_checking : bool,
  exists con' st',
    demo_build_path_target assert_checking (demo_con (demo_having demo_sum_x))
                           demo_state
    = (Ret (true, con'), st')
    /\ exprs (target_partial con')
       = [ makeFuncExpr 90001%N INT8OID None InvalidOid InvalidOid
                        COERCE_EXPLICIT_CALL;
           demo_k;
           makeFuncExpr 90002%N INT8OID
             (list_make1
                (Some (makeFuncExpr 481%N INT8OID (list_make1 (Some demo_x))
                                    InvalidOid InvalidOid COERCE_IMPLICIT_CAST)))
             InvalidOid InvalidOid COERCE_EXPLICIT_CALL ]
    /\ groupby_actions (pp_info con')
       = [KAGG_ACTION__NROWS_ANY; KAGG_ACTION__VREF; KAGG_ACTION__PSUM_INT]
    /\ groupby_keys (pp_info con') = [demo_k]
    /\ keys_follow_partial_aggregates (groupby_actions (pp_info con')) = false.
Proof.
  intros [|]; eexists _, _;
    (split; [vm_compute; reflexivity | repeat split]).
Qed.

(** C3, at a query the code accepts:
    [SELECT k, count( * ) FROM t GROUP BY k HAVING sum(DISTINCT x) > 10].
    The aggregate under HAVING is declined by the rewriter, yet target
    building returns true: the rewritten predicate keeps a null pointer where
    the aggregate was, and the flag that records the failure is never read.
    The entry point then offers an aggregation path to the grouping
    relation. *)
Theorem having_rewrite_failure_is_not_propagated :
  let con := demo_con (demo_having demo_sum_distinct_x) in
  fst (demo_make_alternative_aggref true con demo_sum_distinct_x demo_state)
  = Ret (None, con)
  /\ (exists con' st',
         demo_build_path_target true con demo_state = (Ret (true, con'), st')
         /\ con_havingQual con'
            = Some (T_List
                [Some (T_OpExpr 419%N 477%N BOOLOID false InvalidOid InvalidOid
                         (Some (T_List
                            [None;
                             Some (T_Const INT4OID (-1) InvalidOid 10 false)])))])
         /\ device_executable con' = false)
  /\ (exists path st',
         demo_add_custompath (demo_root (demo_having demo_sum_distinct_x))
                             1%N 2%N (mkGroupPathExtraData None) demo_task_kind
                             (Some 7%N) demo_state
         = (Ret tt, st')
         /\ pathlist st' !! 2%N = Some [path]
         /\ pathtype path = T_Agg).
Proof.
  cbv zeta. split; [vm_compute; reflexivity |]. split.
  - eexists _, _. split; [vm_compute; reflexivity | repeat split].
  - eexists _, _. split; [vm_compute; reflexivity | repeat split].
Qed.

(** The select list [k, agg] of a query grouped by [k]. *)
Definition demo_root_select (agg : Aggref) : PlannerInfo float :=
  {| parse := demo_query None;
     upper_target_group_agg :=
       {| exprs := [demo_k; T_Aggref agg];
          sortgrouprefs := [1; 0];
          cost := demo_zero_cost; width := 12 |} |}.

(** C5, at a query the code accepts:
    [SELECT k, count( * ) FROM t GROUP BY k HAVING sum(x ORDER BY x) > 10].
    The rewriter declines the aggregate call without an error, in either
    build.  As a column of the select list the call stops the entry point:
    it returns with the state as it was.  Under HAVING the same call stops
    nothing: target building returns true, with a null pointer where the
    aggregate was, and the entry point offers an aggregation path to the
    grouping relation. *)
Theorem ordered_aggregate_under_having_still_gets_a_path :
  (forall assert_checking : bool,
      demo_make_alternative_aggref assert_checking (demo_con None)
                                   demo_sum_ordered_x demo_state
      = (Ret (None, demo_con None), demo_state))
  /\ demo_add_custompath (demo_root_select demo_sum_ordered_x) 1%N 2%N
                         (mkGroupPathExtraData None) demo_task_kind (Some 7%N)
                         demo_state
     = (Ret tt, demo_state)
  /\ (exists con' st',
         demo_build_path_target true (demo_con (demo_having demo_sum_ordered_x))
                                demo_state
         = (Ret (true, con'), st')
         /\ con_havingQual con'
            = Some (T_List
                [Some (T_OpExpr 419%N 477%N BOOLOID false InvalidOid InvalidOid
                         (Some (T_List
                            [None;
                             Some (T_Const INT4OID (-1) InvalidOid 10 false)])))]))
  /\ (exists path st',
         demo_add_custompath (demo_root (demo_having demo_sum_ordered_x))
                             1%N 2%N (mkGroupPathExtraData None) demo_task_kind
                             (Some 7%N) demo_state
         = (Ret tt, st')
         /\ pathlist st' !! 2%N = Some [path]
         /\ pathtype path = T_Agg).
Proof.
  split; [intros [|]; vm_compute; reflexivity |].
  split; [vm_compute; reflexivity |].
  split; eexists _, _; (split; [vm_compute; reflexivity | repeat split]).
Qed.

(** C6, at a query the code accepts:
    [SELECT k, count( * ) FROM t GROUP BY k HAVING vsum(VARIADIC xs) > 10].
    The rewriter declines the variadic call in either build: the resolver
    has no entry for a function outside pg_catalog, and the sanity check on
    the variadic flag is not reached.  As a column of the select list the
    call keeps the entry point from adding a path.  Under HAVING the failure
    is not propagated: target building returns true, with a null pointer
    where the aggregate was, and the entry point offers an aggregation path
    to the grouping relation. *)
Theorem variadic_aggregate_under_having_still_gets_a_path :
  aggvariadic demo_vsum_variadic = true
  /\ (forall assert_checking : bool,
         demo_make_alternative_aggref assert_checking (demo_con None)
                                      demo_vsum_variadic demo_state
         = (Ret (None, demo_con None), snd (demo_lookup 16401%N demo_state)))
  /\ pathlist (snd (demo_add_custompath (demo_root_select demo_vsum_variadic) 1%N 2%N
                       (mkGroupPathExtraData None) demo_task_kind (Some 7%N)
                       demo_state))
     = pathlist demo_state
  /\ (exists con' st',
         demo_build_path_target true (demo_con (demo_having demo_vsum_variadic))
                                demo_state
         = (Ret (true, con'), st')
         /\ con_havingQual con'
            = Some (T_List
                [Some (T_OpExpr 419%N 477%N BOOLOID false InvalidOid InvalidOid
                         (Some (T_List
                            [None;
                             Some (T_Const INT4OID (-1) InvalidOid 10 false)])))]))
  /\ (exists path st',
         demo_add_custompath (demo_root (demo_having demo_vsum_variadic))
                             1%N 2%N (mkGroupPathExtraData None) demo_task_kind
                             (Some 7%N) demo_state
         = (Ret tt, st')
         /\ pathlist st' !! 2%N = Some [path]
         /\ pathtype path = T_Agg).
Proof.
  split; [reflexivity |].
  split; [intros [|]; vm_compute; reflexivity |].
  split; [vm_compute; reflexivity |].
  split; eexists _, _; (split; [vm_compute; reflexivity | repeat split]).
Qed.

(** The context that [__xpupreagg_add_custompath] sets up in the second
    turn of the loop of the entry point, for the query
    [SELECT k, count( * ) FROM t GROUP BY k] over the parallel scan path:
    its [num_groups] is the [(try_parallel > 0)] of the caller. *)
Definition demo_second_turn_context : xpugroupby_build_path_context float :=
  {| device_executable := true;
     root := demo_root None;
     group_rel := 2%N;
     num_groups := 1%float;
     input_path := demo_input_path true;
     target_upper := upper_target_group_agg (demo_root None);
     target_partial := create_empty_pathtarget;
     target_final := create_empty_pathtarget;
     final_clause_costs := {| transCost := demo_zero_cost; finalCost := demo_zero_cost;
                              transitionSpace := 0 |};
     pp_info := demo_pp_info;
     input_rels_tlist := [];
     inner_paths_list := [];
     con_havingQual := None;
     task_kind := demo_task_kind;
     custom_path_methods := Some 7%N |}.

(** C7, at a query the code accepts:
    [SELECT k, count( * ) FROM t GROUP BY k], for which the planner estimates
    20 groups and has a parallel scan path with two workers.  The second
    turn of the loop of the entry point is a run of
    [__xpupreagg_add_custompath] with [try_parallel] true and [num_groups]
    1.0.  The partial path it builds has the startup cost of the formula,
    from the GPU's operator cost 2^-13 and operator ratio 2^-4; its row
    estimate is 1 and not 20, and the final cost in its total cost is the
    GPU's tuple cost 2^-7 for one group, not for 20.  The aggregation path
    offered to the grouping relation is built over it, for one group. *)
Theorem group_estimate_does_not_reach_the_partial_path :
  let root := demo_root None in
  let extra := mkGroupPathExtraData None in
  demo_attempt root 1%N 2%N extra demo_task_kind (Some 7%N) 1 demo_state
  = demo_add_custompath_for_input root (demo_input_path true) 2%N extra
      true 1%float demo_task_kind (Some 7%N) demo_state
  /\ exists built st1 part_path,
       demo_build_path_target true demo_second_turn_context demo_state
       = (Ret (true, built), st1)
       /\ demo_prepend_partial_groupby_custompath
            (set_pp_info (set_pp_task_kind demo_task_kind (pp_info built)) built)
          = Ret part_path
       /\ rows part_path = 1%float
       /\ PrimFloat.eqb (rows part_path) 20%float = false
       /\ startup_cost part_path
          = (10 + 0.0001220703125 * 1 * 1000
             + (per_tuple (cost (target_partial built)) * 1000
                + startup (cost (target_partial built))) * 0.0625)%float
       /\ total_cost part_path
          = (startup_cost part_path + (150 - 10 - 4)
             + 0.0078125 * 1 * (0.5 + 2))%float
       /\ PrimFloat.eqb (total_cost part_path)
            (startup_cost part_path + (150 - 10 - 4)
             + 0.0078125 * 20 * (0.5 + 2))%float
          = false
       /\ pathlist (snd (demo_attempt root 1%N 2%N extra demo_task_kind (Some 7%N) 1
                                      demo_state))
          = {[ 2%N :=
                 [demo_create_agg_path root 2%N
                    (demo_create_gather_path root 2%N part_path
                       (target_partial built) None (1 * 2)%float)
                    (target_final built) AGG_HASHED AGGSPLIT_SIMPLE
                    (groupClause (parse root)) None
                    (final_clause_costs built) 1%float] ]}.
Proof.
  cbv zeta. split; [reflexivity |].
  eexists _, _, _. split; [vm_compute; reflexivity |].
  split; [vm_compute; reflexivity |].
  repeat split; vm_compute; reflexivity.
Qed.

(** * Instances of the theorems that carry hypotheses *)

Lemma resolver_checks_count_star :
  match demo_lookup 2803%N demo_state with
  | (Ret r, st') =>
      exists pf_oid pf ff_oid ff,
        partial_func_conforms demo_sc
          (mk_cat "count()" "s:sum(int8)" "s:nrows()" KAGG_ACTION__NROWS_ANY false)
          pf_oid pf
        /\ final_func_conforms demo_sc
             (mk_cat "count()" "s:sum(int8)" "s:nrows()" KAGG_ACTION__NROWS_ANY false)
             INT8OID pf ff_oid ff
        /\ cached st' 2803%N
           = Some (resolved_entry 2803%N
                     (mk_cat "count()" "s:sum(int8)" "s:nrows()"
                             KAGG_ACTION__NROWS_ANY false)
                     pf_oid pf ff_oid)
        /\ r = Some (resolved_entry 2803%N
                       (mk_cat "count()" "s:sum(int8)" "s:nrows()"
                               KAGG_ACTION__NROWS_ANY false)
                       pf_oid pf ff_oid)
  | (Elog _, _) =>
      ~ (exists pf_oid pf ff_oid ff,
            partial_func_conforms demo_sc
              (mk_cat "count()" "s:sum(int8)" "s:nrows()" KAGG_ACTION__NROWS_ANY false)
              pf_oid pf
            /\ final_func_conforms demo_sc
                 (mk_cat "count()" "s:sum(int8)" "s:nrows()"
                         KAGG_ACTION__NROWS_ANY false)
                 INT8OID pf ff_oid ff)
  | (Trap _, _) | (Undef, _) => False
  end.
Proof.
  apply (resolver_checks_partial_and_final_functions demo_sc demo_get_type_name
           2803%N (mkProc "count" PG_CATALOG_NAMESPACE INT8OID []) "count()"
           (mk_cat "count()" "s:sum(int8)" "s:nrows()" KAGG_ACTION__NROWS_ANY false)
           demo_state).
  - reflexivity.
  - reflexivity.
  - reflexivity.
  - vm_compute. discriminate.
  - reflexivity.
  - reflexivity.
Defined.

Lemma failed_population_of_min_int4 :
  cached (snd (demo_lookup 2132%N demo_state)) 2132%N = None
  /\ (forall k, cached (snd (demo_lookup 2132%N demo_state)) k = cached demo_state k)
  /\ pgstrom_enable_numeric_aggfuncs (snd (demo_lookup 2132%N demo_state))
     = pgstrom_enable_numeric_aggfuncs demo_state
  /\ pathlist (snd (demo_lookup 2132%N demo_state)) = pathlist demo_state
  /\ fst (hash_search_ENTER 2132%N (snd (demo_lookup 2132%N demo_state)))
     = Ret false.
Proof.
  apply (failed_population_removes_the_entry demo_sc demo_get_type_name
           2132%N demo_state (snd (demo_lookup 2132%N demo_state))
           "Catalog curruption? partial function mismatch").
  vm_compute. reflexivity.
Defined.

Lemma numeric_toggle_on_cached_sum_numeric :
  (demo_lookup 2114%N (set_pgstrom_enable_numeric_aggfuncs false demo_numeric_state)
   = (Ret None, set_pgstrom_enable_numeric_aggfuncs false demo_numeric_state)
   /\ aggfunc_catalog_htable
        (set_pgstrom_enable_numeric_aggfuncs false demo_numeric_state)
      = Some {[ 2114%N := demo_sum_numeric_entry ]})
  /\ (demo_lookup 2114%N (set_pgstrom_enable_numeric_aggfuncs true demo_numeric_state)
      = (Ret (Some demo_sum_numeric_entry),
         set_pgstrom_enable_numeric_aggfuncs true demo_numeric_state)
      /\ aggfunc_catalog_htable
           (set_pgstrom_enable_numeric_aggfuncs true demo_numeric_state)
         = Some {[ 2114%N := demo_sum_numeric_entry ]}).
Proof.
  split.
  - apply (numeric_toggle_is_read_at_lookup demo_sc demo_get_type_name 2114%N
             {[ 2114%N := demo_sum_numeric_entry ]} demo_sum_numeric_entry
             demo_numeric_state false); reflexivity.
  - apply (numeric_toggle_is_read_at_lookup demo_sc demo_get_type_name 2114%N
             {[ 2114%N := demo_sum_numeric_entry ]} demo_sum_numeric_entry
             demo_numeric_state true); reflexivity.
Defined.

Lemma distinct_aggregate_declines_rewrite :
  demo_make_alternative_aggref true (demo_con None) demo_sum_distinct_x demo_state
  = (Ret (None, demo_con None), demo_state)
  /\ replace_expression_by_altfunc demo_sc demo_get_type_name true
       demo_xpu_expression demo_add_function_cost
       (Some (T_Aggref demo_sum_distinct_x)) (demo_con None) demo_state
     = (Ret (None, set_device_executable false (demo_con None)), demo_state)
  /\ pathlist
       (snd (demo_add_custompath_for_input demo_root_select_distinct
               (demo_input_path false) 2%N (mkGroupPathExtraData None) false
               20%float demo_task_kind (Some 7%N) demo_state))
     = pathlist demo_state.
Proof.
  destruct (modified_aggregate_declines_rewrite demo_sc demo_get_type_name true
              demo_xpu_expression demo_devtype_lookup demo_equal_func
              demo_add_function_cost demo_pathtarget_cost_width
              3 1 2
              0.0001220703125%float 0.0078125%float 0.0625%float
              0.00048828125%float 0.015625%float 0.25%float
              demo_create_agg_path demo_create_gather_path
              (fun _ _ _ numGroups => (64 * numGroups)%float)
              4096
              (fun paths new_path => (paths ++ [new_path])%list)
              demo_extract_input_path_params
              (demo_con None) demo_sum_distinct_x demo_state
              (or_intror (or_introl eq_refl)))
    as (Hmake & Hreplace & _ & Hentry).
  split; [exact Hmake |]. split; [exact Hreplace |].
  apply (Hentry demo_root_select_distinct (demo_input_path false) 2%N
           (mkGroupPathExtraData None) false 20%float demo_task_kind (Some 7%N)
           [demo_k] []
           (fst (demo_add_custompath_for_input demo_root_select_distinct
                   (demo_input_path false) 2%N (mkGroupPathExtraData None) false
                   20%float demo_task_kind (Some 7%N) demo_state))).
  - reflexivity.
  - reflexivity.
  - apply surjective_pairing.
Defined.


Lemma grouping_sets_bail_out :
  demo_add_custompath demo_root_grouping_sets 1%N 2%N (mkGroupPathExtraData None)
                      demo_task_kind (Some 7%N) demo_state
  = (Ret tt, demo_state).
Proof.
  unfold demo_add_custompath.
  apply unsupported_grouping_bails_out.
  left. reflexivity.
Defined.

Lemma layout_of_the_having_query :
  exists con' st',
    demo_build_path_target true (demo_con (demo_having demo_sum_x)) demo_state
    = (Ret (true, con'), st')
    /\ exists aggs acts having_aggs having_acts,
         exprs (target_partial con')
         = (exprs (target_partial (demo_con (demo_having demo_sum_x)))
            ++ aggs ++ [demo_k] ++ having_aggs)%list
         /\ groupby_actions (pp_info con')
            = (groupby_actions (pp_info (demo_con (demo_having demo_sum_x)))
               ++ acts ++ repeat KAGG_ACTION__VREF 1 ++ having_acts)%list
         /\ groupby_keys (pp_info con') = [demo_k]
         /\ appended_columns demo_sc true demo_xpu_expression
              (demo_con (demo_having demo_sum_x)) st' []
              [demo_count_star] aggs acts
         /\ Forall (fun aggref => exists column action,
                        partial_column demo_sc true demo_xpu_expression
                          (demo_con (demo_having demo_sum_x)) st' aggref
                          column action)
                   [demo_count_star]
         /\ appended_columns demo_sc true demo_xpu_expression
              (demo_con (demo_having demo_sum_x)) st'
              ([] ++ aggs ++ [demo_k])%list [demo_sum_x] having_aggs having_acts
         /\ length aggs = length acts
         /\ length having_aggs = length having_acts
         /\ same_planner_state demo_state st'.
Proof.
  eexists _, _. split; [vm_compute; reflexivity |].
  eapply (partial_target_list_layout demo_sc demo_get_type_name true
            demo_xpu_expression demo_devtype_lookup demo_equal_func
            demo_add_function_cost demo_pathtarget_cost_width
            (demo_con (demo_having demo_sum_x)) _ demo_state _).
  - reflexivity.
  - vm_compute. reflexivity.
Defined.

Lemma serial_attempt_of_the_count_query :
  pathlist (snd (demo_attempt (demo_root None) 1%N 2%N (mkGroupPathExtraData None)
                              demo_task_kind (Some 7%N) 0 demo_state))
  = pathlist demo_state.
Proof.
  apply (attempt_over_serial_input_adds_no_path demo_sc demo_get_type_name true
           demo_xpu_expression demo_devtype_lookup demo_equal_func
           demo_add_function_cost demo_pathtarget_cost_width
           3 1 2
           0.0001220703125%float 0.0078125%float 0.0625%float
           0.00048828125%float 0.015625%float 0.25%float
           demo_create_agg_path demo_create_gather_path
           (fun _ _ _ numGroups => (64 * numGroups)%float)
           4096
           (fun paths new_path => (paths ++ [new_path])%list)
           demo_extract_input_path_params
           (fun _ => true)
           (fun _ _ parallel _ _ _ => Some (demo_input_path parallel))
           (fun _ _ _ _ => None)
           (fun _ _ => [demo_k])
           (fun _ _ _ => 20%float)
           (demo_root None) 1%N 2%N (mkGroupPathExtraData None)
           demo_task_kind (Some 7%N) 0 (demo_input_path false) demo_state _
           (fst (demo_attempt (demo_root None) 1%N 2%N (mkGroupPathExtraData None)
                              demo_task_kind (Some 7%N) 0 demo_state))).
  - reflexivity.
  - reflexivity.
  - vm_compute. reflexivity.
  - apply surjective_pairing.
Defined.

Lemma count_star_looked_up_after_the_drop :
  aggfunc_catalog_lookup_by_oid demo_dropped_sc (fun _ _ => Ret None) 2803%N
    (snd (demo_lookup 2803%N demo_state))
  = (Ret (Some {| aggfn_oid := 2803%N; final_func_oid := 90003%N;
                  partial_func_oid := 90001%N; partial_func_rettype := INT8OID;
                  partial_func_nargs := 0;
                  partial_func_action := KAGG_ACTION__NROWS_ANY;
                  numeric_aware := false; is_valid_entry := true |}),
     snd (demo_lookup 2803%N demo_state)).
Proof.
  apply (second_lookup_reads_only_the_cache float demo_sc demo_dropped_sc
           demo_get_type_name (fun _ _ => Ret None) 2803%N demo_state).
  vm_compute. reflexivity.
Defined.

(** ** Instances over the demonstration catalog *)

Lemma list_eqb_N_eq (l1 l2 : list N) : list_eqb N.eqb l1 l2 = true -> l1 = l2.
Proof.
  revert l2. induction l1 as [|x l1 IH]; intros [|y l2]; cbn; try discriminate.
  - reflexivity.
  - intros H. apply andb_prop in H as [Hx Hl].
    apply N.eqb_eq in Hx. rewrite Hx, (IH _ Hl). reflexivity.
Qed.

(** The rows of the demonstration catalog are found by name under their own
    identifier. *)
Lemma demo_sc_is_coherent : coherent_syscache demo_sc.
Proof.
  intros name argtypes nsp. cbn [PROCNAMEARGSNSP PROCOID demo_sc].
  destruct (find _ demo_pg_proc) as [row|] eqn:Hfind; [| discriminate].
  intros _. apply find_some in Hfind as [Hin Hrow].
  apply andb_prop in Hrow as [Hrow _]. apply andb_prop in Hrow as [_ Hargs].
  apply list_eqb_N_eq in Hargs.
  exists (snd row). split; [| exact Hargs].
  clear Hargs. unfold demo_pg_proc in Hin. cbn [In] in Hin.
  repeat (destruct Hin as [<- | Hin]; [reflexivity |]). contradiction.
Qed.

Lemma count_star_lookup_touches_one_entry :
  exists o st',
    demo_lookup 2803%N demo_numeric_state = (o, st')
    /\ (forall k, k <> 2803%N -> cached st' k = cached demo_numeric_state k)
    /\ same_planner_state demo_numeric_state st'
    /\ (forall e, o = Ret (Some e) ->
          cached st' 2803%N = Some e
          /\ is_valid_entry e = true
          /\ (numeric_aware e = true -> pgstrom_enable_numeric_aggfuncs st' = true)).
Proof.
  eexists _, _. split; [vm_compute; reflexivity |].
  apply (lookup_touches_one_entry demo_sc demo_get_type_name 2803%N
           demo_numeric_state).
  vm_compute. reflexivity.
Defined.

Lemma count_line_fits_the_arity_checks :
  exists func_nargs type_oid,
    partfn_expectation KAGG_ACTION__NROWS_ANY = Ret (func_nargs, type_oid)
    /\ (forall pf_oid,
           __aggfunc_resolve_func_signature demo_sc "s:nrows()" = Ret pf_oid ->
           exists pf, PROCOID demo_sc pf_oid = Some pf /\ pronargs pf = func_nargs)
    /\ (forall ff_oid,
           __aggfunc_resolve_func_signature demo_sc "s:sum(int8)" = Ret ff_oid ->
           exists ff, PROCOID demo_sc ff_oid = Some ff /\ proargtypes ff = [type_oid]).
Proof.
  apply (static_catalog_fits_the_arity_checks demo_sc demo_sc_is_coherent
           eq_refl eq_refl eq_refl
           (mk_cat "count()" "s:sum(int8)" "s:nrows()" KAGG_ACTION__NROWS_ANY false)).
  left. reflexivity.
Defined.

Lemma printed_string_agg_resolves :
  sprintf_signature demo_get_type_name
    (mkProc "string_agg" PG_CATALOG_NAMESPACE 25%N [25%N; 25%N])
  = Ret "string_agg(text,text)"
  /\ __aggfunc_resolve_func_signature demo_sc "c:string_agg(text,text)" = Ret 3538%N
  /\ __aggfunc_resolve_func_signature demo_sc "s:string_agg(text,text)"
     = Elog "Catalog corruption? function was not found".
Proof.
  split; [reflexivity |].
  apply (printed_signature_resolves demo_sc demo_get_type_name
           (mkProc "string_agg" PG_CATALOG_NAMESPACE 25%N [25%N; 25%N])
           "string_agg(text,text)").
  - reflexivity.
  - intros t name Hin Hname. cbn [proargtypes In] in Hin.
    assert (Ht : t = 25%N) by (destruct Hin as [<- | [<- | []]]; reflexivity).
    subst t. vm_compute in Hname. injection Hname as <-.
    repeat split; try reflexivity. discriminate.
  - reflexivity.
Defined.

Lemma int4_argument_cast_to_int8 :
  exists casted,
    make_expr_typecast demo_sc true (Some demo_x) INT8OID = Ret casted
    /\ (exprType (Some demo_x) = Ret INT8OID \/ INT8OID = ANYOID ->
        casted = Some demo_x)
    /\ (INT8OID <> ANYOID -> exprType casted = Ret INT8OID)
    /\ (casted <> Some demo_x ->
          cast_argument casted = Some demo_x
          /\ exists cast source_type,
               exprType (Some demo_x) = Ret source_type
               /\ CASTSOURCETARGET demo_sc source_type INT8OID = Some cast
               /\ match casted with
                  | Some (T_RelabelType _ _ _ _ fmt) =>
                      castmethod cast = COERCION_METHOD_BINARY
                      /\ fmt = COERCE_IMPLICIT_CAST
                  | Some (T_FuncExpr funcid _ _ _ fmt _ _ _) =>
                      castmethod cast = COERCION_METHOD_FUNCTION
                      /\ funcid = castfunc cast /\ fmt = COERCE_IMPLICIT_CAST
                  | _ => False
                  end).
Proof.
  eexists. split; [vm_compute; reflexivity |].
  apply (typecast_gives_the_target_type demo_sc true (Some demo_x)).
  vm_compute. reflexivity.
Defined.

Lemma rewritten_sum_is_final_over_partial :
  exists altfn con' st',
    demo_make_alternative_aggref true (demo_con None) demo_sum_x demo_state
    = (Ret (Some altfn, con'), st')
    /\ exists (e : aggfunc_catalog_entry) (final : Aggref) (partfn_args : option Node),
         cached st' (aggfnoid demo_sum_x) = Some e
         /\ is_valid_entry e = true
         /\ altfn = T_Aggref final
         /\ aggfnoid final = final_func_oid e
         /\ exprType (Some altfn) = exprType (Some (T_Aggref demo_sum_x))
         /\ aggorder final = None /\ aggdistinct final = None /\ aggfilter final = None
         /\ args final
            = Some (T_List [Some (T_TargetEntry
                                    (Some (partial_call e demo_sum_x partfn_args))
                                    1 None 0 false)])
         /\ exprType (Some (partial_call e demo_sum_x partfn_args))
            = Ret (partial_func_rettype e)
         /\ list_member (exprs (target_partial con'))
                        (partial_call e demo_sum_x partfn_args) = true.
Proof.
  eexists _, _, _. split; [vm_compute; reflexivity |].
  eapply (rewritten_aggregate_is_final_over_partial demo_sc demo_get_type_name true
           demo_xpu_expression demo_add_function_cost (demo_con None) _ demo_sum_x _
           demo_state).
  vm_compute. reflexivity.
Defined.

Lemma partial_sum_arguments_fit_its_declaration :
  exists altfn con' st',
    demo_make_alternative_aggref true (demo_con None) demo_sum_x demo_state
    = (Ret (Some altfn, con'), st')
    /\ exists (e : aggfunc_catalog_entry) (proc : Form_pg_proc)
              (partfn_args : option Node) (call_args partfn_cells : list (option Node))
              (declared more : list Oid),
         cached st' (aggfnoid demo_sum_x) = Some e
         /\ PROCOID demo_sc (partial_func_oid e) = Some proc
         /\ list_member (exprs (target_partial con'))
                        (partial_call e demo_sum_x partfn_args) = true
         /\ list_cells (args demo_sum_x) = Ret call_args
         /\ list_cells partfn_args = Ret partfn_cells
         /\ proargtypes proc = (declared ++ more)%list
         /\ Forall2 argument_of call_args partfn_cells
         /\ Forall2 (fun arg dest => dest <> ANYOID -> exprType arg = Ret dest)
                    partfn_cells declared
         /\ Forall (fun arg => demo_xpu_expression arg (task_kind (demo_con None))
                                 (input_rels_tlist (demo_con None)) = true)
                   partfn_cells.
Proof.
  eexists _, _, _. split; [vm_compute; reflexivity |].
  eapply (partial_call_arguments_fit_its_declaration demo_sc demo_get_type_name true
           demo_xpu_expression demo_add_function_cost (demo_con None) _ demo_sum_x _
           demo_state).
  vm_compute. reflexivity.
Defined.

Lemma second_count_star_adds_no_column :
  exists altfn con1 st1,
    demo_make_alternative_aggref true (demo_con None) demo_count_star demo_state
    = (Ret (Some altfn, con1), st1)
    /\ exists con2,
         demo_make_alternative_aggref true con1 demo_count_star st1
         = (Ret (Some altfn, con2), st1)
         /\ target_partial con2 = target_partial con1
         /\ pp_info con2 = pp_info con1
         /\ target_final con2 = target_final con1.
Proof.
  eexists _, _, _. split; [vm_compute; reflexivity |].
  eapply (repeated_aggregate_adds_no_column demo_sc demo_get_type_name true
           demo_xpu_expression demo_add_function_cost (demo_con None) _
           demo_count_star _ demo_state).
  vm_compute. reflexivity.
Defined.

Lemma having_rewrite_changes_only_its_outputs :
  exists rewritten con' st',
    replace_expression_by_altfunc demo_sc demo_get_type_name true
      demo_xpu_expression demo_add_function_cost
      (demo_having demo_sum_x) (demo_con None) demo_state
    = (Ret (rewritten, con'), st')
    /\ rewriter_frame (demo_con None) con'
    /\ rewriter_step (demo_con None) con'
    /\ same_planner_state demo_state st'.
Proof.
  eexists _, _, _. split; [vm_compute; reflexivity |].
  eapply (rewriter_changes_only_its_outputs demo_sc demo_get_type_name true
           demo_xpu_expression demo_add_function_cost (demo_having demo_sum_x)
           (demo_con None) _ demo_state _ _).
  vm_compute. reflexivity.
Defined.

(** [k + 1 > 10] over the grouping key [k]. *)
Definition demo_key_expression : Node :=
  T_OpExpr 521%N 147%N BOOLOID false InvalidOid InvalidOid
    (Some (T_List
       [Some (T_OpExpr 551%N 177%N INT4OID false InvalidOid InvalidOid
                (Some (T_List [Some demo_k;
                               Some (T_Const INT4OID (-1) InvalidOid 1 false)])));
        Some (T_Const INT4OID (-1) InvalidOid 10 false)])).

Lemma key_expression_is_returned_unchanged :
  replace_expression_by_altfunc demo_sc demo_get_type_name true
    demo_xpu_expression demo_add_function_cost
    (Some demo_key_expression)
    (set_pp_info (set_groupby_keys [demo_k] demo_pp_info) (demo_con None)) demo_state
  = (Ret (Some demo_key_expression,
          set_pp_info (set_groupby_keys [demo_k] demo_pp_info) (demo_con None)),
     demo_state).
Proof.
  apply (rewriter_returns_key_expressions_unchanged demo_sc demo_get_type_name true
           demo_xpu_expression demo_add_function_cost).
  vm_compute. reflexivity.
Defined.

Lemma final_target_of_the_having_query :
  exists con' st',
    demo_build_path_target true (demo_con (demo_having demo_sum_x)) demo_state
    = (Ret (true, con'), st')
    /\ exists (finals : list Node) (refs : list Z),
         exprs (target_final con')
         = (exprs (target_final (demo_con (demo_having demo_sum_x))) ++ finals)%list
         /\ sortgrouprefs (target_final con')
            = (sortgrouprefs (target_final (demo_con (demo_having demo_sum_x)))
               ++ refs)%list
         /\ final_columns demo_xpu_expression demo_devtype_lookup demo_equal_func
              (demo_con (demo_having demo_sum_x)) 0
              (exprs (target_upper (demo_con (demo_having demo_sum_x)))) finals refs
         /\ length finals
            = length (exprs (target_upper (demo_con (demo_having demo_sum_x))))
         /\ Forall2 (fun upper final => exprType (Some final) = exprType (Some upper))
                    (exprs (target_upper (demo_con (demo_having demo_sum_x)))) finals
         /\ groupby_keys (pp_info con')
            = (groupby_keys (pp_info (demo_con (demo_having demo_sum_x)))
               ++ map fst (key_columns (demo_con (demo_having demo_sum_x)) 0
                             (exprs (target_upper
                                       (demo_con (demo_having demo_sum_x))))))%list.
Proof.
  eexists _, _. split; [vm_compute; reflexivity |].
  eapply (final_target_follows_the_upper_target demo_sc demo_get_type_name true
           demo_xpu_expression demo_devtype_lookup demo_equal_func
           demo_add_function_cost demo_pathtarget_cost_width
           (demo_con (demo_having demo_sum_x)) _ demo_state _).
  vm_compute. reflexivity.
Defined.

Lemma grouping_key_of_the_having_query_has_its_position :
  exists con' st',
    demo_build_path_target true (demo_con (demo_having demo_sum_x)) demo_state
    = (Ret (true, con'), st')
    /\ exists resnos : list Z,
         kvars_resno (pp_info con')
         = (kvars_resno (pp_info (demo_con (demo_having demo_sum_x))) ++ resnos)%list
         /\ kvars_depth (pp_info con')
            = (kvars_depth (pp_info (demo_con (demo_having demo_sum_x)))
               ++ repeat (-1)
                    (length (key_columns (demo_con (demo_having demo_sum_x)) 0
                               (exprs (target_upper
                                         (demo_con (demo_having demo_sum_x)))))))%list
         /\ groupby_keys (pp_info con')
            = map fst (key_columns (demo_con (demo_having demo_sum_x)) 0
                         (exprs (target_upper (demo_con (demo_having demo_sum_x)))))
         /\ Forall2 (key_sits_at con')
                    (key_columns (demo_con (demo_having demo_sum_x)) 0
                       (exprs (target_upper (demo_con (demo_having demo_sum_x)))))
                    resnos.
Proof.
  eexists _, _. split; [vm_compute; reflexivity |].
  eapply (grouping_keys_have_their_positions demo_sc demo_get_type_name true
           demo_xpu_expression demo_devtype_lookup demo_equal_func
           demo_add_function_cost demo_pathtarget_cost_width
           (demo_con (demo_having demo_sum_x)) _ demo_state _).
  - reflexivity.
  - reflexivity.
  - reflexivity.
  - vm_compute. reflexivity.
Defined.

Lemma parallel_attempt_makes_one_offer :
  exists o st',
    demo_add_custompath_for_input (demo_root None) (demo_input_path true) 2%N
      (mkGroupPathExtraData None) true 20%float demo_task_kind (Some 7%N) demo_state
    = (o, st')
    /\ (same_planner_state demo_state st'
        \/ exists (built con : xpugroupby_build_path_context float)
                  (st1 : pg_state float) (part_path : Path float),
             o = Ret tt
             /\ demo_build_path_target true
                  (attempt_context demo_extract_input_path_params (demo_root None)
                     (demo_input_path true) 2%N 20%float demo_task_kind (Some 7%N))
                  demo_state
                = (Ret (true, built), st1)
             /\ con = set_pp_info (set_pp_task_kind demo_task_kind (pp_info built))
                                  built
             /\ demo_prepend_partial_groupby_custompath con = Ret part_path
             /\ pathtarget part_path = target_partial con
             /\ input_path con = demo_input_path true
             /\ (true = true ->
                 parallel_aware part_path = true /\ 0 < parallel_workers part_path)
             /\ aggfunc_catalog_htable st' = aggfunc_catalog_htable st1
             /\ pgstrom_enable_numeric_aggfuncs st'
                = pgstrom_enable_numeric_aggfuncs demo_state
             /\ pathlist st'
                = <[2%N :=
                      (default [] (pathlist demo_state !! 2%N)
                       ++ [demo_create_agg_path (demo_root None) 2%N
                             (demo_create_gather_path (demo_root None) 2%N part_path
                                (target_partial con) None
                                (rows part_path
                                 * d_of_Z (parallel_workers part_path))%D)
                             (target_final con)
                             (if non_nil (groupClause (parse (demo_root None)))
                              then AGG_HASHED else AGG_PLAIN)
                             AGGSPLIT_SIMPLE (groupClause (parse (demo_root None)))
                             (con_havingQual con) (final_clause_costs con)
                             20%float])%list]> (pathlist demo_state)).
Proof.
  eexists _, _. split; [vm_compute; reflexivity |].
  eapply (attempt_makes_at_most_one_offer demo_sc demo_get_type_name true
            demo_xpu_expression demo_devtype_lookup demo_equal_func
            demo_add_function_cost demo_pathtarget_cost_width
            3 1 2
            0.0001220703125%float 0.0078125%float 0.0625%float
            0.00048828125%float 0.015625%float 0.25%float
            demo_create_agg_path demo_create_gather_path
            (fun _ _ _ numGroups => (64 * numGroups)%float)
            4096
            (fun paths new_path => (paths ++ [new_path])%list)
            demo_extract_input_path_params
            (demo_root None) (demo_input_path true) 2%N (mkGroupPathExtraData None)
            true 20%float demo_task_kind (Some 7%N) demo_state).
  vm_compute. reflexivity.
Defined.

Lemma count_query_offers_to_the_grouping_relation_only :
  exists o st',
    demo_add_custompath (demo_root None) 1%N 2%N (mkGroupPathExtraData None)
                        demo_task_kind (Some 7%N) demo_state
    = (o, st')
    /\ offers_to 2%N demo_state st'
    /\ ((forall parallel : bool, Some (demo_input_path parallel) = None) ->
        o = Ret tt /\ st' = demo_state).
Proof.
  eexists _, _. split; [vm_compute; reflexivity |].
  eapply (entry_point_offers_to_the_grouping_relation_only demo_sc
            demo_get_type_name true
            demo_xpu_expression demo_devtype_lookup demo_equal_func
            demo_add_function_cost demo_pathtarget_cost_width
            3 1 2
            0.0001220703125%float 0.0078125%float 0.0625%float
            0.00048828125%float 0.015625%float 0.25%float
            demo_create_agg_path demo_create_gather_path
            (fun _ _ _ numGroups => (64 * numGroups)%float)
            4096
            (fun paths new_path => (paths ++ [new_path])%list)
            demo_extract_input_path_params
            (fun _ => true)
            (fun _ _ parallel _ _ _ => Some (demo_input_path parallel))
            (fun _ _ _ _ => None)
            (fun _ _ => [demo_k])
            (fun _ _ _ => 20%float)
            (demo_root None) 1%N 2%N (mkGroupPathExtraData None)
            demo_task_kind (Some 7%N) demo_state).
  vm_compute. reflexivity.
Defined.

(** A hook installed before GPU-PreAgg: it offers the scan path to relation
    5 at every stage. *)
Definition demo_next_hook (root : PlannerInfo float) (stage : UpperRelationKind)
  (input_rel group_rel : RelOptInfo) (extra : GroupPathExtraData) : M float unit :=
  add_path (D := float) (fun paths new_path => (paths ++ [new_path])%list)
           5%N (demo_input_path false).

Definition demo_hook (enabled : bool) :=
  gpupreagg_add_custompath (D := float) demo_sc demo_get_type_name true
    demo_xpu_expression demo_devtype_lookup demo_equal_func
    demo_add_function_cost demo_pathtarget_cost_width
    3 1 2
    0.0001220703125%float 0.0078125%float 0.0625%float
    0.00048828125%float 0.015625%float 0.25%float
    demo_create_agg_path demo_create_gather_path
    (fun _ _ _ numGroups => (64 * numGroups)%float)
    4096
    (fun paths new_path => (paths ++ [new_path])%list)
    demo_extract_input_path_params
    (fun _ => true)
    (fun _ _ parallel _ _ _ => Some (demo_input_path parallel))
    (fun _ _ _ _ => None)
    (fun _ _ => [demo_k])
    (fun _ _ _ => 20%float)
    (Some demo_next_hook) true enabled demo_task_kind (Some 7%N).

Lemma hook_of_the_count_query_adds_to_the_earlier_hook :
  exists o st',
    demo_hook true (demo_root None) UPPERREL_GROUP_AGG 1%N 2%N
              (mkGroupPathExtraData None) demo_state
    = (o, st')
    /\ exists o1 st1,
         run_next_hook (Some demo_next_hook) (demo_root None) UPPERREL_GROUP_AGG
                       1%N 2%N (mkGroupPathExtraData None) demo_state
         = (o1, st1)
         /\ offers_to 2%N st1 st'
         /\ (o1 <> Ret tt -> o = o1 /\ st' = st1)
         /\ (UPPERREL_GROUP_AGG <> UPPERREL_GROUP_AGG
             \/ true = false
             \/ true = false
             \/ non_null (groupingSets (parse (demo_root None))) = true
             \/ grouping_is_hashable (groupClause (parse (demo_root None))) = false ->
             o = o1 /\ st' = st1).
Proof.
  eexists _, _. split; [vm_compute; reflexivity |].
  eapply (hook_adds_to_the_earlier_hook demo_sc demo_get_type_name true
            demo_xpu_expression demo_devtype_lookup demo_equal_func
            demo_add_function_cost demo_pathtarget_cost_width
            3 1 2
            0.0001220703125%float 0.0078125%float 0.0625%float
            0.00048828125%float 0.015625%float 0.25%float
            demo_create_agg_path demo_create_gather_path
            (fun _ _ _ numGroups => (64 * numGroups)%float)
            4096
            (fun paths new_path => (paths ++ [new_path])%list)
            demo_extract_input_path_params
            (fun _ => true)
            (fun _ _ parallel _ _ _ => Some (demo_input_path parallel))
            (fun _ _ _ _ => None)
            (fun _ _ => [demo_k])
            (fun _ _ _ => 20%float)
            (Some demo_next_hook) true true demo_task_kind (Some 7%N)
            (demo_root None) UPPERREL_GROUP_AGG 1%N 2%N (mkGroupPathExtraData None)
            demo_state).
  vm_compute. reflexivity.
Defined.

